(* ===== verification/_CoqProject ===== *)
-Q . S2P
Prelude.v
Storekey.v
KeyLayout.v
IndexEncoding.v
Operations.v
ChangesMade.v
Values.v
Snapshot.v
Catalog.v
Store.v
Inline.v
IndexMaintenance.v
Fold.v
Diff.v
Materialize.v
Projection.v
Landing.v
Verbs.v
VerbLaws.v
VerbCalls.v
Commit.v
Cycle.v
Group.v
Migration.v
Opening.v
