(* ===== verification/Prelude.v ===== *)
(** * A verification of the moraine catalog

    Moraine keeps a DuckLake catalog (schemas, tables, columns, data files, statistics,
    indexes, tags, options, inlined rows) in one key-value store, SlateDB over object
    storage.  This library models the crate [crates/moraine] under [src/] and proves
    what makes a commit, a read and a cached view correct.  Paths below are relative to
    [crates/moraine/src].

    ** The program and how its parts interact

    A record lives under a typed key: [store/key.rs] lays the keys out, through the
    order-preserving codec crate [storekey], so that one prefix scan finds one kind of
    record.  Values are protobuf messages behind a framing header ([store/frame.rs],
    [store/value.rs]).  [store/read.rs] turns point reads and scans into typed records.
    [catalog/snapshot.rs] builds from them the catalog view every read and every
    transaction works on.  A caller changes the catalog with a closure over a
    [Transaction] ([transaction/verbs.rs]).  A commit ([transaction/commit.rs]) runs the
    closure on the view of the head it read, diffs the view it leaves against the one it
    found ([commit/diff.rs]), stages the index entries ([index_maintenance.rs]) and the
    inlined rows ([transaction/inline.rs]) the closure owes, and writes one batch that
    always rewrites the head record: of two racing batches one loses.  The loser
    classifies what landed in between ([operations.rs]) and retries or reports a
    conflict.  Concurrent callers of one handle meet in one batch ([commit/group.rs]).
    A landed batch is folded into the cached head view ([commit/fold.rs]) and into the
    maintained projections ([catalog/projection.rs]) that later reads are served from;
    a view left behind is refreshed from the changelog.

    ** Files

    - [Prelude]: the error type of [error.rs] and the result monad, machine integers
      (64-bit values as [N] with wrapping, saturating and checked operations), byte
      strings and their order, ordered iteration over maps, tactics and hints.
    - [Storekey]: the codec crate as a class with its byte format as laws, and a
      reference codec that meets them.
    - [KeyLayout]: [store/key.rs], [store/segment.rs].
    - [IndexEncoding]: [store/index_encoding.rs].
    - [Operations], [ChangesMade]: [transaction/operations.rs]; the conflict relation,
      and the text grammar of [changes_made].
    - [Values]: [proto/moraine.proto], [store/frame.rs], [store/value.rs]; the generated
      protobuf codec is the class [Messages].
    - [Snapshot], [Catalog]: [catalog/snapshot.rs], [catalog/types.rs]; the view, its
      updates, and its accessors.
    - [Store]: [store/read.rs], [store/handle.rs]; SlateDB is the class [KV], a typed
      read is a tree of point reads and scans ([Reader]).
    - [Inline]: [store/inline.rs], [catalog/inline.rs], [transaction/inline.rs] and the
      write builders of [transaction/staged/inline.rs].
    - [IndexMaintenance]: [transaction/index_maintenance.rs].
    - [Fold], [Diff]: [commit/fold.rs], [commit/diff.rs].
    - [Materialize]: the read side of [transaction/commit.rs] (format gate, bootstrap,
      read resolution, materialization, changelog, refresh).
    - [Projection]: [catalog/projection.rs].
    - [Landing]: staging onto a store transaction, the durable write, and what a landed
      batch does to the caches ([commit_durable], [commit_batch], [head_view_for]); the
      writer handle of SlateDB is the class [Database].
    - [Verbs]: every verb of [transaction/verbs.rs], with the policies of
      [catalog/index_policy.rs] and [catalog/inline_policy.rs]; [VerbLaws]: a
      weakest-precondition calculus for the verb monad and what each verb keeps;
      [VerbCalls]: any sequence of calls.
    - [Commit]: [prepare_and_stage], the batch, the attempt and the retry loop; [Cycle]:
      what they amount to, composed.
    - [Group]: the rendezvous of [commit/group.rs], as a step relation.
    - [Migration]: [transaction/migration.rs] with the crash seams of [fault.rs] and the
      units of [transaction/migration/synthetic.rs].
    - [Opening]: [open_initialized] and [open_reader_initialized] of
      [transaction/commit.rs].

    A Rust [BTreeMap] or [HashMap] is a [gmap], read out in key order where the code
    iterates; a mutating method is a function from the old state to the new one; an error
    is a value of [result]; a verb keeps the state of a failed call, as the code does.
    Error texts are dropped, their kind is kept.  Clocks, fresh uuids and the package
    version are arguments.

    ** What the theorems show

    - Commits: a commit that returns ids has run its closures one after another from the
      state the last attempt found and landed, with nothing in between; the attempts
      before, and all of a commit that returns an error, left nothing of its own but where
      a write that reported failure had landed ([commit_lands_once]).  What one member
      stages, branch by branch and record by record ([prepare_stages_exactly]); the diff
      lands exactly the staged catalog, and takes nothing from the past
      ([diff_lands_state], [commit_preserves_the_past]); the time a losing commit waits
      ([retry_budget_bounded]).
    - Opening and migration: a catalog is created once, whatever other openers do
      and whichever writes fail ([open_initializes_once]); a migration interrupted anywhere resumes to the very
      store an uninterrupted one leaves, and readers are refused in between
      ([migration_resumes_exactly]).
    - Concurrency: no caller of a group commit waits forever, whatever callers, errors
      and interrupts interleave ([every_caller_answered]); a stable read pass saw one
      state ([consistent_single_state]); the conflict relation is the documented matrix
      ([conflicts_matrix], [conflicts_symmetric_monotone]); the text form of a change set
      loses only what its grammar has no words for ([changes_made_roundtrip]).
    - Caches: what the projections and the head view serve is what a scan would return
      ([served_reads_exact]); folding a batch equals rescanning ([fold_equals_rescan]); a
      refreshed view holds what the store holds ([refresh_exact], [changelog_window]).
    - Verbs: any sequence of calls leaves a sound view ([verbs_keep_catalog_sound]); row
      ids are handed out once ([row_ids_never_reused]); dropping a column ends and takes
      exactly its subtree ([drop_column_exact]).
    - Indexes: uniqueness is enforced exactly ([unique_entries_enforced]), the reads
      return exactly the rows in range and in order ([index_reads_exact]), and the
      encoded order is the declared order of the values ([index_key_order],
      [index_key_refusal], [nominal_size_brackets]).
    - Inlined rows: acceptance, flush and drop ([stage_inline_exact],
      [inline_flush_exact], [inline_drop_clears]).
    - Views: what a view built or materialized at a snapshot holds, its names and its
      orders ([time_travel_exact], [materialize_exact], [bootstrap_opens],
      [names_resolve_at], [name_indexes_coherent], [build_names_coherent],
      [columns_of_ordered]).
    - Keys and values: round trips, order, exact prefixes and bounds ([key_roundtrip],
      [key_order_preserved], [subspace_prefix_exact], [table_prefix_exact],
      [index_value_range], [unframe_exact]).

    Some theorems show where the code departs from what it documents:
    [fold_drops_reused_name], [second_schema_dropped], [updated_row_shown_twice],
    [flush_revives_row], [stale_install_served], [macro_name_shadowed],
    [ambiguous_write_applied_twice], [untargeted_delete_forgotten].  The theorems on the
    same code say what holds there or state the condition that excludes the case:
    [served_reads_exact] takes a projection to be installed while the head it was read at
    still stands, and a write that reports failure not to have landed;
    [commit_lands_once] and [open_initializes_once] say what such a write leaves;
    [inline_flush_exact] says which tombstones go; [stage_inline_exact] takes a commit to
    name one schema for each version; [verbs_keep_catalog_sound] takes no macro to reuse
    the name of a macro of the other kind; [every_caller_answered] takes a caller that
    vanishes to be dropped inside a runtime where it has a batch to rescue;
    [fold_equals_rescan] compares records, not name indexes.

    ** Bounds and fuel

    Recursion is structural but in five places.  [column_subtree] runs its worklist with
    one round per column of the table and one for the root, and [drop_column_exact]
    proves it enough on any forest of columns; [gap_keys] reads as many changelogs as the
    gap has snapshots; a decimal number is rendered with twenty digits, which is every
    64-bit value ([digits_rev_value]); [chain_from] follows at most as many units as the
    registry has, enough for any ascending one ([chain_from_ends]); and [step_loop] runs
    a walk whose length is the unit's affair, so [migration_resumes_exactly] holds for
    every fuel and finds one that is enough whenever some run ended.

    The loops the code bounds keep its bounds: ten commit attempts, three genesis
    attempts, eight stable-read attempts, 64 members to a batch, 1024 uniqueness probes
    to a group.  Arithmetic on ids wraps at 64 bits as release builds
    do; where a theorem needs room for the next id it says so.

    ** Not modelled

    SlateDB, the [storekey] and [prost] crates are parameters with laws; each law has an
    instance that is proved to meet it, and every theorem that assumes one is applied to
    that instance.  The steps of a migration unit are a parameter too.  Left out: the
    staged transactions that carry DuckLake's own row statements ([staged.rs],
    [staged/apply.rs], [staged/overlay.rs], [staged/decode.rs]), the asynchronous handle
    and scoped reads ([catalog/handle.rs], [catalog/scoped_read.rs]) and the row dumps of
    [ffi_support.rs].  Configuration of the store, object-store I/O, tracing, metrics, the C
    interface of [crates/moraine-duckdb] and the build tooling have no logic of the
    catalog's own. *)
From stdpp Require Import gmap strings list fin_maps sorting.
From Stdlib Require Import Strings.Byte.
From Stdlib Require Import NArith ZArith Lia.

(** ** Automation databases of the development *)
Create HintDb moraine.
Create Rewrite HintDb moraine.

Declare Scope moraine_scope.
Delimit Scope moraine_scope with moraine.

Local Open Scope N_scope.

(** ** Errors and the result monad

    [Error] mirrors the failure domains of [error.rs]; the diagnostic text a
    variant carries is not modelled. *)
Inductive Error : Type :=
| CommitConflict
| RetryBudgetExhausted
| Corruption
| NotFound
| AlreadyExists
| Constraint
| Unsupported
| SnapshotExpired
| Interrupted
| Migration
| IndexBuilding
| Configuration
| Fenced
| OpenRaced
| Store.

#[export] Instance Error_eq_dec : EqDecision Error.
Proof. solve_decision. Defined.

Inductive result (A : Type) : Type :=
| Ok (a : A)
| Err (e : Error).
Arguments Ok {A} a.
Arguments Err {A} e.

#[export] Instance result_eq_dec `{EqDecision A} : EqDecision (result A).
Proof. solve_decision. Defined.

#[export] Instance result_ret : MRet result := fun A a => Ok a.
#[export] Instance Ok_inj {A} : Inj (=) (=) (@Ok A).
Proof. intros a b E. by injection E. Qed.

#[export] Instance result_bind : MBind result := fun A B f m =>
  match m with Ok a => f a | Err e => Err e end.
#[export] Instance result_fmap : FMap result := fun A B f m =>
  match m with Ok a => Ok (f a) | Err e => Err e end.

(** [ok_or_else]: an absent value becomes the given error. *)
Definition ok_or {A} (e : Error) (o : option A) : result A :=
  match o with Some a => Ok a | None => Err e end.

(** [if c { return Err(e) }]. *)
Definition fail_if (c : bool) (e : Error) : result unit :=
  if c then Err e else Ok tt.

Lemma bind_Ok {A B} (f : A -> result B) m b :
  (m ≫= f) = Ok b <-> exists a, m = Ok a /\ f a = Ok b.
Proof. destruct m; split; [eauto | by intros (? & [= ->] & ?) | done | by intros (? & ? & ?)]. Qed.

Lemma bind_Err {A B} (f : A -> result B) m e :
  (m ≫= f) = Err e <-> m = Err e \/ exists a, m = Ok a /\ f a = Err e.
Proof. destruct m; naive_solver. Qed.

Lemma fail_if_Ok c e u : fail_if c e = Ok u <-> c = false.
Proof. destruct c, u; naive_solver. Qed.

Lemma ok_or_Ok {A} e (o : option A) a : ok_or e o = Ok a <-> o = Some a.
Proof. destruct o; naive_solver. Qed.

(** Unfold one run of the result monad in the context. *)
Ltac result_inv :=
  repeat match goal with
  | H : (_ ≫= _) = Ok _ |- _ => apply bind_Ok in H as (? & ? & H)
  | H : fail_if _ _ = Ok _ |- _ => apply fail_if_Ok in H
  | H : ok_or _ _ = Ok _ |- _ => apply ok_or_Ok in H
  | H : Ok _ = Ok _ |- _ => injection H as H
  | H : mret _ = Ok _ |- _ => unfold mret, result_ret in H
  | H : Err _ = Ok _ |- _ => discriminate H
  | u : unit |- _ => destruct u
  end.

(** ** Machine integers *)

(** [u64::MAX + 1]. *)
Definition u64_size : N := 2 ^ 64.
Definition u64_max : N := u64_size - 1.
Definition u64 (n : N) : Prop := n < u64_size.
Definition is_u64 (n : N) : bool := n <? u64_size.

#[export] Instance u64_dec n : Decision (u64 n).
Proof. unfold u64. apply _. Defined.

(** [u64] addition as a release build performs it. *)
Definition wrapping_add (a b : N) : N := (a + b) mod u64_size.
Lemma wrapping_add_u64 a b : u64 (wrapping_add a b).
Proof. unfold wrapping_add, u64. apply N.mod_lt. done. Qed.
Lemma wrapping_add_exact a b : u64 (a + b) -> wrapping_add a b = a + b.
Proof. unfold wrapping_add. apply N.mod_small. Qed.

(** [saturating_add], [saturating_sub], [checked_sub], [checked_add] on [u64]. *)
Definition saturating_add (a b : N) : N := N.min (a + b) u64_max.
Definition saturating_sub (a b : N) : N := a - b.
Definition saturating_mul (a b : N) : N := N.min (a * b) u64_max.
Definition checked_sub (a b : N) : option N := if b <=? a then Some (a - b) else None.
Definition checked_add (a b : N) : option N :=
  if a + b <? u64_size then Some (a + b) else None.

Lemma saturating_add_u64 a b : u64 (saturating_add a b).
Proof. unfold u64, saturating_add, u64_max, u64_size. lia. Qed.

Lemma saturating_add_exact a b : u64 (a + b) -> saturating_add a b = a + b.
Proof. unfold u64, saturating_add, u64_max, u64_size. lia. Qed.

#[export] Hint Resolve saturating_add_u64 : moraine.

(** ** Bytes *)
Abbreviation bytes := (list byte).

#[export] Instance byte_eq_dec : EqDecision byte := Byte.byte_eq_dec.
#[export] Instance byte_countable : Countable byte.
Proof. apply (inj_countable Byte.to_N Byte.of_N). apply Byte.of_to_N. Defined.

(** Truncating conversion, [n as u8]. *)
Definition u8 (n : N) : byte := default x00 (Byte.of_N (n mod 256)).

(** [!b] on [u8]. *)
Definition byte_not (b : byte) : byte := u8 (255 - Byte.to_N b).

Lemma to_N_lt b : Byte.to_N b < 256.
Proof. pose proof (Byte.to_N_bounded b). lia. Qed.

Lemma to_N_u8 n : Byte.to_N (u8 n) = n mod 256.
Proof.
  unfold u8. pose proof (N.mod_lt n 256).
  destruct (Byte.of_N (n mod 256)) as [b|] eqn:E; simpl.
  - by apply Byte.to_of_N.
  - apply Byte.of_N_None_iff in E. lia.
Qed.

Lemma to_N_inj a b : Byte.to_N a = Byte.to_N b -> a = b.
Proof.
  intros H. pose proof (Byte.of_to_N a) as Ha. rewrite H, Byte.of_to_N in Ha. congruence.
Qed.

Lemma u8_to_N b : u8 (Byte.to_N b) = b.
Proof. apply to_N_inj. rewrite to_N_u8. apply N.mod_small, to_N_lt. Qed.

Lemma to_N_byte_not b : Byte.to_N (byte_not b) = 255 - Byte.to_N b.
Proof.
  unfold byte_not. rewrite to_N_u8. apply N.mod_small. pose proof (to_N_lt b). lia.
Qed.

Lemma byte_not_involutive b : byte_not (byte_not b) = b.
Proof. apply to_N_inj. rewrite !to_N_byte_not. pose proof (to_N_lt b). lia. Qed.

(** ** Comparisons, composed lexicographically *)

(** [Ordering::then]. *)
Definition thenc (c d : comparison) : comparison :=
  match c with Eq => d | _ => c end.
Notation "c ⨟ d" := (thenc c d) (at level 62, right associativity) : moraine_scope.
Local Open Scope moraine_scope.

Definition byte_compare (a b : byte) : comparison := (Byte.to_N a ?= Byte.to_N b)%N.

Fixpoint list_compare {A} (cmp : A -> A -> comparison) (l k : list A) : comparison :=
  match l, k with
  | [], [] => Eq
  | [], _ :: _ => Lt
  | _ :: _, [] => Gt
  | x :: l', y :: k' => cmp x y ⨟ list_compare cmp l' k'
  end.

(** The order of [Vec<u8>] and of the store's keys. *)
Definition bytes_compare : bytes -> bytes -> comparison := list_compare byte_compare.
Definition bytes_lt (a b : bytes) : Prop := bytes_compare a b = Lt.
Definition bytes_le (a b : bytes) : Prop := bytes_compare a b <> Gt.
Definition bytes_leb (a b : bytes) : bool :=
  match bytes_compare a b with Gt => false | _ => true end.

#[export] Instance bytes_le_dec a b : Decision (bytes_le a b).
Proof. unfold bytes_le. apply _. Defined.

Lemma thenc_assoc a b c : ((a ⨟ b) ⨟ c) = (a ⨟ b ⨟ c).
Proof. by destruct a. Qed.

Lemma thenc_CompOpp a b : CompOpp (a ⨟ b) = (CompOpp a ⨟ CompOpp b).
Proof. by destruct a. Qed.

Lemma thenc_Eq_r c : (c ⨟ Eq) = c.
Proof. by destruct c. Qed.

#[export] Hint Rewrite thenc_assoc thenc_Eq_r : moraine.

Lemma byte_compare_refl a : byte_compare a a = Eq.
Proof. apply N.compare_refl. Qed.

Lemma byte_compare_eq a b : byte_compare a b = Eq -> a = b.
Proof. intros H%N.compare_eq_iff. by apply to_N_inj. Qed.

Lemma byte_compare_antisym a b : byte_compare b a = CompOpp (byte_compare a b).
Proof. apply N.compare_antisym. Qed.

Lemma byte_compare_not a b : byte_compare (byte_not a) (byte_not b) = byte_compare b a.
Proof.
  unfold byte_compare. rewrite !to_N_byte_not.
  pose proof (to_N_lt a). pose proof (to_N_lt b).
  destruct (N.compare_spec (255 - Byte.to_N a) (255 - Byte.to_N b)),
    (N.compare_spec (Byte.to_N b) (Byte.to_N a)); lia || done.
Qed.

Section ListCompare.
Context {A : Type} (cmp : A -> A -> comparison).
Hypothesis cmp_refl : forall a, cmp a a = Eq.
Hypothesis cmp_eq : forall a b, cmp a b = Eq -> a = b.
Hypothesis cmp_antisym : forall a b, cmp b a = CompOpp (cmp a b).

Lemma list_compare_refl l : list_compare cmp l l = Eq.
Proof. induction l as [|x l IH]; simpl; [done|]. by rewrite cmp_refl. Qed.

Lemma list_compare_eq l k : list_compare cmp l k = Eq -> l = k.
Proof.
  revert k; induction l as [|x l IH]; intros [|y k]; simpl; try done.
  destruct (cmp x y) eqn:E; simpl; try done. intros ?. f_equal; auto.
Qed.

Lemma list_compare_antisym l k : list_compare cmp k l = CompOpp (list_compare cmp l k).
Proof.
  revert k; induction l as [|x l IH]; intros [|y k]; simpl; try done.
  by rewrite cmp_antisym, IH, thenc_CompOpp.
Qed.

Lemma list_compare_app_same p l k :
  list_compare cmp (p ++ l) (p ++ k) = list_compare cmp l k.
Proof. induction p as [|x p IH]; simpl; [done|]. by rewrite cmp_refl. Qed.

Lemma list_compare_app l1 k1 l2 k2 :
  length l1 = length k1 ->
  list_compare cmp (l1 ++ l2) (k1 ++ k2)
  = (list_compare cmp l1 k1 ⨟ list_compare cmp l2 k2).
Proof.
  revert k1; induction l1 as [|x l1 IH]; intros [|y k1]; simpl; try done.
  intros [= H]. by rewrite IH, thenc_assoc.
Qed.
End ListCompare.

Lemma bytes_compare_refl l : bytes_compare l l = Eq.
Proof. apply list_compare_refl, byte_compare_refl. Qed.
Lemma bytes_compare_eq l k : bytes_compare l k = Eq -> l = k.
Proof. apply list_compare_eq, byte_compare_eq. Qed.
Lemma bytes_compare_antisym l k : bytes_compare k l = CompOpp (bytes_compare l k).
Proof. apply list_compare_antisym, byte_compare_antisym. Qed.
Lemma bytes_compare_app_same p l k : bytes_compare (p ++ l) (p ++ k) = bytes_compare l k.
Proof. apply list_compare_app_same, byte_compare_refl. Qed.
Lemma bytes_compare_app l1 k1 l2 k2 :
  length l1 = length k1 ->
  bytes_compare (l1 ++ l2) (k1 ++ k2) = (bytes_compare l1 k1 ⨟ bytes_compare l2 k2).
Proof. apply list_compare_app. Qed.
Lemma bytes_compare_cons a b l k :
  bytes_compare (a :: l) (b :: k) = (byte_compare a b ⨟ bytes_compare l k).
Proof. done. Qed.

#[export] Hint Rewrite bytes_compare_refl bytes_compare_app_same byte_compare_refl : moraine.

(** ** Big-endian words ([to_be_bytes] / [from_be_bytes]) *)

Fixpoint be_bytes (w : nat) (n : N) : bytes :=
  match w with
  | O => []
  | S w' => u8 (n / 256 ^ N.of_nat w') :: be_bytes w' (n mod 256 ^ N.of_nat w')
  end.

Fixpoint be_value (l : bytes) : N :=
  match l with
  | [] => 0
  | b :: l' => Byte.to_N b * 256 ^ N.of_nat (length l') + be_value l'
  end.

Lemma length_be_bytes w n : length (be_bytes w n) = w.
Proof. revert n; induction w; intros n; simpl; auto. Qed.

Lemma pow256_pos w : 0 < 256 ^ N.of_nat w.
Proof. apply N.neq_0_lt_0, N.pow_nonzero. lia. Qed.

Lemma pow256_succ w : 256 ^ N.of_nat (S w) = 256 * 256 ^ N.of_nat w.
Proof. rewrite Nat2N.inj_succ, N.pow_succ_r by lia. done. Qed.

Lemma be_div_small w n : n < 256 ^ N.of_nat (S w) -> n / 256 ^ N.of_nat w < 256.
Proof.
  rewrite pow256_succ. pose proof (pow256_pos w). intros.
  apply N.Div0.div_lt_upper_bound; lia.
Qed.

Lemma be_value_bytes w n : n < 256 ^ N.of_nat w -> be_value (be_bytes w n) = n.
Proof.
  revert n; induction w as [|w IH]; intros n Hn; cbn [be_bytes be_value].
  - change (256 ^ N.of_nat 0) with 1 in Hn. lia.
  - pose proof (be_div_small _ _ Hn). pose proof (pow256_pos w).
    rewrite to_N_u8, N.mod_small, length_be_bytes by done.
    rewrite IH by (apply N.mod_lt; lia).
    pose proof (N.div_mod n (256 ^ N.of_nat w)). lia.
Qed.

Lemma be_bytes_inj w n m :
  n < 256 ^ N.of_nat w -> m < 256 ^ N.of_nat w -> be_bytes w n = be_bytes w m -> n = m.
Proof. intros Hn Hm H. by rewrite <-(be_value_bytes w n), <-(be_value_bytes w m), H. Qed.

(** Big-endian bytes compare as the numbers do. *)
Lemma be_bytes_compare w n m :
  n < 256 ^ N.of_nat w -> m < 256 ^ N.of_nat w ->
  bytes_compare (be_bytes w n) (be_bytes w m) = (n ?= m)%N.
Proof.
  revert n m; induction w as [|w IH]; intros n m Hn Hm; cbn [be_bytes].
  - change (256 ^ N.of_nat 0) with 1 in *. by replace n with 0 by lia; replace m with 0 by lia.
  - pose proof (be_div_small _ _ Hn). pose proof (be_div_small _ _ Hm).
    pose proof (pow256_pos w).
    rewrite bytes_compare_cons, IH by (apply N.mod_lt; lia).
    unfold byte_compare. rewrite !to_N_u8, !N.mod_small by done.
    pose proof (N.div_mod n (256 ^ N.of_nat w)) as En.
    pose proof (N.div_mod m (256 ^ N.of_nat w)) as Em.
    pose proof (N.mod_lt n (256 ^ N.of_nat w)). pose proof (N.mod_lt m (256 ^ N.of_nat w)).
    set (qn := n / 256 ^ N.of_nat w) in *. set (rn := n mod 256 ^ N.of_nat w) in *.
    set (qm := m / 256 ^ N.of_nat w) in *. set (rm := m mod 256 ^ N.of_nat w) in *.
    set (P := 256 ^ N.of_nat w) in *. clearbody qn rn qm rm P.
    destruct (N.compare_spec qn qm); simpl; symmetry.
    + destruct (N.compare_spec rn rm);
        [apply N.compare_eq_iff | apply N.compare_lt_iff | apply N.compare_gt_iff]; nia.
    + apply N.compare_lt_iff. nia.
    + apply N.compare_gt_iff. nia.
Qed.

Lemma bytes_le_lt a b : bytes_le a b <-> bytes_lt a b \/ a = b.
Proof.
  unfold bytes_le, bytes_lt. split.
  - destruct (bytes_compare a b) eqn:E; try tauto. right. by apply bytes_compare_eq.
  - intros [->| ->]; [done|]. by rewrite bytes_compare_refl.
Qed.

Lemma bytes_le_total a b : bytes_le a b \/ bytes_le b a.
Proof.
  unfold bytes_le. rewrite (bytes_compare_antisym a b). destruct (bytes_compare a b); simpl; naive_solver.
Qed.

Lemma bytes_le_trans a b c : bytes_le a b -> bytes_le b c -> bytes_le a c.
Proof.
  revert b c. induction a as [|x a IH]; intros [|y b] [|z c]; try done.
  unfold bytes_le in *. rewrite !bytes_compare_cons. unfold thenc, byte_compare.
  destruct (N.compare_spec (Byte.to_N x) (Byte.to_N y)),
    (N.compare_spec (Byte.to_N y) (Byte.to_N z)), (N.compare_spec (Byte.to_N x) (Byte.to_N z));
    try done; try lia. apply IH.
Qed.

(** ** Ordered containers

    A [BTreeMap] or [BTreeSet] is a [gmap] or [gset]; what its iteration order
    adds is the list of its keys in order. *)

(** A [BTreeSet]'s elements, in its key order. *)
Definition in_order {A} `{Countable A} (R : relation A) `{!RelDecision R} (s : gset A) : list A :=
  merge_sort R (elements s).

Lemma elem_of_in_order {A} `{Countable A} (R : relation A) `{!RelDecision R} (s : gset A) x :
  x ∈ in_order R s <-> x ∈ s.
Proof. unfold in_order. by rewrite merge_sort_Permutation, elem_of_elements. Qed.

Lemma NoDup_in_order {A} `{Countable A} (R : relation A) `{!RelDecision R} (s : gset A) :
  NoDup (in_order R s).
Proof. unfold in_order. rewrite merge_sort_Permutation. apply NoDup_elements. Qed.

Lemma list_to_set_in_order {A} `{Countable A} (R : relation A) `{!RelDecision R} (s : gset A) :
  list_to_set (in_order R s) = s.
Proof. apply set_eq. intros x. by rewrite elem_of_list_to_set, elem_of_in_order. Qed.

(** The derived order of a pair of ids. *)
Definition pair_N_le (a b : N * N) : Prop := a.1 < b.1 \/ a.1 = b.1 /\ a.2 <= b.2.
#[export] Instance pair_N_le_dec : RelDecision pair_N_le.
Proof. intros a b. unfold pair_N_le. apply _. Defined.

(** Order of the keys a map can be iterated in. *)
Class KeyOrder (K : Type) : Type := {
  key_le : relation K;
  key_le_dec :: RelDecision key_le;
}.
#[export] Instance N_key_order : KeyOrder N := {| key_le := N.le |}.
#[export] Instance pair_key_order : KeyOrder (N * N) := {| key_le := pair_N_le |}.

(** [BTreeMap::keys], [BTreeMap::values]. *)
Definition btree_keys {K} `{Countable K, !KeyOrder K} {V} (m : gmap K V) : list K :=
  in_order key_le (dom m).
Definition btree_values {K} `{Countable K, !KeyOrder K} {V} (m : gmap K V) : list V :=
  omap (fun k => m !! k) (btree_keys m).

(** [base.keys().chain(state.keys()).collect::<BTreeSet<_>>()]. *)
Definition union_keys {K} `{Countable K, !KeyOrder K} {V} (a b : gmap K V) : list K :=
  in_order key_le (dom a ∪ dom b).

Lemma elem_of_btree_keys {K} `{Countable K, !KeyOrder K} {V} (m : gmap K V) k :
  k ∈ btree_keys m <-> is_Some (m !! k).
Proof. unfold btree_keys. by rewrite elem_of_in_order, elem_of_dom. Qed.

Lemma elem_of_btree_values {K} `{Countable K, !KeyOrder K} {V} (m : gmap K V) v :
  v ∈ btree_values m <-> exists k, m !! k = Some v.
Proof.
  unfold btree_values. rewrite list_elem_of_omap. setoid_rewrite elem_of_btree_keys.
  split; [intros (k & _ & ?); eauto|intros [k Hk]; exists k; split; eauto].
Qed.

Lemma btree_values_perm {K} `{Countable K, !KeyOrder K} {V} (m : gmap K V) :
  btree_values m ≡ₚ (map_to_list m).*2.
Proof.
  unfold btree_values. assert (Hk : btree_keys m ≡ₚ (map_to_list m).*1).
  { apply NoDup_Permutation; [apply NoDup_in_order|apply NoDup_fst_map_to_list|]. intros k.
    rewrite elem_of_btree_keys, list_elem_of_fmap. split.
    - intros [v Hv]. exists (k, v). by rewrite elem_of_map_to_list.
    - intros ([k' v] & -> & Hv%elem_of_map_to_list). eauto. }
  rewrite Hk. assert (Hall : Forall (fun p => m !! p.1 = Some p.2) (map_to_list m)).
  { apply Forall_forall. by intros [k v] Hv%elem_of_map_to_list. }
  clear Hk. induction Hall as [|[k v] l Hv _ IH]; [done|]. cbn [fst snd] in Hv. rewrite !fmap_cons. cbn [fst snd omap list_omap].
  rewrite Hv. by constructor.
Qed.

Lemma elem_of_union_keys {K} `{Countable K, !KeyOrder K} {V} (a b : gmap K V) k :
  k ∈ union_keys a b <-> is_Some (a !! k) \/ is_Some (b !! k).
Proof. unfold union_keys. by rewrite elem_of_in_order, elem_of_union, !elem_of_dom. Qed.

(** *** Maps of maps *)

Definition nlookup {K} `{Countable K} {V} (m : gmap N (gmap K V)) (t : N) (k : K) : option V :=
  m !! t ≫= (fun per => per !! k).

Lemma nlookup_empty {K} `{Countable K} {V} t k : nlookup (∅ : gmap N (gmap K V)) t k = None.
Proof. unfold nlookup. by rewrite lookup_empty. Qed.

(** *** Stable sorting by a key ([slice::sort_by_key]) *)

Fixpoint insert_by_key {A} (key : A -> N) (x : A) (l : list A) : list A :=
  match l with
  | [] => [x]
  | y :: l' => if key x <=? key y then x :: l else y :: insert_by_key key x l'
  end.
Definition sort_by_key {A} (key : A -> N) (l : list A) : list A :=
  foldr (insert_by_key key) [] l.

Lemma insert_by_key_perm {A} (key : A -> N) x l : insert_by_key key x l ≡ₚ x :: l.
Proof.
  induction l as [|y l IH]; simpl; [done|]. case_match; [done|].
  rewrite IH. apply Permutation_swap.
Qed.

Lemma sort_by_key_map {A B} (f : A -> B) (key : B -> N) l :
  sort_by_key key (map f l) = map f (sort_by_key (fun a => key (f a)) l).
Proof.
  induction l as [|x l IH]; [done|]. cbn [sort_by_key foldr map]. unfold sort_by_key in IH. rewrite IH.
  generalize (foldr (insert_by_key (fun a => key (f a))) [] l). intros l'.
  induction l' as [|y l' IH']; [done|]. cbn. case_match; [done|]. cbn. by rewrite IH'.
Qed.

Lemma sort_by_key_perm {A} (key : A -> N) l : sort_by_key key l ≡ₚ l.
Proof.
  induction l as [|x l IH]; simpl; [done|].
  change (insert_by_key key x (sort_by_key key l) ≡ₚ x :: l). by rewrite insert_by_key_perm, IH.
Qed.

Lemma insert_by_key_sorted {A} (key : A -> N) x l :
  StronglySorted (fun a b => key a <= key b) l ->
  StronglySorted (fun a b => key a <= key b) (insert_by_key key x l).
Proof.
  induction 1 as [|y l Hl IH Hy]; simpl; [by repeat constructor|].
  destruct (N.leb_spec (key x) (key y)) as [Hle|Hlt].
  - constructor; [by constructor|]. constructor; [done|].
    eapply Forall_impl; [exact Hy|]. intros z Hz; simpl in *. lia.
  - constructor; [done|]. rewrite insert_by_key_perm. constructor; [lia|done].
Qed.

Lemma sort_by_key_sorted {A} (key : A -> N) l :
  StronglySorted (fun a b => key a <= key b) (sort_by_key key l).
Proof. induction l; simpl; [constructor|by apply insert_by_key_sorted]. Qed.

(** *** Ranges [0..n] *)

Definition range (n : N) : list N := N.of_nat <$> seq 0 (N.to_nat n).

Lemma elem_of_range n i : i ∈ range n <-> i < n.
Proof.
  unfold range. rewrite list_elem_of_fmap. split.
  - intros (j & -> & Hj%elem_of_seq). lia.
  - intros Hi. exists (N.to_nat i). rewrite elem_of_seq. lia.
Qed.

(** *** Stable sorting by a comparison *)

Fixpoint insert_by {A} (leb : A -> A -> bool) (x : A) (l : list A) : list A :=
  match l with
  | [] => [x]
  | y :: l' => if leb x y then x :: l else y :: insert_by leb x l'
  end.
Definition sort_by {A} (leb : A -> A -> bool) (l : list A) : list A :=
  foldr (insert_by leb) [] l.

Lemma insert_by_perm {A} (leb : A -> A -> bool) x l : insert_by leb x l ≡ₚ x :: l.
Proof.
  induction l as [|y l IH]; simpl; [done|]. case_match; [done|].
  rewrite IH. apply Permutation_swap.
Qed.

Lemma sort_by_perm {A} (leb : A -> A -> bool) l : sort_by leb l ≡ₚ l.
Proof.
  induction l as [|x l IH]; simpl; [done|].
  change (insert_by leb x (sort_by leb l) ≡ₚ x :: l). by rewrite insert_by_perm, IH.
Qed.

Lemma insert_by_sorted {A} (leb : A -> A -> bool) x l :
  (forall a b, leb a b = true \/ leb b a = true) ->
  (forall a b c, leb a b = true -> leb b c = true -> leb a c = true) ->
  StronglySorted leb l -> StronglySorted leb (insert_by leb x l).
Proof.
  intros Ht Htr. induction 1 as [|y l Hl IH Hy]; simpl; [by repeat constructor|].
  destruct (leb x y) eqn:E.
  - constructor; [by constructor|]. constructor; [by rewrite E|].
    eapply Forall_impl; [exact Hy|]. intros z Hz%Is_true_true. apply Is_true_true. eauto.
  - constructor; [done|]. rewrite insert_by_perm. constructor; [|done].
    apply Is_true_true. destruct (Ht x y); congruence.
Qed.

Lemma sort_by_sorted {A} (leb : A -> A -> bool) l :
  (forall a b, leb a b = true \/ leb b a = true) ->
  (forall a b c, leb a b = true -> leb b c = true -> leb a c = true) ->
  StronglySorted leb (sort_by leb l).
Proof. intros. induction l; simpl; [constructor|by apply insert_by_sorted]. Qed.
