(* ===== verification/Storekey.v ===== *)
(** The interface of the order-preserving codec crate [storekey] that
    [store/key.rs] and [store/index_encoding.rs] are written against.

    The crate itself is not part of the repository, so its primitives are the
    operations of the class [Storekey]; [StorekeyLaws] states the byte format
    the sources document and pin with golden vectors: one discriminant byte per
    enum level, two above the declaration index; [u64] components as eight
    big-endian bytes; byte strings with [0x00] and [0x01] escaped behind [0x01]
    and a [0x00] terminator; and that a reader undoes the matching writer and
    leaves the rest of its input.  [reference_storekey] is a concrete codec of
    that format, proved to satisfy the laws.

    [OrdCodec] is the contract every key component is proved to meet: its
    encoding is self-delimiting, decodes back, and sorts as the value does. *)
From stdpp Require Import gmap list.
From Stdlib Require Import Strings.Byte NArith Lia.
From S2P Require Import Prelude.
Local Open Scope N_scope.
Local Open Scope moraine_scope.

(** ** The primitives *)
Class Storekey := {
  write_variant : nat -> bytes;
  write_u64 : N -> bytes;
  write_slice : bytes -> bytes;
  read_variant : bytes -> option (nat * bytes);
  read_u64 : bytes -> option (N * bytes);
  read_vec : bytes -> option (bytes * bytes);
}.

(** One byte of an escaped byte string. *)
Definition escape_byte (b : byte) : bytes :=
  if Byte.to_N b <=? 1 then [x01; b] else [b].

Definition escape (l : bytes) : bytes := flat_map escape_byte l.

Class StorekeyLaws `{Storekey} : Prop := {
  write_variant_bytes i : (i < 254)%nat -> write_variant i = [u8 (N.of_nat i + 2)];
  write_u64_bytes n : u64 n -> write_u64 n = be_bytes 8 n;
  write_slice_bytes l : write_slice l = escape l ++ [x00];
  read_variant_write i rest :
    (i < 254)%nat -> read_variant (write_variant i ++ rest) = Some (i, rest);
  read_u64_write n rest : u64 n -> read_u64 (write_u64 n ++ rest) = Some (n, rest);
  read_vec_write l rest : read_vec (write_slice l ++ rest) = Some (l, rest);
}.

(** ** The contract of a key component *)
Class OrdCodec {A} (wf : A -> Prop) (cmp : A -> A -> comparison)
    (enc : A -> bytes) (dec : bytes -> option (A * bytes)) : Prop := {
  oc_roundtrip a rest : wf a -> dec (enc a ++ rest) = Some (a, rest);
  oc_order a b ra rb :
    wf a -> wf b ->
    bytes_compare (enc a ++ ra) (enc b ++ rb) = (cmp a b ⨟ bytes_compare ra rb);
}.

Section OrdCodecFacts.
Context {A} (wf : A -> Prop) (cmp : A -> A -> comparison)
  (enc : A -> bytes) (dec : bytes -> option (A * bytes)).
Context `{!OrdCodec wf cmp enc dec}.

Lemma oc_order_nil a b : wf a -> wf b -> bytes_compare (enc a) (enc b) = cmp a b.
Proof.
  intros Ha Hb. rewrite <-(app_nil_r (enc a)), <-(app_nil_r (enc b)), oc_order by done.
  apply thenc_Eq_r.
Qed.

Lemma oc_inj a b : wf a -> wf b -> enc a = enc b -> a = b.
Proof.
  intros Ha Hb H. pose proof (oc_roundtrip a [] Ha) as Ra.
  rewrite H, oc_roundtrip in Ra by done. congruence.
Qed.

(** No encoding is a proper prefix of another. *)
Lemma oc_prefix_free a b : wf a -> wf b -> enc a `prefix_of` enc b -> a = b.
Proof.
  intros Ha Hb [k Hk]. pose proof (oc_roundtrip b [] Hb) as Rb.
  rewrite Hk, <-app_assoc, oc_roundtrip in Rb by done. congruence.
Qed.
End OrdCodecFacts.

Section Primitives.
Context `{StorekeyLaws}.

#[export] Instance u64_codec : OrdCodec u64 N.compare write_u64 read_u64.
Proof.
  split; [intros; by apply read_u64_write|].
  intros a b ra rb Ha Hb.
  rewrite !write_u64_bytes, bytes_compare_app by (done || by rewrite !length_be_bytes).
  by rewrite be_bytes_compare.
Qed.

Lemma escape_compare a b ra rb :
  bytes_compare (escape a ++ x00 :: ra) (escape b ++ x00 :: rb)
  = (bytes_compare a b ⨟ bytes_compare ra rb).
Proof.
  revert b; induction a as [|x a IH]; intros [|y b]; simpl; try done.
  - unfold escape_byte. destruct (N.leb_spec (Byte.to_N y) 1); simpl; [done|].
    rewrite bytes_compare_cons. unfold byte_compare.
    by rewrite (proj2 (N.compare_lt_iff (Byte.to_N x00) (Byte.to_N y))) by (simpl; lia).
  - unfold escape_byte. destruct (N.leb_spec (Byte.to_N x) 1); simpl; [done|].
    rewrite bytes_compare_cons. unfold byte_compare.
    by rewrite (proj2 (N.compare_gt_iff (Byte.to_N x) (Byte.to_N x00))) by (simpl; lia).
  - rewrite bytes_compare_cons, thenc_assoc, <-IH. unfold escape_byte.
    destruct (N.leb_spec (Byte.to_N x) 1), (N.leb_spec (Byte.to_N y) 1); simpl;
      rewrite ?bytes_compare_cons; try done; unfold byte_compare.
    + rewrite !(proj2 (N.compare_lt_iff _ _)) by (simpl; lia). done.
    + rewrite !(proj2 (N.compare_gt_iff _ _)) by (simpl; lia). done.
Qed.

#[export] Instance slice_codec : OrdCodec (fun _ => True) bytes_compare write_slice read_vec.
Proof.
  split; [intros; apply read_vec_write|].
  intros a b ra rb _ _. rewrite !write_slice_bytes, <-!app_assoc. apply escape_compare.
Qed.

Lemma variant_order i j ra rb :
  (i < 254)%nat -> (j < 254)%nat ->
  bytes_compare (write_variant i ++ ra) (write_variant j ++ rb)
  = (Nat.compare i j ⨟ bytes_compare ra rb).
Proof.
  intros Hi Hj. rewrite !write_variant_bytes by done. simpl. rewrite bytes_compare_cons.
  f_equal. unfold byte_compare. rewrite !to_N_u8, !N.mod_small by lia.
  rewrite Nat.compare_antisym, N.compare_antisym. f_equal.
  destruct (Nat.compare_spec j i);
    [apply N.compare_eq_iff | apply N.compare_lt_iff | apply N.compare_gt_iff]; lia.
Qed.

(** A run of [u64] fields, in declaration order. *)
Definition write_fields (fields : list N) : bytes := flat_map write_u64 fields.

Lemma fields_order xs ys ra rb :
  Forall u64 xs -> Forall u64 ys -> length xs = length ys ->
  bytes_compare (write_fields xs ++ ra) (write_fields ys ++ rb)
  = (list_compare N.compare xs ys ⨟ bytes_compare ra rb).
Proof.
  intros Hx; revert ys; induction Hx as [|x xs Hx Hxs IH]; intros [|y ys] Hy [=]; [done|].
  inversion_clear Hy. unfold write_fields; simpl. rewrite <-!app_assoc, oc_order by done.
  fold write_fields. by rewrite thenc_assoc, IH.
Qed.
End Primitives.

(** ** A concrete codec of the documented format *)

Definition ref_read_variant (l : bytes) : option (nat * bytes) :=
  match l with
  | b :: rest => if 2 <=? Byte.to_N b then Some (N.to_nat (Byte.to_N b - 2), rest) else None
  | [] => None
  end.

Definition ref_read_u64 (l : bytes) : option (N * bytes) :=
  if (8 <=? length l)%nat then Some (be_value (take 8 l), drop 8 l) else None.

Fixpoint ref_read_vec (l : bytes) : option (bytes * bytes) :=
  match l with
  | [] => None
  | x00 :: rest => Some ([], rest)
  | x01 :: b :: rest =>
      match ref_read_vec rest with Some (v, r) => Some (b :: v, r) | None => None end
  | b :: rest =>
      match ref_read_vec rest with Some (v, r) => Some (b :: v, r) | None => None end
  end.

Definition reference_storekey : Storekey := {|
  write_variant i := [u8 (N.of_nat i + 2)];
  write_u64 n := be_bytes 8 n;
  write_slice l := escape l ++ [x00];
  read_variant := ref_read_variant;
  read_u64 := ref_read_u64;
  read_vec := ref_read_vec;
|}.

Lemma ref_read_vec_escape l rest : ref_read_vec (escape l ++ x00 :: rest) = Some (l, rest).
Proof.
  induction l as [|b l IH]; [done|]. simpl. unfold escape_byte.
  destruct (N.leb_spec (Byte.to_N b) 1); simpl; [by rewrite IH|].
  destruct b; simpl in *; rewrite ?IH; done || lia.
Qed.

Lemma reference_storekey_laws : @StorekeyLaws reference_storekey.
Proof.
  split; cbn [write_variant write_u64 write_slice read_variant read_u64 read_vec
    reference_storekey]; try done.
  - intros i rest Hi. simpl app. unfold ref_read_variant. rewrite to_N_u8, N.mod_small by lia.
    destruct (N.leb_spec 2 (N.of_nat i + 2)); [|lia]. do 2 f_equal. lia.
  - intros n rest Hn. unfold ref_read_u64.
    pose proof (length_be_bytes 8 n) as L.
    rewrite length_app, L. simpl Nat.leb. cbv iota.
    rewrite take_app_length', drop_app_length' by done.
    by rewrite be_value_bytes.
  - intros l rest. rewrite <-app_assoc. apply ref_read_vec_escape.
Qed.
