(* ===== verification/KeyLayout.v ===== *)
(** The key layout of the store ([store/key.rs], [store/segment.rs]).

    A key is a typed tree (subspace, kind, components).  Its [Encode], [Decode]
    and [Ord] are derived in the source; here each enum has its declaration
    index ([*_variant]), and its [*_compare], [*_encode] and [*_decode] follow
    the derive: variants in declaration order, then the fields in order.  The
    theorems: every key decodes back from its bytes, byte order is key order,
    the scan prefixes select exactly the keys they are meant to, and
    [increment_prefix] is the least bound above a prefix. *)
From stdpp Require Import gmap list.
From Stdlib Require Import Strings.Byte NArith Lia.
From S2P Require Import Prelude Storekey.
Local Open Scope N_scope.
Local Open Scope moraine_scope.

(** ** Data *)

(** The canonical encoding of an index's column values: one opaque byte string. *)
Record CanonicalKey : Type := mkCanonicalKey { canonical_bytes : bytes }.

Inductive SysKey : Type := SK_Format | SK_Head | SK_Migration.

Inductive EntityKey : Type :=
| EK_Schema (schema_id : N)
| EK_Table (table_id : N)
| EK_View (view_id : N)
| EK_Column (table_id column_id : N)
| EK_Partition (table_id partition_id : N)
| EK_File (table_id data_file_id : N)
| EK_DeleteFile (table_id delete_file_id : N)
| EK_FileColumnStats (table_id data_file_id column_id : N)
| EK_TableStats (table_id : N)
| EK_TableColumnStats (table_id column_id : N)
| EK_Tag (object_id : N)
| EK_Option (scope_kind scope_id : N)
| EK_Sort (table_id sort_id : N)
| EK_Macro (macro_id : N)
| EK_Mapping (table_id mapping_id : N)
| EK_Index (table_id index_id : N).

Inductive CurrentKey : Type :=
| CK_Entity (entity : EntityKey)
| CK_GcFile (data_file_id : N).

Record HistoryKey : Type := mkHistoryKey { history_entity : EntityKey; history_end : N }.

Inductive InlineOperation : Type :=
| IO_Insert (table_id schema_version begin_snapshot chunk_seq : N)
| IO_InlineDelete (table_id row_id : N)
| IO_FileDelete (table_id data_file_id row_id : N).

Inductive InlineKey : Type :=
| IK_Schema (table_id schema_version : N)
| IK_Live (op : InlineOperation)
| IK_Arch (op : InlineOperation)
| IK_FileDeleteTable (table_id : N).

Inductive IndexKey : Type :=
| XK_Unique (index_id : N) (key : CanonicalKey)
| XK_Multi (index_id : N) (key : CanonicalKey) (row_id : N).

Inductive Key : Type :=
| K_Sys (k : SysKey)
| K_Snapshot (snapshot_id : N)
| K_Current (k : CurrentKey)
| K_History (k : HistoryKey)
| K_Inline (k : InlineKey)
| K_Index (k : IndexKey)
| K_SchemaVersion (table_id begin_snapshot : N)
| K_Changelog (snapshot_id : N).

#[export] Instance CanonicalKey_eq_dec : EqDecision CanonicalKey.
Proof. solve_decision. Defined.
#[export] Instance SysKey_eq_dec : EqDecision SysKey.
Proof. solve_decision. Defined.
#[export] Instance EntityKey_eq_dec : EqDecision EntityKey.
Proof. solve_decision. Defined.
#[export] Instance CurrentKey_eq_dec : EqDecision CurrentKey.
Proof. solve_decision. Defined.
#[export] Instance HistoryKey_eq_dec : EqDecision HistoryKey.
Proof. solve_decision. Defined.
#[export] Instance InlineOperation_eq_dec : EqDecision InlineOperation.
Proof. solve_decision. Defined.
#[export] Instance InlineKey_eq_dec : EqDecision InlineKey.
Proof. solve_decision. Defined.
#[export] Instance IndexKey_eq_dec : EqDecision IndexKey.
Proof. solve_decision. Defined.
#[export] Instance Key_eq_dec : EqDecision Key.
Proof. solve_decision. Defined.

(** [EntityKey::is_versioned]. *)
Definition is_versioned (k : EntityKey) : bool :=
  match k with
  | EK_FileColumnStats _ _ _ | EK_TableStats _ | EK_TableColumnStats _ _
  | EK_Option _ _ | EK_Tag _ | EK_Mapping _ _ => false
  | _ => true
  end.

(** [Key::current], [Key::history]. *)
Definition Key_current (e : EntityKey) : Key := K_Current (CK_Entity e).
Definition Key_history (e : EntityKey) (end_snapshot : N) : Key :=
  K_History (mkHistoryKey e end_snapshot).

(** ** The derived orders: declaration index, then fields in order *)

Definition SysKey_variant (k : SysKey) : nat :=
  match k with SK_Format => 0 | SK_Head => 1 | SK_Migration => 2 end%nat.

Definition EntityKey_variant (k : EntityKey) : nat :=
  match k with
  | EK_Schema _ => 0 | EK_Table _ => 1 | EK_View _ => 2 | EK_Column _ _ => 3
  | EK_Partition _ _ => 4 | EK_File _ _ => 5 | EK_DeleteFile _ _ => 6
  | EK_FileColumnStats _ _ _ => 7 | EK_TableStats _ => 8 | EK_TableColumnStats _ _ => 9
  | EK_Tag _ => 10 | EK_Option _ _ => 11 | EK_Sort _ _ => 12 | EK_Macro _ => 13
  | EK_Mapping _ _ => 14 | EK_Index _ _ => 15
  end%nat.

Definition EntityKey_fields (k : EntityKey) : list N :=
  match k with
  | EK_Schema a | EK_Table a | EK_View a | EK_TableStats a | EK_Tag a | EK_Macro a => [a]
  | EK_Column a b | EK_Partition a b | EK_File a b | EK_DeleteFile a b
  | EK_TableColumnStats a b | EK_Option a b | EK_Sort a b | EK_Mapping a b
  | EK_Index a b => [a; b]
  | EK_FileColumnStats a b c => [a; b; c]
  end.

Definition InlineOperation_variant (k : InlineOperation) : nat :=
  match k with IO_Insert _ _ _ _ => 0 | IO_InlineDelete _ _ => 1 | IO_FileDelete _ _ _ => 2 end%nat.

Definition InlineOperation_fields (k : InlineOperation) : list N :=
  match k with
  | IO_Insert a b c d => [a; b; c; d]
  | IO_InlineDelete a b => [a; b]
  | IO_FileDelete a b c => [a; b; c]
  end.

Definition SysKey_compare (a b : SysKey) : comparison :=
  Nat.compare (SysKey_variant a) (SysKey_variant b).

Definition EntityKey_compare (a b : EntityKey) : comparison :=
  Nat.compare (EntityKey_variant a) (EntityKey_variant b)
  ⨟ list_compare N.compare (EntityKey_fields a) (EntityKey_fields b).

Definition CurrentKey_compare (a b : CurrentKey) : comparison :=
  match a, b with
  | CK_Entity x, CK_Entity y => EntityKey_compare x y
  | CK_Entity _, CK_GcFile _ => Lt
  | CK_GcFile _, CK_Entity _ => Gt
  | CK_GcFile x, CK_GcFile y => (x ?= y)%N
  end.

Definition HistoryKey_compare (a b : HistoryKey) : comparison :=
  EntityKey_compare (history_entity a) (history_entity b) ⨟ (history_end a ?= history_end b)%N.

Definition InlineOperation_compare (a b : InlineOperation) : comparison :=
  Nat.compare (InlineOperation_variant a) (InlineOperation_variant b)
  ⨟ list_compare N.compare (InlineOperation_fields a) (InlineOperation_fields b).

Definition InlineKey_variant (k : InlineKey) : nat :=
  match k with
  | IK_Schema _ _ => 0 | IK_Live _ => 1 | IK_Arch _ => 2 | IK_FileDeleteTable _ => 3
  end%nat.

Definition InlineKey_compare (a b : InlineKey) : comparison :=
  match a, b with
  | IK_Schema t v, IK_Schema t' v' => (t ?= t')%N ⨟ (v ?= v')%N
  | IK_Live x, IK_Live y => InlineOperation_compare x y
  | IK_Arch x, IK_Arch y => InlineOperation_compare x y
  | IK_FileDeleteTable t, IK_FileDeleteTable t' => (t ?= t')%N
  | _, _ => Nat.compare (InlineKey_variant a) (InlineKey_variant b)
  end.

Definition CanonicalKey_compare (a b : CanonicalKey) : comparison :=
  bytes_compare (canonical_bytes a) (canonical_bytes b).

Definition IndexKey_compare (a b : IndexKey) : comparison :=
  match a, b with
  | XK_Unique i k, XK_Unique i' k' => (i ?= i')%N ⨟ CanonicalKey_compare k k'
  | XK_Multi i k r, XK_Multi i' k' r' =>
      (i ?= i')%N ⨟ CanonicalKey_compare k k' ⨟ (r ?= r')%N
  | XK_Unique _ _, XK_Multi _ _ _ => Lt
  | XK_Multi _ _ _, XK_Unique _ _ => Gt
  end.

Definition Key_variant (k : Key) : nat :=
  match k with
  | K_Sys _ => 0 | K_Snapshot _ => 1 | K_Current _ => 2 | K_History _ => 3
  | K_Inline _ => 4 | K_Index _ => 5 | K_SchemaVersion _ _ => 6 | K_Changelog _ => 7
  end%nat.

Definition Key_compare (a b : Key) : comparison :=
  match a, b with
  | K_Sys x, K_Sys y => SysKey_compare x y
  | K_Snapshot x, K_Snapshot y => (x ?= y)%N
  | K_Current x, K_Current y => CurrentKey_compare x y
  | K_History x, K_History y => HistoryKey_compare x y
  | K_Inline x, K_Inline y => InlineKey_compare x y
  | K_Index x, K_Index y => IndexKey_compare x y
  | K_SchemaVersion t s, K_SchemaVersion t' s' => (t ?= t')%N ⨟ (s ?= s')%N
  | K_Changelog x, K_Changelog y => (x ?= y)%N
  | _, _ => Nat.compare (Key_variant a) (Key_variant b)
  end.

(** ** Width: every component is a [u64] *)

Definition EntityKey_wf (k : EntityKey) : Prop := Forall u64 (EntityKey_fields k).
Definition InlineOperation_wf (k : InlineOperation) : Prop := Forall u64 (InlineOperation_fields k).

Definition Key_wf (k : Key) : Prop :=
  match k with
  | K_Sys _ => True
  | K_Snapshot s | K_Changelog s => u64 s
  | K_Current (CK_Entity e) => EntityKey_wf e
  | K_Current (CK_GcFile f) => u64 f
  | K_History h => EntityKey_wf (history_entity h) /\ u64 (history_end h)
  | K_Inline (IK_Schema t v) => u64 t /\ u64 v
  | K_Inline (IK_Live op) | K_Inline (IK_Arch op) => InlineOperation_wf op
  | K_Inline (IK_FileDeleteTable t) => u64 t
  | K_Index (XK_Unique i _) => u64 i
  | K_Index (XK_Multi i _ r) => u64 i /\ u64 r
  | K_SchemaVersion t s => u64 t /\ u64 s
  end.

#[export] Instance EntityKey_wf_dec k : Decision (EntityKey_wf k).
Proof. unfold EntityKey_wf. apply _. Defined.
#[export] Instance Key_wf_dec k : Decision (Key_wf k).
Proof.
  destruct k as [|?|[]|?|[]|[]|? ?|?]; simpl; unfold InlineOperation_wf; apply _.
Defined.

(** ** Encoding and decoding *)
Section KeyCodec.
Context `{Storekey}.

Definition EntityKey_encode (k : EntityKey) : bytes :=
  write_variant (EntityKey_variant k) ++ write_fields (EntityKey_fields k).

Definition InlineOperation_encode (k : InlineOperation) : bytes :=
  write_variant (InlineOperation_variant k) ++ write_fields (InlineOperation_fields k).

(** [impl Encode for CanonicalKey]: a storekey byte string. *)
Definition CanonicalKey_encode (k : CanonicalKey) : bytes := write_slice (canonical_bytes k).

Definition CurrentKey_encode (k : CurrentKey) : bytes :=
  match k with
  | CK_Entity e => write_variant 0 ++ EntityKey_encode e
  | CK_GcFile f => write_variant 1 ++ write_u64 f
  end.

Definition HistoryKey_encode (k : HistoryKey) : bytes :=
  EntityKey_encode (history_entity k) ++ write_u64 (history_end k).

Definition InlineKey_encode (k : InlineKey) : bytes :=
  write_variant (InlineKey_variant k) ++
  match k with
  | IK_Schema t v => write_u64 t ++ write_u64 v
  | IK_Live op | IK_Arch op => InlineOperation_encode op
  | IK_FileDeleteTable t => write_u64 t
  end.

Definition IndexKey_encode (k : IndexKey) : bytes :=
  match k with
  | XK_Unique i v => write_variant 0 ++ write_u64 i ++ CanonicalKey_encode v
  | XK_Multi i v r => write_variant 1 ++ write_u64 i ++ CanonicalKey_encode v ++ write_u64 r
  end.

(** [Key::encode]. *)
Definition Key_encode (k : Key) : bytes :=
  write_variant (Key_variant k) ++
  match k with
  | K_Sys s => write_variant (SysKey_variant s)
  | K_Snapshot s | K_Changelog s => write_u64 s
  | K_Current c => CurrentKey_encode c
  | K_History h => HistoryKey_encode h
  | K_Inline i => InlineKey_encode i
  | K_Index i => IndexKey_encode i
  | K_SchemaVersion t s => write_u64 t ++ write_u64 s
  end.

Definition SysKey_decode (bs : bytes) : option (SysKey * bytes) :=
  '(v, r) ← read_variant bs;
  match v with
  | 0 => Some (SK_Format, r) | 1 => Some (SK_Head, r) | 2 => Some (SK_Migration, r)
  | _ => None
  end%nat.

Definition read1 {A} (f : N -> A) (bs : bytes) : option (A * bytes) :=
  '(a, r) ← read_u64 bs; Some (f a, r).
Definition read2 {A} (f : N -> N -> A) (bs : bytes) : option (A * bytes) :=
  '(a, r) ← read_u64 bs; read1 (f a) r.
Definition read3 {A} (f : N -> N -> N -> A) (bs : bytes) : option (A * bytes) :=
  '(a, r) ← read_u64 bs; read2 (f a) r.
Definition read4 {A} (f : N -> N -> N -> N -> A) (bs : bytes) : option (A * bytes) :=
  '(a, r) ← read_u64 bs; read3 (f a) r.

Definition EntityKey_decode (bs : bytes) : option (EntityKey * bytes) :=
  '(v, r) ← read_variant bs;
  match v with
  | 0 => read1 EK_Schema r
  | 1 => read1 EK_Table r
  | 2 => read1 EK_View r
  | 3 => read2 EK_Column r
  | 4 => read2 EK_Partition r
  | 5 => read2 EK_File r
  | 6 => read2 EK_DeleteFile r
  | 7 => read3 EK_FileColumnStats r
  | 8 => read1 EK_TableStats r
  | 9 => read2 EK_TableColumnStats r
  | 10 => read1 EK_Tag r
  | 11 => read2 EK_Option r
  | 12 => read2 EK_Sort r
  | 13 => read1 EK_Macro r
  | 14 => read2 EK_Mapping r
  | 15 => read2 EK_Index r
  | _ => None
  end%nat.

Definition InlineOperation_decode (bs : bytes) : option (InlineOperation * bytes) :=
  '(v, r) ← read_variant bs;
  match v with
  | 0 => read4 IO_Insert r
  | 1 => read2 IO_InlineDelete r
  | 2 => read3 IO_FileDelete r
  | _ => None
  end%nat.

(** [impl Decode for CanonicalKey]. *)
Definition CanonicalKey_decode (bs : bytes) : option (CanonicalKey * bytes) :=
  '(v, r) ← read_vec bs; Some (mkCanonicalKey v, r).

Definition CurrentKey_decode (bs : bytes) : option (CurrentKey * bytes) :=
  '(v, r) ← read_variant bs;
  match v with
  | 0 => '(e, r) ← EntityKey_decode r; Some (CK_Entity e, r)
  | 1 => read1 CK_GcFile r
  | _ => None
  end%nat.

Definition HistoryKey_decode (bs : bytes) : option (HistoryKey * bytes) :=
  '(e, r) ← EntityKey_decode bs; read1 (mkHistoryKey e) r.

Definition InlineKey_decode (bs : bytes) : option (InlineKey * bytes) :=
  '(v, r) ← read_variant bs;
  match v with
  | 0 => read2 IK_Schema r
  | 1 => '(op, r) ← InlineOperation_decode r; Some (IK_Live op, r)
  | 2 => '(op, r) ← InlineOperation_decode r; Some (IK_Arch op, r)
  | 3 => read1 IK_FileDeleteTable r
  | _ => None
  end%nat.

Definition IndexKey_decode (bs : bytes) : option (IndexKey * bytes) :=
  '(v, r) ← read_variant bs;
  match v with
  | 0 => '(i, r) ← read_u64 r; '(k, r) ← CanonicalKey_decode r; Some (XK_Unique i k, r)
  | 1 => '(i, r) ← read_u64 r; '(k, r) ← CanonicalKey_decode r; read1 (XK_Multi i k) r
  | _ => None
  end%nat.

Definition Key_read (bs : bytes) : option (Key * bytes) :=
  '(v, r) ← read_variant bs;
  match v with
  | 0 => '(s, r) ← SysKey_decode r; Some (K_Sys s, r)
  | 1 => read1 K_Snapshot r
  | 2 => '(c, r) ← CurrentKey_decode r; Some (K_Current c, r)
  | 3 => '(h, r) ← HistoryKey_decode r; Some (K_History h, r)
  | 4 => '(i, r) ← InlineKey_decode r; Some (K_Inline i, r)
  | 5 => '(i, r) ← IndexKey_decode r; Some (K_Index i, r)
  | 6 => read2 K_SchemaVersion r
  | 7 => read1 K_Changelog r
  | _ => None
  end%nat.

(** [Key::decode]: an unknown discriminant, a short key, or trailing bytes
    fail as [Corruption]. *)
Definition Key_decode (bs : bytes) : result Key :=
  match Key_read bs with
  | Some (k, []) => Ok k
  | _ => Err Corruption
  end.
End KeyCodec.

(** ** The codec laws, component by component *)
Section KeyCodecLaws.
Context `{StorekeyLaws}.

Lemma variant_lt_read i rest {B} (f : nat * bytes -> option B) :
  (i < 254)%nat -> (read_variant (write_variant i ++ rest) ≫= f) = f (i, rest).
Proof. intros Hi. by rewrite read_variant_write. Qed.

Lemma u64_bind a rest {B} (f : N * bytes -> option B) :
  u64 a -> (read_u64 (write_u64 a ++ rest) ≫= f) = f (a, rest).
Proof. intros Ha. by rewrite read_u64_write. Qed.

Lemma EntityKey_variant_lt k : (EntityKey_variant k < 254)%nat.
Proof. destruct k; simpl; lia. Qed.
Lemma InlineOperation_variant_lt k : (InlineOperation_variant k < 254)%nat.
Proof. destruct k; simpl; lia. Qed.
Lemma InlineKey_variant_lt k : (InlineKey_variant k < 254)%nat.
Proof. destruct k; simpl; lia. Qed.
Lemma SysKey_variant_lt k : (SysKey_variant k < 254)%nat.
Proof. destruct k; simpl; lia. Qed.
Lemma Key_variant_lt k : (Key_variant k < 254)%nat.
Proof. destruct k; simpl; lia. Qed.

Lemma EntityKey_fields_length a b :
  EntityKey_variant a = EntityKey_variant b ->
  length (EntityKey_fields a) = length (EntityKey_fields b).
Proof. by destruct a, b. Qed.

Lemma InlineOperation_fields_length a b :
  InlineOperation_variant a = InlineOperation_variant b ->
  length (InlineOperation_fields a) = length (InlineOperation_fields b).
Proof. by destruct a, b. Qed.

(** Variant byte, then fields: the shape every fieldful enum encodes in. *)
Lemma variant_fields_order i j xs ys ra rb :
  (i < 254)%nat -> (j < 254)%nat -> Forall u64 xs -> Forall u64 ys ->
  (i = j -> length xs = length ys) ->
  bytes_compare ((write_variant i ++ write_fields xs) ++ ra)
                ((write_variant j ++ write_fields ys) ++ rb)
  = ((Nat.compare i j ⨟ list_compare N.compare xs ys) ⨟ bytes_compare ra rb).
Proof.
  intros Hi Hj Hx Hy Hl. rewrite <-!app_assoc, variant_order, thenc_assoc by done.
  destruct (Nat.compare_spec i j) as [E| |]; simpl; [|done..]. by apply fields_order; auto.
Qed.

Ltac key_read :=
  repeat first
    [ rewrite <-app_assoc
    | rewrite variant_lt_read by (simpl; lia)
    | rewrite u64_bind by done
    | progress cbn -[write_variant write_u64 write_slice read_variant read_u64 read_vec] ].

Ltac fields_wf :=
  repeat match goal with
  | Hw : Forall u64 (_ :: _) |- _ => apply Forall_cons_1 in Hw as [? Hw]
  | Hw : _ /\ _ |- _ => destruct Hw
  end.

#[export] Instance EntityKey_codec :
  OrdCodec EntityKey_wf EntityKey_compare EntityKey_encode EntityKey_decode.
Proof.
  split.
  - intros a rest Ha. unfold EntityKey_wf in Ha. unfold EntityKey_decode, EntityKey_encode.
    destruct a; simpl in Ha; fields_wf; unfold read3, read2, read1; by key_read.
  - intros a b ra rb Ha Hb. apply variant_fields_order;
      auto using EntityKey_variant_lt, EntityKey_fields_length.
Qed.

#[export] Instance InlineOperation_codec :
  OrdCodec InlineOperation_wf InlineOperation_compare
    InlineOperation_encode InlineOperation_decode.
Proof.
  split.
  - intros a rest Ha. unfold InlineOperation_wf in Ha.
    unfold InlineOperation_decode, InlineOperation_encode.
    destruct a; simpl in Ha; fields_wf; unfold read4, read3, read2, read1; by key_read.
  - intros a b ra rb Ha Hb. apply variant_fields_order;
      auto using InlineOperation_variant_lt, InlineOperation_fields_length.
Qed.

#[export] Instance CanonicalKey_codec :
  OrdCodec (fun _ => True) CanonicalKey_compare CanonicalKey_encode CanonicalKey_decode.
Proof.
  split.
  - intros [l] rest _. unfold CanonicalKey_decode, CanonicalKey_encode; simpl.
    by rewrite read_vec_write.
  - intros [a] [b] ra rb _ _. unfold CanonicalKey_encode, CanonicalKey_compare; simpl.
    by rewrite (oc_order (dec := read_vec)).
Qed.

Lemma EntityKey_bind e rest {B} (f : EntityKey * bytes -> option B) :
  EntityKey_wf e -> (EntityKey_decode (EntityKey_encode e ++ rest) ≫= f) = f (e, rest).
Proof. intros He. by rewrite oc_roundtrip. Qed.
Lemma InlineOperation_bind e rest {B} (f : InlineOperation * bytes -> option B) :
  InlineOperation_wf e ->
  (InlineOperation_decode (InlineOperation_encode e ++ rest) ≫= f) = f (e, rest).
Proof. intros He. by rewrite oc_roundtrip. Qed.
Lemma CanonicalKey_bind e rest {B} (f : CanonicalKey * bytes -> option B) :
  (CanonicalKey_decode (CanonicalKey_encode e ++ rest) ≫= f) = f (e, rest).
Proof. by rewrite oc_roundtrip. Qed.

Lemma Key_read_encode k rest : Key_wf k -> Key_read (Key_encode k ++ rest) = Some (k, rest).
Proof.
  intros Hk. unfold Key_read, Key_encode.
  rewrite <-app_assoc, variant_lt_read by apply Key_variant_lt.
  destruct k as [s|?|[e|?]|[e ?]|[? ?|op|op|?]|[? ?|? ? ?]|? ?|?]; simpl in Hk; fields_wf;
    unfold SysKey_decode, CurrentKey_decode, CurrentKey_encode, HistoryKey_decode,
      HistoryKey_encode, InlineKey_decode, InlineKey_encode, IndexKey_decode,
      IndexKey_encode, read2, read1;
    rewrite <-?app_assoc; simpl;
    rewrite ?variant_lt_read by (first [apply SysKey_variant_lt | simpl; lia]); simpl;
    rewrite <-?app_assoc, ?EntityKey_bind, ?InlineOperation_bind by done;
    repeat (rewrite ?u64_bind, ?CanonicalKey_bind by done; simpl; rewrite <-?app_assoc); try done.
  by destruct s.
Qed.

Ltac order_step :=
  repeat first
    [ rewrite variant_order by (first [apply SysKey_variant_lt | apply InlineKey_variant_lt
        | apply Key_variant_lt | simpl; lia])
    | rewrite <-app_assoc ];
  simpl.

Lemma Key_encode_order a b ra rb :
  Key_wf a -> Key_wf b ->
  bytes_compare (Key_encode a ++ ra) (Key_encode b ++ rb)
  = (Key_compare a b ⨟ bytes_compare ra rb).
Proof.
  intros Ha Hb. unfold Key_encode. order_step.
  destruct a as [sa|?|[ea|?]|[ea ?]|[? ?|opa|opa|?]|[? ?|? ? ?]|? ?|?],
    b as [sb|?|[eb|?]|[eb ?]|[? ?|opb|opb|?]|[? ?|? ? ?]|? ?|?]; try done;
    simpl in Ha, Hb; fields_wf; cbn [Key_variant Nat.compare thenc Key_compare];
    unfold CurrentKey_encode, HistoryKey_encode, InlineKey_encode, IndexKey_encode,
      SysKey_compare, HistoryKey_compare;
    order_step; try done;
    repeat (first
      [ rewrite (oc_order (dec := read_u64)) by done
      | rewrite (oc_order (dec := CanonicalKey_decode)) by done
      | rewrite (oc_order (dec := EntityKey_decode)) by done
      | rewrite (oc_order (dec := InlineOperation_decode)) by done
      | rewrite <-app_assoc ]); rewrite ?thenc_assoc; done.
Qed.

#[export] Instance Key_codec : OrdCodec Key_wf Key_compare Key_encode Key_read.
Proof. split; [apply Key_read_encode | apply Key_encode_order]. Qed.

Lemma Key_decode_encode k : Key_wf k -> Key_decode (Key_encode k) = Ok k.
Proof.
  intros Hk. unfold Key_decode.
  by rewrite <-(app_nil_r (Key_encode k)), (oc_roundtrip (dec := Key_read)).
Qed.

Lemma Key_encode_inj a b : Key_wf a -> Key_wf b -> Key_encode a = Key_encode b -> a = b.
Proof. apply (oc_inj Key_wf Key_compare Key_encode Key_read). Qed.

(** Matching one self-delimiting component off both sides of a prefix test. *)
Lemma oc_prefix_app {A} (wf : A -> Prop) cmp enc dec `{!OrdCodec wf cmp enc dec} a b x y :
  wf a -> wf b -> enc a ++ x `prefix_of` enc b ++ y <-> a = b /\ x `prefix_of` y.
Proof.
  intros Ha Hb. split.
  - intros [k Hk]. pose proof (oc_roundtrip b y Hb) as Rb.
    rewrite Hk, <-app_assoc, oc_roundtrip in Rb by done.
    injection Rb as <- <-. split; [done|]. by exists k.
  - intros [<- ?]. by apply prefix_app.
Qed.

Lemma variant_prefix_app i j x y :
  (i < 254)%nat -> (j < 254)%nat ->
  write_variant i ++ x `prefix_of` write_variant j ++ y <-> i = j /\ x `prefix_of` y.
Proof.
  intros Hi Hj. split.
  - intros [k Hk]. pose proof (read_variant_write j y Hj) as Rj.
    rewrite Hk, <-app_assoc, read_variant_write in Rj by done.
    injection Rj as <- <-. split; [done|]. by exists k.
  - intros [<- ?]. by apply prefix_app.
Qed.

Lemma length_write_variant i : (i < 254)%nat -> length (write_variant i) = 1%nat.
Proof. intros Hi. by rewrite write_variant_bytes. Qed.
Lemma length_write_u64 n : u64 n -> length (write_u64 n) = 8%nat.
Proof. intros Hn. rewrite write_u64_bytes by done. apply length_be_bytes. Qed.
End KeyCodecLaws.

(** ** Scan prefixes *)

Definition TAG_PREFIX_LEN : nat := 1.
Definition CUR_KIND_PREFIX_LEN : nat := 3.
Definition INLINE_LIVE_KIND_PREFIX_LEN : nat := 3.
Definition INLINE_SCHEMA_PREFIX_LEN : nat := 2.
Definition INDEX_KIND_PREFIX_LEN : nat := 2.
Definition size_of_u64 : nat := 8.
Definition INDEX_ENTRY_PREFIX_LEN : nat := INDEX_KIND_PREFIX_LEN + size_of_u64.

Definition CanonicalKey_empty : CanonicalKey := mkCanonicalKey [].

Inductive Subspace : Type :=
| SystemSpace | SnapshotSpace | CurrentSpace | HistorySpace | InlineSpace | IndexSpace
| SchemaVersionSpace | ChangelogSpace.

Definition Subspace_ALL : list Subspace :=
  [SystemSpace; SnapshotSpace; CurrentSpace; HistorySpace; InlineSpace; IndexSpace;
   SchemaVersionSpace; ChangelogSpace].

(** [Subspace::sample]. *)
Definition Subspace_sample (s : Subspace) : Key :=
  match s with
  | SystemSpace => K_Sys SK_Format
  | SnapshotSpace => K_Snapshot 0
  | CurrentSpace => Key_current (EK_Schema 0)
  | HistorySpace => Key_history (EK_Schema 0) 0
  | InlineSpace => K_Inline (IK_Schema 0 0)
  | IndexSpace => K_Index (XK_Unique 0 CanonicalKey_empty)
  | SchemaVersionSpace => K_SchemaVersion 0 0
  | ChangelogSpace => K_Changelog 0
  end.

(** The subspace a key lives in. *)
Definition Key_subspace (k : Key) : Subspace :=
  match k with
  | K_Sys _ => SystemSpace | K_Snapshot _ => SnapshotSpace | K_Current _ => CurrentSpace
  | K_History _ => HistorySpace | K_Inline _ => InlineSpace | K_Index _ => IndexSpace
  | K_SchemaVersion _ _ => SchemaVersionSpace | K_Changelog _ => ChangelogSpace
  end.

Inductive TableScopedKind : Type :=
| TS_Column | TS_Partition | TS_File | TS_DeleteFile | TS_FileColumnStats | TS_TableStats
| TS_TableColumnStats | TS_Sort | TS_Mapping | TS_Index.

(** [TableScopedKind::sample]. *)
Definition TableScopedKind_sample (k : TableScopedKind) (table_id : N) : EntityKey :=
  match k with
  | TS_Column => EK_Column table_id 0
  | TS_Partition => EK_Partition table_id 0
  | TS_File => EK_File table_id 0
  | TS_DeleteFile => EK_DeleteFile table_id 0
  | TS_FileColumnStats => EK_FileColumnStats table_id 0 0
  | TS_TableStats => EK_TableStats table_id
  | TS_TableColumnStats => EK_TableColumnStats table_id 0
  | TS_Sort => EK_Sort table_id 0
  | TS_Mapping => EK_Mapping table_id 0
  | TS_Index => EK_Index table_id 0
  end.

Inductive InlineOperationKind : Type := IOK_Insert | IOK_InlineDelete | IOK_FileDelete.

(** [InlineOperationKind::sample]. *)
Definition InlineOperationKind_sample (k : InlineOperationKind) (table_id : N)
  : InlineOperation :=
  match k with
  | IOK_Insert => IO_Insert table_id 0 0 0
  | IOK_InlineDelete => IO_InlineDelete table_id 0
  | IOK_FileDelete => IO_FileDelete table_id 0 0
  end.

Inductive IndexKind : Type := IndexUnique | IndexMulti.

(** [increment_prefix]: drop trailing [0xff] bytes, then add one to the last.
    The [while let] pops from the end, so the loop runs on the reversed bytes. *)
Fixpoint increment_rev (rev_bytes : bytes) : option bytes :=
  match rev_bytes with
  | [] => None
  | last :: rest =>
      if Byte.to_N last =? 255 then increment_rev rest
      else Some (u8 (Byte.to_N last + 1) :: rest)
  end.

Definition increment_prefix (bs : bytes) : option bytes :=
  reverse <$> increment_rev (reverse bs).

Section Prefixes.
Context `{Storekey}.

(** Encodes [key] and keeps its first [len] bytes. *)
Definition prefix_of_key (key : Key) (len : nat) : bytes := take len (Key_encode key).

Definition subspace_prefix (s : Subspace) : bytes :=
  prefix_of_key (Subspace_sample s) TAG_PREFIX_LEN.

Definition current_table_prefix (kind : TableScopedKind) (table_id : N) : bytes :=
  prefix_of_key (Key_current (TableScopedKind_sample kind table_id))
    (CUR_KIND_PREFIX_LEN + size_of_u64).

Definition inline_live_table_prefix (kind : InlineOperationKind) (table_id : N) : bytes :=
  prefix_of_key (K_Inline (IK_Live (InlineOperationKind_sample kind table_id)))
    (INLINE_LIVE_KIND_PREFIX_LEN + size_of_u64).

Definition inline_schema_table_prefix (table_id : N) : bytes :=
  prefix_of_key (K_Inline (IK_Schema table_id 0)) (INLINE_SCHEMA_PREFIX_LEN + size_of_u64).

Definition inline_schema_prefix : bytes :=
  prefix_of_key (K_Inline (IK_Schema 0 0)) INLINE_SCHEMA_PREFIX_LEN.

Definition index_kind_prefix (kind : IndexKind) : bytes :=
  let key := match kind with
    | IndexUnique => K_Index (XK_Unique 0 CanonicalKey_empty)
    | IndexMulti => K_Index (XK_Multi 0 CanonicalKey_empty 0)
    end in
  prefix_of_key key INDEX_KIND_PREFIX_LEN.

Definition index_index_prefix (kind : IndexKind) (index_id : N) : bytes :=
  let key := match kind with
    | IndexUnique => K_Index (XK_Unique index_id CanonicalKey_empty)
    | IndexMulti => K_Index (XK_Multi index_id CanonicalKey_empty 0)
    end in
  prefix_of_key key INDEX_ENTRY_PREFIX_LEN.

Definition index_multi_value_prefix (index_id : N) (value : CanonicalKey) : bytes :=
  let bs := Key_encode (K_Index (XK_Multi index_id value 0)) in
  take (length bs - size_of_u64) bs.

Definition index_value_suffix (kind : IndexKind) (index_id : N) (value : CanonicalKey) : bytes :=
  let bs := match kind with
    | IndexUnique => Key_encode (K_Index (XK_Unique index_id value))
    | IndexMulti => index_multi_value_prefix index_id value
    end in
  drop INDEX_ENTRY_PREFIX_LEN bs.

(** The suffix without its terminator ([Vec::pop]). *)
Definition index_value_body (kind : IndexKind) (index_id : N) (value : CanonicalKey) : bytes :=
  let suffix := index_value_suffix kind index_id value in
  take (length suffix - 1) suffix.

Definition index_value_above (kind : IndexKind) (index_id : N) (value : CanonicalKey)
  : option bytes :=
  increment_prefix (index_value_body kind index_id value).

(** [TagSegmentExtractor::prefix_len]: the answer depends only on the first
    byte existing, for a point and for a prefix target alike. *)
Definition segment_prefix_len (target : bytes) : option nat :=
  if bool_decide (target = []) then None else Some TAG_PREFIX_LEN.
End Prefixes.

(** ** [increment_prefix] *)

Lemma increment_rev_snoc r b :
  increment_rev (r ++ [b]) =
  match increment_rev r with
  | Some q => Some (q ++ [b])
  | None => increment_rev [b]
  end.
Proof.
  induction r as [|x r IH]; simpl; [done|].
  destruct (Byte.to_N x =? 255); [apply IH|done].
Qed.

Lemma increment_prefix_cons b p :
  increment_prefix (b :: p) =
  match increment_prefix p with
  | Some q => Some (b :: q)
  | None => if Byte.to_N b =? 255 then None else Some [u8 (Byte.to_N b + 1)]
  end.
Proof.
  unfold increment_prefix. rewrite reverse_cons, increment_rev_snoc.
  destruct (increment_rev (reverse p)) as [q|]; simpl; [by rewrite reverse_snoc|].
  by destruct (Byte.to_N b =? 255).
Qed.

Lemma increment_prefix_None p : increment_prefix p = None <-> Forall (fun b => b = xff) p.
Proof.
  induction p as [|b p IH]; [split; [constructor|done]|].
  rewrite increment_prefix_cons, Forall_cons, <-IH.
  destruct (increment_prefix p); [naive_solver|].
  destruct (N.eqb_spec (Byte.to_N b) 255) as [E|E].
  - split; [|done]. intros _. split; [|done]. by apply to_N_inj.
  - split; [done|]. by intros [-> _].
Qed.

Lemma prefix_cons_same (x : byte) p s : x :: p `prefix_of` x :: s <-> p `prefix_of` s.
Proof. split; [apply prefix_cons_inv_2 | apply prefix_cons]. Qed.

Lemma bytes_le_nil s : bytes_le [] s.
Proof. by destruct s. Qed.

Lemma bytes_le_ff p s : Forall (fun b => b = xff) p -> bytes_le p s <-> p `prefix_of` s.
Proof.
  intros Hp; revert s; induction Hp as [|b p -> Hp IH]; intros s.
  { split; intros _; [apply prefix_nil | apply bytes_le_nil]. }
  destruct s as [|c s]; [split; [by unfold bytes_le|intros []%prefix_nil_not]|].
  unfold bytes_le. rewrite bytes_compare_cons. unfold byte_compare.
  pose proof (to_N_lt c). change (Byte.to_N xff) with 255.
  destruct (N.compare_spec 255 (Byte.to_N c)) as [E| |]; simpl; [|lia|].
  - replace c with xff by (by apply to_N_inj). rewrite prefix_cons_same. naive_solver.
  - split; [done|]. intros E%prefix_cons_inv_1. subst c. simpl in *. lia.
Qed.

(** The half-open range from [p] to its increment holds exactly the strings
    that begin with [p]. *)
Lemma increment_prefix_range p q s :
  increment_prefix p = Some q -> (bytes_le p s /\ bytes_lt s q) <-> p `prefix_of` s.
Proof.
  revert q s; induction p as [|b p IH]; intros q s; [done|].
  rewrite increment_prefix_cons. destruct s as [|c s].
  { intros _. split; [by intros [[] _] | intros []%prefix_nil_not]. }
  unfold bytes_le, bytes_lt. rewrite bytes_compare_cons. unfold byte_compare at 1.
  destruct (increment_prefix p) as [q'|] eqn:Ep.
  - intros [= <-]. rewrite bytes_compare_cons. unfold byte_compare.
    rewrite (N.compare_antisym (Byte.to_N b) (Byte.to_N c)).
    destruct (N.compare_spec (Byte.to_N b) (Byte.to_N c)) as [E%to_N_inj| |]; simpl.
    + subst c. rewrite prefix_cons_same. rewrite <-(IH q' s) by done. naive_solver.
    + split; [naive_solver|]. intros ->%prefix_cons_inv_1. lia.
    + split; [naive_solver|]. intros ->%prefix_cons_inv_1. lia.
  - destruct (N.eqb_spec (Byte.to_N b) 255); [done|]. intros [= <-].
    rewrite bytes_compare_cons. unfold byte_compare.
    pose proof (to_N_lt b). rewrite to_N_u8, N.mod_small by lia.
    apply increment_prefix_None in Ep.
    destruct (N.compare_spec (Byte.to_N b) (Byte.to_N c)) as [E%to_N_inj| |]; simpl.
    + subst c. rewrite (proj2 (N.compare_lt_iff _ _)) by lia. simpl.
      rewrite prefix_cons_same, <-(bytes_le_ff p s) by done. unfold bytes_le. naive_solver.
    + destruct (N.compare_spec (Byte.to_N c) (Byte.to_N b + 1)); simpl; [|lia|].
      * split; [|intros ->%prefix_cons_inv_1; lia]. destruct s; naive_solver.
      * split; [naive_solver|intros ->%prefix_cons_inv_1; lia].
    + split; [naive_solver|]. intros ->%prefix_cons_inv_1. lia.
Qed.

(** ** What the prefixes select *)
Section PrefixLaws.
Context `{StorekeyLaws}.

Lemma u64_0 : u64 0.
Proof. done. Qed.

Lemma take_u64 n r : u64 n -> take 8 (write_u64 n ++ r) = write_u64 n.
Proof. intros Hn. apply take_app_length'. symmetry. by apply length_write_u64. Qed.

Lemma drop_u64 n r : u64 n -> drop 8 (write_u64 n ++ r) = r.
Proof. intros Hn. apply drop_app_length'. symmetry. by apply length_write_u64. Qed.

Lemma take_variant i r m :
  (i < 254)%nat -> take (S m) (write_variant i ++ r) = write_variant i ++ take m r.
Proof. intros Hi. by rewrite write_variant_bytes. Qed.

Lemma drop_variant i r m : (i < 254)%nat -> drop (S m) (write_variant i ++ r) = drop m r.
Proof. intros Hi. by rewrite write_variant_bytes. Qed.

Lemma subspace_prefix_eq s :
  subspace_prefix s = write_variant (Key_variant (Subspace_sample s)) ++ [].
Proof.
  unfold subspace_prefix, prefix_of_key, Key_encode, TAG_PREFIX_LEN.
  by rewrite take_variant, take_0 by apply Key_variant_lt.
Qed.

Lemma subspace_prefix_iff s k : subspace_prefix s `prefix_of` Key_encode k <-> Key_subspace k = s.
Proof.
  rewrite subspace_prefix_eq. unfold Key_encode.
  rewrite variant_prefix_app by apply Key_variant_lt.
  split; [|intros <-; split; [by destruct k|apply prefix_nil]].
  intros [E _]. destruct s, k; done.
Qed.

Lemma current_table_prefix_eq kind t :
  u64 t ->
  current_table_prefix kind t =
  write_variant 2 ++ write_variant 0 ++
  write_variant (EntityKey_variant (TableScopedKind_sample kind t)) ++ write_u64 t ++ [].
Proof.
  intros Ht.
  assert (exists r, write_fields (EntityKey_fields (TableScopedKind_sample kind t))
                    = write_u64 t ++ r) as [r Hr] by (destruct kind; simpl; eauto).
  unfold current_table_prefix, prefix_of_key, Key_encode, CurrentKey_encode, EntityKey_encode.
  cbn [Key_current Key_variant CUR_KIND_PREFIX_LEN size_of_u64 Nat.add].
  rewrite !take_variant, Hr by (first [apply EntityKey_variant_lt | lia]).
  by rewrite take_u64, app_nil_r.
Qed.

Lemma inline_live_table_prefix_eq kind t :
  u64 t ->
  inline_live_table_prefix kind t =
  write_variant 4 ++ write_variant 1 ++
  write_variant (InlineOperation_variant (InlineOperationKind_sample kind t))
  ++ write_u64 t ++ [].
Proof.
  intros Ht.
  assert (exists r, write_fields (InlineOperation_fields (InlineOperationKind_sample kind t))
                    = write_u64 t ++ r) as [r Hr] by (destruct kind; simpl; eauto).
  unfold inline_live_table_prefix, prefix_of_key, Key_encode, InlineKey_encode,
    InlineOperation_encode.
  cbn [Key_variant InlineKey_variant INLINE_LIVE_KIND_PREFIX_LEN size_of_u64 Nat.add].
  rewrite !take_variant, Hr by (first [apply InlineOperation_variant_lt | lia]).
  by rewrite take_u64, app_nil_r.
Qed.

Lemma index_index_prefix_eq kind i :
  u64 i ->
  index_index_prefix kind i =
  write_variant 5 ++ write_variant (match kind with IndexUnique => 0 | IndexMulti => 1 end)
  ++ write_u64 i ++ [].
Proof.
  intros Hi. destruct kind; unfold index_index_prefix, prefix_of_key, Key_encode;
    cbn [Key_variant IndexKey_encode INDEX_ENTRY_PREFIX_LEN INDEX_KIND_PREFIX_LEN
         size_of_u64 Nat.add];
    by rewrite !take_variant, take_u64, app_nil_r by (done || lia).
Qed.

(** The fields of an entity whose kind is table-scoped begin with the table id. *)
Definition entity_in_table (kind : TableScopedKind) (t : N) (e : EntityKey) : Prop :=
  EntityKey_variant e = EntityKey_variant (TableScopedKind_sample kind t)
  /\ head (EntityKey_fields e) = Some t.

Definition inline_in_table (kind : InlineOperationKind) (t : N) (op : InlineOperation) : Prop :=
  InlineOperation_variant op = InlineOperation_variant (InlineOperationKind_sample kind t)
  /\ head (InlineOperation_fields op) = Some t.

(** Kind byte and table id in front of a run of fields. *)
Lemma kind_table_prefix v w t fields :
  (v < 254)%nat -> (w < 254)%nat -> u64 t -> Forall u64 fields -> fields <> [] ->
  write_variant v ++ write_u64 t ++ [] `prefix_of` write_variant w ++ write_fields fields
  <-> w = v /\ head fields = Some t.
Proof.
  intros Hv Hw Ht Hf Hn. rewrite variant_prefix_app by done.
  destruct fields as [|x xs]; [done|]. apply Forall_cons_1 in Hf as [Hx _].
  unfold write_fields; simpl. rewrite (oc_prefix_app u64 N.compare write_u64 read_u64) by done.
  split; [naive_solver|]. intros [<- [= <-]]. repeat split. apply prefix_nil.
Qed.

Lemma EntityKey_fields_cons e : EntityKey_fields e <> [].
Proof. by destruct e. Qed.
Lemma InlineOperation_fields_cons e : InlineOperation_fields e <> [].
Proof. by destruct e. Qed.

Lemma current_table_prefix_exact kind t k :
  u64 t -> Key_wf k ->
  current_table_prefix kind t `prefix_of` Key_encode k
  <-> exists e, k = Key_current e /\ entity_in_table kind t e.
Proof.
  intros Ht Hk. rewrite current_table_prefix_eq by done. unfold Key_encode.
  rewrite variant_prefix_app by (first [apply Key_variant_lt | lia]).
  destruct k as [| |[e|]| | | | |]; try (split; [by intros [? _]|by intros (? & ? & _)]);
    cbn [CurrentKey_encode Key_variant]; rewrite variant_prefix_app by lia.
  - unfold EntityKey_encode. rewrite kind_table_prefix
      by auto using EntityKey_variant_lt, EntityKey_fields_cons.
    split; [intros (_ & _ & ?); by exists e | by intros (? & [= <-] & ?)].
  - split; [by intros (_ & ? & _)|by intros (? & ? & _)].
Qed.

Lemma inline_live_table_prefix_exact kind t k :
  u64 t -> Key_wf k ->
  inline_live_table_prefix kind t `prefix_of` Key_encode k
  <-> exists op, k = K_Inline (IK_Live op) /\ inline_in_table kind t op.
Proof.
  intros Ht Hk. rewrite inline_live_table_prefix_eq by done. unfold Key_encode.
  rewrite variant_prefix_app by (first [apply Key_variant_lt | lia]).
  destruct k as [| | | |ik| | |]; try (split; [by intros [? _]|by intros (? & ? & _)]).
  unfold InlineKey_encode. rewrite variant_prefix_app by (first [apply InlineKey_variant_lt | lia]).
  destruct ik as [|op| |]; try (split; [by intros (_ & ? & _)|by intros (? & ? & _)]).
  unfold InlineOperation_encode. rewrite kind_table_prefix
    by auto using InlineOperation_variant_lt, InlineOperation_fields_cons.
  split; [intros (_ & _ & ?); by exists op | by intros (? & [= <-] & ?)].
Qed.

Lemma index_value_suffix_eq kind i v :
  u64 i -> index_value_suffix kind i v = write_slice (canonical_bytes v).
Proof.
  intros Hi. destruct kind; unfold index_value_suffix, index_multi_value_prefix, Key_encode;
    cbn [Key_variant IndexKey_encode INDEX_ENTRY_PREFIX_LEN INDEX_KIND_PREFIX_LEN
         size_of_u64 Nat.add]; unfold CanonicalKey_encode.
  - by rewrite !drop_variant, drop_u64 by (done || lia).
  - rewrite !app_assoc, length_app, (length_write_u64 0), Nat.add_sub, take_app_length
      by apply u64_0.
    rewrite <-!app_assoc. by rewrite !drop_variant, drop_u64 by (done || lia).
Qed.

Lemma index_value_body_eq kind i v :
  u64 i -> index_value_body kind i v = escape (canonical_bytes v).
Proof.
  intros Hi. unfold index_value_body. rewrite index_value_suffix_eq, write_slice_bytes by done.
  rewrite length_app; simpl. by rewrite Nat.add_sub, take_app_length.
Qed.

Lemma escape_byte_prefix x y l k :
  escape_byte x ++ l `prefix_of` escape_byte y ++ k <-> x = y /\ l `prefix_of` k.
Proof.
  unfold escape_byte. split.
  - destruct (N.leb_spec (Byte.to_N x) 1), (N.leb_spec (Byte.to_N y) 1); simpl; intros Hp.
    + apply prefix_cons_inv_2 in Hp. pose proof (prefix_cons_inv_1 _ _ _ _ Hp).
      by apply prefix_cons_inv_2 in Hp.
    + apply prefix_cons_inv_1 in Hp. subst. simpl in *. lia.
    + apply prefix_cons_inv_1 in Hp. subst. simpl in *. lia.
    + pose proof (prefix_cons_inv_1 _ _ _ _ Hp). by apply prefix_cons_inv_2 in Hp.
  - intros [<- ?]. by apply prefix_app.
Qed.

(** An escaped body is a prefix of an escaped, terminated string exactly when
    the raw bytes are a prefix of the raw bytes. *)
Lemma escape_prefix v w r : escape v `prefix_of` escape w ++ x00 :: r <-> v `prefix_of` w.
Proof.
  revert w; induction v as [|x v IH]; intros w; simpl.
  { split; intros _; apply prefix_nil. }
  destruct w as [|y w]; simpl.
  - split; [|intros []%prefix_nil_not]. unfold escape_byte.
    destruct (N.leb_spec (Byte.to_N x) 1); simpl; intros Hp%prefix_cons_inv_1; [done|].
    subst. simpl in *. lia.
  - rewrite <-app_assoc, escape_byte_prefix, IH.
    split; [intros [<- ?]; by apply prefix_cons|].
    intros Hp. split; [by apply prefix_cons_inv_1 in Hp | by apply prefix_cons_inv_2 in Hp].
Qed.
Lemma inline_schema_table_prefix_eq t :
  u64 t -> inline_schema_table_prefix t = write_variant 4 ++ write_variant 0 ++ write_u64 t ++ [].
Proof.
  intros Ht. unfold inline_schema_table_prefix, prefix_of_key, Key_encode, InlineKey_encode.
  cbn [Key_variant InlineKey_variant INLINE_SCHEMA_PREFIX_LEN size_of_u64 Nat.add].
  by rewrite !take_variant, take_u64, app_nil_r by (done || lia).
Qed.

Lemma inline_schema_table_prefix_exact t k :
  u64 t -> Key_wf k ->
  inline_schema_table_prefix t `prefix_of` Key_encode k <-> exists sv, k = K_Inline (IK_Schema t sv).
Proof.
  intros Ht Hk. rewrite inline_schema_table_prefix_eq by done. unfold Key_encode.
  rewrite variant_prefix_app by (first [apply Key_variant_lt | lia]).
  destruct k as [| | | |ik| | |]; try (split; [by intros [? _]|by intros (? & ?)]).
  unfold InlineKey_encode. rewrite variant_prefix_app by (first [apply InlineKey_variant_lt | lia]).
  destruct ik as [t' sv|op| |]; try (split; [by intros (_ & ? & _)|by intros (? & ?)]).
  cbn in Hk. rewrite (oc_prefix_app u64 N.compare write_u64 read_u64) by (done || apply Hk).
  split; [intros (_ & _ & -> & _); by exists sv|].
  intros (? & [= -> ->]). repeat split. apply prefix_nil.
Qed.

(** The index entries of one kind and one index. *)
Lemma index_index_prefix_exact kind i k :
  u64 i -> Key_wf k ->
  index_index_prefix kind i `prefix_of` Key_encode k
  <-> match kind with
      | IndexUnique => exists v, k = K_Index (XK_Unique i v)
      | IndexMulti => exists v r, k = K_Index (XK_Multi i v r)
      end.
Proof.
  intros Hi Hk. rewrite index_index_prefix_eq by done. unfold Key_encode.
  rewrite variant_prefix_app by (first [apply Key_variant_lt | destruct kind; lia]).
  destruct k as [| | | | |xk| |]; try (split; [by intros [? _]|destruct kind; naive_solver]).
  destruct xk as [i' v|i' v r]; cbn [IndexKey_encode Key_variant];
    rewrite variant_prefix_app by (destruct kind; lia).
  - rewrite (oc_prefix_app u64 N.compare write_u64 read_u64) by (done || apply Hk).
    destruct kind; [|split; [by intros (_ & ? & _)|naive_solver]].
    split; [intros (_ & _ & -> & _); by exists v|]. intros (v' & [= -> ->]). repeat split. apply prefix_nil.
  - rewrite (oc_prefix_app u64 N.compare write_u64 read_u64) by (done || apply Hk).
    destruct kind; [split; [by intros (_ & ? & _)|naive_solver]|].
    split; [intros (_ & _ & -> & _); by exists v, r|].
    intros (v' & r' & [= -> -> ->]). repeat split. apply prefix_nil.
Qed.
End PrefixLaws.

(** ** Properties *)

(** C30: every key whose components are [u64]s decodes back from its encoding,
    and an encoding followed by anything is refused as corruption. *)
Theorem key_roundtrip `{StorekeyLaws} (k : Key) (x : byte) (rest : bytes) :
  Key_wf k ->
  Key_decode (Key_encode k) = Ok k /\ Key_decode (Key_encode k ++ x :: rest) = Err Corruption.
Proof.
  intros Hk. split; [by apply Key_decode_encode|].
  unfold Key_decode. by rewrite (oc_roundtrip (dec := Key_read)).
Qed.

Lemma key_roundtrip_witness :
  Key_wf (K_Index (XK_Multi 1 (mkCanonicalKey [x00; x01; x41]) (2 ^ 56)))
  /\ @Key_decode reference_storekey
       (@Key_encode reference_storekey (K_Index (XK_Multi 1 (mkCanonicalKey [x00; x01; x41]) (2 ^ 56))))
     = Ok (K_Index (XK_Multi 1 (mkCanonicalKey [x00; x01; x41]) (2 ^ 56))).
Proof.
  assert (W : Key_wf (K_Index (XK_Multi 1 (mkCanonicalKey [x00; x01; x41]) (2 ^ 56))))
    by (split; reflexivity).
  split; [exact W|]. exact (proj1 (@key_roundtrip _ reference_storekey_laws _ x00 [] W)).
Defined.

(** C20: the store's byte order is the derived order of the typed keys, so a
    range of keys is a range of bytes; distinct keys never share an encoding. *)
Theorem key_order_preserved `{StorekeyLaws} (a b : Key) :
  Key_wf a -> Key_wf b ->
  bytes_compare (Key_encode a) (Key_encode b) = Key_compare a b
  /\ (Key_encode a = Key_encode b -> a = b).
Proof.
  intros Ha Hb. split; [|by apply Key_encode_inj].
  by apply (oc_order_nil Key_wf Key_compare Key_encode Key_read).
Qed.

Lemma key_order_preserved_witness :
  Key_compare (Key_history (EK_File 1 2) 9) (Key_history (EK_File 1 2) 10) = Lt
  /\ bytes_compare (@Key_encode reference_storekey (Key_history (EK_File 1 2) 9))
       (@Key_encode reference_storekey (Key_history (EK_File 1 2) 10)) = Lt.
Proof.
  assert (W9 : Key_wf (Key_history (EK_File 1 2) 9)) by (by repeat constructor).
  assert (W10 : Key_wf (Key_history (EK_File 1 2) 10)) by (by repeat constructor).
  split; [reflexivity|].
  exact (proj1 (@key_order_preserved _ reference_storekey_laws _ _ W9 W10)).
Defined.

(** C31: a subspace prefix selects exactly the keys of its subspace, and it is the
    segment prefix the extractor derives from any of them. *)
Theorem subspace_prefix_exact `{StorekeyLaws} (s : Subspace) (k : Key) :
  Key_wf k ->
  (subspace_prefix s `prefix_of` Key_encode k <-> Key_subspace k = s)
  /\ length (subspace_prefix s) = TAG_PREFIX_LEN
  /\ segment_prefix_len (Key_encode k) = Some (length (subspace_prefix s)).
Proof.
  intros Hk.
  assert (L : length (subspace_prefix s) = TAG_PREFIX_LEN).
  { rewrite subspace_prefix_eq, app_nil_r. apply length_write_variant, Key_variant_lt. }
  split; [|split; [done|]].
  - apply subspace_prefix_iff.
  - unfold segment_prefix_len. rewrite bool_decide_false; [by rewrite L|].
    intros E%(f_equal length). unfold Key_encode in E.
    rewrite length_app, length_write_variant in E by apply Key_variant_lt. done.
Qed.

Lemma subspace_prefix_exact_witness :
  Key_wf (Key_current (EK_Table 7))
  /\ @subspace_prefix reference_storekey CurrentSpace
     `prefix_of` @Key_encode reference_storekey (Key_current (EK_Table 7)).
Proof.
  assert (W : Key_wf (Key_current (EK_Table 7))) by (by repeat constructor).
  split; [exact W|].
  apply (proj1 (@subspace_prefix_exact _ reference_storekey_laws CurrentSpace _ W)). reflexivity.
Defined.

(** C32: the table-scoped prefixes select exactly one table's records of one
    kind: a [current] prefix the live entities of that kind and table, an inline
    prefix the live (never the archived) inline records of that kind and table. *)
Theorem table_prefix_exact `{StorekeyLaws} (t : N) (k : Key) :
  u64 t -> Key_wf k ->
  (forall kind, current_table_prefix kind t `prefix_of` Key_encode k
     <-> exists e, k = Key_current e /\ entity_in_table kind t e)
  /\ (forall kind, inline_live_table_prefix kind t `prefix_of` Key_encode k
     <-> exists op, k = K_Inline (IK_Live op) /\ inline_in_table kind t op).
Proof.
  intros Ht Hk. split; intros kind;
    [by apply current_table_prefix_exact | by apply inline_live_table_prefix_exact].
Qed.

Lemma table_prefix_exact_witness :
  @current_table_prefix reference_storekey TS_Sort 9
    `prefix_of` @Key_encode reference_storekey (Key_current (EK_Sort 9 4))
  /\ ~ @current_table_prefix reference_storekey TS_Sort 10
    `prefix_of` @Key_encode reference_storekey (Key_current (EK_Sort 9 4)).
Proof.
  assert (W : Key_wf (Key_current (EK_Sort 9 4))) by (by repeat constructor).
  split.
  - apply (proj1 (@table_prefix_exact _ reference_storekey_laws 9 _ eq_refl W)).
    exists (EK_Sort 9 4). repeat split.
  - intros C%(proj1 (@table_prefix_exact _ reference_storekey_laws 10 _ eq_refl W) TS_Sort).
    destruct C as (e & [= <-] & _ & [=]).
Defined.

(** [increment_prefix p] is the exclusive end of the range of strings that
    begin with [p], and there is none exactly when [p] is all [0xff]. *)
Theorem increment_prefix_spec (p : bytes) :
  (increment_prefix p = None <-> Forall (fun b => b = xff) p)
  /\ (forall q s, increment_prefix p = Some q ->
        (bytes_le p s /\ bytes_lt s q) <-> p `prefix_of` s).
Proof. split; [apply increment_prefix_None | intros q s; apply increment_prefix_range]. Qed.

(** C33: on an index's entries, the range from [index_value_body] up to
    [index_value_above] holds exactly the entries whose canonical value begins
    with the given one: its own entries, and every extension of a leading-column
    prefix, whatever row id a non-unique entry ends with. *)
Theorem index_value_range `{StorekeyLaws} (kind : IndexKind) (i : N) (v w : CanonicalKey)
    (row_id : N) (bound : bytes) :
  u64 i -> u64 row_id -> index_value_above kind i v = Some bound ->
  let entry := drop INDEX_ENTRY_PREFIX_LEN
    (Key_encode (K_Index (match kind with
       | IndexUnique => XK_Unique i w | IndexMulti => XK_Multi i w row_id end))) in
  (bytes_le (index_value_body kind i v) entry /\ bytes_lt entry bound)
  <-> canonical_bytes v `prefix_of` canonical_bytes w.
Proof.
  intros Hi Hr Hb entry. rewrite (increment_prefix_range _ _ entry Hb).
  rewrite index_value_body_eq by done.
  assert (exists r, entry = escape (canonical_bytes w) ++ x00 :: r) as [r ->];
    [|apply escape_prefix].
  subst entry. destruct kind; unfold Key_encode;
    cbn [Key_variant IndexKey_encode INDEX_ENTRY_PREFIX_LEN INDEX_KIND_PREFIX_LEN
         size_of_u64 Nat.add]; unfold CanonicalKey_encode;
    rewrite !drop_variant, drop_u64, write_slice_bytes, <-?app_assoc by (done || lia); eauto.
Qed.

Lemma index_value_range_witness :
  @index_value_above reference_storekey IndexMulti 7 (mkCanonicalKey [x00; x61])
    = Some [x01; x00; x62]
  /\ bytes_lt (drop INDEX_ENTRY_PREFIX_LEN (@Key_encode reference_storekey
       (K_Index (XK_Multi 7 (mkCanonicalKey [x00; x61; xff]) 300)))) [x01; x00; x62].
Proof.
  assert (E : @index_value_above reference_storekey IndexMulti 7 (mkCanonicalKey [x00; x61])
    = Some [x01; x00; x62]) by (vm_compute; reflexivity).
  split; [exact E|].
  refine (proj2 (proj2 (@index_value_range _ reference_storekey_laws IndexMulti 7
    (mkCanonicalKey [x00; x61]) (mkCanonicalKey [x00; x61; xff]) 300 _ eq_refl eq_refl E) _)).
  by exists [xff].
Defined.
