(* ===== verification/IndexEncoding.v ===== *)
(** Canonical value encoding of equality-index keys ([store/index_encoding.rs]).

    Values are typed by column category; a float is its IEEE bit pattern, as the
    code only ever reads [to_bits], [is_nan] and the sum with [0.0].  The
    reference order of floats is [SFcompare] of the Standard Library's IEEE 754
    specification.  The theorems: equal values share one byte string and distinct
    values never collide; the byte order of an encoded key is the SQL order of
    its column tuple under the declared directions and NULL placements; which
    keys are refused; and the nominal size brackets the real one. *)
From stdpp Require Import gmap list strings.
From Stdlib Require Import Strings.Byte NArith ZArith Floats.SpecFloat Lia.
From S2P Require Import Prelude Storekey KeyLayout.
Local Open Scope N_scope.
Local Open Scope moraine_scope.

Definition MAX_INDEX_KEY_BYTES : N := 1024.

(** ** Data *)

Inductive IntWidth : Type := I8 | I16 | I32 | I64 | I128.

Definition IntWidth_bytes (w : IntWidth) : nat :=
  match w with I8 => 1 | I16 => 2 | I32 => 4 | I64 => 8 | I128 => 16 end.

(** Whether a signed value is representable at this width; an [i128] always is. *)
Definition holds_signed (w : IntWidth) (value : Z) : bool :=
  match w with
  | I128 => true
  | _ =>
      let bits := (Z.of_nat (IntWidth_bytes w) * 8)%Z in
      ((- 2 ^ (bits - 1) <=? value) && (value <? 2 ^ (bits - 1)))%Z
  end.

Definition holds_unsigned (w : IntWidth) (value : N) : bool :=
  match w with
  | I128 => true
  | _ => value <? 2 ^ (N.of_nat (IntWidth_bytes w) * 8)
  end.

Inductive IndexKeyValue : Type :=
| IV_Int (value : Z) (width : IntWidth)
| IV_UInt (value : N) (width : IntWidth)
| IV_F32 (bits : N)
| IV_F64 (bits : N)
| IV_Bool (value : bool)
| IV_Str (value : string)
| IV_Bytes (value : bytes).

Inductive Direction : Type := Ascending | Descending.
Inductive NullOrder : Type := NullsFirst | NullsLast.

Record OrderedColumn : Type := mkOrderedColumn {
  oc_value : option IndexKeyValue;
  oc_direction : Direction;
  oc_nulls : NullOrder;
}.

#[export] Instance IntWidth_eq_dec : EqDecision IntWidth.
Proof. solve_decision. Defined.
#[export] Instance Direction_eq_dec : EqDecision Direction.
Proof. solve_decision. Defined.
#[export] Instance NullOrder_eq_dec : EqDecision NullOrder.
Proof. solve_decision. Defined.

(** ** Floats by bit pattern *)

(** [f.is_nan()] for a format with [mw] mantissa and [ew] exponent bits. *)
Definition float_is_nan (mw ew bits : N) : bool :=
  ((bits / 2 ^ mw) mod 2 ^ ew =? 2 ^ ew - 1) && negb (bits mod 2 ^ mw =? 0).

(** [(f + 0.0).to_bits()] for a non-NaN [f]: [-0.0] becomes [+0.0], every other
    value is unchanged ([float_plus_zero_spec] below). *)
Definition float_plus_zero (w bits : N) : N := if bits =? 2 ^ (w - 1) then 0 else bits.

(** The order-preserving transform of a [w]-bit pattern: the sign bit of a
    non-negative value is flipped, every bit of a negative one.  The mask's
    second operand is [0.wrapping_sub(bits >> (w - 1))]. *)
Definition float_mask (w bits : N) : N :=
  N.lor (2 ^ (w - 1)) ((2 ^ w - N.shiftr bits (w - 1)) mod 2 ^ w).

Definition F32_CANONICAL_NAN : N := 0x7fc00000.
Definition F64_CANONICAL_NAN : N := 0x7ff8000000000000.

Definition encode_float (mw ew canonical_nan : N) (width : nat) (value : N) : bytes :=
  let w := 1 + ew + mw in
  let bits := if float_is_nan mw ew value then canonical_nan else float_plus_zero w value in
  be_bytes width (N.lxor bits (float_mask w bits)).

(** [value.to_be_bytes()[size_of::<i128>() - width..]]. *)
Definition be_suffix (width : nat) (value : N) : bytes := drop (16 - width) (be_bytes 16 value).

(** [bytes[0] ^= 0x80]. *)
Definition flip_sign (bs : bytes) : bytes :=
  match bs with
  | b :: rest => u8 (N.lxor (Byte.to_N b) 0x80) :: rest
  | [] => []
  end.

Definition i128_bits (value : Z) : N := Z.to_N (value mod 2 ^ 128).

(** [IndexKeyValue::encode]. *)
Definition IndexKeyValue_encode (v : IndexKeyValue) : bytes :=
  match v with
  | IV_Int value width => flip_sign (be_suffix (IntWidth_bytes width) (i128_bits value))
  | IV_UInt value width => be_suffix (IntWidth_bytes width) value
  | IV_F32 value => encode_float 23 8 F32_CANONICAL_NAN 4 value
  | IV_F64 value => encode_float 52 11 F64_CANONICAL_NAN 8 value
  | IV_Bool value => [if value then x01 else x00]
  | IV_Str value => String.list_byte_of_string value
  | IV_Bytes value => value
  end.

(** [IndexKeyValue::encoded_len]. *)
Definition encoded_len (v : IndexKeyValue) : nat :=
  match v with
  | IV_Int _ width | IV_UInt _ width => IntWidth_bytes width
  | IV_F32 _ => 4
  | IV_F64 _ => 8
  | IV_Bool _ => 1
  | IV_Str value => String.length value
  | IV_Bytes value => length value
  end.

(** The summand of [nominal_key_bytes]: a flag byte, plus a non-null value's
    canonical bytes and their terminator. *)
Definition nominal_value_bytes (value : option IndexKeyValue) : nat :=
  match value with Some v => 1 + encoded_len v + 1 | None => 1 end.

Definition nominal_key_bytes (values : list (option IndexKeyValue)) : nat :=
  sum_list_with nominal_value_bytes values.

Definition null_flags (nulls : NullOrder) : byte * byte :=
  match nulls with NullsFirst => (x00, x01) | NullsLast => (x01, x00) end.

Definition non_null_flag_key (nulls : NullOrder) : CanonicalKey :=
  let '(_, non_null_flag) := null_flags nulls in mkCanonicalKey [non_null_flag].

(** Whether an integer value fits the width its column declares. *)
Definition value_fits (v : IndexKeyValue) : bool :=
  match v with
  | IV_Int value width => holds_signed width value
  | IV_UInt value width => holds_unsigned width value
  | _ => true
  end.

Section Encode.
Context `{Storekey}.

(** [frame_bytes]: one storekey byte string. *)
Definition frame_bytes (raw : bytes) : bytes := write_slice raw.

(** The column loop of [encode_ordered_key]: [total] and [out] are its locals. *)
Fixpoint encode_columns (columns : list OrderedColumn) (total : N) (out : bytes)
  : result (N * bytes) :=
  match columns with
  | [] => Ok (total, out)
  | column :: rest =>
      let '(null_flag, non_null_flag) := null_flags (oc_nulls column) in
      match oc_value column with
      | None => encode_columns rest total (out ++ [null_flag])
      | Some value =>
          if negb (value_fits value) then Err Constraint
          else
            let raw := IndexKeyValue_encode value in
            let framed := frame_bytes raw in
            encode_columns rest (total + N.of_nat (length raw))
              ((out ++ [non_null_flag]) ++
               match oc_direction column with
               | Ascending => framed
               | Descending => map byte_not framed
               end)
      end
  end.

(** [encode_ordered_key]. *)
Definition encode_ordered_key (columns : list OrderedColumn) : result CanonicalKey :=
  '(total, out) ← encode_columns columns 0 [];
  if MAX_INDEX_KEY_BYTES <? total then Err Constraint else Ok (mkCanonicalKey out).

(** [encode_ordered_values]: missing directions and placements default to
    ascending, NULLS LAST. *)
Definition encode_ordered_values (values : list (option IndexKeyValue))
    (directions : list Direction) (nulls : list NullOrder) : result CanonicalKey :=
  encode_ordered_key
    (imap (fun index value => mkOrderedColumn value
             (default Ascending (directions !! index))
             (default NullsLast (nulls !! index))) values).

(** [encode_key]: the all-ascending, non-null equality case. *)
Definition encode_key (values : list IndexKeyValue) : result CanonicalKey :=
  encode_ordered_key (map (fun v => mkOrderedColumn (Some v) Ascending NullsLast) values).

(** [key.rs]: the bytes one index entry stages, key and value together. *)
Definition index_entry_bytes (values : list (option IndexKeyValue)) : N :=
  N.of_nat (INDEX_ENTRY_PREFIX_LEN + nominal_key_bytes values + size_of_u64).
End Encode.

Example golden_signed_zero :
  IndexKeyValue_encode (IV_Int 0 I64) = [x80; x00; x00; x00; x00; x00; x00; x00].
Proof. vm_compute. reflexivity. Qed.
Example golden_signed_minus_one :
  IndexKeyValue_encode (IV_Int (-1) I16) = [x7f; xff].
Proof. vm_compute. reflexivity. Qed.
Example golden_float_one :
  IndexKeyValue_encode (IV_F64 0x3ff0000000000000) = [xbf; xf0; x00; x00; x00; x00; x00; x00].
Proof. vm_compute. reflexivity. Qed.
Example golden_float_neg_zero :
  IndexKeyValue_encode (IV_F32 0x80000000) = IndexKeyValue_encode (IV_F32 0).
Proof. vm_compute. reflexivity. Qed.

(** ** The reference order of values *)

(** The IEEE value of a bit pattern: [mw] mantissa bits, [ew] exponent bits,
    least exponent [emin]. *)
Definition float_spec (mw ew : N) (emin : Z) (bits : N) : spec_float :=
  let s := 2 ^ (mw + ew) <=? bits in
  let e := (bits / 2 ^ mw) mod 2 ^ ew in
  let m := bits mod 2 ^ mw in
  if e =? 2 ^ ew - 1 then (if m =? 0 then S754_infinity s else S754_nan)
  else if e =? 0 then
    match m with N0 => S754_zero s | Npos p => S754_finite s p emin end
  else
    match 2 ^ mw + m with
    | N0 => S754_nan
    | Npos p => S754_finite s p (emin + Z.of_N e - 1)
    end.

Definition f32_spec : N -> spec_float := float_spec 23 8 (-149).
Definition f64_spec : N -> spec_float := float_spec 52 11 (-1074).

(** SQL's total order of floats: the IEEE order, every NaN equal and greatest. *)
Definition float_compare (a b : spec_float) : comparison :=
  match a, b with
  | S754_nan, S754_nan => Eq
  | S754_nan, _ => Gt
  | _, S754_nan => Lt
  | _, _ => default Eq (SFcompare a b)
  end.

Definition bool_compare (a b : bool) : comparison :=
  match a, b with
  | false, true => Lt | true, false => Gt | _, _ => Eq
  end.

(** The order of two values of one column; values of different columns' types
    never meet in one index. *)
Definition value_compare (a b : IndexKeyValue) : comparison :=
  match a, b with
  | IV_Int x _, IV_Int y _ => (x ?= y)%Z
  | IV_UInt x _, IV_UInt y _ => (x ?= y)%N
  | IV_F32 x, IV_F32 y => float_compare (f32_spec x) (f32_spec y)
  | IV_F64 x, IV_F64 y => float_compare (f64_spec x) (f64_spec y)
  | IV_Bool x, IV_Bool y => bool_compare x y
  | IV_Str x, IV_Str y =>
      bytes_compare (String.list_byte_of_string x) (String.list_byte_of_string y)
  | IV_Bytes x, IV_Bytes y => bytes_compare x y
  | _, _ => Eq
  end.

(** Two values of one column: same category, same width. *)
Definition same_type (a b : IndexKeyValue) : Prop :=
  match a, b with
  | IV_Int _ w, IV_Int _ w' | IV_UInt _ w, IV_UInt _ w' => w = w'
  | IV_F32 _, IV_F32 _ | IV_F64 _, IV_F64 _ | IV_Bool _, IV_Bool _
  | IV_Str _, IV_Str _ | IV_Bytes _, IV_Bytes _ => True
  | _, _ => False
  end.

(** The range of the Rust type holding the value: [i128], [u128], [f32], [f64]. *)
Definition value_in_type (v : IndexKeyValue) : Prop :=
  match v with
  | IV_Int x _ => (- 2 ^ 127 <= x < 2 ^ 127)%Z
  | IV_UInt x _ => x < 2 ^ 128
  | IV_F32 x => x < 2 ^ 32
  | IV_F64 x => x < 2 ^ 64
  | _ => True
  end.

Definition nulls_compare (nulls : NullOrder) : comparison :=
  match nulls with NullsFirst => Lt | NullsLast => Gt end.

(** SQL's order of one column: NULL placement first, independent of direction. *)
Definition column_compare (a b : OrderedColumn) : comparison :=
  match oc_value a, oc_value b with
  | None, None => Eq
  | None, Some _ => nulls_compare (oc_nulls a)
  | Some _, None => CompOpp (nulls_compare (oc_nulls a))
  | Some x, Some y =>
      match oc_direction a with
      | Ascending => value_compare x y
      | Descending => CompOpp (value_compare x y)
      end
  end.

Definition tuple_compare : list OrderedColumn -> list OrderedColumn -> comparison :=
  list_compare column_compare.

(** Two keys of one index: the same columns, declared the same way. *)
Definition same_column (a b : OrderedColumn) : Prop :=
  oc_direction a = oc_direction b /\ oc_nulls a = oc_nulls b
  /\ match oc_value a, oc_value b with Some x, Some y => same_type x y | _, _ => True end.

Definition column_in_type (c : OrderedColumn) : Prop :=
  match oc_value c with Some v => value_in_type v | None => True end.

(** ** Integers *)

Lemma be_bytes_mod w n : be_bytes w (n mod 256 ^ N.of_nat w) = be_bytes w n.
Proof.
  destruct w as [|w]; [done|]. cbn [be_bytes].
  pose proof (pow256_pos w). pose proof (pow256_succ w) as E.
  f_equal.
  - apply to_N_inj. rewrite !to_N_u8, E.
    rewrite N.mul_comm, N.Div0.mod_mul_r by lia.
    rewrite N.add_comm, (N.mul_comm (256 ^ _)), N.div_add_l by lia.
    rewrite (N.div_small (n mod _)) by (apply N.mod_lt; lia).
    by rewrite N.add_0_r, N.Div0.mod_mod.
  - rewrite E, N.mul_comm, N.Div0.mod_mul_r by lia.
    f_equal. rewrite N.mul_comm, N.Div0.mod_add. apply N.Div0.mod_mod.
Qed.

Lemma drop_be_bytes d w n : drop d (be_bytes (d + w) n) = be_bytes w n.
Proof.
  revert n; induction d as [|d IH]; intros n; [done|].
  cbn [Nat.add be_bytes drop]. rewrite IH, <-(be_bytes_mod w), <-(be_bytes_mod w n).
  f_equal. rewrite Nat2N.inj_add, N.pow_add_r.
  rewrite N.mul_comm. rewrite N.Div0.mod_mul_r.
  rewrite N.mul_comm, N.Div0.mod_add. apply N.Div0.mod_mod.
Qed.

Lemma be_suffix_eq width n : (width <= 16)%nat -> be_suffix width n = be_bytes width n.
Proof.
  intros Hw. unfold be_suffix.
  replace (be_bytes 16 n) with (be_bytes (16 - width + width) n) by (f_equal; lia).
  apply drop_be_bytes.
Qed.

Lemma byte_xor_sign (b : byte) : N.lxor (Byte.to_N b) 0x80 mod 256 = (Byte.to_N b + 128) mod 256.
Proof. destruct b; reflexivity. Qed.

Lemma flip_sign_be w n :
  flip_sign (be_bytes (S w) n) = be_bytes (S w) (n + 128 * 256 ^ N.of_nat w).
Proof.
  cbn [be_bytes flip_sign]. pose proof (pow256_pos w).
  rewrite N.div_add, N.Div0.mod_add by lia. f_equal.
  apply to_N_inj. rewrite to_N_u8, byte_xor_sign, !to_N_u8.
  by rewrite N.Div0.add_mod_idemp_l.
Qed.

(** A signed value in range at [w] bytes, moved to the unsigned range. *)
Lemma int_key_mod (w : nat) (v : Z) :
  (S w <= 16)%nat ->
  (- (128 * 256 ^ Z.of_nat w) <= v < 128 * 256 ^ Z.of_nat w)%Z ->
  be_bytes (S w) (i128_bits v + 128 * 256 ^ N.of_nat w)
  = be_bytes (S w) (Z.to_N (v + 128 * 256 ^ Z.of_nat w)).
Proof.
  intros Hw Hv. rewrite <-be_bytes_mod. f_equal.
  assert (P : (0 < 256 ^ Z.of_nat w)%Z) by (apply Z.pow_pos_nonneg; lia).
  assert (E : Z.of_N (256 ^ N.of_nat w) = (256 ^ Z.of_nat w)%Z)
    by (by rewrite N2Z.inj_pow, nat_N_Z).
  apply N2Z.inj. rewrite N2Z.inj_mod, pow256_succ, N2Z.inj_add, !N2Z.inj_mul, E.
  unfold i128_bits. rewrite !Z2N.id by (first [lia | apply Z.mod_pos_bound; lia]).
  replace (2 ^ 128)%Z with (256 ^ Z.of_nat (S w) * 256 ^ (15 - Z.of_nat w))%Z.
  2: { rewrite <-Z.pow_add_r by lia. replace (2 ^ 128)%Z with (256 ^ 16)%Z by reflexivity.
       f_equal. lia. }
  assert (E' : (256 ^ Z.of_nat (S w) = 256 * 256 ^ Z.of_nat w)%Z)
    by (rewrite Nat2Z.inj_succ, Z.pow_succ_r by lia; done).
  change (Z.of_N 256) with 256%Z. change (Z.of_N 128) with 128%Z.
  rewrite <-E'. set (A := (256 ^ Z.of_nat (S w))%Z) in *.
  assert (0 < 256 ^ (15 - Z.of_nat w))%Z by (apply Z.pow_pos_nonneg; lia).
  set (B := (256 ^ (15 - Z.of_nat w))%Z) in *.
  rewrite (Z.mod_eq v) by nia.
  replace (v - A * B * (v / (A * B)) + 128 * 256 ^ Z.of_nat w)%Z
    with (v + 128 * 256 ^ Z.of_nat w + - (B * (v / (A * B))) * A)%Z by ring.
  rewrite Z.mod_add by lia. apply Z.mod_small. lia.
Qed.

Lemma encode_int_eq v width :
  value_in_type (IV_Int v width) -> holds_signed width v = true ->
  exists w, IntWidth_bytes width = S w
    /\ (0 <= v + 128 * 256 ^ Z.of_nat w < 256 ^ Z.of_nat (S w))%Z
    /\ IndexKeyValue_encode (IV_Int v width)
       = be_bytes (S w) (Z.to_N (v + 128 * 256 ^ Z.of_nat w)).
Proof.
  intros Ht Hf. exists (pred (IntWidth_bytes width)). simpl in Ht.
  assert (Hw : IntWidth_bytes width = S (pred (IntWidth_bytes width))) by (by destruct width).
  assert (R : (- (128 * 256 ^ Z.of_nat (pred (IntWidth_bytes width))) <= v
               < 128 * 256 ^ Z.of_nat (pred (IntWidth_bytes width)))%Z).
  { destruct width; simpl in Hf |- *; rewrite ?andb_true_iff, ?Z.leb_le, ?Z.ltb_lt in Hf; lia. }
  split; [done|]. split.
  - rewrite Nat2Z.inj_succ, Z.pow_succ_r by lia. lia.
  - unfold IndexKeyValue_encode. rewrite be_suffix_eq by (destruct width; simpl; lia).
    rewrite Hw at 1. rewrite flip_sign_be. apply int_key_mod; [destruct width; simpl; lia|done].
Qed.

Lemma of_nat_pow256 w : Z.of_N (256 ^ N.of_nat w) = (256 ^ Z.of_nat w)%Z.
Proof. by rewrite N2Z.inj_pow, nat_N_Z. Qed.

Lemma encode_int_compare x y w :
  value_in_type (IV_Int x w) -> value_in_type (IV_Int y w) ->
  holds_signed w x = true -> holds_signed w y = true ->
  bytes_compare (IndexKeyValue_encode (IV_Int x w)) (IndexKeyValue_encode (IV_Int y w))
  = (x ?= y)%Z.
Proof.
  intros Tx Ty Fx Fy.
  destruct (encode_int_eq x w Tx Fx) as (n & En & Bx & ->).
  destruct (encode_int_eq y w Ty Fy) as (n' & En' & By & ->).
  assert (n' = n) as -> by congruence.
  rewrite be_bytes_compare by (apply N2Z.inj_lt; rewrite Z2N.id, of_nat_pow256; lia).
  rewrite Z2N.inj_compare by lia.
  destruct (Z.compare_spec x y);
    [apply Z.compare_eq_iff | apply Z.compare_lt_iff | apply Z.compare_gt_iff]; lia.
Qed.

Lemma holds_unsigned_lt w x : x < 2 ^ 128 -> holds_unsigned w x = true ->
  x < 256 ^ N.of_nat (IntWidth_bytes w).
Proof. intros Hx. destruct w; simpl; rewrite ?N.ltb_lt; try done; intros _; exact Hx. Qed.

Lemma encode_uint_compare x y w :
  value_in_type (IV_UInt x w) -> value_in_type (IV_UInt y w) ->
  holds_unsigned w x = true -> holds_unsigned w y = true ->
  bytes_compare (IndexKeyValue_encode (IV_UInt x w)) (IndexKeyValue_encode (IV_UInt y w))
  = (x ?= y)%N.
Proof.
  intros Tx Ty Fx Fy. simpl in *. rewrite !be_suffix_eq by (destruct w; simpl; lia).
  apply be_bytes_compare; by apply holds_unsigned_lt.
Qed.

(** ** Floats *)
Section FloatOrder.
Context (mw ew : N) (emin : Z) (width : nat) (cnan : N).
Hypothesis Hwidth : 256 ^ N.of_nat width = 2 ^ (1 + ew + mw).
Hypothesis Hcnan : (2 ^ ew - 1) * 2 ^ mw < cnan < 2 ^ (mw + ew).
Hypothesis Hew : 1 < 2 ^ ew.

#[local] Abbreviation M := (2 ^ mw).
#[local] Abbreviation SGN := (2 ^ (mw + ew)).
#[local] Abbreviation INF := ((2 ^ ew - 1) * 2 ^ mw).

Lemma float_size : 2 ^ (1 + ew + mw) = 2 * SGN.
Proof. replace (1 + ew + mw) with (N.succ (mw + ew)) by lia. apply N.pow_succ_r'. Qed.

Lemma float_H : SGN = M * 2 ^ ew.
Proof. apply N.pow_add_r. Qed.

Lemma float_M_pos : 0 < M.
Proof. apply N.neq_0_lt_0, N.pow_nonzero. lia. Qed.

(** The transform on either half of the bit patterns. *)
Lemma float_transform bits :
  bits < 2 * SGN ->
  N.lxor bits (float_mask (1 + ew + mw) bits)
  = if bits <? SGN then bits + SGN else 2 * SGN - 1 - bits.
Proof.
  intros Hb. unfold float_mask. rewrite float_size.
  replace (1 + ew + mw - 1) with (mw + ew) by lia. rewrite N.shiftr_div_pow2.
  pose proof float_M_pos as HM. pose proof float_H as HH.
  destruct (N.ltb_spec bits SGN) as [L|L].
  - rewrite (N.div_small bits) by done. rewrite N.sub_0_r, N.Div0.mod_same, N.lor_0_r.
    symmetry. apply N.add_nocarry_lxor. apply N.bits_inj. intros n.
    rewrite N.land_spec, N.pow2_bits_eqb, N.bits_0.
    destruct (N.eqb_spec (mw + ew) n) as [<-|]; [|by rewrite andb_false_r].
    rewrite N.testbit_eqb, N.div_small by done. done.
  - replace (bits / SGN) with 1 by (apply (N.div_unique _ _ _ (bits - SGN)); lia).
    rewrite N.mod_small by lia.
    assert (O : 2 * SGN - 1 = N.ones (1 + ew + mw)) by (rewrite N.ones_equiv, float_size; lia).
    rewrite O.
    assert (0 < SGN) by lia.
    rewrite N.lor_ones_low.
    2: { rewrite N.log2_pow2 by lia. lia. }
    fold (N.lnot bits (1 + ew + mw)). apply N.lnot_sub_low.
    apply N.log2_lt_pow2; [lia|]. by rewrite float_size.
Qed.

Definition float_key (bits : N) : Z :=
  if bits <? SGN then Z.of_N bits else (- Z.of_N (bits - SGN))%Z.

(** The IEEE class of a pattern, by its magnitude. *)
Lemma float_spec_class bits :
  bits < 2 * SGN ->
  let s := SGN <=? bits in
  let mag := if s then bits - SGN else bits in
  (INF < mag /\ float_spec mw ew emin bits = S754_nan)
  \/ (mag = INF /\ float_spec mw ew emin bits = S754_infinity s)
  \/ (mag = 0 /\ float_spec mw ew emin bits = S754_zero s)
  \/ (exists e m p, 0 < mag < INF /\ mag = e * M + m /\ m < M
      /\ Npos p = m + (if e =? 0 then 0 else M)
      /\ float_spec mw ew emin bits
         = S754_finite s p (emin + Z.of_N (N.max e 1) - 1)).
Proof.
  intros Hb s mag. pose proof float_M_pos as HM. pose proof float_H as HH.
  assert (Hmag : mag < SGN) by (subst s mag; destruct (N.leb_spec SGN bits); lia).
  assert (Ee : (bits / M) mod 2 ^ ew = mag / M).
  { subst s mag. destruct (N.leb_spec SGN bits) as [L|L].
    - replace bits with ((bits - SGN) + 2 ^ ew * M) at 1 by lia.
      rewrite N.div_add by lia. rewrite <-(N.mul_1_l (2 ^ ew)) at 1. rewrite N.Div0.mod_add.
      apply N.mod_small. apply N.Div0.div_lt_upper_bound. lia.
    - apply N.mod_small. apply N.Div0.div_lt_upper_bound. lia. }
  assert (Em : bits mod M = mag mod M).
  { subst s mag. destruct (N.leb_spec SGN bits) as [L|L]; [|done].
    replace bits with ((bits - SGN) + 2 ^ ew * M) at 1 by lia. apply N.Div0.mod_add. }
  pose proof (N.div_mod mag M ltac:(lia)) as D. pose proof (N.mod_lt mag M ltac:(lia)) as R.
  assert (Q : mag / M < 2 ^ ew) by (apply N.Div0.div_lt_upper_bound; lia).
  unfold float_spec. rewrite Ee, Em. fold s.
  set (e := mag / M) in *. set (m := mag mod M) in *. clearbody e m.
  destruct (N.eqb_spec e (2 ^ ew - 1)) as [E1|E1].
  { destruct (N.eqb_spec m 0); [right; left | left]; split; try done; nia. }
  destruct (N.eqb_spec e 0) as [E0|E0].
  { destruct m as [|p] eqn:Em0; [right; right; left; split; [nia|done]|].
    right; right; right. exists 0, (Npos p), p. subst e. rewrite N.eqb_refl, N.add_0_r.
    repeat split; try done; try nia. f_equal. simpl. lia. }
  right; right; right. destruct (M + m) as [|p] eqn:Ep; [lia|].
  exists e, m, p. rewrite (proj2 (N.eqb_neq e 0)) by done.
  repeat split; try done; try nia. f_equal. lia.
Qed.

(** Finite values of one sign: exponent, then significand, is the magnitude. *)
Lemma float_finite_compare e1 m1 p1 e2 m2 p2 :
  m1 < M -> m2 < M ->
  Npos p1 = m1 + (if e1 =? 0 then 0 else M) ->
  Npos p2 = m2 + (if e2 =? 0 then 0 else M) ->
  match Z.compare (emin + Z.of_N (N.max e1 1) - 1) (emin + Z.of_N (N.max e2 1) - 1) with
  | Lt => Lt | Gt => Gt | Eq => Pos.compare_cont Eq p1 p2
  end = (e1 * M + m1 ?= e2 * M + m2)%N.
Proof.
  intros L1 L2 P1 P2. change (Pos.compare_cont Eq p1 p2) with (N.compare (Npos p1) (Npos p2)).
  destruct (Z.compare_spec (emin + Z.of_N (N.max e1 1) - 1) (emin + Z.of_N (N.max e2 1) - 1));
    rewrite ?P1, ?P2; destruct (N.eqb_spec e1 0), (N.eqb_spec e2 0); subst; symmetry;
    try lia;
    try (apply N.compare_lt_iff; nia); try (apply N.compare_gt_iff; nia).
  - f_equal; lia.
  - replace e2 with 1 by lia. transitivity Lt;
      [apply N.compare_lt_iff; lia | symmetry; apply N.compare_lt_iff; lia].
  - replace e1 with 1 by lia. transitivity Gt;
      [apply N.compare_gt_iff; lia | symmetry; apply N.compare_gt_iff; lia].
  - replace e2 with e1 by lia. set (B := e1 * M). clearbody B. set (P := M). clearbody P.
    destruct (N.compare_spec m1 m2);
      [subst; by rewrite !N.compare_refl
      | transitivity Lt; [|symmetry]; apply N.compare_lt_iff; lia
      | transitivity Gt; [|symmetry]; apply N.compare_gt_iff; lia].
Qed.

Lemma float_nan_iff bits :
  bits < 2 * SGN -> float_is_nan mw ew bits = true <-> float_spec mw ew emin bits = S754_nan.
Proof.
  intros Hb. unfold float_is_nan, float_spec.
  destruct (N.eqb_spec ((bits / M) mod 2 ^ ew) (2 ^ ew - 1)) as [E|E]; simpl.
  - destruct (N.eqb_spec (bits mod M) 0); simpl; done.
  - split; [done|]. destruct (N.eqb_spec ((bits / M) mod 2 ^ ew) 0).
    + by destruct (bits mod M).
    + pose proof float_M_pos. destruct (M + bits mod M) eqn:Ez; [|done].
      apply N.eq_add_0 in Ez as [Ez _]. lia.
Qed.

(** The value of a pattern's transform, by its key. *)
Definition float_total (bits : N) : N :=
  let b := if float_is_nan mw ew bits then cnan else float_plus_zero (1 + ew + mw) bits in
  N.lxor b (float_mask (1 + ew + mw) b).

Lemma float_total_eq bits :
  bits < 2 * SGN ->
  Z.of_N (float_total bits) =
    if float_is_nan mw ew bits then (Z.of_N cnan + Z.of_N SGN)%Z
    else let k := float_key bits in
      if (k <? 0)%Z then (Z.of_N SGN - 1 + k)%Z else (Z.of_N SGN + k)%Z.
Proof.
  intros Hb. unfold float_total, float_plus_zero, float_key.
  replace (1 + ew + mw - 1) with (mw + ew) by lia.
  pose proof float_M_pos. pose proof float_H. destruct (float_is_nan mw ew bits).
  - rewrite float_transform by lia. destruct (N.ltb_spec cnan SGN); lia.
  - destruct (N.eqb_spec bits SGN) as [->|E].
    + rewrite float_transform by lia. destruct (N.ltb_spec 0 SGN), (N.ltb_spec SGN SGN); try lia.
      cbv zeta. destruct (Z.ltb_spec (- Z.of_N (SGN - SGN)) 0); lia.
    + rewrite float_transform by done. cbv zeta. destruct (N.ltb_spec bits SGN).
      * destruct (Z.ltb_spec (Z.of_N bits) 0); lia.
      * destruct (Z.ltb_spec (- Z.of_N (bits - SGN)) 0); lia.
Qed.

Lemma float_total_lt bits : bits < 2 * SGN -> float_total bits < 256 ^ N.of_nat width.
Proof.
  intros Hb. rewrite Hwidth, float_size. pose proof (float_total_eq bits Hb) as E.
  pose proof float_M_pos. pose proof float_H. unfold float_key in E. cbv zeta in E.
  destruct (float_is_nan mw ew bits); [lia|].
  destruct (N.ltb_spec bits SGN).
  - destruct (Z.ltb_spec (Z.of_N bits) 0); lia.
  - destruct (Z.ltb_spec (- Z.of_N (bits - SGN)) 0); lia.
Qed.

(** On non-NaN patterns the IEEE order is the order of the signed magnitudes. *)
Lemma float_spec_compare a b :
  a < 2 * SGN -> b < 2 * SGN ->
  float_spec mw ew emin a <> S754_nan -> float_spec mw ew emin b <> S754_nan ->
  float_compare (float_spec mw ew emin a) (float_spec mw ew emin b)
  = (float_key a ?= float_key b)%Z.
Proof.
  intros Ha Hb Na Nb.
  assert (K : forall x, float_key x =
    if SGN <=? x then (- Z.of_N (x - SGN))%Z else Z.of_N x).
  { intros x. unfold float_key. by rewrite N.ltb_antisym; destruct (SGN <=? x). }
  rewrite !K. pose proof float_M_pos as HM.
  assert (0 < INF) by nia.
  pose proof (float_spec_class a Ha) as Ca. pose proof (float_spec_class b Hb) as Cb.
  cbv zeta in Ca, Cb.
  destruct Ca as [[_ ?]|[[Ma ->]|[[Ma ->]|(ea & ma & pa & Ra & Ma & La & Pa & ->)]]]; [done|..];
  destruct Cb as [[_ ?]|[[Mb ->]|[[Mb ->]|(eb & mb & pb & Rb & Mb & Lb & Pb & ->)]]]; try done;
  cbn [float_compare SFcompare default];
  try (pose proof (float_finite_compare ea ma pa eb mb pb La Lb Pa Pb) as F;
       rewrite <-Ma, <-Mb in F);
  destruct (SGN <=? a), (SGN <=? b); cbv [default from_option id];
  first
    [ symmetry; apply Z.compare_eq_iff; lia
    | symmetry; apply Z.compare_lt_iff; lia
    | symmetry; apply Z.compare_gt_iff; lia
    | rewrite F; by rewrite N2Z.inj_compare
    | idtac ].
  rewrite Z.compare_opp, N2Z.inj_compare, N.compare_antisym, <-F.
  by destruct (_ ?= _)%Z.
Qed.

Lemma encode_float_compare a b :
  a < 2 * SGN -> b < 2 * SGN ->
  bytes_compare (encode_float mw ew cnan width a) (encode_float mw ew cnan width b)
  = float_compare (float_spec mw ew emin a) (float_spec mw ew emin b).
Proof.
  intros Ha Hb.
  change (encode_float mw ew cnan width b) with (be_bytes width (float_total b)).
  change (encode_float mw ew cnan width a) with (be_bytes width (float_total a)).
  rewrite be_bytes_compare, <-N2Z.inj_compare, !float_total_eq by auto using float_total_lt.
  assert (Cpos : 0 < cnan) by (eapply N.le_lt_trans; [apply N.le_0_l | apply Hcnan]).
  assert (Kb : forall x, x < 2 * SGN -> float_is_nan mw ew x = false ->
    (float_key x < Z.of_N cnan)%Z).
  { intros x Hx Nx. pose proof (float_spec_class x Hx) as C. unfold float_key.
    rewrite N.ltb_antisym. cbv zeta in C. destruct (SGN <=? x); simpl; [lia|].
    destruct C as [[? E]|[[? _]|[[? _]|(? & ? & ? & ? & _)]]]; try lia.
    apply float_nan_iff in E; [congruence|done]. }
  destruct (float_is_nan mw ew a) eqn:Na, (float_is_nan mw ew b) eqn:Nb.
  - apply float_nan_iff in Na as ->; [|done]. apply float_nan_iff in Nb as ->; [|done].
    simpl. apply Z.compare_refl.
  - apply float_nan_iff in Na as ->; [|done]. pose proof (Kb b Hb Nb). cbv zeta.
    transitivity Gt; [apply Z.compare_gt_iff; destruct (Z.ltb_spec (float_key b) 0); lia|].
    destruct (float_spec mw ew emin b) eqn:E; try done.
    apply float_nan_iff in E; [congruence|done].
  - apply float_nan_iff in Nb as ->; [|done]. pose proof (Kb a Ha Na). cbv zeta.
    transitivity Lt; [apply Z.compare_lt_iff; destruct (Z.ltb_spec (float_key a) 0); lia|].
    destruct (float_spec mw ew emin a) eqn:E; try done.
    apply float_nan_iff in E; [congruence|done].
  - rewrite float_spec_compare by (done || by intros E%float_nan_iff; congruence).
    cbv zeta. destruct (Z.ltb_spec (float_key a) 0), (Z.ltb_spec (float_key b) 0),
      (Z.compare_spec (float_key a) (float_key b)); try lia;
      first [apply Z.compare_eq_iff; lia | apply Z.compare_lt_iff; lia
            | apply Z.compare_gt_iff; lia].
Qed.

(** [float_plus_zero] is IEEE addition of [+0.0]. *)
Lemma float_plus_zero_spec bits prec emax :
  bits < 2 * SGN -> float_spec mw ew emin bits <> S754_nan ->
  float_spec mw ew emin (float_plus_zero (1 + ew + mw) bits)
  = SFadd prec emax (float_spec mw ew emin bits) (S754_zero false).
Proof.
  intros Hb Hn. unfold float_plus_zero. replace (1 + ew + mw - 1) with (mw + ew) by lia.
  pose proof float_M_pos as HM. pose proof float_H as HH.
  pose proof (float_spec_class bits Hb) as C. cbv zeta in C.
  destruct (N.eqb_spec bits SGN) as [->|E].
  - rewrite N.leb_refl, N.sub_diag in C.
    assert (Z0 : float_spec mw ew emin 0 = S754_zero false).
    { destruct (float_spec_class 0 ltac:(lia)) as [[? _]|[[? _]|[[_ ->]|(?&?&?&?&_)]]];
        destruct (N.leb_spec SGN 0); try lia; try nia. done. }
    destruct C as [[? ?]|[[? ?]|[[? ->]|(? & ? & ? & ? & _)]]]; try nia; try lia. by rewrite Z0.
  - destruct C as [[_ C]|[[_ C]|[[C0 C]|(? & ? & ? & _ & _ & _ & _ & C)]]]; rewrite C; try done.
    destruct (N.leb_spec SGN bits); [lia|done].
Qed.
End FloatOrder.

(** ** Values, columns, tuples *)

Lemma encode_value_compare a b :
  same_type a b -> value_in_type a -> value_in_type b ->
  value_fits a = true -> value_fits b = true ->
  bytes_compare (IndexKeyValue_encode a) (IndexKeyValue_encode b) = value_compare a b.
Proof.
  intros S Ta Tb Fa Fb. destruct a, b; try done; simpl in S.
  - subst. by apply encode_int_compare.
  - subst. by apply encode_uint_compare.
  - by apply (encode_float_compare 23 8 (-149) 4).
  - by apply (encode_float_compare 52 11 (-1074) 8).
  - by destruct value, value0.
Qed.

Lemma length_be_suffix w n : (w <= 16)%nat -> length (be_suffix w n) = w.
Proof. intros. rewrite be_suffix_eq by done. apply length_be_bytes. Qed.

Lemma length_encode v : length (IndexKeyValue_encode v) = encoded_len v.
Proof.
  destruct v; simpl; try (unfold encode_float; apply length_be_bytes); try done.
  - transitivity (length (be_suffix (IntWidth_bytes width) (i128_bits value))).
    + by destruct (be_suffix _ _).
    + apply length_be_suffix. destruct width; simpl; lia.
  - apply length_be_suffix. destruct width; simpl; lia.
  - unfold String.list_byte_of_string. rewrite length_map.
    by induction value as [|c s IH]; simpl; [|rewrite IH].
Qed.

Section EncodeLaws.
Context `{StorekeyLaws}.

(** The complement of framed strings reverses them, lengths included. *)
Lemma escape_compare_not a b ra rb :
  bytes_compare (map byte_not (escape a) ++ byte_not x00 :: ra)
                (map byte_not (escape b) ++ byte_not x00 :: rb)
  = (CompOpp (bytes_compare a b) ⨟ bytes_compare ra rb).
Proof.
  revert b; induction a as [|x a IH]; intros [|y b]; simpl.
  - done.
  - unfold escape_byte. destruct (N.leb_spec (Byte.to_N y) 1); simpl; [done|].
    rewrite bytes_compare_cons, byte_compare_not. unfold byte_compare.
    by rewrite (proj2 (N.compare_gt_iff _ _)) by (simpl; lia).
  - unfold escape_byte. destruct (N.leb_spec (Byte.to_N x) 1); simpl; [done|].
    rewrite bytes_compare_cons, byte_compare_not. unfold byte_compare.
    by rewrite (proj2 (N.compare_lt_iff _ _)) by (simpl; lia).
  - rewrite bytes_compare_cons, thenc_CompOpp, thenc_assoc, <-IH.
    rewrite <-byte_compare_antisym, <-byte_compare_not. unfold escape_byte.
    destruct (N.leb_spec (Byte.to_N x) 1), (N.leb_spec (Byte.to_N y) 1); simpl;
      rewrite ?bytes_compare_cons; try done; rewrite !byte_compare_not; unfold byte_compare.
    + rewrite !(proj2 (N.compare_gt_iff _ _)) by (simpl; lia). done.
    + rewrite !(proj2 (N.compare_lt_iff _ _)) by (simpl; lia). done.
Qed.

(** The bytes one column contributes to the key. *)
Definition column_blob (c : OrderedColumn) : bytes :=
  let '(null_flag, non_null_flag) := null_flags (oc_nulls c) in
  match oc_value c with
  | None => [null_flag]
  | Some v =>
      non_null_flag ::
      match oc_direction c with
      | Ascending => frame_bytes (IndexKeyValue_encode v)
      | Descending => map byte_not (frame_bytes (IndexKeyValue_encode v))
      end
  end.

Definition column_size (c : OrderedColumn) : N :=
  match oc_value c with Some v => N.of_nat (encoded_len v) | None => 0 end.

Definition column_fits (c : OrderedColumn) : bool :=
  match oc_value c with Some v => value_fits v | None => true end.

Fixpoint columns_size (cs : list OrderedColumn) : N :=
  match cs with [] => 0 | c :: cs => column_size c + columns_size cs end.

Lemma encode_columns_eq cs total out :
  encode_columns cs total out =
  if forallb column_fits cs
  then Ok (total + columns_size cs, out ++ flat_map column_blob cs)
  else Err Constraint.
Proof.
  revert total out; induction cs as [|c cs IH]; intros total out; simpl.
  { by rewrite N.add_0_r, app_nil_r. }
  unfold column_fits at 1, column_blob at 1, column_size.
  destruct (null_flags (oc_nulls c)) as [nf nnf]. destruct (oc_value c) as [v|]; simpl.
  - destruct (value_fits v); simpl; [|done]. rewrite IH, length_encode.
    destruct (forallb column_fits cs); [|done]. f_equal. f_equal; [lia|].
    by rewrite <-!app_assoc.
  - rewrite IH. destruct (forallb column_fits cs); [|done].
    by rewrite N.add_0_l, <-app_assoc.
Qed.

Lemma encode_ordered_key_eq cs :
  encode_ordered_key cs =
  if forallb column_fits cs && (columns_size cs <=? MAX_INDEX_KEY_BYTES)
  then Ok (mkCanonicalKey (flat_map column_blob cs)) else Err Constraint.
Proof.
  unfold encode_ordered_key. rewrite encode_columns_eq.
  destruct (forallb column_fits cs); simpl; [|done].
  rewrite N.add_0_l, N.leb_antisym. by destruct (MAX_INDEX_KEY_BYTES <? columns_size cs).
Qed.

Lemma column_blob_compare a b ra rb :
  same_column a b -> column_in_type a -> column_in_type b ->
  column_fits a = true -> column_fits b = true ->
  bytes_compare (column_blob a ++ ra) (column_blob b ++ rb)
  = (column_compare a b ⨟ bytes_compare ra rb).
Proof.
  intros (Ed & En & Et) Ta Tb Fa Fb.
  unfold column_blob, column_compare, column_in_type, column_fits in *.
  rewrite <-Ed, <-En.
  destruct (oc_value a) as [x|], (oc_value b) as [y|].
  - pose proof (encode_value_compare x y Et Ta Tb Fa Fb) as <-.
    destruct (oc_nulls a), (oc_direction a); cbn [null_flags app];
      rewrite bytes_compare_cons, byte_compare_refl; cbn [thenc]; unfold frame_bytes;
      rewrite !write_slice_bytes, ?map_app, <-!app_assoc; cbn [map app];
      first [apply escape_compare | apply escape_compare_not].
  - by destruct (oc_nulls a).
  - by destruct (oc_nulls a).
  - by destruct (oc_nulls a).
Qed.

Lemma blobs_compare cs ds :
  Forall2 same_column cs ds ->
  Forall column_in_type cs -> Forall column_in_type ds ->
  forallb column_fits cs = true -> forallb column_fits ds = true ->
  bytes_compare (flat_map column_blob cs) (flat_map column_blob ds) = tuple_compare cs ds.
Proof.
  induction 1 as [|c d cs ds S _ IH]; [done|]. intros Tc Td Fc Fd.
  inversion_clear Tc. inversion_clear Td. simpl in Fc, Fd.
  apply andb_true_iff in Fc as [? ?]. apply andb_true_iff in Fd as [? ?].
  simpl. rewrite column_blob_compare by done. by rewrite IH.
Qed.
End EncodeLaws.

(** ** Properties *)

(** C21: on keys of one index (same columns, directions and NULL placements) byte
    order is SQL tuple order, and two tuples share a key exactly when every
    column is equal, with NaN equal to NaN and [-0.0] to [+0.0]. *)
Theorem index_key_order `{StorekeyLaws} (cs ds : list OrderedColumn) (a b : CanonicalKey) :
  Forall2 same_column cs ds -> Forall column_in_type cs -> Forall column_in_type ds ->
  encode_ordered_key cs = Ok a -> encode_ordered_key ds = Ok b ->
  CanonicalKey_compare a b = tuple_compare cs ds
  /\ (a = b <-> tuple_compare cs ds = Eq).
Proof.
  rewrite !encode_ordered_key_eq. intros S Tc Td.
  destruct (forallb column_fits cs) eqn:Fc; [|done].
  destruct (forallb column_fits ds) eqn:Fd; [|done].
  destruct (columns_size cs <=? _); [|done]. destruct (columns_size ds <=? _); [|done].
  simpl. intros [= <-] [= <-]. unfold CanonicalKey_compare; simpl.
  rewrite <-(blobs_compare cs ds) by done. split; [done|]. split.
  - intros [= ->]. apply bytes_compare_refl.
  - by intros ->%bytes_compare_eq.
Qed.

Definition witness_columns (a : Z) (b : option N) : list OrderedColumn :=
  [mkOrderedColumn (Some (IV_Int a I64)) Ascending NullsLast;
   mkOrderedColumn (IV_F64 <$> b) Descending NullsFirst].

Definition witness_key (cs : list OrderedColumn) : CanonicalKey :=
  match @encode_ordered_key reference_storekey cs with Ok k => k | Err _ => CanonicalKey_empty end.

Lemma index_key_order_witness :
  CanonicalKey_compare (witness_key (witness_columns (-1) (Some 0x3ff0000000000000)))
    (witness_key (witness_columns (-1) (Some 0xbff0000000000000))) = Lt.
Proof.
  transitivity (tuple_compare (witness_columns (-1) (Some 0x3ff0000000000000))
    (witness_columns (-1) (Some 0xbff0000000000000))); [|vm_compute; reflexivity].
  apply (proj1 (@index_key_order _ reference_storekey_laws
    (witness_columns (-1) (Some 0x3ff0000000000000))
    (witness_columns (-1) (Some 0xbff0000000000000)) _ _
    ltac:(repeat constructor) ltac:(repeat constructor; simpl; lia)
    ltac:(repeat constructor; simpl; lia)
    ltac:(vm_compute; reflexivity) ltac:(vm_compute; reflexivity))).
Defined.

(** What the widths of the declared types can hold, in figures. *)
Definition representable (v : IndexKeyValue) : Prop :=
  match v with
  | IV_Int x I8 => (-128 <= x <= 127)%Z
  | IV_Int x I16 => (-32768 <= x <= 32767)%Z
  | IV_Int x I32 => (-2147483648 <= x <= 2147483647)%Z
  | IV_Int x I64 => (-9223372036854775808 <= x <= 9223372036854775807)%Z
  | IV_UInt x I8 => x <= 255
  | IV_UInt x I16 => x <= 65535
  | IV_UInt x I32 => x <= 4294967295
  | IV_UInt x I64 => x <= 18446744073709551615
  | _ => True
  end.
(** The bytes a value takes: its width, or its own length. *)
Definition value_size (v : IndexKeyValue) : nat :=
  match v with
  | IV_Int _ I8 | IV_UInt _ I8 | IV_Bool _ => 1
  | IV_Int _ I16 | IV_UInt _ I16 => 2
  | IV_Int _ I32 | IV_UInt _ I32 | IV_F32 _ => 4
  | IV_Int _ I64 | IV_UInt _ I64 | IV_F64 _ => 8
  | IV_Int _ I128 | IV_UInt _ I128 => 16
  | IV_Str text => String.length text
  | IV_Bytes body => length body
  end.
Definition values_of (cs : list OrderedColumn) : list IndexKeyValue := omap oc_value cs.

Lemma value_fits_iff v : value_fits v = true <-> representable v.
Proof.
  destruct v as [x []|x []| | | | |]; cbn; try done;
    rewrite ?andb_true_iff, ?Z.leb_le, ?Z.ltb_lt, ?N.ltb_lt; lia.
Qed.

Lemma columns_size_sum cs : columns_size cs = N.of_nat (sum_list_with value_size (values_of cs)).
Proof.
  induction cs as [|c cs IH]; [done|]. unfold values_of in *. cbn [columns_size omap list_omap]. rewrite IH. unfold column_size.
  destruct (oc_value c) as [v|]; [|done]. cbn [sum_list_with].
  assert (E : value_size v = encoded_len v) by (by destruct v as [? []|? []| | | | |]). rewrite E. lia.
Qed.

Lemma columns_fit_iff cs : forallb column_fits cs = true <-> Forall representable (values_of cs).
Proof.
  unfold values_of. induction cs as [|c cs IH]; [split; [constructor|done]|]. cbn [forallb omap list_omap]. rewrite andb_true_iff, IH.
  unfold column_fits. destruct (oc_value c) as [v|]; [by rewrite value_fits_iff, Forall_cons|naive_solver].
Qed.

(** C34: a key is refused exactly when some integer does not fit its declared width or
    the values together take more than 1024 bytes, and always as [Constraint]; so a key
    is never built by truncating a value.  The widths and the sizes are in figures. *)
Theorem index_key_refusal `{Storekey} (cs : list OrderedColumn) :
  (encode_ordered_key cs = Err Constraint
     <-> (exists v, v ∈ values_of cs /\ ~ representable v) \/ (1024 < sum_list_with value_size (values_of cs))%nat)
  /\ (forall e, encode_ordered_key cs = Err e -> e = Constraint).
Proof.
  rewrite encode_ordered_key_eq, columns_size_sum. pose proof (columns_fit_iff cs) as Hf.
  destruct (forallb column_fits cs); cbn [andb].
  - assert (Hr : Forall representable (values_of cs)) by (by apply Hf). rewrite Forall_forall in Hr.
    destruct (N.leb_spec (N.of_nat (sum_list_with value_size (values_of cs))) MAX_INDEX_KEY_BYTES) as [Hs|Hs];
      unfold MAX_INDEX_KEY_BYTES in Hs; (split; [split|]); try done.
    + intros [(v & Hv & Hno)|?]; [by destruct Hno; apply Hr|lia].
    + intros _. right. lia.
    + congruence.
  - split; [split; [intros _; left|done]|congruence].
    assert (Hn : ~ Forall representable (values_of cs)) by (intros [=]%Hf).
    clear Hf. induction (values_of cs) as [|v vs IH]; [by destruct Hn|].
    destruct (decide (value_fits v = true)) as [Hv|Hv]; rewrite value_fits_iff in Hv.
    + destruct IH as (w & Hw & Hnw); [by intros Hvs; destruct Hn; constructor|]. exists w. split; [by right|done].
    + exists v. split; [by left|done].
Qed.

(** C35: the nominal size of a key is its real size up to escaping: never above
    it, and never below half of it. *)
Theorem nominal_size_brackets `{StorekeyLaws} (cs : list OrderedColumn) (k : CanonicalKey) :
  encode_ordered_key cs = Ok k ->
  (nominal_key_bytes (map oc_value cs) <= length (canonical_bytes k)
   <= 2 * nominal_key_bytes (map oc_value cs))%nat.
Proof.
  rewrite encode_ordered_key_eq. destruct (_ && _); [|done]. intros [= <-]. simpl.
  assert (E : forall l, (length l <= length (escape l) <= 2 * length l)%nat).
  { induction l as [|x l IH]; simpl; [lia|]. rewrite length_app. unfold escape_byte.
    destruct (Byte.to_N x <=? 1); simpl; lia. }
  unfold nominal_key_bytes. induction cs as [|c cs IH]; simpl; [lia|]. rewrite length_app.
  enough (nominal_value_bytes (oc_value c) <= length (column_blob c)
          <= 2 * nominal_value_bytes (oc_value c))%nat by lia.
  unfold column_blob. destruct (null_flags (oc_nulls c)). destruct (oc_value c) as [v|]; simpl; [|lia].
  pose proof (E (IndexKeyValue_encode v)) as B. rewrite length_encode in B.
  destruct (oc_direction c); rewrite ?length_map; unfold frame_bytes;
    rewrite write_slice_bytes, length_app; simpl; lia.
Qed.

Lemma nominal_size_brackets_witness :
  (nominal_key_bytes (map oc_value (witness_columns 5 None))
   <= length (canonical_bytes (witness_key (witness_columns 5 None))))%nat.
Proof.
  exact (proj1 (@nominal_size_brackets _ reference_storekey_laws (witness_columns 5 None)
    (witness_key (witness_columns 5 None)) ltac:(vm_compute; reflexivity))).
Defined.
