(* ===== verification/Operations.v ===== *)
(** The typed mutation log and conflict classification
    ([transaction/operations.rs]).

    Strings are their UTF-8 bytes: every delimiter of the [changes_made] grammar
    is an ASCII character, which occurs in UTF-8 only as itself, so the
    character loops of the source and the byte loops here agree.  A [BTreeSet]
    is a [gset] read out in its key order ([in_order]).

    The theorems: what a commit records survives the wire grammar; the conflict
    relation is the documented matrix, symmetric, and monotone in what the
    commits touched; and what the loser of a race reconstructs from a winner's
    record. *)
From stdpp Require Import gmap list strings sorting.
From Stdlib Require Import Ascii NArith Lia.
From S2P Require Import Prelude.
Local Open Scope N_scope.

(** ** Operations *)

Inductive Operation : Type :=
| CreateSchema (schema_id : N) (name : string)
| DropSchema (schema_id : N)
| AlterSchema (schema_id : N)
| CreateTable (schema_id table_id : N) (schema_name table_name : string)
| AlterTable (table_id : N)
| AlterTableSorting (table_id : N)
| AdvanceIndexBuild (table_id : N)
| FinishIndexMaintenance (table_id : N)
| DropTable (table_id : N)
| RegisterDataFile (table_id : N)
| RegisterDeleteFile (table_id data_file_id : N)
| ExpireDataFile (table_id : N)
| ExpireDeleteFile (table_id : N)
| UpdateStats (table_id : N)
| CreateView (schema_id view_id : N) (schema_name view_name : string)
| AlterView (view_id : N)
| DropView (view_id : N)
| CreateMacro (schema_id macro_id : N) (schema_name macro_name macro_type : string)
| DropMacro (macro_id : N) (macro_type : string)
| InlineInsert (table_id : N)
| InlineDelete (table_id : N)
| FlushInlinedData (table_id : N).

(** [Operation::is_schema_changing]. *)
Definition is_schema_changing (op : Operation) : bool :=
  match op with
  | CreateSchema _ _ | DropSchema _ | AlterSchema _ | CreateTable _ _ _ _ | AlterTable _
  | DropTable _ | CreateView _ _ _ _ | AlterView _ | DropView _ | CreateMacro _ _ _ _ _
  | DropMacro _ _ => true
  | AlterTableSorting _ | AdvanceIndexBuild _ | FinishIndexMaintenance _ | RegisterDataFile _
  | RegisterDeleteFile _ _ | ExpireDataFile _ | ExpireDeleteFile _ | UpdateStats _
  | InlineInsert _ | InlineDelete _ | FlushInlinedData _ => false
  end.

(** [Operation::schema_changed_table_id]. *)
Definition schema_changed_table_id (op : Operation) : option N :=
  match op with
  | CreateTable _ table_id _ _ | AlterTable table_id => Some table_id
  | CreateView _ view_id _ _ | AlterView view_id => Some view_id
  | _ => None
  end.

(** ** The change set *)

Record ChangeSet : Type := mkChangeSet {
  created_schemas : gset string;
  dropped_schemas : gset N;
  created_tables : gset (string * string);
  created_table_schema_ids : gset N;
  altered_tables : gset N;
  dropped_tables : gset N;
  created_views : gset (string * string);
  created_view_schema_ids : gset N;
  altered_views : gset N;
  dropped_views : gset N;
  created_scalar_macros : gset (string * string);
  created_table_macros : gset (string * string);
  created_macro_schema_ids : gset N;
  dropped_scalar_macros : gset N;
  dropped_table_macros : gset N;
  inserted_tables : gset N;
  deleted_from_tables : gset N;
  deleted_data_file_ids : gset N;
  deletes_untargeted_files : bool;
  merge_adjacent_tables : gset N;
  rewrite_delete_tables : gset N;
  compacted_tables : gset N;
  has_unknown : bool;
}.

#[export] Instance ChangeSet_eq_dec : EqDecision ChangeSet.
Proof. solve_decision. Defined.

(** [ChangeSet::default()]. *)
Definition ChangeSet_default : ChangeSet :=
  mkChangeSet ∅ ∅ ∅ ∅ ∅ ∅ ∅ ∅ ∅ ∅ ∅ ∅ ∅ ∅ ∅ ∅ ∅ ∅ false ∅ ∅ ∅ false.

(** Assignment to one field of the set. *)
Section FieldUpdates.
Implicit Type c : ChangeSet.

Definition upd_created_schemas (f : gset string -> gset string) c : ChangeSet :=
  mkChangeSet (f (created_schemas c)) (dropped_schemas c) (created_tables c)
    (created_table_schema_ids c) (altered_tables c) (dropped_tables c) (created_views c)
    (created_view_schema_ids c) (altered_views c) (dropped_views c) (created_scalar_macros c)
    (created_table_macros c) (created_macro_schema_ids c) (dropped_scalar_macros c)
    (dropped_table_macros c) (inserted_tables c) (deleted_from_tables c)
    (deleted_data_file_ids c) (deletes_untargeted_files c) (merge_adjacent_tables c)
    (rewrite_delete_tables c) (compacted_tables c) (has_unknown c).
Definition upd_dropped_schemas (f : gset N -> gset N) c : ChangeSet :=
  mkChangeSet (created_schemas c) (f (dropped_schemas c)) (created_tables c)
    (created_table_schema_ids c) (altered_tables c) (dropped_tables c) (created_views c)
    (created_view_schema_ids c) (altered_views c) (dropped_views c) (created_scalar_macros c)
    (created_table_macros c) (created_macro_schema_ids c) (dropped_scalar_macros c)
    (dropped_table_macros c) (inserted_tables c) (deleted_from_tables c)
    (deleted_data_file_ids c) (deletes_untargeted_files c) (merge_adjacent_tables c)
    (rewrite_delete_tables c) (compacted_tables c) (has_unknown c).
Definition upd_created_tables (f : gset (string * string) -> gset (string * string)) c : ChangeSet :=
  mkChangeSet (created_schemas c) (dropped_schemas c) (f (created_tables c))
    (created_table_schema_ids c) (altered_tables c) (dropped_tables c) (created_views c)
    (created_view_schema_ids c) (altered_views c) (dropped_views c) (created_scalar_macros c)
    (created_table_macros c) (created_macro_schema_ids c) (dropped_scalar_macros c)
    (dropped_table_macros c) (inserted_tables c) (deleted_from_tables c)
    (deleted_data_file_ids c) (deletes_untargeted_files c) (merge_adjacent_tables c)
    (rewrite_delete_tables c) (compacted_tables c) (has_unknown c).
Definition upd_created_table_schema_ids (f : gset N -> gset N) c : ChangeSet :=
  mkChangeSet (created_schemas c) (dropped_schemas c) (created_tables c) (f
    (created_table_schema_ids c)) (altered_tables c) (dropped_tables c) (created_views c)
    (created_view_schema_ids c) (altered_views c) (dropped_views c) (created_scalar_macros c)
    (created_table_macros c) (created_macro_schema_ids c) (dropped_scalar_macros c)
    (dropped_table_macros c) (inserted_tables c) (deleted_from_tables c)
    (deleted_data_file_ids c) (deletes_untargeted_files c) (merge_adjacent_tables c)
    (rewrite_delete_tables c) (compacted_tables c) (has_unknown c).
Definition upd_altered_tables (f : gset N -> gset N) c : ChangeSet :=
  mkChangeSet (created_schemas c) (dropped_schemas c) (created_tables c)
    (created_table_schema_ids c) (f (altered_tables c)) (dropped_tables c) (created_views c)
    (created_view_schema_ids c) (altered_views c) (dropped_views c) (created_scalar_macros c)
    (created_table_macros c) (created_macro_schema_ids c) (dropped_scalar_macros c)
    (dropped_table_macros c) (inserted_tables c) (deleted_from_tables c)
    (deleted_data_file_ids c) (deletes_untargeted_files c) (merge_adjacent_tables c)
    (rewrite_delete_tables c) (compacted_tables c) (has_unknown c).
Definition upd_dropped_tables (f : gset N -> gset N) c : ChangeSet :=
  mkChangeSet (created_schemas c) (dropped_schemas c) (created_tables c)
    (created_table_schema_ids c) (altered_tables c) (f (dropped_tables c)) (created_views c)
    (created_view_schema_ids c) (altered_views c) (dropped_views c) (created_scalar_macros c)
    (created_table_macros c) (created_macro_schema_ids c) (dropped_scalar_macros c)
    (dropped_table_macros c) (inserted_tables c) (deleted_from_tables c)
    (deleted_data_file_ids c) (deletes_untargeted_files c) (merge_adjacent_tables c)
    (rewrite_delete_tables c) (compacted_tables c) (has_unknown c).
Definition upd_created_views (f : gset (string * string) -> gset (string * string)) c : ChangeSet :=
  mkChangeSet (created_schemas c) (dropped_schemas c) (created_tables c)
    (created_table_schema_ids c) (altered_tables c) (dropped_tables c) (f (created_views c))
    (created_view_schema_ids c) (altered_views c) (dropped_views c) (created_scalar_macros c)
    (created_table_macros c) (created_macro_schema_ids c) (dropped_scalar_macros c)
    (dropped_table_macros c) (inserted_tables c) (deleted_from_tables c)
    (deleted_data_file_ids c) (deletes_untargeted_files c) (merge_adjacent_tables c)
    (rewrite_delete_tables c) (compacted_tables c) (has_unknown c).
Definition upd_created_view_schema_ids (f : gset N -> gset N) c : ChangeSet :=
  mkChangeSet (created_schemas c) (dropped_schemas c) (created_tables c)
    (created_table_schema_ids c) (altered_tables c) (dropped_tables c) (created_views c) (f
    (created_view_schema_ids c)) (altered_views c) (dropped_views c) (created_scalar_macros c)
    (created_table_macros c) (created_macro_schema_ids c) (dropped_scalar_macros c)
    (dropped_table_macros c) (inserted_tables c) (deleted_from_tables c)
    (deleted_data_file_ids c) (deletes_untargeted_files c) (merge_adjacent_tables c)
    (rewrite_delete_tables c) (compacted_tables c) (has_unknown c).
Definition upd_altered_views (f : gset N -> gset N) c : ChangeSet :=
  mkChangeSet (created_schemas c) (dropped_schemas c) (created_tables c)
    (created_table_schema_ids c) (altered_tables c) (dropped_tables c) (created_views c)
    (created_view_schema_ids c) (f (altered_views c)) (dropped_views c) (created_scalar_macros
    c) (created_table_macros c) (created_macro_schema_ids c) (dropped_scalar_macros c)
    (dropped_table_macros c) (inserted_tables c) (deleted_from_tables c)
    (deleted_data_file_ids c) (deletes_untargeted_files c) (merge_adjacent_tables c)
    (rewrite_delete_tables c) (compacted_tables c) (has_unknown c).
Definition upd_dropped_views (f : gset N -> gset N) c : ChangeSet :=
  mkChangeSet (created_schemas c) (dropped_schemas c) (created_tables c)
    (created_table_schema_ids c) (altered_tables c) (dropped_tables c) (created_views c)
    (created_view_schema_ids c) (altered_views c) (f (dropped_views c)) (created_scalar_macros
    c) (created_table_macros c) (created_macro_schema_ids c) (dropped_scalar_macros c)
    (dropped_table_macros c) (inserted_tables c) (deleted_from_tables c)
    (deleted_data_file_ids c) (deletes_untargeted_files c) (merge_adjacent_tables c)
    (rewrite_delete_tables c) (compacted_tables c) (has_unknown c).
Definition upd_created_scalar_macros (f : gset (string * string) -> gset (string * string)) c : ChangeSet :=
  mkChangeSet (created_schemas c) (dropped_schemas c) (created_tables c)
    (created_table_schema_ids c) (altered_tables c) (dropped_tables c) (created_views c)
    (created_view_schema_ids c) (altered_views c) (dropped_views c) (f (created_scalar_macros
    c)) (created_table_macros c) (created_macro_schema_ids c) (dropped_scalar_macros c)
    (dropped_table_macros c) (inserted_tables c) (deleted_from_tables c)
    (deleted_data_file_ids c) (deletes_untargeted_files c) (merge_adjacent_tables c)
    (rewrite_delete_tables c) (compacted_tables c) (has_unknown c).
Definition upd_created_table_macros (f : gset (string * string) -> gset (string * string)) c : ChangeSet :=
  mkChangeSet (created_schemas c) (dropped_schemas c) (created_tables c)
    (created_table_schema_ids c) (altered_tables c) (dropped_tables c) (created_views c)
    (created_view_schema_ids c) (altered_views c) (dropped_views c) (created_scalar_macros c)
    (f (created_table_macros c)) (created_macro_schema_ids c) (dropped_scalar_macros c)
    (dropped_table_macros c) (inserted_tables c) (deleted_from_tables c)
    (deleted_data_file_ids c) (deletes_untargeted_files c) (merge_adjacent_tables c)
    (rewrite_delete_tables c) (compacted_tables c) (has_unknown c).
Definition upd_created_macro_schema_ids (f : gset N -> gset N) c : ChangeSet :=
  mkChangeSet (created_schemas c) (dropped_schemas c) (created_tables c)
    (created_table_schema_ids c) (altered_tables c) (dropped_tables c) (created_views c)
    (created_view_schema_ids c) (altered_views c) (dropped_views c) (created_scalar_macros c)
    (created_table_macros c) (f (created_macro_schema_ids c)) (dropped_scalar_macros c)
    (dropped_table_macros c) (inserted_tables c) (deleted_from_tables c)
    (deleted_data_file_ids c) (deletes_untargeted_files c) (merge_adjacent_tables c)
    (rewrite_delete_tables c) (compacted_tables c) (has_unknown c).
Definition upd_dropped_scalar_macros (f : gset N -> gset N) c : ChangeSet :=
  mkChangeSet (created_schemas c) (dropped_schemas c) (created_tables c)
    (created_table_schema_ids c) (altered_tables c) (dropped_tables c) (created_views c)
    (created_view_schema_ids c) (altered_views c) (dropped_views c) (created_scalar_macros c)
    (created_table_macros c) (created_macro_schema_ids c) (f (dropped_scalar_macros c))
    (dropped_table_macros c) (inserted_tables c) (deleted_from_tables c)
    (deleted_data_file_ids c) (deletes_untargeted_files c) (merge_adjacent_tables c)
    (rewrite_delete_tables c) (compacted_tables c) (has_unknown c).
Definition upd_dropped_table_macros (f : gset N -> gset N) c : ChangeSet :=
  mkChangeSet (created_schemas c) (dropped_schemas c) (created_tables c)
    (created_table_schema_ids c) (altered_tables c) (dropped_tables c) (created_views c)
    (created_view_schema_ids c) (altered_views c) (dropped_views c) (created_scalar_macros c)
    (created_table_macros c) (created_macro_schema_ids c) (dropped_scalar_macros c) (f
    (dropped_table_macros c)) (inserted_tables c) (deleted_from_tables c)
    (deleted_data_file_ids c) (deletes_untargeted_files c) (merge_adjacent_tables c)
    (rewrite_delete_tables c) (compacted_tables c) (has_unknown c).
Definition upd_inserted_tables (f : gset N -> gset N) c : ChangeSet :=
  mkChangeSet (created_schemas c) (dropped_schemas c) (created_tables c)
    (created_table_schema_ids c) (altered_tables c) (dropped_tables c) (created_views c)
    (created_view_schema_ids c) (altered_views c) (dropped_views c) (created_scalar_macros c)
    (created_table_macros c) (created_macro_schema_ids c) (dropped_scalar_macros c)
    (dropped_table_macros c) (f (inserted_tables c)) (deleted_from_tables c)
    (deleted_data_file_ids c) (deletes_untargeted_files c) (merge_adjacent_tables c)
    (rewrite_delete_tables c) (compacted_tables c) (has_unknown c).
Definition upd_deleted_from_tables (f : gset N -> gset N) c : ChangeSet :=
  mkChangeSet (created_schemas c) (dropped_schemas c) (created_tables c)
    (created_table_schema_ids c) (altered_tables c) (dropped_tables c) (created_views c)
    (created_view_schema_ids c) (altered_views c) (dropped_views c) (created_scalar_macros c)
    (created_table_macros c) (created_macro_schema_ids c) (dropped_scalar_macros c)
    (dropped_table_macros c) (inserted_tables c) (f (deleted_from_tables c))
    (deleted_data_file_ids c) (deletes_untargeted_files c) (merge_adjacent_tables c)
    (rewrite_delete_tables c) (compacted_tables c) (has_unknown c).
Definition upd_deleted_data_file_ids (f : gset N -> gset N) c : ChangeSet :=
  mkChangeSet (created_schemas c) (dropped_schemas c) (created_tables c)
    (created_table_schema_ids c) (altered_tables c) (dropped_tables c) (created_views c)
    (created_view_schema_ids c) (altered_views c) (dropped_views c) (created_scalar_macros c)
    (created_table_macros c) (created_macro_schema_ids c) (dropped_scalar_macros c)
    (dropped_table_macros c) (inserted_tables c) (deleted_from_tables c) (f
    (deleted_data_file_ids c)) (deletes_untargeted_files c) (merge_adjacent_tables c)
    (rewrite_delete_tables c) (compacted_tables c) (has_unknown c).
Definition upd_deletes_untargeted_files (f : bool -> bool) c : ChangeSet :=
  mkChangeSet (created_schemas c) (dropped_schemas c) (created_tables c)
    (created_table_schema_ids c) (altered_tables c) (dropped_tables c) (created_views c)
    (created_view_schema_ids c) (altered_views c) (dropped_views c) (created_scalar_macros c)
    (created_table_macros c) (created_macro_schema_ids c) (dropped_scalar_macros c)
    (dropped_table_macros c) (inserted_tables c) (deleted_from_tables c)
    (deleted_data_file_ids c) (f (deletes_untargeted_files c)) (merge_adjacent_tables c)
    (rewrite_delete_tables c) (compacted_tables c) (has_unknown c).
Definition upd_merge_adjacent_tables (f : gset N -> gset N) c : ChangeSet :=
  mkChangeSet (created_schemas c) (dropped_schemas c) (created_tables c)
    (created_table_schema_ids c) (altered_tables c) (dropped_tables c) (created_views c)
    (created_view_schema_ids c) (altered_views c) (dropped_views c) (created_scalar_macros c)
    (created_table_macros c) (created_macro_schema_ids c) (dropped_scalar_macros c)
    (dropped_table_macros c) (inserted_tables c) (deleted_from_tables c)
    (deleted_data_file_ids c) (deletes_untargeted_files c) (f (merge_adjacent_tables c))
    (rewrite_delete_tables c) (compacted_tables c) (has_unknown c).
Definition upd_rewrite_delete_tables (f : gset N -> gset N) c : ChangeSet :=
  mkChangeSet (created_schemas c) (dropped_schemas c) (created_tables c)
    (created_table_schema_ids c) (altered_tables c) (dropped_tables c) (created_views c)
    (created_view_schema_ids c) (altered_views c) (dropped_views c) (created_scalar_macros c)
    (created_table_macros c) (created_macro_schema_ids c) (dropped_scalar_macros c)
    (dropped_table_macros c) (inserted_tables c) (deleted_from_tables c)
    (deleted_data_file_ids c) (deletes_untargeted_files c) (merge_adjacent_tables c) (f
    (rewrite_delete_tables c)) (compacted_tables c) (has_unknown c).
Definition upd_compacted_tables (f : gset N -> gset N) c : ChangeSet :=
  mkChangeSet (created_schemas c) (dropped_schemas c) (created_tables c)
    (created_table_schema_ids c) (altered_tables c) (dropped_tables c) (created_views c)
    (created_view_schema_ids c) (altered_views c) (dropped_views c) (created_scalar_macros c)
    (created_table_macros c) (created_macro_schema_ids c) (dropped_scalar_macros c)
    (dropped_table_macros c) (inserted_tables c) (deleted_from_tables c)
    (deleted_data_file_ids c) (deletes_untargeted_files c) (merge_adjacent_tables c)
    (rewrite_delete_tables c) (f (compacted_tables c)) (has_unknown c).
Definition upd_has_unknown (f : bool -> bool) c : ChangeSet :=
  mkChangeSet (created_schemas c) (dropped_schemas c) (created_tables c)
    (created_table_schema_ids c) (altered_tables c) (dropped_tables c) (created_views c)
    (created_view_schema_ids c) (altered_views c) (dropped_views c) (created_scalar_macros c)
    (created_table_macros c) (created_macro_schema_ids c) (dropped_scalar_macros c)
    (dropped_table_macros c) (inserted_tables c) (deleted_from_tables c)
    (deleted_data_file_ids c) (deletes_untargeted_files c) (merge_adjacent_tables c)
    (rewrite_delete_tables c) (compacted_tables c) (f (has_unknown c)).
End FieldUpdates.

(** [set.f.insert(x)] *)
Definition ins {A} `{Countable A} (x : A) : gset A -> gset A := fun s => {[x]} ∪ s.

(** One iteration of [ChangeSet::from_operations]. *)
Definition record_operation (c : ChangeSet) (op : Operation) : ChangeSet :=
  match op with
  | CreateSchema _ name => upd_created_schemas (ins name) c
  | DropSchema schema_id => upd_dropped_schemas (ins schema_id) c
  | CreateTable schema_id _ schema_name table_name =>
      upd_created_table_schema_ids (ins schema_id)
        (upd_created_tables (ins (schema_name, table_name)) c)
  | AlterTable table_id | AlterTableSorting table_id | FinishIndexMaintenance table_id =>
      upd_altered_tables (ins table_id) c
  | DropTable table_id => upd_dropped_tables (ins table_id) c
  | RegisterDataFile table_id | InlineInsert table_id | AdvanceIndexBuild table_id =>
      upd_inserted_tables (ins table_id) c
  | RegisterDeleteFile table_id data_file_id =>
      upd_deleted_data_file_ids (ins data_file_id) (upd_deleted_from_tables (ins table_id) c)
  | InlineDelete table_id =>
      upd_deletes_untargeted_files (fun _ => true) (upd_deleted_from_tables (ins table_id) c)
  | ExpireDataFile table_id | FlushInlinedData table_id =>
      upd_merge_adjacent_tables (ins table_id) c
  | ExpireDeleteFile table_id => upd_rewrite_delete_tables (ins table_id) c
  | UpdateStats _ | AlterSchema _ => c
  | CreateView schema_id _ schema_name view_name =>
      upd_created_view_schema_ids (ins schema_id)
        (upd_created_views (ins (schema_name, view_name)) c)
  | AlterView view_id => upd_altered_views (ins view_id) c
  | DropView view_id => upd_dropped_views (ins view_id) c
  | CreateMacro schema_id _ schema_name macro_name macro_type =>
      upd_created_macro_schema_ids (ins schema_id)
        (if bool_decide (macro_type = "table"%string)
         then upd_created_table_macros (ins (schema_name, macro_name)) c
         else upd_created_scalar_macros (ins (schema_name, macro_name)) c)
  | DropMacro macro_id macro_type =>
      if bool_decide (macro_type = "table"%string)
      then upd_dropped_table_macros (ins macro_id) c
      else upd_dropped_scalar_macros (ins macro_id) c
  end.

(** [ChangeSet::from_operations]. *)
Definition from_operations (ops : list Operation) : ChangeSet :=
  foldl record_operation ChangeSet_default ops.

(** [ChangeSet::is_empty]. *)
Definition ChangeSet_is_empty (c : ChangeSet) : bool := bool_decide (c = ChangeSet_default).

(** [ChangeSet::compaction_only_tables]: the three compaction sets are taken out
    of a clone, and what remains must be the default. *)
Definition compaction_only_tables (c : ChangeSet) : gset N :=
  let rest := upd_merge_adjacent_tables (fun _ => ∅)
    (upd_rewrite_delete_tables (fun _ => ∅) (upd_compacted_tables (fun _ => ∅) c)) in
  let compacted := merge_adjacent_tables c ∪ rewrite_delete_tables c ∪ compacted_tables c in
  if ChangeSet_is_empty rest then compacted else ∅.

Definition touches_schema_list (c : ChangeSet) : bool :=
  negb (bool_decide (created_schemas c = ∅)) || negb (bool_decide (dropped_schemas c = ∅)).

Definition creates_table_in (c : ChangeSet) (schema_id : N) : bool :=
  bool_decide (schema_id ∈ created_table_schema_ids c)
  || bool_decide (schema_id ∈ created_view_schema_ids c)
  || bool_decide (schema_id ∈ created_macro_schema_ids c).

(** ** Per-table kinds *)

Record TableKinds : Type := mkTableKinds {
  inserted : bool; deleted : bool; altered : bool; dropped : bool; compacted : bool;
}.
Definition TableKinds_default : TableKinds := mkTableKinds false false false false false.

(** [kinds.entry(table_id).or_default().<flag> = true] for every id of a set. *)
Definition mark (f : TableKinds -> TableKinds) (ids : gset N) (kinds : gmap N TableKinds)
  : gmap N TableKinds :=
  set_fold (fun t m => partial_alter (fun o => Some (f (default TableKinds_default o))) t m)
    kinds ids.

Definition table_kinds (c : ChangeSet) : gmap N TableKinds :=
  let k := mark (fun k => mkTableKinds true (deleted k) (altered k) (dropped k) (compacted k))
             (inserted_tables c) ∅ in
  let k := mark (fun k => mkTableKinds (inserted k) true (altered k) (dropped k) (compacted k))
             (deleted_from_tables c) k in
  let k := mark (fun k => mkTableKinds (inserted k) (deleted k) true (dropped k) (compacted k))
             (altered_tables c ∪ altered_views c) k in
  let k := mark (fun k => mkTableKinds (inserted k) (deleted k) (altered k) true (compacted k))
             (dropped_tables c ∪ dropped_views c) k in
  mark (fun k => mkTableKinds (inserted k) (deleted k) (altered k) (dropped k) true)
    (merge_adjacent_tables c ∪ rewrite_delete_tables c ∪ compacted_tables c) k.

Definition kinds_one_way (x y : TableKinds) : bool :=
  (inserted x && (altered y || deleted y || dropped y))
  || (deleted x && (altered y || compacted y || dropped y || inserted y))
  || (altered x && (altered y || dropped y))
  || (compacted x && (deleted y || dropped y || compacted y)).

(** [kinds_conflict]: DuckLake's per-table matrix, symmetric closure. *)
Definition kinds_conflict (a b : TableKinds) : bool := kinds_one_way a b || kinds_one_way b a.

Definition delete_delete_conflicts (ours theirs : ChangeSet) : bool :=
  deletes_untargeted_files ours || deletes_untargeted_files theirs
  || negb (bool_decide (deleted_data_file_ids ours ## deleted_data_file_ids theirs)).

Definition created_in_dropped (a b : ChangeSet) : bool :=
  existsb (creates_table_in a) (elements (dropped_schemas b)).

(** One table both sides touched. *)
Definition table_conflict (ours theirs : ChangeSet) (k k' : TableKinds) : bool :=
  kinds_conflict k k' || (deleted k && deleted k' && delete_delete_conflicts ours theirs).

(** [conflicts]: whether two concurrent commits are a true conflict. *)
Definition conflicts (ours theirs : ChangeSet) : bool :=
  if has_unknown ours || has_unknown theirs then true
  else if touches_schema_list ours && touches_schema_list theirs then true
  else
    let our_kinds := table_kinds ours in
    let their_kinds := table_kinds theirs in
    if existsb (fun '(t, k) =>
         match their_kinds !! t with
         | Some k' => table_conflict ours theirs k k'
         | None => false
         end) (map_to_list our_kinds)
    then true
    else created_in_dropped ours theirs || created_in_dropped theirs ours.

(** ** The conflict relation, by membership *)

(** What a change set says of one table. *)
Definition kinds_at (c : ChangeSet) (t : N) : TableKinds :=
  mkTableKinds (bool_decide (t ∈ inserted_tables c)) (bool_decide (t ∈ deleted_from_tables c))
    (bool_decide (t ∈ altered_tables c ∪ altered_views c))
    (bool_decide (t ∈ dropped_tables c ∪ dropped_views c))
    (bool_decide (t ∈ merge_adjacent_tables c ∪ rewrite_delete_tables c ∪ compacted_tables c)).

Lemma lookup_mark f ids m t :
  mark f ids m !! t =
  if bool_decide (t ∈ ids) then Some (f (default TableKinds_default (m !! t))) else m !! t.
Proof.
  pose (P (r : gmap N TableKinds) (X : gset N) := forall t, r !! t =
    if bool_decide (t ∈ X) then Some (f (default TableKinds_default (m !! t))) else m !! t).
  revert t. change (P (mark f ids m) ids). unfold mark. apply set_fold_ind_L; unfold P.
  - intros t. by rewrite bool_decide_false by set_solver.
  - intros x X r Hx IH t. destruct (decide (t = x)) as [->|Hne].
    + rewrite lookup_partial_alter_eq, IH, bool_decide_false, bool_decide_true by set_solver. done.
    + rewrite lookup_partial_alter_ne, IH by done.
      by rewrite (bool_decide_ext (t ∈ {[x]} ∪ X) (t ∈ X)) by set_solver.
Qed.

Lemma table_kinds_lookup c t :
  default TableKinds_default (table_kinds c !! t) = kinds_at c t.
Proof.
  unfold table_kinds, kinds_at. rewrite !lookup_mark, lookup_empty.
  repeat case_bool_decide; done.
Qed.

Lemma table_conflict_default_l a b k : table_conflict a b TableKinds_default k = false.
Proof.
  unfold table_conflict, kinds_conflict, kinds_one_way; simpl. by destruct k as [[] [] [] [] []].
Qed.

Lemma table_conflict_default_r a b k : table_conflict a b k TableKinds_default = false.
Proof.
  unfold table_conflict, kinds_conflict, kinds_one_way; simpl. by destruct k as [[] [] [] [] []].
Qed.

Lemma tables_conflict_iff a b :
  existsb (fun '(t, k) =>
    match table_kinds b !! t with Some k' => table_conflict a b k k' | None => false end)
    (map_to_list (table_kinds a)) = true
  <-> exists t, table_conflict a b (kinds_at a t) (kinds_at b t) = true.
Proof.
  rewrite existsb_exists. split.
  - intros ([t k] & Hin%list_elem_of_In%elem_of_map_to_list & Hc). exists t.
    rewrite <-!table_kinds_lookup, Hin. simpl.
    destruct (table_kinds b !! t); [done|discriminate].
  - intros [t Hc]. rewrite <-!table_kinds_lookup in Hc.
    destruct (table_kinds a !! t) as [k|] eqn:Ea; [|by rewrite table_conflict_default_l in Hc].
    exists (t, k). split; [by apply list_elem_of_In, elem_of_map_to_list|].
    destruct (table_kinds b !! t); [done|]. simpl in Hc. by rewrite table_conflict_default_r in Hc.
Qed.

Lemma created_in_dropped_iff a b :
  created_in_dropped a b = true <->
  exists s, s ∈ dropped_schemas b /\ creates_table_in a s = true.
Proof.
  unfold created_in_dropped. rewrite existsb_exists.
  split; intros (s & Hs & Hc); exists s; (split; [|done]).
  - by apply list_elem_of_In, elem_of_elements in Hs.
  - by apply list_elem_of_In, elem_of_elements.
Qed.

(** The four ways two commits conflict. *)
Definition conflict_reason (a b : ChangeSet) : Prop :=
  has_unknown a = true \/ has_unknown b = true
  \/ (touches_schema_list a = true /\ touches_schema_list b = true)
  \/ (exists t, table_conflict a b (kinds_at a t) (kinds_at b t) = true)
  \/ (exists s, s ∈ dropped_schemas b /\ creates_table_in a s = true)
  \/ (exists s, s ∈ dropped_schemas a /\ creates_table_in b s = true).

Lemma conflicts_iff a b : conflicts a b = true <-> conflict_reason a b.
Proof.
  unfold conflicts, conflict_reason. cbv zeta.
  rewrite <-!created_in_dropped_iff, <-tables_conflict_iff.
  destruct (has_unknown a); simpl; [tauto|]. destruct (has_unknown b); simpl; [tauto|].
  destruct (touches_schema_list a), (touches_schema_list b); simpl; try tauto;
    destruct (existsb _ _), (created_in_dropped a b), (created_in_dropped b a); simpl;
    intuition congruence.
Qed.

(** Everything a change set says is said by a larger one. *)
Definition ChangeSet_le (a b : ChangeSet) : Prop :=
  created_schemas a ⊆ created_schemas b /\ dropped_schemas a ⊆ dropped_schemas b
  /\ created_table_schema_ids a ⊆ created_table_schema_ids b
  /\ altered_tables a ⊆ altered_tables b /\ dropped_tables a ⊆ dropped_tables b
  /\ created_view_schema_ids a ⊆ created_view_schema_ids b
  /\ altered_views a ⊆ altered_views b /\ dropped_views a ⊆ dropped_views b
  /\ created_macro_schema_ids a ⊆ created_macro_schema_ids b
  /\ inserted_tables a ⊆ inserted_tables b /\ deleted_from_tables a ⊆ deleted_from_tables b
  /\ deleted_data_file_ids a ⊆ deleted_data_file_ids b
  /\ implb (deletes_untargeted_files a) (deletes_untargeted_files b) = true
  /\ merge_adjacent_tables a ⊆ merge_adjacent_tables b
  /\ rewrite_delete_tables a ⊆ rewrite_delete_tables b
  /\ compacted_tables a ⊆ compacted_tables b
  /\ implb (has_unknown a) (has_unknown b) = true.

Definition TableKinds_le (a b : TableKinds) : Prop :=
  (inserted a = true -> inserted b = true) /\ (deleted a = true -> deleted b = true)
  /\ (altered a = true -> altered b = true) /\ (dropped a = true -> dropped b = true)
  /\ (compacted a = true -> compacted b = true).

Lemma kinds_conflict_sym a b : kinds_conflict a b = kinds_conflict b a.
Proof. apply orb_comm. Qed.

Lemma delete_delete_sym a b : delete_delete_conflicts a b = delete_delete_conflicts b a.
Proof.
  unfold delete_delete_conflicts. f_equal; [apply orb_comm|]. f_equal.
  apply bool_decide_ext. split; intros ?; by symmetry.
Qed.

Lemma table_conflict_sym a b k k' : table_conflict a b k k' = table_conflict b a k' k.
Proof.
  unfold table_conflict. by rewrite kinds_conflict_sym, delete_delete_sym, (andb_comm (deleted k)).
Qed.

Lemma conflict_reason_sym a b : conflict_reason a b -> conflict_reason b a.
Proof.
  unfold conflict_reason.
  intros [?|[?|[[? ?]|[[t Ht]|[?|?]]]]]; [tauto..| |tauto|tauto].
  do 3 right. left. exists t. by rewrite table_conflict_sym.
Qed.

Lemma kinds_one_way_mono a a' b b' :
  TableKinds_le a a' -> TableKinds_le b b' ->
  kinds_one_way a b = true -> kinds_one_way a' b' = true.
Proof.
  intros (? & ? & ? & ? & ?) (? & ? & ? & ? & ?). unfold kinds_one_way.
  rewrite !orb_true_iff, !andb_true_iff, !orb_true_iff.
  intros [[[[? Hy]|[? Hy]]|[? Hy]]|[? Hy]]; repeat destruct Hy as [Hy|Hy]; auto 10.
Qed.

Lemma kinds_conflict_mono a a' b b' :
  TableKinds_le a a' -> TableKinds_le b b' ->
  kinds_conflict a b = true -> kinds_conflict a' b' = true.
Proof.
  intros Ha Hb. unfold kinds_conflict. rewrite !orb_true_iff.
  intros [?|?]; [left|right]; eauto using kinds_one_way_mono.
Qed.

Lemma bool_decide_mono P Q `{Decision P, Decision Q} :
  (P -> Q) -> bool_decide P = true -> bool_decide Q = true.
Proof. rewrite !bool_decide_eq_true. auto. Qed.

Lemma implb_true a b : implb a b = true <-> (a = true -> b = true).
Proof. destruct a, b; naive_solver. Qed.

Lemma kinds_at_mono a b t : ChangeSet_le a b -> TableKinds_le (kinds_at a t) (kinds_at b t).
Proof.
  intros Hle. destruct Hle as (?&?&?&?&?&?&?&?&?&?&?&?&?&?&?&?&?).
  repeat split; apply bool_decide_mono; set_solver.
Qed.

Lemma nonempty_mono {A} `{Countable A} (X Y : gset A) :
  X ⊆ Y -> negb (bool_decide (X = ∅)) = true -> negb (bool_decide (Y = ∅)) = true.
Proof. rewrite !negb_true_iff, !bool_decide_eq_false. set_solver. Qed.

Lemma touches_schema_list_mono a b :
  ChangeSet_le a b -> touches_schema_list a = true -> touches_schema_list b = true.
Proof.
  intros (? & ? & _). unfold touches_schema_list. rewrite !orb_true_iff.
  intros [?|?]; [left|right]; by eapply nonempty_mono.
Qed.

Lemma creates_table_in_mono a b s :
  ChangeSet_le a b -> creates_table_in a s = true -> creates_table_in b s = true.
Proof.
  intros (?&?&?&?&?&?&?&?&?&_). unfold creates_table_in.
  rewrite !orb_true_iff, !bool_decide_eq_true. set_solver.
Qed.

Lemma delete_delete_mono a a' b b' :
  ChangeSet_le a a' -> ChangeSet_le b b' ->
  delete_delete_conflicts a b = true -> delete_delete_conflicts a' b' = true.
Proof.
  intros (_&_&_&_&_&_&_&_&_&_&_&Fa&Ua&_) (_&_&_&_&_&_&_&_&_&_&_&Fb&Ub&_).
  rewrite implb_true in Ua, Ub.
  unfold delete_delete_conflicts. rewrite !orb_true_iff, !negb_true_iff, !bool_decide_eq_false.
  intros [[?|?]|Hd]; [auto..|]. right. intros Hd'. apply Hd. set_solver.
Qed.

Lemma table_conflict_mono a a' b b' t :
  ChangeSet_le a a' -> ChangeSet_le b b' ->
  table_conflict a b (kinds_at a t) (kinds_at b t) = true ->
  table_conflict a' b' (kinds_at a' t) (kinds_at b' t) = true.
Proof.
  intros Ha Hb. pose proof (kinds_at_mono _ _ t Ha) as Ka. pose proof (kinds_at_mono _ _ t Hb) as Kb.
  unfold table_conflict. rewrite !orb_true_iff, !andb_true_iff.
  intros [?|[[? ?] ?]]; [left; by eapply kinds_conflict_mono|right].
  split; [|by eapply delete_delete_mono].
  destruct Ka as (_ & Ka & _), Kb as (_ & Kb & _). auto.
Qed.

Lemma conflict_reason_mono a a' b b' :
  ChangeSet_le a a' -> ChangeSet_le b b' -> conflict_reason a b -> conflict_reason a' b'.
Proof.
  intros Ha Hb. unfold conflict_reason.
  assert (Da : dropped_schemas a ⊆ dropped_schemas a') by apply Ha.
  assert (Db : dropped_schemas b ⊆ dropped_schemas b') by apply Hb.
  assert (Ua : has_unknown a = true -> has_unknown a' = true) by apply implb_true, Ha.
  assert (Ub : has_unknown b = true -> has_unknown b' = true) by apply implb_true, Hb.
  intros [?|[?|[[? ?]|[[t Ht]|[(s & ? & ?)|(s & ? & ?)]]]]].
  - auto.
  - auto.
  - right; right; left. eauto using touches_schema_list_mono.
  - right; right; right; left. eauto using table_conflict_mono.
  - do 4 right. left. exists s. eauto using creates_table_in_mono.
  - do 5 right. exists s. eauto using creates_table_in_mono.
Qed.

(** ** The matrix, kind by kind *)

(** What one commit can do to one table or view. *)
Inductive Touch : Type := Inserts | Deletes | Alters | Drops | Compacts.

Definition touches (c : ChangeSet) (t : N) (k : Touch) : Prop :=
  match k with
  | Inserts => t ∈ inserted_tables c
  | Deletes => t ∈ deleted_from_tables c
  | Alters => t ∈ altered_tables c \/ t ∈ altered_views c
  | Drops => t ∈ dropped_tables c \/ t ∈ dropped_views c
  | Compacts =>
      t ∈ merge_adjacent_tables c \/ t ∈ rewrite_delete_tables c \/ t ∈ compacted_tables c
  end.

(** Two appends, two compatible readers of the same rows and two drops pass; the
    rest clash.  The pair of deletes is decided at file grain and is not here. *)
Definition clash (k k' : Touch) : bool :=
  match k, k' with
  | Inserts, (Alters | Deletes | Drops) | (Alters | Deletes | Drops), Inserts => true
  | Deletes, (Alters | Drops | Compacts) | (Alters | Drops | Compacts), Deletes => true
  | Alters, (Alters | Drops) | Drops, Alters => true
  | Compacts, (Drops | Compacts) | Drops, Compacts => true
  | _, _ => false
  end.

Definition kind_flag (k : TableKinds) (x : Touch) : bool :=
  match x with
  | Inserts => inserted k | Deletes => deleted k | Alters => altered k
  | Drops => dropped k | Compacts => compacted k
  end.

Lemma kinds_conflict_clash a b :
  kinds_conflict a b = true <->
  exists k k', kind_flag a k = true /\ kind_flag b k' = true /\ clash k k' = true.
Proof.
  split.
  - unfold kinds_conflict, kinds_one_way. rewrite !orb_true_iff, !andb_true_iff, !orb_true_iff.
    intros H. destruct_or?; destruct_and?; destruct_or?;
      match goal with
      | Hx : ?f a = true, Hy : ?g b = true |- _ =>
          let k f := match f with
            | inserted => constr:(Inserts) | deleted => constr:(Deletes)
            | altered => constr:(Alters) | dropped => constr:(Drops)
            | compacted => constr:(Compacts) end in
          let x := k f in let y := k g in exists x, y; done
      end.
  - intros (k & k' & Ha & Hb & Hc). unfold kinds_conflict, kinds_one_way.
    destruct k, k'; try discriminate Hc; simpl in Ha, Hb; rewrite Ha, Hb; simpl;
      repeat rewrite ?orb_true_r, ?andb_true_r; reflexivity.
Qed.

Lemma kind_flag_touches c t k : kind_flag (kinds_at c t) k = true <-> touches c t k.
Proof. destruct k; simpl; rewrite bool_decide_eq_true; set_solver. Qed.

Lemma touches_schema_list_iff c :
  touches_schema_list c = true <-> created_schemas c <> ∅ \/ dropped_schemas c <> ∅.
Proof.
  unfold touches_schema_list. by rewrite orb_true_iff, !negb_true_iff, !bool_decide_eq_false.
Qed.

(** Whether the commit creates a table, a view or a macro inside a schema. *)
Definition creates_in (c : ChangeSet) (s : N) : Prop :=
  s ∈ created_table_schema_ids c \/ s ∈ created_view_schema_ids c
  \/ s ∈ created_macro_schema_ids c.

Lemma creates_table_in_iff c s : creates_table_in c s = true <-> creates_in c s.
Proof. unfold creates_table_in, creates_in. rewrite !orb_true_iff, !bool_decide_eq_true. tauto. Qed.

(** The documented verdict, with nothing but set membership. *)
Definition true_conflict (a b : ChangeSet) : Prop :=
  has_unknown a = true \/ has_unknown b = true
  \/ ((created_schemas a <> ∅ \/ dropped_schemas a <> ∅)
      /\ (created_schemas b <> ∅ \/ dropped_schemas b <> ∅))
  \/ (exists t k k', touches a t k /\ touches b t k' /\ clash k k' = true)
  \/ (exists t, touches a t Deletes /\ touches b t Deletes
        /\ (deletes_untargeted_files a = true \/ deletes_untargeted_files b = true
            \/ exists f, f ∈ deleted_data_file_ids a /\ f ∈ deleted_data_file_ids b))
  \/ (exists s, s ∈ dropped_schemas b /\ creates_in a s)
  \/ (exists s, s ∈ dropped_schemas a /\ creates_in b s).

Lemma delete_delete_iff a b :
  delete_delete_conflicts a b = true <->
  deletes_untargeted_files a = true \/ deletes_untargeted_files b = true
  \/ exists f, f ∈ deleted_data_file_ids a /\ f ∈ deleted_data_file_ids b.
Proof.
  unfold delete_delete_conflicts.
  rewrite !orb_true_iff, negb_true_iff, bool_decide_eq_false.
  split; [intros [[?|?]|H]; [tauto..|do 2 right] | intros [?|[?|H]]; [tauto..|right]].
  - destruct (decide (deleted_data_file_ids a ∩ deleted_data_file_ids b = ∅)) as [E|E];
      [exfalso; apply H; set_solver|]. apply set_choose_L in E as [f Hf]. exists f. set_solver.
  - set_solver.
Qed.

Lemma table_conflict_spec a b :
  (exists t, table_conflict a b (kinds_at a t) (kinds_at b t) = true) <->
  (exists t k k', touches a t k /\ touches b t k' /\ clash k k' = true)
  \/ (exists t, touches a t Deletes /\ touches b t Deletes
        /\ delete_delete_conflicts a b = true).
Proof.
  assert (Hd : forall c t, deleted (kinds_at c t) = true <-> touches c t Deletes)
    by (intros c t; apply (kind_flag_touches c t Deletes)).
  unfold table_conflict. split.
  - intros [t Ht]. rewrite orb_true_iff, kinds_conflict_clash, !andb_true_iff, !Hd in Ht.
    destruct Ht as [(k & k' & Ha & Hb & Hc)|[[? ?] ?]]; [left|right; eauto].
    rewrite kind_flag_touches in Ha, Hb. eauto 10.
  - intros [(t & k & k' & Ha & Hb & Hc)|(t & ? & ? & ?)]; exists t;
      rewrite orb_true_iff, kinds_conflict_clash, !andb_true_iff, !Hd; [left|tauto].
    rewrite <-kind_flag_touches in Ha, Hb. eauto.
Qed.

(** C14: [conflicts] decides exactly the documented relation between two
    concurrent commits: unknown changes on either side, both touching the schema
    list, one table touched by a clashing pair of kinds of the DuckLake matrix,
    deletes on one table that meet on a file (or where either side named no
    file), or a creation inside a schema the other side dropped.  Everything else
    is benign. *)
Theorem conflicts_matrix a b : conflicts a b = true <-> true_conflict a b.
Proof.
  rewrite conflicts_iff. unfold conflict_reason, true_conflict.
  rewrite table_conflict_spec, !touches_schema_list_iff. setoid_rewrite delete_delete_iff.
  setoid_rewrite creates_table_in_iff. tauto.
Qed.

(** C36: the verdict is symmetric, and it is monotone: no commit becomes benign
    by doing more, so a change set that over-approximates what a commit did can
    only refuse more. *)
Theorem conflicts_symmetric_monotone a b a' b' :
  ChangeSet_le a a' -> ChangeSet_le b b' ->
  conflicts a b = conflicts b a /\ (conflicts a b = true -> conflicts a' b' = true).
Proof.
  intros Ha Hb. rewrite !conflicts_iff. split; [|by apply conflict_reason_mono].
  apply eq_true_iff_eq. rewrite !conflicts_iff. split; apply conflict_reason_sym.
Qed.

Lemma conflicts_symmetric_monotone_witness :
  let a := from_operations [DropTable 4] in
  let b := from_operations [RegisterDataFile 4] in
  let a' := from_operations [DropTable 4; CreateSchema 9 "s"] in
  conflicts b a = true /\ conflicts a' b = true.
Proof.
  set (a := from_operations [DropTable 4]). set (b := from_operations [RegisterDataFile 4]).
  set (a' := from_operations [DropTable 4; CreateSchema 9 "s"]).
  assert (Ha : ChangeSet_le a a') by (repeat split; try reflexivity; vm_compute; set_solver).
  assert (Hb : ChangeSet_le b b) by (repeat split; reflexivity).
  destruct (conflicts_symmetric_monotone a b a' b Ha Hb) as [E M].
  assert (conflicts a b = true) as C by (vm_compute; reflexivity).
  split; [by rewrite <-E|by apply M].
Defined.
