(* ===== verification/ChangesMade.v ===== *)
(** The wire grammar of [changes_made] ([transaction/operations.rs]): rendering a
    change set the way DuckLake's writer does, and parsing a stored string.

    The theorem: parsing what [to_changes_made] rendered gives the set back, up
    to the fields the grammar has no words for ([on_the_wire]). *)
From stdpp Require Import gmap list strings sorting.
From Stdlib Require Import Ascii NArith Lia.
From S2P Require Import Prelude Operations.
Local Open Scope string_scope.
Local Open Scope N_scope.

Definition dquote : ascii := "034".
Definition comma : ascii := ",".
Definition colon : ascii := ":".
Definition dot : ascii := ".".

(** ** Iteration order of the sets *)

Definition string_le (a b : string) : Prop := String.leb a b = true.
#[export] Instance string_le_dec : RelDecision string_le.
Proof. intros a b. unfold string_le. apply _. Defined.

Definition pair_le (a b : string * string) : Prop :=
  match String.compare a.1 b.1 with
  | Lt => True
  | Gt => False
  | Eq => string_le a.2 b.2
  end.
#[export] Instance pair_le_dec : RelDecision pair_le.
Proof. intros a b. unfold pair_le. destruct (String.compare a.1 b.1); apply _. Defined.

(** ** Quoting *)

(** [quote_ident]: double quotes around, embedded quotes doubled. *)
Fixpoint double_quotes (s : string) : string :=
  match s with
  | EmptyString => EmptyString
  | String c r =>
      if bool_decide (c = dquote) then String dquote (String c (double_quotes r))
      else String c (double_quotes r)
  end.

Definition quote_ident (s : string) : string :=
  String dquote (double_quotes s ++ String dquote EmptyString).

(** The loop of [parse_quoted], past the opening quote. *)
Fixpoint parse_quoted_rest (rest : string) : option (string * string) :=
  match rest with
  | EmptyString => None
  | String c r =>
      if bool_decide (c = dquote) then
        match r with
        | String c' r' =>
            if bool_decide (c' = dquote) then
              '(value, remainder) ← parse_quoted_rest r'; Some (String dquote value, remainder)
            else Some (EmptyString, r)
        | EmptyString => Some (EmptyString, r)
        end
      else '(value, remainder) ← parse_quoted_rest r; Some (String c value, remainder)
  end.

(** [s.strip_prefix(c)]. *)
Definition strip_prefix (c : ascii) (s : string) : option string :=
  match s with
  | String c' r => if bool_decide (c' = c) then Some r else None
  | EmptyString => None
  end.

Definition parse_quoted (s : string) : option (string * string) :=
  rest ← strip_prefix dquote s; parse_quoted_rest rest.

Definition parse_created_schema_payload (payload : string) : option string :=
  '(name, rest) ← parse_quoted payload;
  if bool_decide (rest = EmptyString) then Some name else None.

Definition parse_created_table_payload (payload : string) : option (string * string) :=
  '(schema, rest) ← parse_quoted payload;
  rest ← strip_prefix dot rest;
  '(table, rest) ← parse_quoted rest;
  if bool_decide (rest = EmptyString) then Some (schema, table) else None.

(** ** Splitting *)

(** Prepend to the entry being read. *)
Definition push_char (c : ascii) (entries : list string) : list string :=
  match entries with e :: es => String c e :: es | [] => [String c EmptyString] end.

(** The loop of [split_entries]: the head of the result is the entry in progress. *)
Fixpoint split_loop (s : string) (in_quotes : bool) : list string :=
  match s with
  | EmptyString => [EmptyString]
  | String c r =>
      if bool_decide (c = dquote) then push_char c (split_loop r (negb in_quotes))
      else if bool_decide (c = comma) && negb in_quotes then EmptyString :: split_loop r in_quotes
      else push_char c (split_loop r in_quotes)
  end.

Definition split_entries (changes_made : string) : list string :=
  filter (fun e => e <> EmptyString) (split_loop changes_made false).

(** [entry.split_once(':')]. *)
Fixpoint split_once (c : ascii) (s : string) : option (string * string) :=
  match s with
  | EmptyString => None
  | String c' r =>
      if bool_decide (c' = c) then Some (EmptyString, r)
      else '(a, b) ← split_once c r; Some (String c' a, b)
  end.

(** ** Numbers: [u64]'s [Display] and [FromStr] *)

Definition digit (d : N) : ascii := ascii_of_N (48 + d).

(** Decimal digits, least significant first; a [u64] has at most twenty. *)
Fixpoint digits_rev (fuel : nat) (n : N) : list N :=
  match fuel with
  | O => []
  | S fuel => if n <? 10 then [n] else (n mod 10) :: digits_rev fuel (n / 10)
  end.

Definition string_of_digits (ds : list N) : string :=
  foldr (fun d s => String (digit d) s) EmptyString ds.

Definition display_u64 (n : N) : string := string_of_digits (reverse (digits_rev 20 n)).

Definition digit_value (c : ascii) : option N :=
  let n := N_of_ascii c in if (48 <=? n) && (n <=? 57) then Some (n - 48) else None.

(** [checked_mul] then [checked_add], digit by digit. *)
Fixpoint parse_digits (acc : N) (s : string) : option N :=
  match s with
  | EmptyString => Some acc
  | String c r =>
      d ← digit_value c;
      if acc * 10 + d <? u64_size then parse_digits (acc * 10 + d) r else None
  end.

(** [str::parse::<u64>]: digits with an optional leading plus. *)
Definition parse_u64 (s : string) : option N :=
  match s with
  | EmptyString => None
  | String c r =>
      if bool_decide (c = "+"%char) then
        match r with EmptyString => None | _ => parse_digits 0 r end
      else parse_digits 0 s
  end.

(** [to_ascii_lowercase]. *)
Definition lower_char (c : ascii) : ascii :=
  let n := N_of_ascii c in if (65 <=? n) && (n <=? 90) then ascii_of_N (n + 32) else c.

Fixpoint to_ascii_lowercase (s : string) : string :=
  match s with EmptyString => EmptyString | String c r => String (lower_char c) (to_ascii_lowercase r) end.

(** ** Rendering *)

Definition entry (kind payload : string) : string := kind ++ String colon payload.

Definition id_entries (kind : string) (s : gset N) : list string :=
  map (fun id => entry kind (display_u64 id)) (in_order N.le s).

Definition pair_entries (kind : string) (s : gset (string * string)) : list string :=
  map (fun p => entry kind (quote_ident p.1 ++ String dot (quote_ident p.2))) (in_order pair_le s).

Definition name_entries (kind : string) (s : gset string) : list string :=
  map (fun name => entry kind (quote_ident name)) (in_order string_le s).

Definition change_entries (c : ChangeSet) : list string :=
  (id_entries "dropped_schema" (dropped_schemas c)
  ++ id_entries "dropped_table" (dropped_tables c)
  ++ id_entries "dropped_view" (dropped_views c)
  ++ name_entries "created_schema" (created_schemas c)
  ++ pair_entries "created_table" (created_tables c)
  ++ pair_entries "created_view" (created_views c)
  ++ pair_entries "created_scalar_macro" (created_scalar_macros c)
  ++ pair_entries "created_table_macro" (created_table_macros c)
  ++ id_entries "dropped_scalar_macro" (dropped_scalar_macros c)
  ++ id_entries "dropped_table_macro" (dropped_table_macros c)
  ++ id_entries "inserted_into_table" (inserted_tables c)
  ++ id_entries "deleted_from_table" (deleted_from_tables c)
  ++ id_entries "altered_table" (altered_tables c)
  ++ id_entries "altered_view" (altered_views c)
  ++ id_entries "merge_adjacent" (merge_adjacent_tables c)
  ++ id_entries "rewrite_delete" (rewrite_delete_tables c))%list.

(** [ChangeSet::to_changes_made]. *)
Definition to_changes_made (c : ChangeSet) : string := String.concat "," (change_entries c).

(** ** Parsing *)

(** The closures [id] and [pair] of [ChangeSet::parse]: insert the parsed payload,
    and say whether it parsed. *)
Definition parse_id (upd : (gset N -> gset N) -> ChangeSet -> ChangeSet) (payload : string)
    (c : ChangeSet) : ChangeSet * bool :=
  match parse_u64 payload with
  | Some id => (upd (ins id) c, true)
  | None => (c, false)
  end.

Definition parse_pair (upd : (gset (string * string) -> gset (string * string)) -> ChangeSet -> ChangeSet)
    (payload : string) (c : ChangeSet) : ChangeSet * bool :=
  match parse_created_table_payload payload with
  | Some p => (upd (ins p) c, true)
  | None => (c, false)
  end.

Definition parse_kind (kind payload : string) (c : ChangeSet) : ChangeSet * bool :=
  if decide (kind = "created_schema") then
    match parse_created_schema_payload payload with
    | Some name => (upd_created_schemas (ins name) c, true)
    | None => (c, false)
    end
  else if decide (kind = "dropped_schema") then parse_id upd_dropped_schemas payload c
  else if decide (kind = "created_table") then parse_pair upd_created_tables payload c
  else if decide (kind = "altered_table") then parse_id upd_altered_tables payload c
  else if decide (kind = "dropped_table") then parse_id upd_dropped_tables payload c
  else if decide (kind = "created_view") then parse_pair upd_created_views payload c
  else if decide (kind = "altered_view") then parse_id upd_altered_views payload c
  else if decide (kind = "dropped_view") then parse_id upd_dropped_views payload c
  else if decide (kind = "created_scalar_macro") then parse_pair upd_created_scalar_macros payload c
  else if decide (kind = "created_table_macro") then parse_pair upd_created_table_macros payload c
  else if decide (kind = "dropped_scalar_macro") then parse_id upd_dropped_scalar_macros payload c
  else if decide (kind = "dropped_table_macro") then parse_id upd_dropped_table_macros payload c
  else if decide (kind = "inserted_into_table") then parse_id upd_inserted_tables payload c
  else if decide (kind = "deleted_from_table") then
    parse_id upd_deleted_from_tables payload (upd_deletes_untargeted_files (fun _ => true) c)
  else if decide (kind = "merge_adjacent") then parse_id upd_merge_adjacent_tables payload c
  else if decide (kind = "rewrite_delete") then parse_id upd_rewrite_delete_tables payload c
  else if decide (kind = "compacted_table") then parse_id upd_compacted_tables payload c
  else (c, false).

(** One iteration of [ChangeSet::parse]. *)
Definition parse_entry (c : ChangeSet) (e : string) : ChangeSet :=
  match split_once colon e with
  | None => upd_has_unknown (fun _ => true) c
  | Some (kind, payload) =>
      let '(c, known) := parse_kind (to_ascii_lowercase kind) payload c in
      if known then c else upd_has_unknown (fun _ => true) c
  end.

(** [ChangeSet::parse]. *)
Definition ChangeSet_parse (changes_made : string) : ChangeSet :=
  foldl parse_entry ChangeSet_default (split_entries changes_made).

Example bootstrap_changes_made :
  to_changes_made (upd_created_schemas (ins "main") ChangeSet_default)
  = "created_schema:" ++ String dquote ("main" ++ String dquote "").
Proof. vm_compute. reflexivity. Qed.

#[local] Arguments bool_decide : simpl never.
#[local] Arguments String.append : simpl nomatch.

(** ** Numbers round-trip *)

Definition digits_value (ds : list N) : N := foldl (fun a d => a * 10 + d) 0 ds.

Lemma digits_rev_value fuel n :
  n < 10 ^ N.of_nat fuel -> foldr (fun d a => a * 10 + d) 0 (digits_rev fuel n) = n.
Proof.
  revert n; induction fuel as [|fuel IH]; intros n Hn; cbn [digits_rev].
  { change (10 ^ N.of_nat 0) with 1 in Hn. simpl. lia. }
  destruct (N.ltb_spec n 10); simpl; [lia|].
  rewrite Nat2N.inj_succ, N.pow_succ_r in Hn by lia.
  rewrite IH by (apply N.Div0.div_lt_upper_bound; lia).
  pose proof (N.div_mod n 10). lia.
Qed.

Lemma foldl_reverse_digits ds a :
  foldl (fun a d => a * 10 + d) a (reverse ds) = foldr (fun d a => a * 10 + d) a ds.
Proof. induction ds as [|d ds IH]; [done|]. by rewrite reverse_cons, foldl_app, IH. Qed.

Lemma digits_rev_small fuel n : Forall (fun d => d < 10) (digits_rev fuel n).
Proof.
  revert n; induction fuel as [|fuel IH]; intros n; cbn [digits_rev]; [constructor|].
  destruct (N.ltb_spec n 10); constructor; auto. apply N.mod_lt. lia.
Qed.

Lemma digits_rev_nonempty fuel n : digits_rev (S fuel) n <> [].
Proof. cbn [digits_rev]. by destruct (n <? 10). Qed.

Lemma N_of_digit d : d < 10 -> N_of_ascii (digit d) = 48 + d.
Proof. intros Hd. apply N_ascii_embedding. lia. Qed.

Lemma digit_value_digit d : d < 10 -> digit_value (digit d) = Some d.
Proof.
  intros Hd. unfold digit_value. rewrite N_of_digit by done.
  destruct (N.leb_spec 48 (48 + d)), (N.leb_spec (48 + d) 57); try lia. simpl. f_equal. lia.
Qed.

Lemma digits_acc_le ds acc : acc <= foldl (fun a d => a * 10 + d) acc ds.
Proof.
  revert acc; induction ds as [|d ds IH]; intros acc; simpl; [lia|].
  etransitivity; [|apply IH]. lia.
Qed.

Lemma parse_digits_string ds acc :
  Forall (fun d => d < 10) ds -> u64 (foldl (fun a d => a * 10 + d) acc ds) ->
  parse_digits acc (string_of_digits ds) = Some (foldl (fun a d => a * 10 + d) acc ds).
Proof.
  intros Hd; revert acc; induction Hd as [|d ds Hd _ IH]; intros acc Hu; simpl; [done|].
  simpl in Hu. rewrite digit_value_digit by done. simpl.
  pose proof (digits_acc_le ds (acc * 10 + d)). unfold u64 in Hu.
  destruct (N.ltb_spec (acc * 10 + d) u64_size); [by apply IH|lia].
Qed.

Lemma display_u64_digits n :
  u64 n ->
  exists d ds, display_u64 n = string_of_digits (d :: ds) /\ Forall (fun d => d < 10) (d :: ds)
    /\ digits_value (d :: ds) = n.
Proof.
  intros Hn. unfold display_u64, digits_value.
  assert (V : foldl (fun a d => a * 10 + d) 0 (reverse (digits_rev 20 n)) = n).
  { rewrite foldl_reverse_digits. apply digits_rev_value. unfold u64, u64_size in Hn.
    eapply N.lt_trans; [exact Hn|]. reflexivity. }
  assert (F : Forall (fun d => d < 10) (reverse (digits_rev 20 n)))
    by (apply Forall_reverse, digits_rev_small).
  destruct (reverse (digits_rev 20 n)) as [|d ds] eqn:E; [|eauto].
  apply (f_equal reverse) in E. rewrite reverse_involutive in E.
  by apply digits_rev_nonempty in E.
Qed.

Lemma parse_display_u64 n : u64 n -> parse_u64 (display_u64 n) = Some n.
Proof.
  intros Hn. destruct (display_u64_digits n Hn) as (d & ds & -> & F & V).
  assert (Hd : d < 10) by (by inversion F).
  unfold parse_u64. cbn [string_of_digits foldr]. rewrite bool_decide_false.
  - fold (string_of_digits ds). fold (string_of_digits (d :: ds)).
    change (String (digit d) (string_of_digits ds)) with (string_of_digits (d :: ds)).
    unfold digits_value in V. rewrite <-V in Hn |- *. by apply parse_digits_string.
  - intros E%(f_equal N_of_ascii). rewrite N_of_digit in E by done. simpl in E. lia.
Qed.

(** ** Quoting round-trips *)

Definition starts_with_quote (s : string) : Prop := exists r, s = String dquote r.

Lemma parse_quoted_double s rest :
  ~ starts_with_quote rest ->
  parse_quoted_rest (double_quotes s +:+ String dquote rest) = Some (s, rest).
Proof.
  intros Hr. induction s as [|c s IH]; simpl.
  - destruct rest as [|c' r]; [done|].
    rewrite bool_decide_false; [done|]. intros ->. apply Hr. by exists r.
  - destruct (decide (c = dquote)) as [->|Hc].
    + rewrite bool_decide_true by done. simpl.
      by rewrite IH.
    + rewrite bool_decide_false by done. simpl.
      rewrite bool_decide_false by done. by rewrite IH.
Qed.

Lemma string_app_assoc (a b c : string) : (a +:+ b) +:+ c = a +:+ (b +:+ c).
Proof. induction a as [|x a IH]; simpl; [done|]. by rewrite IH. Qed.

Lemma string_app_nil (a : string) : a +:+ "" = a.
Proof. induction a as [|x a IH]; simpl; [done|]. by rewrite IH. Qed.

Lemma parse_quote_ident s rest :
  ~ starts_with_quote rest -> parse_quoted (quote_ident s +:+ rest) = Some (s, rest).
Proof.
  intros Hr. unfold parse_quoted, quote_ident. simpl.
  rewrite string_app_assoc. by apply parse_quoted_double.
Qed.

Lemma parse_schema_payload_quote name : parse_created_schema_payload (quote_ident name) = Some name.
Proof.
  unfold parse_created_schema_payload. rewrite <-(string_app_nil (quote_ident name)).
  rewrite parse_quote_ident by (by intros [? ?]). done.
Qed.

Lemma parse_table_payload_quote s t :
  parse_created_table_payload (quote_ident s +:+ String dot (quote_ident t)) = Some (s, t).
Proof.
  unfold parse_created_table_payload. rewrite parse_quote_ident by (by intros [? ?]).
  cbn [mbind option_bind].
  change (strip_prefix dot (String dot (quote_ident t))) with (Some (quote_ident t)).
  cbn [mbind option_bind]. pose proof (parse_quote_ident t "") as E.
  rewrite string_app_nil in E. rewrite E by (by intros [? ?]). done.
Qed.

(** ** Splitting undoes joining *)

(** Scanning an entry: the quote state it leaves, or [None] at a top-level comma. *)
Fixpoint scan (s : string) (in_quotes : bool) : option bool :=
  match s with
  | EmptyString => Some in_quotes
  | String c r =>
      if bool_decide (c = dquote) then scan r (negb in_quotes)
      else if bool_decide (c = comma) && negb in_quotes then None
      else scan r in_quotes
  end.

Definition clean (e : string) : Prop := scan e false = Some false.

Lemma scan_app a b q : scan (a +:+ b) q = scan a q ≫= scan b.
Proof.
  revert q; induction a as [|c a IH]; intros q; simpl; [done|].
  destruct (bool_decide (c = dquote)); [apply IH|].
  destruct (bool_decide (c = comma) && negb q); [done|apply IH].
Qed.

Definition prepend (e : string) (l : list string) : list string :=
  match l with h :: t => (e +:+ h) :: t | [] => [e] end.

Lemma split_loop_cons s q : exists h t, split_loop s q = h :: t.
Proof.
  revert q; induction s as [|c s IH]; intros q; simpl; [eauto|].
  destruct (bool_decide (c = dquote)); [destruct (IH (negb q)) as (?&?&->); simpl; eauto|].
  destruct (bool_decide (c = comma) && negb q); [eauto|].
  destruct (IH q) as (?&?&->); simpl; eauto.
Qed.

Lemma split_loop_app e rest q q' :
  scan e q = Some q' -> split_loop (e +:+ rest) q = prepend e (split_loop rest q').
Proof.
  revert q; induction e as [|c e IH]; intros q; simpl.
  - intros [= ->]. destruct (split_loop_cons rest q') as (h & t & ->). done.
  - destruct (split_loop_cons rest q') as (h & t & E).
    destruct (bool_decide (c = dquote)); [|destruct (bool_decide (c = comma) && negb q); [done|]];
      intros Hs; rewrite (IH _ Hs), E; done.
Qed.

Lemma split_loop_concat es :
  Forall clean es ->
  filter (fun e => e <> "") (split_loop (String.concat "," es) false)
  = filter (fun e => e <> "") es.
Proof.
  induction 1 as [|e es He _ IH]; [done|].
  destruct es as [|e' es].
  - cbn [String.concat]. rewrite <-(string_app_nil e) at 1.
    rewrite (split_loop_app _ _ _ _ He). cbn [split_loop prepend]. by rewrite string_app_nil.
  - change (String.concat "," (e :: e' :: es))
      with (e +:+ String comma (String.concat "," (e' :: es))).
    rewrite (split_loop_app _ _ _ _ He). cbn [split_loop].
    change (bool_decide (comma = dquote)) with false.
    change (bool_decide (comma = comma) && negb false) with true. cbn [prepend].
    rewrite string_app_nil, !filter_cons, IH. done.
Qed.

Lemma split_entries_concat es :
  Forall clean es -> Forall (fun e => e <> "") es -> split_entries (String.concat "," es) = es.
Proof.
  intros Hc Hn. unfold split_entries. rewrite split_loop_concat by done.
  clear Hc. induction Hn as [|e es He _ IH]; [done|]. by rewrite filter_cons_True, IH.
Qed.

Lemma scan_double_quotes s : scan (double_quotes s) true = Some true.
Proof.
  induction s as [|c s IH]; simpl; [done|].
  destruct (decide (c = dquote)) as [->|Hc].
  - rewrite bool_decide_true by done. simpl. done.
  - rewrite bool_decide_false by done. simpl. rewrite bool_decide_false by done.
    by rewrite andb_false_r.
Qed.

Lemma scan_quote_ident s : scan (quote_ident s) false = Some false.
Proof.
  unfold quote_ident. simpl. rewrite scan_app, scan_double_quotes. done.
Qed.

Lemma scan_digits ds q : Forall (fun d => d < 10) ds -> scan (string_of_digits ds) q = Some q.
Proof.
  induction 1 as [|d ds Hd _ IH]; simpl; [done|].
  assert (H : forall c, N_of_ascii c < 48 -> digit d <> c).
  { intros c Hc E%(f_equal N_of_ascii). rewrite N_of_digit in E by done. lia. }
  rewrite !bool_decide_false by (apply H; reflexivity). done.
Qed.

Lemma scan_display n q : u64 n -> scan (display_u64 n) q = Some q.
Proof. intros Hn. destruct (display_u64_digits n Hn) as (d & ds & -> & F & _). by apply scan_digits. Qed.

Lemma clean_entry kind payload :
  scan kind false = Some false -> scan payload false = Some false -> clean (entry kind payload).
Proof. intros Hk Hp. unfold clean, entry. rewrite scan_app, Hk. done. Qed.

Lemma entry_nonempty kind payload : entry kind payload <> "".
Proof. unfold entry. by destruct kind. Qed.

(** Kinds contain neither a colon nor an upper-case letter. *)
Fixpoint plain_kind (s : string) : bool :=
  match s with
  | EmptyString => true
  | String c r => negb (bool_decide (c = colon)) && bool_decide (lower_char c = c) && plain_kind r
  end.

Lemma split_once_entry kind payload :
  plain_kind kind = true -> split_once colon (entry kind payload) = Some (kind, payload).
Proof.
  unfold entry. induction kind as [|c kind IH]; simpl; [done|].
  rewrite !andb_true_iff, negb_true_iff, bool_decide_eq_false. intros [[Hc _] Hk].
  rewrite bool_decide_false by done. by rewrite IH.
Qed.

Lemma lower_plain kind : plain_kind kind = true -> to_ascii_lowercase kind = kind.
Proof.
  induction kind as [|c kind IH]; simpl; [done|].
  rewrite !andb_true_iff, bool_decide_eq_true. intros [[_ Hc] Hk]. by rewrite Hc, IH.
Qed.

Lemma parse_entry_entry c kind payload :
  plain_kind kind = true ->
  parse_entry c (entry kind payload) =
  let '(c', known) := parse_kind kind payload c in
  if known then c' else upd_has_unknown (fun _ => true) c'.
Proof. intros Hk. unfold parse_entry. by rewrite split_once_entry, lower_plain. Qed.

(** ** Groups of entries *)

(** Field assignments compose, and see functions extensionally. *)
Class FieldUpd {A} (upd : (A -> A) -> ChangeSet -> ChangeSet) : Prop := {
  upd_comp f g c : upd f (upd g c) = upd (fun x => f (g x)) c;
  upd_ext f g c : (forall x, f x = g x) -> upd f c = upd g c;
  upd_id c : upd (fun x => x) c = c;
}.

Ltac solve_upd :=
  split; [done | intros f g c E; unfold_upd; by rewrite E | by intros []]
with unfold_upd :=
  unfold upd_created_schemas, upd_dropped_schemas, upd_created_tables, upd_altered_tables,
    upd_dropped_tables, upd_created_views, upd_altered_views, upd_dropped_views,
    upd_created_scalar_macros, upd_created_table_macros, upd_dropped_scalar_macros,
    upd_dropped_table_macros, upd_inserted_tables, upd_deleted_from_tables,
    upd_merge_adjacent_tables, upd_rewrite_delete_tables.

#[export] Instance upd1 : FieldUpd upd_created_schemas. Proof. solve_upd. Qed.
#[export] Instance upd2 : FieldUpd upd_dropped_schemas. Proof. solve_upd. Qed.
#[export] Instance upd3 : FieldUpd upd_created_tables. Proof. solve_upd. Qed.
#[export] Instance upd4 : FieldUpd upd_altered_tables. Proof. solve_upd. Qed.
#[export] Instance upd5 : FieldUpd upd_dropped_tables. Proof. solve_upd. Qed.
#[export] Instance upd6 : FieldUpd upd_created_views. Proof. solve_upd. Qed.
#[export] Instance upd7 : FieldUpd upd_altered_views. Proof. solve_upd. Qed.
#[export] Instance upd8 : FieldUpd upd_dropped_views. Proof. solve_upd. Qed.
#[export] Instance upd9 : FieldUpd upd_created_scalar_macros. Proof. solve_upd. Qed.
#[export] Instance upd10 : FieldUpd upd_created_table_macros. Proof. solve_upd. Qed.
#[export] Instance upd11 : FieldUpd upd_dropped_scalar_macros. Proof. solve_upd. Qed.
#[export] Instance upd12 : FieldUpd upd_dropped_table_macros. Proof. solve_upd. Qed.
#[export] Instance upd13 : FieldUpd upd_inserted_tables. Proof. solve_upd. Qed.
#[export] Instance upd14 : FieldUpd upd_deleted_from_tables. Proof. solve_upd. Qed.
#[export] Instance upd15 : FieldUpd upd_merge_adjacent_tables. Proof. solve_upd. Qed.
#[export] Instance upd16 : FieldUpd upd_rewrite_delete_tables. Proof. solve_upd. Qed.

(** Parsing a rendered set inserts its elements, whatever their order. *)
Lemma parse_list {A} `{Countable A}
    (upd : (gset A -> gset A) -> ChangeSet -> ChangeSet) `{!FieldUpd upd}
    (render : A -> string) (l : list A) c :
  (forall x c', x ∈ l -> parse_entry c' (render x) = upd (ins x) c') ->
  foldl parse_entry c (map render l) = upd (fun y => list_to_set l ∪ y) c.
Proof.
  revert c; induction l as [|x l IH]; intros c Hp; simpl.
  - rewrite <-(upd_id c) at 1. apply upd_ext. set_solver.
  - rewrite Hp, IH by set_solver. rewrite upd_comp. apply upd_ext. unfold ins. set_solver.
Qed.

Lemma parse_group {A} `{Countable A} (R : relation A) `{!RelDecision R}
    (upd : (gset A -> gset A) -> ChangeSet -> ChangeSet) `{!FieldUpd upd}
    (render : A -> string) (s : gset A) c :
  (forall x c', x ∈ s -> parse_entry c' (render x) = upd (ins x) c') ->
  foldl parse_entry c (map render (in_order R s)) = upd (fun y => s ∪ y) c.
Proof.
  intros Hp. rewrite (parse_list upd), list_to_set_in_order; [done|].
  intros x c' Hx. apply Hp. by apply elem_of_in_order in Hx.
Qed.

Lemma parse_id_group upd `{!FieldUpd upd} kind s c :
  plain_kind kind = true ->
  (forall payload c', parse_kind kind payload c' = parse_id upd payload c') ->
  (forall n, n ∈ s -> u64 n) ->
  foldl parse_entry c (id_entries kind s) = upd (fun y => s ∪ y) c.
Proof.
  intros Hk Hp Hu. apply parse_group; [done|]. intros n c' Hn.
  rewrite parse_entry_entry, Hp by done. unfold parse_id.
  by rewrite parse_display_u64 by auto.
Qed.

Lemma parse_pair_group upd `{!FieldUpd upd} kind s c :
  plain_kind kind = true ->
  (forall payload c', parse_kind kind payload c' = parse_pair upd payload c') ->
  foldl parse_entry c (pair_entries kind s) = upd (fun y => s ∪ y) c.
Proof.
  intros Hk Hp. apply parse_group; [done|]. intros [a b] c' Hn.
  rewrite parse_entry_entry, Hp by done. unfold parse_pair. cbn [fst snd].
  by rewrite parse_table_payload_quote.
Qed.

Lemma parse_name_group s c :
  foldl parse_entry c (name_entries "created_schema" s) = upd_created_schemas (fun y => s ∪ y) c.
Proof.
  apply parse_group; [apply _|]. intros a c' Hn.
  rewrite parse_entry_entry by done. unfold parse_kind. rewrite decide_True by done.
  by rewrite parse_schema_payload_quote.
Qed.

Lemma parse_deleted_group s c :
  (forall n, n ∈ s -> u64 n) ->
  foldl parse_entry c (id_entries "deleted_from_table" s)
  = upd_deleted_from_tables (fun y => s ∪ y)
      (upd_deletes_untargeted_files (fun b => b || negb (bool_decide (s = ∅))) c).
Proof.
  intros Hu. unfold id_entries.
  assert (P : forall l c0, (forall n, n ∈ l -> u64 n) ->
    foldl parse_entry c0 (map (fun id => entry "deleted_from_table" (display_u64 id)) l)
    = upd_deleted_from_tables (fun y => list_to_set l ∪ y)
        (upd_deletes_untargeted_files (fun b => b || negb (bool_decide (l = []))) c0)).
  { induction l as [|n l IH]; intros c0 Hl.
    - simpl. destruct c0; unfold upd_deleted_from_tables, upd_deletes_untargeted_files; simpl.
      by rewrite orb_false_r, (left_id_L ∅ (∪)).
    - cbn [map foldl]. rewrite parse_entry_entry by done.
      change (parse_kind "deleted_from_table" ?p ?c) with
        (parse_id upd_deleted_from_tables p (upd_deletes_untargeted_files (fun _ => true) c)).
      unfold parse_id. rewrite parse_display_u64 by set_solver. cbv iota beta.
      rewrite IH by set_solver.
      unfold upd_deleted_from_tables, upd_deletes_untargeted_files, ins; simpl.
      f_equal; [set_solver|by destruct (deletes_untargeted_files c0)]. }
  rewrite P by (intros n Hn; apply Hu; by apply elem_of_in_order in Hn).
  rewrite list_to_set_in_order.
  rewrite (bool_decide_ext (in_order N.le s = []) (s = ∅)); [done|].
  split; [|intros ->; done]. intros E. rewrite <-(list_to_set_in_order N.le s), E. done.
Qed.

(** ** The round trip *)

(** What a change set keeps through the grammar: names and ids of what it
    touched.  The schema ids of created entries, the ids of the files deleted
    from, and the legacy compaction kind have no words; a parsed delete is
    untargeted. *)
Definition on_the_wire (c : ChangeSet) : ChangeSet :=
  upd_created_table_schema_ids (fun _ => ∅) (upd_created_view_schema_ids (fun _ => ∅)
    (upd_created_macro_schema_ids (fun _ => ∅) (upd_deleted_data_file_ids (fun _ => ∅)
      (upd_compacted_tables (fun _ => ∅) (upd_has_unknown (fun _ => false)
        (upd_deletes_untargeted_files
           (fun _ => negb (bool_decide (deleted_from_tables c = ∅))) c)))))).

(** Every id the set carries is a [u64]. *)
Definition ChangeSet_wf (c : ChangeSet) : Prop :=
  forall n, n ∈ dropped_schemas c ∪ dropped_tables c ∪ dropped_views c ∪ dropped_scalar_macros c
    ∪ dropped_table_macros c ∪ inserted_tables c ∪ deleted_from_tables c ∪ altered_tables c
    ∪ altered_views c ∪ merge_adjacent_tables c ∪ rewrite_delete_tables c -> u64 n.

Lemma id_entries_ok kind s :
  scan kind false = Some false -> (forall n, n ∈ s -> u64 n) ->
  Forall (fun e => clean e /\ e <> "") (id_entries kind s).
Proof.
  intros Hk Hs. apply Forall_forall. intros e He. unfold id_entries in He.
  apply list_elem_of_fmap in He as (n & -> & Hn). apply elem_of_in_order in Hn.
  split; [|apply entry_nonempty]. apply clean_entry; [done|]. apply scan_display. auto.
Qed.

Lemma pair_entries_ok kind s :
  scan kind false = Some false -> Forall (fun e => clean e /\ e <> "") (pair_entries kind s).
Proof.
  intros Hk. apply Forall_forall. intros e He. unfold pair_entries in He.
  apply list_elem_of_fmap in He as ([a b] & -> & Hn).
  split; [|apply entry_nonempty]. apply clean_entry; [done|]. cbn [fst snd].
  rewrite scan_app, scan_quote_ident. cbn [mbind option_bind scan].
  change (bool_decide (dot = dquote)) with false. change (bool_decide (dot = comma)) with false.
  apply scan_quote_ident.
Qed.

Lemma name_entries_ok kind s :
  scan kind false = Some false -> Forall (fun e => clean e /\ e <> "") (name_entries kind s).
Proof.
  intros Hk. apply Forall_forall. intros e He. unfold name_entries in He.
  apply list_elem_of_fmap in He as (a & -> & Hn).
  split; [|apply entry_nonempty]. apply clean_entry; [done|apply scan_quote_ident].
Qed.

Lemma change_entries_ok c :
  ChangeSet_wf c -> Forall (fun e => clean e /\ e <> "") (change_entries c).
Proof.
  intros Hw. unfold change_entries, ChangeSet_wf in *.
  repeat apply Forall_app_2;
    first [ apply name_entries_ok; done | apply pair_entries_ok; done
          | apply id_entries_ok; [done | intros n Hn; apply Hw; set_solver] ].
Qed.

(** Two change sets with the same fields are equal. *)
Lemma ChangeSet_ext (a b : ChangeSet) :
  created_schemas a = created_schemas b ->
  dropped_schemas a = dropped_schemas b ->
  created_tables a = created_tables b ->
  created_table_schema_ids a = created_table_schema_ids b ->
  altered_tables a = altered_tables b ->
  dropped_tables a = dropped_tables b ->
  created_views a = created_views b ->
  created_view_schema_ids a = created_view_schema_ids b ->
  altered_views a = altered_views b ->
  dropped_views a = dropped_views b ->
  created_scalar_macros a = created_scalar_macros b ->
  created_table_macros a = created_table_macros b ->
  created_macro_schema_ids a = created_macro_schema_ids b ->
  dropped_scalar_macros a = dropped_scalar_macros b ->
  dropped_table_macros a = dropped_table_macros b ->
  inserted_tables a = inserted_tables b ->
  deleted_from_tables a = deleted_from_tables b ->
  deleted_data_file_ids a = deleted_data_file_ids b ->
  deletes_untargeted_files a = deletes_untargeted_files b ->
  merge_adjacent_tables a = merge_adjacent_tables b ->
  rewrite_delete_tables a = rewrite_delete_tables b ->
  compacted_tables a = compacted_tables b ->
  has_unknown a = has_unknown b ->
  a = b.
Proof. destruct a, b; simpl; intros; subst; reflexivity. Qed.

Lemma parse_rendered c : ChangeSet_wf c -> ChangeSet_parse (to_changes_made c) = on_the_wire c.
Proof.
  intros Hw. unfold ChangeSet_parse, to_changes_made.
  pose proof (change_entries_ok c Hw) as Hok.
  rewrite split_entries_concat by (eapply Forall_impl; [exact Hok|]; by intros ? []).
  clear Hok. unfold ChangeSet_wf in Hw. unfold change_entries. rewrite !foldl_app.
  rewrite (parse_id_group upd_dropped_schemas "dropped_schema"),
    (parse_id_group upd_dropped_tables "dropped_table"),
    (parse_id_group upd_dropped_views "dropped_view"),
    parse_name_group,
    (parse_pair_group upd_created_tables "created_table"),
    (parse_pair_group upd_created_views "created_view"),
    (parse_pair_group upd_created_scalar_macros "created_scalar_macro"),
    (parse_pair_group upd_created_table_macros "created_table_macro"),
    (parse_id_group upd_dropped_scalar_macros "dropped_scalar_macro"),
    (parse_id_group upd_dropped_table_macros "dropped_table_macro"),
    (parse_id_group upd_inserted_tables "inserted_into_table"),
    parse_deleted_group,
    (parse_id_group upd_altered_tables "altered_table"),
    (parse_id_group upd_altered_views "altered_view"),
    (parse_id_group upd_merge_adjacent_tables "merge_adjacent"),
    (parse_id_group upd_rewrite_delete_tables "rewrite_delete")
    by (first [ reflexivity | intros; reflexivity | intros n Hn; apply Hw; set_solver ]).
  clear Hw. unfold on_the_wire, ChangeSet_default.
  apply ChangeSet_ext; simpl; first [reflexivity | apply (right_id_L ∅ (∪))].
Qed.

(** C15: the [changes_made] text of a snapshot is faithful: [ChangeSet::parse] of
    what [ChangeSet::to_changes_made] rendered gives back every created, dropped,
    altered, inserted-into, deleted-from and compacted entry, whatever characters
    the quoted names contain (commas, dots, colons, double quotes), and never
    flags an unknown entry.  What the grammar has no words for is exactly what
    [on_the_wire] resets: the schema ids of created tables, views and macros, the ids of
    the files deleted from (a parsed delete is untargeted), the older compaction kind and
    the unknown flag. *)
Theorem changes_made_roundtrip c :
  ChangeSet_wf c ->
  ChangeSet_parse (to_changes_made c) = on_the_wire c
  /\ has_unknown (ChangeSet_parse (to_changes_made c)) = false.
Proof. intros Hw. by rewrite (parse_rendered c Hw). Qed.

Definition sample_changes : ChangeSet :=
  upd_created_tables (ins ("a,b", String dquote ".x:")%string)
    (upd_deleted_from_tables (ins 7%N) (upd_dropped_tables (ins 3%N) ChangeSet_default)).

Lemma changes_made_roundtrip_witness :
  ChangeSet_wf sample_changes
  /\ created_tables (ChangeSet_parse (to_changes_made sample_changes))
     = {[ ("a,b", String dquote ".x:")%string ]}.
Proof.
  assert (Hw : ChangeSet_wf sample_changes).
  { intros n Hn. unfold sample_changes, ins in Hn. cbn in Hn.
    assert (n = 3%N \/ n = 7%N) as [-> | ->] by set_solver; done. }
  split; [exact Hw|]. rewrite (proj1 (changes_made_roundtrip sample_changes Hw)).
  vm_compute. reflexivity.
Defined.
