(* ===== verification/Values.v ===== *)
(** The values of the store: the messages of [proto/moraine.proto], the framing
    header every stored value begins with ([store/frame.rs]) and the typed codec
    behind it ([store/value.rs]).

    The protobuf codec itself is generated by [prost], outside the repository:
    it is the class [Prost], with the round trip [ProstLaws] that the committer
    relies on, and [reference_messages] shows the class is inhabited. *)
From stdpp Require Import gmap strings list fin_maps pretty.
From Stdlib Require Import Strings.Byte.
From Stdlib Require Import NArith ZArith Lia.
From S2P Require Import Prelude.

Local Open Scope N_scope.

(** ** Messages

    One record per message; a [uint64] is an [N], an [int64] a [Z], an [optional]
    field an [option], a [repeated] one a list and a [map] a [gmap]. *)

Record SchemaValue : Type := mkSchemaValue {
  sv_schema_id : N;
  sv_schema_uuid : string;
  sv_begin_snapshot : N;
  sv_end_snapshot : option N;
  sv_schema_name : string;
  sv_path : string;
  sv_path_is_relative : bool;
}.
#[export] Instance SchemaValue_eq_dec : EqDecision SchemaValue.
Proof. solve_decision. Defined.
#[export] Instance SchemaValue_countable : Countable SchemaValue.
Proof.
  refine (inj_countable (fun v => [
    encode (sv_schema_id v); encode (sv_schema_uuid v); encode (sv_begin_snapshot v); encode
    (sv_end_snapshot v); encode (sv_schema_name v); encode (sv_path v); encode
    (sv_path_is_relative v)])
    (fun l => match l with
    | [y0; y1; y2; y3; y4; y5; y6] =>
    y0 ← decode y0; y1 ← decode y1; y2 ← decode y2; y3 ← decode y3; y4 ← decode y4; y5 ← decode
    y5; y6 ← decode y6; Some (mkSchemaValue y0 y1 y2 y3 y4 y5 y6)
    | _ => None end) _).
  intros []; cbn -[encode decode]. repeat (rewrite decode_encode; cbn -[encode decode]). done.
Defined.

Record TableValue : Type := mkTableValue {
  tv_table_id : N;
  tv_table_uuid : string;
  tv_begin_snapshot : N;
  tv_end_snapshot : option N;
  tv_schema_id : N;
  tv_table_name : string;
  tv_path : string;
  tv_path_is_relative : bool;
  tv_next_column_id : N;
}.
#[export] Instance TableValue_eq_dec : EqDecision TableValue.
Proof. solve_decision. Defined.
#[export] Instance TableValue_countable : Countable TableValue.
Proof.
  refine (inj_countable (fun v => [
    encode (tv_table_id v); encode (tv_table_uuid v); encode (tv_begin_snapshot v); encode
    (tv_end_snapshot v); encode (tv_schema_id v); encode (tv_table_name v); encode (tv_path v);
    encode (tv_path_is_relative v); encode (tv_next_column_id v)])
    (fun l => match l with
    | [y0; y1; y2; y3; y4; y5; y6; y7; y8] =>
    y0 ← decode y0; y1 ← decode y1; y2 ← decode y2; y3 ← decode y3; y4 ← decode y4; y5 ← decode
    y5; y6 ← decode y6; y7 ← decode y7; y8 ← decode y8; Some (mkTableValue y0 y1 y2 y3 y4 y5 y6
    y7 y8)
    | _ => None end) _).
  intros []; cbn -[encode decode]. repeat (rewrite decode_encode; cbn -[encode decode]). done.
Defined.

Record ViewValue : Type := mkViewValue {
  vv_view_id : N;
  vv_view_uuid : string;
  vv_begin_snapshot : N;
  vv_end_snapshot : option N;
  vv_schema_id : N;
  vv_view_name : string;
  vv_dialect : string;
  vv_sql : string;
  vv_column_aliases : option string;
}.
#[export] Instance ViewValue_eq_dec : EqDecision ViewValue.
Proof. solve_decision. Defined.
#[export] Instance ViewValue_countable : Countable ViewValue.
Proof.
  refine (inj_countable (fun v => [
    encode (vv_view_id v); encode (vv_view_uuid v); encode (vv_begin_snapshot v); encode
    (vv_end_snapshot v); encode (vv_schema_id v); encode (vv_view_name v); encode (vv_dialect
    v); encode (vv_sql v); encode (vv_column_aliases v)])
    (fun l => match l with
    | [y0; y1; y2; y3; y4; y5; y6; y7; y8] =>
    y0 ← decode y0; y1 ← decode y1; y2 ← decode y2; y3 ← decode y3; y4 ← decode y4; y5 ← decode
    y5; y6 ← decode y6; y7 ← decode y7; y8 ← decode y8; Some (mkViewValue y0 y1 y2 y3 y4 y5 y6
    y7 y8)
    | _ => None end) _).
  intros []; cbn -[encode decode]. repeat (rewrite decode_encode; cbn -[encode decode]). done.
Defined.

Record MacroParameter : Type := mkMacroParameter {
  mp_column_id : N;
  mp_parameter_name : string;
  mp_parameter_type : string;
  mp_default_value : option string;
  mp_default_value_type : string;
}.
#[export] Instance MacroParameter_eq_dec : EqDecision MacroParameter.
Proof. solve_decision. Defined.
#[export] Instance MacroParameter_countable : Countable MacroParameter.
Proof.
  refine (inj_countable (fun v => [
    encode (mp_column_id v); encode (mp_parameter_name v); encode (mp_parameter_type v); encode
    (mp_default_value v); encode (mp_default_value_type v)])
    (fun l => match l with
    | [y0; y1; y2; y3; y4] =>
    y0 ← decode y0; y1 ← decode y1; y2 ← decode y2; y3 ← decode y3; y4 ← decode y4; Some
    (mkMacroParameter y0 y1 y2 y3 y4)
    | _ => None end) _).
  intros []; cbn -[encode decode]. repeat (rewrite decode_encode; cbn -[encode decode]). done.
Defined.

Record MacroImplementation : Type := mkMacroImplementation {
  mi_impl_id : N;
  mi_dialect : string;
  mi_sql : string;
  mi_macro_type : string;
  mi_parameters : list MacroParameter;
}.
#[export] Instance MacroImplementation_eq_dec : EqDecision MacroImplementation.
Proof. solve_decision. Defined.
#[export] Instance MacroImplementation_countable : Countable MacroImplementation.
Proof.
  refine (inj_countable (fun v => [
    encode (mi_impl_id v); encode (mi_dialect v); encode (mi_sql v); encode (mi_macro_type v);
    encode (mi_parameters v)])
    (fun l => match l with
    | [y0; y1; y2; y3; y4] =>
    y0 ← decode y0; y1 ← decode y1; y2 ← decode y2; y3 ← decode y3; y4 ← decode y4; Some
    (mkMacroImplementation y0 y1 y2 y3 y4)
    | _ => None end) _).
  intros []; cbn -[encode decode]. repeat (rewrite decode_encode; cbn -[encode decode]). done.
Defined.

Record MacroValue : Type := mkMacroValue {
  mv_macro_id : N;
  mv_begin_snapshot : N;
  mv_end_snapshot : option N;
  mv_schema_id : N;
  mv_macro_name : string;
  mv_implementations : list MacroImplementation;
}.
#[export] Instance MacroValue_eq_dec : EqDecision MacroValue.
Proof. solve_decision. Defined.
#[export] Instance MacroValue_countable : Countable MacroValue.
Proof.
  refine (inj_countable (fun v => [
    encode (mv_macro_id v); encode (mv_begin_snapshot v); encode (mv_end_snapshot v); encode
    (mv_schema_id v); encode (mv_macro_name v); encode (mv_implementations v)])
    (fun l => match l with
    | [y0; y1; y2; y3; y4; y5] =>
    y0 ← decode y0; y1 ← decode y1; y2 ← decode y2; y3 ← decode y3; y4 ← decode y4; y5 ← decode
    y5; Some (mkMacroValue y0 y1 y2 y3 y4 y5)
    | _ => None end) _).
  intros []; cbn -[encode decode]. repeat (rewrite decode_encode; cbn -[encode decode]). done.
Defined.

Record ColumnTag : Type := mkColumnTag {
  ct_begin_snapshot : N;
  ct_end_snapshot : option N;
  ct_key : string;
  ct_value : string;
}.
#[export] Instance ColumnTag_eq_dec : EqDecision ColumnTag.
Proof. solve_decision. Defined.
#[export] Instance ColumnTag_countable : Countable ColumnTag.
Proof.
  refine (inj_countable (fun v => [
    encode (ct_begin_snapshot v); encode (ct_end_snapshot v); encode (ct_key v); encode
    (ct_value v)])
    (fun l => match l with
    | [y0; y1; y2; y3] =>
    y0 ← decode y0; y1 ← decode y1; y2 ← decode y2; y3 ← decode y3; Some (mkColumnTag y0 y1 y2
    y3)
    | _ => None end) _).
  intros []; cbn -[encode decode]. repeat (rewrite decode_encode; cbn -[encode decode]). done.
Defined.

Record ColumnValue : Type := mkColumnValue {
  cv_column_id : N;
  cv_begin_snapshot : N;
  cv_end_snapshot : option N;
  cv_table_id : N;
  cv_column_order : N;
  cv_column_name : string;
  cv_column_type : string;
  cv_initial_default : option string;
  cv_default_value : option string;
  cv_nulls_allowed : bool;
  cv_parent_column : option N;
  cv_default_value_type : option string;
  cv_default_value_dialect : option string;
  cv_tags : list ColumnTag;
}.
#[export] Instance ColumnValue_eq_dec : EqDecision ColumnValue.
Proof. solve_decision. Defined.
#[export] Instance ColumnValue_countable : Countable ColumnValue.
Proof.
  refine (inj_countable (fun v => [
    encode (cv_column_id v); encode (cv_begin_snapshot v); encode (cv_end_snapshot v); encode
    (cv_table_id v); encode (cv_column_order v); encode (cv_column_name v); encode
    (cv_column_type v); encode (cv_initial_default v); encode (cv_default_value v); encode
    (cv_nulls_allowed v); encode (cv_parent_column v); encode (cv_default_value_type v); encode
    (cv_default_value_dialect v); encode (cv_tags v)])
    (fun l => match l with
    | [y0; y1; y2; y3; y4; y5; y6; y7; y8; y9; y10; y11; y12; y13] =>
    y0 ← decode y0; y1 ← decode y1; y2 ← decode y2; y3 ← decode y3; y4 ← decode y4; y5 ← decode
    y5; y6 ← decode y6; y7 ← decode y7; y8 ← decode y8; y9 ← decode y9; y10 ← decode y10; y11 ←
    decode y11; y12 ← decode y12; y13 ← decode y13; Some (mkColumnValue y0 y1 y2 y3 y4 y5 y6 y7
    y8 y9 y10 y11 y12 y13)
    | _ => None end) _).
  intros []; cbn -[encode decode]. repeat (rewrite decode_encode; cbn -[encode decode]). done.
Defined.

Record PartitionColumn : Type := mkPartitionColumn {
  pc_partition_key_index : N;
  pc_column_id : N;
  pc_transform : string;
}.
#[export] Instance PartitionColumn_eq_dec : EqDecision PartitionColumn.
Proof. solve_decision. Defined.
#[export] Instance PartitionColumn_countable : Countable PartitionColumn.
Proof.
  refine (inj_countable (fun v => [
    encode (pc_partition_key_index v); encode (pc_column_id v); encode (pc_transform v)])
    (fun l => match l with
    | [y0; y1; y2] =>
    y0 ← decode y0; y1 ← decode y1; y2 ← decode y2; Some (mkPartitionColumn y0 y1 y2)
    | _ => None end) _).
  intros []; cbn -[encode decode]. repeat (rewrite decode_encode; cbn -[encode decode]). done.
Defined.

Record PartitionValue : Type := mkPartitionValue {
  pv_partition_id : N;
  pv_table_id : N;
  pv_begin_snapshot : N;
  pv_end_snapshot : option N;
  pv_columns : list PartitionColumn;
}.
#[export] Instance PartitionValue_eq_dec : EqDecision PartitionValue.
Proof. solve_decision. Defined.
#[export] Instance PartitionValue_countable : Countable PartitionValue.
Proof.
  refine (inj_countable (fun v => [
    encode (pv_partition_id v); encode (pv_table_id v); encode (pv_begin_snapshot v); encode
    (pv_end_snapshot v); encode (pv_columns v)])
    (fun l => match l with
    | [y0; y1; y2; y3; y4] =>
    y0 ← decode y0; y1 ← decode y1; y2 ← decode y2; y3 ← decode y3; y4 ← decode y4; Some
    (mkPartitionValue y0 y1 y2 y3 y4)
    | _ => None end) _).
  intros []; cbn -[encode decode]. repeat (rewrite decode_encode; cbn -[encode decode]). done.
Defined.

Record SortExpression : Type := mkSortExpression {
  se_sort_key_index : N;
  se_expression : string;
  se_dialect : string;
  se_sort_direction : string;
  se_null_order : string;
}.
#[export] Instance SortExpression_eq_dec : EqDecision SortExpression.
Proof. solve_decision. Defined.
#[export] Instance SortExpression_countable : Countable SortExpression.
Proof.
  refine (inj_countable (fun v => [
    encode (se_sort_key_index v); encode (se_expression v); encode (se_dialect v); encode
    (se_sort_direction v); encode (se_null_order v)])
    (fun l => match l with
    | [y0; y1; y2; y3; y4] =>
    y0 ← decode y0; y1 ← decode y1; y2 ← decode y2; y3 ← decode y3; y4 ← decode y4; Some
    (mkSortExpression y0 y1 y2 y3 y4)
    | _ => None end) _).
  intros []; cbn -[encode decode]. repeat (rewrite decode_encode; cbn -[encode decode]). done.
Defined.

Record SortValue : Type := mkSortValue {
  ov_sort_id : N;
  ov_table_id : N;
  ov_begin_snapshot : N;
  ov_end_snapshot : option N;
  ov_expressions : list SortExpression;
}.
#[export] Instance SortValue_eq_dec : EqDecision SortValue.
Proof. solve_decision. Defined.
#[export] Instance SortValue_countable : Countable SortValue.
Proof.
  refine (inj_countable (fun v => [
    encode (ov_sort_id v); encode (ov_table_id v); encode (ov_begin_snapshot v); encode
    (ov_end_snapshot v); encode (ov_expressions v)])
    (fun l => match l with
    | [y0; y1; y2; y3; y4] =>
    y0 ← decode y0; y1 ← decode y1; y2 ← decode y2; y3 ← decode y3; y4 ← decode y4; Some
    (mkSortValue y0 y1 y2 y3 y4)
    | _ => None end) _).
  intros []; cbn -[encode decode]. repeat (rewrite decode_encode; cbn -[encode decode]). done.
Defined.

Record IndexValue : Type := mkIndexValue {
  xv_index_id : N;
  xv_table_id : N;
  xv_begin_snapshot : N;
  xv_end_snapshot : option N;
  xv_index_name : string;
  xv_column_ids : list N;
  xv_unique : bool;
  xv_column_descending : list bool;
  xv_column_nulls_first : list bool;
  xv_build_state : option string;
  xv_build_cursor_file : option N;
  xv_build_cursor_row_id : option N;
  xv_build_cursor_position : option N;
  xv_build_deletes_scanned : option N;
  xv_poisoned : option bool;
  xv_ducklake_index_id : option N;
  xv_deferred_maintenance : option bool;
}.
#[export] Instance IndexValue_eq_dec : EqDecision IndexValue.
Proof. solve_decision. Defined.
#[export] Instance IndexValue_countable : Countable IndexValue.
Proof.
  refine (inj_countable (fun v => [
    encode (xv_index_id v); encode (xv_table_id v); encode (xv_begin_snapshot v); encode
    (xv_end_snapshot v); encode (xv_index_name v); encode (xv_column_ids v); encode (xv_unique
    v); encode (xv_column_descending v); encode (xv_column_nulls_first v); encode
    (xv_build_state v); encode (xv_build_cursor_file v); encode (xv_build_cursor_row_id v);
    encode (xv_build_cursor_position v); encode (xv_build_deletes_scanned v); encode
    (xv_poisoned v); encode (xv_ducklake_index_id v); encode (xv_deferred_maintenance v)])
    (fun l => match l with
    | [y0; y1; y2; y3; y4; y5; y6; y7; y8; y9; y10; y11; y12; y13; y14; y15; y16] =>
    y0 ← decode y0; y1 ← decode y1; y2 ← decode y2; y3 ← decode y3; y4 ← decode y4; y5 ← decode
    y5; y6 ← decode y6; y7 ← decode y7; y8 ← decode y8; y9 ← decode y9; y10 ← decode y10; y11 ←
    decode y11; y12 ← decode y12; y13 ← decode y13; y14 ← decode y14; y15 ← decode y15; y16 ←
    decode y16; Some (mkIndexValue y0 y1 y2 y3 y4 y5 y6 y7 y8 y9 y10 y11 y12 y13 y14 y15 y16)
    | _ => None end) _).
  intros []; cbn -[encode decode]. repeat (rewrite decode_encode; cbn -[encode decode]). done.
Defined.

Record FilePartitionValue : Type := mkFilePartitionValue {
  fp_partition_key_index : N;
  fp_partition_value : string;
}.
#[export] Instance FilePartitionValue_eq_dec : EqDecision FilePartitionValue.
Proof. solve_decision. Defined.
#[export] Instance FilePartitionValue_countable : Countable FilePartitionValue.
Proof.
  refine (inj_countable (fun v => [
    encode (fp_partition_key_index v); encode (fp_partition_value v)])
    (fun l => match l with
    | [y0; y1] =>
    y0 ← decode y0; y1 ← decode y1; Some (mkFilePartitionValue y0 y1)
    | _ => None end) _).
  intros []; cbn -[encode decode]. repeat (rewrite decode_encode; cbn -[encode decode]). done.
Defined.

Record DataFileValue : Type := mkDataFileValue {
  df_data_file_id : N;
  df_table_id : N;
  df_begin_snapshot : N;
  df_end_snapshot : option N;
  df_file_order : option N;
  df_path : string;
  df_path_is_relative : bool;
  df_file_format : string;
  df_record_count : N;
  df_file_size_bytes : N;
  df_footer_size : N;
  df_row_id_start : option N;
  df_partition_id : option N;
  df_encryption_key : option string;
  df_mapping_id : option N;
  df_partial_max : option N;
  df_partition_values : list FilePartitionValue;
}.
#[export] Instance DataFileValue_eq_dec : EqDecision DataFileValue.
Proof. solve_decision. Defined.
#[export] Instance DataFileValue_countable : Countable DataFileValue.
Proof.
  refine (inj_countable (fun v => [
    encode (df_data_file_id v); encode (df_table_id v); encode (df_begin_snapshot v); encode
    (df_end_snapshot v); encode (df_file_order v); encode (df_path v); encode
    (df_path_is_relative v); encode (df_file_format v); encode (df_record_count v); encode
    (df_file_size_bytes v); encode (df_footer_size v); encode (df_row_id_start v); encode
    (df_partition_id v); encode (df_encryption_key v); encode (df_mapping_id v); encode
    (df_partial_max v); encode (df_partition_values v)])
    (fun l => match l with
    | [y0; y1; y2; y3; y4; y5; y6; y7; y8; y9; y10; y11; y12; y13; y14; y15; y16] =>
    y0 ← decode y0; y1 ← decode y1; y2 ← decode y2; y3 ← decode y3; y4 ← decode y4; y5 ← decode
    y5; y6 ← decode y6; y7 ← decode y7; y8 ← decode y8; y9 ← decode y9; y10 ← decode y10; y11 ←
    decode y11; y12 ← decode y12; y13 ← decode y13; y14 ← decode y14; y15 ← decode y15; y16 ←
    decode y16; Some (mkDataFileValue y0 y1 y2 y3 y4 y5 y6 y7 y8 y9 y10 y11 y12 y13 y14 y15 y16)
    | _ => None end) _).
  intros []; cbn -[encode decode]. repeat (rewrite decode_encode; cbn -[encode decode]). done.
Defined.

Record DeleteFileValue : Type := mkDeleteFileValue {
  dl_delete_file_id : N;
  dl_table_id : N;
  dl_begin_snapshot : N;
  dl_end_snapshot : option N;
  dl_data_file_id : N;
  dl_path : string;
  dl_path_is_relative : bool;
  dl_format : string;
  dl_delete_count : N;
  dl_file_size_bytes : N;
  dl_footer_size : N;
  dl_encryption_key : option string;
  dl_partial_max : option N;
}.
#[export] Instance DeleteFileValue_eq_dec : EqDecision DeleteFileValue.
Proof. solve_decision. Defined.
#[export] Instance DeleteFileValue_countable : Countable DeleteFileValue.
Proof.
  refine (inj_countable (fun v => [
    encode (dl_delete_file_id v); encode (dl_table_id v); encode (dl_begin_snapshot v); encode
    (dl_end_snapshot v); encode (dl_data_file_id v); encode (dl_path v); encode
    (dl_path_is_relative v); encode (dl_format v); encode (dl_delete_count v); encode
    (dl_file_size_bytes v); encode (dl_footer_size v); encode (dl_encryption_key v); encode
    (dl_partial_max v)])
    (fun l => match l with
    | [y0; y1; y2; y3; y4; y5; y6; y7; y8; y9; y10; y11; y12] =>
    y0 ← decode y0; y1 ← decode y1; y2 ← decode y2; y3 ← decode y3; y4 ← decode y4; y5 ← decode
    y5; y6 ← decode y6; y7 ← decode y7; y8 ← decode y8; y9 ← decode y9; y10 ← decode y10; y11 ←
    decode y11; y12 ← decode y12; Some (mkDeleteFileValue y0 y1 y2 y3 y4 y5 y6 y7 y8 y9 y10 y11
    y12)
    | _ => None end) _).
  intros []; cbn -[encode decode]. repeat (rewrite decode_encode; cbn -[encode decode]). done.
Defined.

Record NameMapping : Type := mkNameMapping {
  nm_column_id : N;
  nm_source_name : string;
  nm_target_field_id : N;
  nm_parent_column : option N;
  nm_is_partition : bool;
}.
#[export] Instance NameMapping_eq_dec : EqDecision NameMapping.
Proof. solve_decision. Defined.
#[export] Instance NameMapping_countable : Countable NameMapping.
Proof.
  refine (inj_countable (fun v => [
    encode (nm_column_id v); encode (nm_source_name v); encode (nm_target_field_id v); encode
    (nm_parent_column v); encode (nm_is_partition v)])
    (fun l => match l with
    | [y0; y1; y2; y3; y4] =>
    y0 ← decode y0; y1 ← decode y1; y2 ← decode y2; y3 ← decode y3; y4 ← decode y4; Some
    (mkNameMapping y0 y1 y2 y3 y4)
    | _ => None end) _).
  intros []; cbn -[encode decode]. repeat (rewrite decode_encode; cbn -[encode decode]). done.
Defined.

Record MappingValue : Type := mkMappingValue {
  mg_mapping_id : N;
  mg_table_id : N;
  mg_map_type : string;
  mg_name_mappings : list NameMapping;
}.
#[export] Instance MappingValue_eq_dec : EqDecision MappingValue.
Proof. solve_decision. Defined.
#[export] Instance MappingValue_countable : Countable MappingValue.
Proof.
  refine (inj_countable (fun v => [
    encode (mg_mapping_id v); encode (mg_table_id v); encode (mg_map_type v); encode
    (mg_name_mappings v)])
    (fun l => match l with
    | [y0; y1; y2; y3] =>
    y0 ← decode y0; y1 ← decode y1; y2 ← decode y2; y3 ← decode y3; Some (mkMappingValue y0 y1
    y2 y3)
    | _ => None end) _).
  intros []; cbn -[encode decode]. repeat (rewrite decode_encode; cbn -[encode decode]). done.
Defined.

Record FileVariantStats : Type := mkFileVariantStats {
  fv_variant_path : string;
  fv_shredded_type : string;
  fv_column_size_bytes : N;
  fv_value_count : N;
  fv_null_count : N;
  fv_min_value : option string;
  fv_max_value : option string;
  fv_contains_nan : option bool;
  fv_extra_stats : option string;
}.
#[export] Instance FileVariantStats_eq_dec : EqDecision FileVariantStats.
Proof. solve_decision. Defined.
#[export] Instance FileVariantStats_countable : Countable FileVariantStats.
Proof.
  refine (inj_countable (fun v => [
    encode (fv_variant_path v); encode (fv_shredded_type v); encode (fv_column_size_bytes v);
    encode (fv_value_count v); encode (fv_null_count v); encode (fv_min_value v); encode
    (fv_max_value v); encode (fv_contains_nan v); encode (fv_extra_stats v)])
    (fun l => match l with
    | [y0; y1; y2; y3; y4; y5; y6; y7; y8] =>
    y0 ← decode y0; y1 ← decode y1; y2 ← decode y2; y3 ← decode y3; y4 ← decode y4; y5 ← decode
    y5; y6 ← decode y6; y7 ← decode y7; y8 ← decode y8; Some (mkFileVariantStats y0 y1 y2 y3 y4
    y5 y6 y7 y8)
    | _ => None end) _).
  intros []; cbn -[encode decode]. repeat (rewrite decode_encode; cbn -[encode decode]). done.
Defined.

Record FileColumnStatsValue : Type := mkFileColumnStatsValue {
  fcs_data_file_id : N;
  fcs_table_id : N;
  fcs_column_id : N;
  fcs_column_size_bytes : N;
  fcs_value_count : N;
  fcs_null_count : N;
  fcs_min_value : option string;
  fcs_max_value : option string;
  fcs_contains_nan : option bool;
  fcs_extra_stats : option string;
  fcs_variant_stats : list FileVariantStats;
}.
#[export] Instance FileColumnStatsValue_eq_dec : EqDecision FileColumnStatsValue.
Proof. solve_decision. Defined.
#[export] Instance FileColumnStatsValue_countable : Countable FileColumnStatsValue.
Proof.
  refine (inj_countable (fun v => [
    encode (fcs_data_file_id v); encode (fcs_table_id v); encode (fcs_column_id v); encode
    (fcs_column_size_bytes v); encode (fcs_value_count v); encode (fcs_null_count v); encode
    (fcs_min_value v); encode (fcs_max_value v); encode (fcs_contains_nan v); encode
    (fcs_extra_stats v); encode (fcs_variant_stats v)])
    (fun l => match l with
    | [y0; y1; y2; y3; y4; y5; y6; y7; y8; y9; y10] =>
    y0 ← decode y0; y1 ← decode y1; y2 ← decode y2; y3 ← decode y3; y4 ← decode y4; y5 ← decode
    y5; y6 ← decode y6; y7 ← decode y7; y8 ← decode y8; y9 ← decode y9; y10 ← decode y10; Some
    (mkFileColumnStatsValue y0 y1 y2 y3 y4 y5 y6 y7 y8 y9 y10)
    | _ => None end) _).
  intros []; cbn -[encode decode]. repeat (rewrite decode_encode; cbn -[encode decode]). done.
Defined.

Record TableStatsValue : Type := mkTableStatsValue {
  ts_table_id : N;
  ts_record_count : N;
  ts_next_row_id : N;
  ts_file_size_bytes : N;
}.
#[export] Instance TableStatsValue_eq_dec : EqDecision TableStatsValue.
Proof. solve_decision. Defined.
#[export] Instance TableStatsValue_countable : Countable TableStatsValue.
Proof.
  refine (inj_countable (fun v => [
    encode (ts_table_id v); encode (ts_record_count v); encode (ts_next_row_id v); encode
    (ts_file_size_bytes v)])
    (fun l => match l with
    | [y0; y1; y2; y3] =>
    y0 ← decode y0; y1 ← decode y1; y2 ← decode y2; y3 ← decode y3; Some (mkTableStatsValue y0
    y1 y2 y3)
    | _ => None end) _).
  intros []; cbn -[encode decode]. repeat (rewrite decode_encode; cbn -[encode decode]). done.
Defined.

Record TableColumnStatsValue : Type := mkTableColumnStatsValue {
  tcs_table_id : N;
  tcs_column_id : N;
  tcs_contains_null : option bool;
  tcs_contains_nan : option bool;
  tcs_min_value : option string;
  tcs_max_value : option string;
  tcs_extra_stats : option string;
}.
#[export] Instance TableColumnStatsValue_eq_dec : EqDecision TableColumnStatsValue.
Proof. solve_decision. Defined.
#[export] Instance TableColumnStatsValue_countable : Countable TableColumnStatsValue.
Proof.
  refine (inj_countable (fun v => [
    encode (tcs_table_id v); encode (tcs_column_id v); encode (tcs_contains_null v); encode
    (tcs_contains_nan v); encode (tcs_min_value v); encode (tcs_max_value v); encode
    (tcs_extra_stats v)])
    (fun l => match l with
    | [y0; y1; y2; y3; y4; y5; y6] =>
    y0 ← decode y0; y1 ← decode y1; y2 ← decode y2; y3 ← decode y3; y4 ← decode y4; y5 ← decode
    y5; y6 ← decode y6; Some (mkTableColumnStatsValue y0 y1 y2 y3 y4 y5 y6)
    | _ => None end) _).
  intros []; cbn -[encode decode]. repeat (rewrite decode_encode; cbn -[encode decode]). done.
Defined.

Record TagEntry : Type := mkTagEntry {
  te_begin_snapshot : N;
  te_end_snapshot : option N;
  te_key : string;
  te_value : string;
}.
#[export] Instance TagEntry_eq_dec : EqDecision TagEntry.
Proof. solve_decision. Defined.
#[export] Instance TagEntry_countable : Countable TagEntry.
Proof.
  refine (inj_countable (fun v => [
    encode (te_begin_snapshot v); encode (te_end_snapshot v); encode (te_key v); encode
    (te_value v)])
    (fun l => match l with
    | [y0; y1; y2; y3] =>
    y0 ← decode y0; y1 ← decode y1; y2 ← decode y2; y3 ← decode y3; Some (mkTagEntry y0 y1 y2
    y3)
    | _ => None end) _).
  intros []; cbn -[encode decode]. repeat (rewrite decode_encode; cbn -[encode decode]). done.
Defined.

Record TagValue : Type := mkTagValue {
  tg_object_id : N;
  tg_entries : list TagEntry;
}.
#[export] Instance TagValue_eq_dec : EqDecision TagValue.
Proof. solve_decision. Defined.
#[export] Instance TagValue_countable : Countable TagValue.
Proof.
  refine (inj_countable (fun v => [
    encode (tg_object_id v); encode (tg_entries v)])
    (fun l => match l with
    | [y0; y1] =>
    y0 ← decode y0; y1 ← decode y1; Some (mkTagValue y0 y1)
    | _ => None end) _).
  intros []; cbn -[encode decode]. repeat (rewrite decode_encode; cbn -[encode decode]). done.
Defined.

Record OptionScopeValue : Type := mkOptionScopeValue {
  os_options : gmap string string;
}.
#[export] Instance OptionScopeValue_eq_dec : EqDecision OptionScopeValue.
Proof. solve_decision. Defined.
#[export] Instance OptionScopeValue_countable : Countable OptionScopeValue.
Proof.
  refine (inj_countable (fun v => [
    encode (os_options v)])
    (fun l => match l with
    | [y0] =>
    y0 ← decode y0; Some (mkOptionScopeValue y0)
    | _ => None end) _).
  intros []; cbn -[encode decode]. repeat (rewrite decode_encode; cbn -[encode decode]). done.
Defined.

Record SnapshotValue : Type := mkSnapshotValue {
  sn_snapshot_id : N;
  sn_snapshot_time_micros : Z;
  sn_schema_version : N;
  sn_next_catalog_id : N;
  sn_next_file_id : N;
  sn_changes_made : string;
  sn_author : option string;
  sn_commit_message : option string;
  sn_commit_extra_info : option string;
  sn_schema_changed_table_ids : list N;
  sn_deleted_data_file_ids : list N;
}.
#[export] Instance SnapshotValue_eq_dec : EqDecision SnapshotValue.
Proof. solve_decision. Defined.
#[export] Instance SnapshotValue_countable : Countable SnapshotValue.
Proof.
  refine (inj_countable (fun v => [
    encode (sn_snapshot_id v); encode (sn_snapshot_time_micros v); encode (sn_schema_version v);
    encode (sn_next_catalog_id v); encode (sn_next_file_id v); encode (sn_changes_made v);
    encode (sn_author v); encode (sn_commit_message v); encode (sn_commit_extra_info v); encode
    (sn_schema_changed_table_ids v); encode (sn_deleted_data_file_ids v)])
    (fun l => match l with
    | [y0; y1; y2; y3; y4; y5; y6; y7; y8; y9; y10] =>
    y0 ← decode y0; y1 ← decode y1; y2 ← decode y2; y3 ← decode y3; y4 ← decode y4; y5 ← decode
    y5; y6 ← decode y6; y7 ← decode y7; y8 ← decode y8; y9 ← decode y9; y10 ← decode y10; Some
    (mkSnapshotValue y0 y1 y2 y3 y4 y5 y6 y7 y8 y9 y10)
    | _ => None end) _).
  intros []; cbn -[encode decode]. repeat (rewrite decode_encode; cbn -[encode decode]). done.
Defined.

Record ChangelogValue : Type := mkChangelogValue {
  cl_keys : list bytes;
}.
#[export] Instance ChangelogValue_eq_dec : EqDecision ChangelogValue.
Proof. solve_decision. Defined.
#[export] Instance ChangelogValue_countable : Countable ChangelogValue.
Proof.
  refine (inj_countable (fun v => [
    encode (cl_keys v)])
    (fun l => match l with
    | [y0] =>
    y0 ← decode y0; Some (mkChangelogValue y0)
    | _ => None end) _).
  intros []; cbn -[encode decode]. repeat (rewrite decode_encode; cbn -[encode decode]). done.
Defined.

Record SchemaVersionValue : Type := mkSchemaVersionValue {
  svv_schema_version : N;
}.
#[export] Instance SchemaVersionValue_eq_dec : EqDecision SchemaVersionValue.
Proof. solve_decision. Defined.
#[export] Instance SchemaVersionValue_countable : Countable SchemaVersionValue.
Proof.
  refine (inj_countable (fun v => [
    encode (svv_schema_version v)])
    (fun l => match l with
    | [y0] =>
    y0 ← decode y0; Some (mkSchemaVersionValue y0)
    | _ => None end) _).
  intros []; cbn -[encode decode]. repeat (rewrite decode_encode; cbn -[encode decode]). done.
Defined.

Record GcFileValue : Type := mkGcFileValue {
  gc_data_file_id : N;
  gc_path : string;
  gc_path_is_relative : bool;
  gc_schedule_start_micros : Z;
}.
#[export] Instance GcFileValue_eq_dec : EqDecision GcFileValue.
Proof. solve_decision. Defined.
#[export] Instance GcFileValue_countable : Countable GcFileValue.
Proof.
  refine (inj_countable (fun v => [
    encode (gc_data_file_id v); encode (gc_path v); encode (gc_path_is_relative v); encode
    (gc_schedule_start_micros v)])
    (fun l => match l with
    | [y0; y1; y2; y3] =>
    y0 ← decode y0; y1 ← decode y1; y2 ← decode y2; y3 ← decode y3; Some (mkGcFileValue y0 y1 y2
    y3)
    | _ => None end) _).
  intros []; cbn -[encode decode]. repeat (rewrite decode_encode; cbn -[encode decode]). done.
Defined.

Record FormatValue : Type := mkFormatValue {
  fm_format_version : N;
  fm_writer_version : string;
}.
#[export] Instance FormatValue_eq_dec : EqDecision FormatValue.
Proof. solve_decision. Defined.
#[export] Instance FormatValue_countable : Countable FormatValue.
Proof.
  refine (inj_countable (fun v => [
    encode (fm_format_version v); encode (fm_writer_version v)])
    (fun l => match l with
    | [y0; y1] =>
    y0 ← decode y0; y1 ← decode y1; Some (mkFormatValue y0 y1)
    | _ => None end) _).
  intros []; cbn -[encode decode]. repeat (rewrite decode_encode; cbn -[encode decode]). done.
Defined.

Record HeadValue : Type := mkHeadValue {
  hd_snapshot_id : N;
  hd_batch_seq : N;
}.
#[export] Instance HeadValue_eq_dec : EqDecision HeadValue.
Proof. solve_decision. Defined.
#[export] Instance HeadValue_countable : Countable HeadValue.
Proof.
  refine (inj_countable (fun v => [
    encode (hd_snapshot_id v); encode (hd_batch_seq v)])
    (fun l => match l with
    | [y0; y1] =>
    y0 ← decode y0; y1 ← decode y1; Some (mkHeadValue y0 y1)
    | _ => None end) _).
  intros []; cbn -[encode decode]. repeat (rewrite decode_encode; cbn -[encode decode]). done.
Defined.

Record MigrationValue : Type := mkMigrationValue {
  mig_from_format : N;
  mig_to_format : N;
  mig_cursor : bytes;
}.
#[export] Instance MigrationValue_eq_dec : EqDecision MigrationValue.
Proof. solve_decision. Defined.
#[export] Instance MigrationValue_countable : Countable MigrationValue.
Proof.
  refine (inj_countable (fun v => [
    encode (mig_from_format v); encode (mig_to_format v); encode (mig_cursor v)])
    (fun l => match l with
    | [y0; y1; y2] =>
    y0 ← decode y0; y1 ← decode y1; y2 ← decode y2; Some (mkMigrationValue y0 y1 y2)
    | _ => None end) _).
  intros []; cbn -[encode decode]. repeat (rewrite decode_encode; cbn -[encode decode]). done.
Defined.

Record InlineSchemaValue : Type := mkInlineSchemaValue {
  isv_arrow_schema : bytes;
}.
#[export] Instance InlineSchemaValue_eq_dec : EqDecision InlineSchemaValue.
Proof. solve_decision. Defined.
#[export] Instance InlineSchemaValue_countable : Countable InlineSchemaValue.
Proof.
  refine (inj_countable (fun v => [
    encode (isv_arrow_schema v)])
    (fun l => match l with
    | [y0] =>
    y0 ← decode y0; Some (mkInlineSchemaValue y0)
    | _ => None end) _).
  intros []; cbn -[encode decode]. repeat (rewrite decode_encode; cbn -[encode decode]). done.
Defined.

Record InlineChunkValue : Type := mkInlineChunkValue {
  ic_body : bytes;
  ic_row_id_start : N;
  ic_row_count : N;
  ic_data_file_id : option N;
}.
#[export] Instance InlineChunkValue_eq_dec : EqDecision InlineChunkValue.
Proof. solve_decision. Defined.
#[export] Instance InlineChunkValue_countable : Countable InlineChunkValue.
Proof.
  refine (inj_countable (fun v => [
    encode (ic_body v); encode (ic_row_id_start v); encode (ic_row_count v); encode
    (ic_data_file_id v)])
    (fun l => match l with
    | [y0; y1; y2; y3] =>
    y0 ← decode y0; y1 ← decode y1; y2 ← decode y2; y3 ← decode y3; Some (mkInlineChunkValue y0
    y1 y2 y3)
    | _ => None end) _).
  intros []; cbn -[encode decode]. repeat (rewrite decode_encode; cbn -[encode decode]). done.
Defined.

Record InlineInlineDeleteValue : Type := mkInlineInlineDeleteValue {
  iid_end_snapshot : N;
}.
#[export] Instance InlineInlineDeleteValue_eq_dec : EqDecision InlineInlineDeleteValue.
Proof. solve_decision. Defined.
#[export] Instance InlineInlineDeleteValue_countable : Countable InlineInlineDeleteValue.
Proof.
  refine (inj_countable (fun v => [
    encode (iid_end_snapshot v)])
    (fun l => match l with
    | [y0] =>
    y0 ← decode y0; Some (mkInlineInlineDeleteValue y0)
    | _ => None end) _).
  intros []; cbn -[encode decode]. repeat (rewrite decode_encode; cbn -[encode decode]). done.
Defined.

Record InlineFileDeleteValue : Type := mkInlineFileDeleteValue {
  ifd_begin_snapshot : N;
}.
#[export] Instance InlineFileDeleteValue_eq_dec : EqDecision InlineFileDeleteValue.
Proof. solve_decision. Defined.
#[export] Instance InlineFileDeleteValue_countable : Countable InlineFileDeleteValue.
Proof.
  refine (inj_countable (fun v => [
    encode (ifd_begin_snapshot v)])
    (fun l => match l with
    | [y0] =>
    y0 ← decode y0; Some (mkInlineFileDeleteValue y0)
    | _ => None end) _).
  intros []; cbn -[encode decode]. repeat (rewrite decode_encode; cbn -[encode decode]). done.
Defined.

Record InlineFileDeleteTableValue : Type := mkInlineFileDeleteTableValue { }.

#[export] Instance InlineFileDeleteTableValue_eq_dec : EqDecision InlineFileDeleteTableValue.
Proof. solve_decision. Defined.
#[export] Instance InlineFileDeleteTableValue_countable : Countable InlineFileDeleteTableValue.
Proof. refine (inj_countable' (fun _ => tt) (fun _ => mkInlineFileDeleteTableValue) _). by intros []. Defined.

(** ** Struct update, [Value { field, ..prior.clone() }] *)

Definition sv_set_end_snapshot (x : option N) (v : SchemaValue) : SchemaValue :=
  mkSchemaValue
    (sv_schema_id v) (sv_schema_uuid v) (sv_begin_snapshot v) x (sv_schema_name v) (sv_path v)
    (sv_path_is_relative v).
Definition tv_set_end_snapshot (x : option N) (v : TableValue) : TableValue :=
  mkTableValue
    (tv_table_id v) (tv_table_uuid v) (tv_begin_snapshot v) x (tv_schema_id v) (tv_table_name
    v) (tv_path v) (tv_path_is_relative v) (tv_next_column_id v).
Definition tv_set_next_column_id (x : N) (v : TableValue) : TableValue :=
  mkTableValue
    (tv_table_id v) (tv_table_uuid v) (tv_begin_snapshot v) (tv_end_snapshot v) (tv_schema_id
    v) (tv_table_name v) (tv_path v) (tv_path_is_relative v) x.
Definition vv_set_end_snapshot (x : option N) (v : ViewValue) : ViewValue :=
  mkViewValue
    (vv_view_id v) (vv_view_uuid v) (vv_begin_snapshot v) x (vv_schema_id v) (vv_view_name v)
    (vv_dialect v) (vv_sql v) (vv_column_aliases v).
Definition mv_set_end_snapshot (x : option N) (v : MacroValue) : MacroValue :=
  mkMacroValue
    (mv_macro_id v) (mv_begin_snapshot v) x (mv_schema_id v) (mv_macro_name v)
    (mv_implementations v).
Definition cv_set_end_snapshot (x : option N) (v : ColumnValue) : ColumnValue :=
  mkColumnValue
    (cv_column_id v) (cv_begin_snapshot v) x (cv_table_id v) (cv_column_order v)
    (cv_column_name v) (cv_column_type v) (cv_initial_default v) (cv_default_value v)
    (cv_nulls_allowed v) (cv_parent_column v) (cv_default_value_type v)
    (cv_default_value_dialect v) (cv_tags v).
Definition cv_set_tags (x : list ColumnTag) (v : ColumnValue) : ColumnValue :=
  mkColumnValue
    (cv_column_id v) (cv_begin_snapshot v) (cv_end_snapshot v) (cv_table_id v)
    (cv_column_order v) (cv_column_name v) (cv_column_type v) (cv_initial_default v)
    (cv_default_value v) (cv_nulls_allowed v) (cv_parent_column v) (cv_default_value_type v)
    (cv_default_value_dialect v) x.
Definition pv_set_end_snapshot (x : option N) (v : PartitionValue) : PartitionValue :=
  mkPartitionValue
    (pv_partition_id v) (pv_table_id v) (pv_begin_snapshot v) x (pv_columns v).
Definition ov_set_end_snapshot (x : option N) (v : SortValue) : SortValue :=
  mkSortValue
    (ov_sort_id v) (ov_table_id v) (ov_begin_snapshot v) x (ov_expressions v).
Definition xv_set_end_snapshot (x : option N) (v : IndexValue) : IndexValue :=
  mkIndexValue
    (xv_index_id v) (xv_table_id v) (xv_begin_snapshot v) x (xv_index_name v) (xv_column_ids
    v) (xv_unique v) (xv_column_descending v) (xv_column_nulls_first v) (xv_build_state v)
    (xv_build_cursor_file v) (xv_build_cursor_row_id v) (xv_build_cursor_position v)
    (xv_build_deletes_scanned v) (xv_poisoned v) (xv_ducklake_index_id v)
    (xv_deferred_maintenance v).
Definition df_set_end_snapshot (x : option N) (v : DataFileValue) : DataFileValue :=
  mkDataFileValue
    (df_data_file_id v) (df_table_id v) (df_begin_snapshot v) x (df_file_order v) (df_path v)
    (df_path_is_relative v) (df_file_format v) (df_record_count v) (df_file_size_bytes v)
    (df_footer_size v) (df_row_id_start v) (df_partition_id v) (df_encryption_key v)
    (df_mapping_id v) (df_partial_max v) (df_partition_values v).
Definition dl_set_end_snapshot (x : option N) (v : DeleteFileValue) : DeleteFileValue :=
  mkDeleteFileValue
    (dl_delete_file_id v) (dl_table_id v) (dl_begin_snapshot v) x (dl_data_file_id v) (dl_path
    v) (dl_path_is_relative v) (dl_format v) (dl_delete_count v) (dl_file_size_bytes v)
    (dl_footer_size v) (dl_encryption_key v) (dl_partial_max v).

(** ** The protobuf codec *)

(** [prost::Message] for one message: [encode] and [decode]. *)
Class Prost (M : Type) : Type := {
  prost_encode : M -> bytes;
  prost_decode : bytes -> option M;
}.

(** Decoding what was encoded gives the message back. *)
Class ProstLaws (M : Type) {P : Prost M} : Prop :=
  prost_roundtrip : forall m : M, prost_decode (prost_encode m) = Some m.

(** Every message the store encodes has a codec. *)
Class Messages : Type := {
  SchemaValue_prost :: Prost SchemaValue;
  TableValue_prost :: Prost TableValue;
  ViewValue_prost :: Prost ViewValue;
  MacroValue_prost :: Prost MacroValue;
  ColumnValue_prost :: Prost ColumnValue;
  PartitionValue_prost :: Prost PartitionValue;
  SortValue_prost :: Prost SortValue;
  IndexValue_prost :: Prost IndexValue;
  DataFileValue_prost :: Prost DataFileValue;
  DeleteFileValue_prost :: Prost DeleteFileValue;
  MappingValue_prost :: Prost MappingValue;
  FileColumnStatsValue_prost :: Prost FileColumnStatsValue;
  TableStatsValue_prost :: Prost TableStatsValue;
  TableColumnStatsValue_prost :: Prost TableColumnStatsValue;
  TagValue_prost :: Prost TagValue;
  OptionScopeValue_prost :: Prost OptionScopeValue;
  SnapshotValue_prost :: Prost SnapshotValue;
  ChangelogValue_prost :: Prost ChangelogValue;
  SchemaVersionValue_prost :: Prost SchemaVersionValue;
  GcFileValue_prost :: Prost GcFileValue;
  FormatValue_prost :: Prost FormatValue;
  HeadValue_prost :: Prost HeadValue;
  MigrationValue_prost :: Prost MigrationValue;
  InlineSchemaValue_prost :: Prost InlineSchemaValue;
  InlineChunkValue_prost :: Prost InlineChunkValue;
  InlineInlineDeleteValue_prost :: Prost InlineInlineDeleteValue;
  InlineFileDeleteValue_prost :: Prost InlineFileDeleteValue;
  InlineFileDeleteTableValue_prost :: Prost InlineFileDeleteTableValue;
}.
Class MessagesLaws {MS : Messages} : Prop := {
  SchemaValue_laws :: ProstLaws SchemaValue;
  TableValue_laws :: ProstLaws TableValue;
  ViewValue_laws :: ProstLaws ViewValue;
  MacroValue_laws :: ProstLaws MacroValue;
  ColumnValue_laws :: ProstLaws ColumnValue;
  PartitionValue_laws :: ProstLaws PartitionValue;
  SortValue_laws :: ProstLaws SortValue;
  IndexValue_laws :: ProstLaws IndexValue;
  DataFileValue_laws :: ProstLaws DataFileValue;
  DeleteFileValue_laws :: ProstLaws DeleteFileValue;
  MappingValue_laws :: ProstLaws MappingValue;
  FileColumnStatsValue_laws :: ProstLaws FileColumnStatsValue;
  TableStatsValue_laws :: ProstLaws TableStatsValue;
  TableColumnStatsValue_laws :: ProstLaws TableColumnStatsValue;
  TagValue_laws :: ProstLaws TagValue;
  OptionScopeValue_laws :: ProstLaws OptionScopeValue;
  SnapshotValue_laws :: ProstLaws SnapshotValue;
  ChangelogValue_laws :: ProstLaws ChangelogValue;
  SchemaVersionValue_laws :: ProstLaws SchemaVersionValue;
  GcFileValue_laws :: ProstLaws GcFileValue;
  FormatValue_laws :: ProstLaws FormatValue;
  HeadValue_laws :: ProstLaws HeadValue;
  MigrationValue_laws :: ProstLaws MigrationValue;
  InlineSchemaValue_laws :: ProstLaws InlineSchemaValue;
  InlineChunkValue_laws :: ProstLaws InlineChunkValue;
  InlineInlineDeleteValue_laws :: ProstLaws InlineInlineDeleteValue;
  InlineFileDeleteValue_laws :: ProstLaws InlineFileDeleteValue;
  InlineFileDeleteTableValue_laws :: ProstLaws InlineFileDeleteTableValue;
}.

(** *** A codec that satisfies the laws

    Any countable message, as the bits of its code, one byte each. *)

Fixpoint bits_bytes (p : positive) : bytes :=
  match p with
  | xH => []
  | xO p => x00 :: bits_bytes p
  | xI p => x01 :: bits_bytes p
  end.

Fixpoint bytes_bits (b : bytes) : positive :=
  match b with
  | [] => xH
  | x00 :: b => xO (bytes_bits b)
  | _ :: b => xI (bytes_bits b)
  end.

Lemma bytes_bits_bytes p : bytes_bits (bits_bytes p) = p.
Proof. induction p; simpl; congruence. Qed.

#[local] Instance countable_prost {M} `{Countable M} : Prost M :=
  {| prost_encode m := bits_bytes (encode m); prost_decode b := decode (bytes_bits b) |}.

#[local] Instance countable_prost_laws {M} `{Countable M} : ProstLaws M.
Proof. intros m. simpl. by rewrite bytes_bits_bytes, decode_encode. Qed.

Definition reference_messages : Messages.
Proof. constructor; apply _. Defined.

Lemma reference_messages_laws : @MessagesLaws reference_messages.
Proof. constructor; apply _. Qed.

(** ** Framing ([store/frame.rs]) *)

Definition MAGIC : bytes := [x4d; x52; x4e; x45].
Definition ENCODING_VERSION : byte := x00.
Definition HEADER_LEN : nat := length MAGIC + 1.

(** [header_buf]: the reserved capacity is not observable. *)
Definition header_buf (payload_len : nat) : bytes := MAGIC ++ [ENCODING_VERSION].

(** [frame]. *)
Definition frame (payload : bytes) : bytes := header_buf (length payload) ++ payload.

(** [slice::split_at_checked]. *)
Definition split_at_checked (n : nat) (b : bytes) : option (bytes * bytes) :=
  if (n <=? length b)%nat then Some (take n b, drop n b) else None.

(** [unframe]. *)
Definition unframe (b : bytes) : result bytes :=
  '(header, payload) ← ok_or Corruption (split_at_checked HEADER_LEN b);
  _ ← fail_if (negb (bool_decide (take (length MAGIC) header = MAGIC))) Corruption;
  version ← ok_or Corruption (header !! length MAGIC);
  _ ← fail_if (Byte.to_N ENCODING_VERSION <? Byte.to_N version) Corruption;
  Ok payload.

(** ** The typed codec ([store/value.rs]) *)

Definition encode_value {M} `{Prost M} (msg : M) : bytes :=
  header_buf (length (prost_encode msg)) ++ prost_encode msg.

Definition decode_value {M} `{Prost M} (b : bytes) : result M :=
  payload ← unframe b; ok_or Corruption (prost_decode payload).

(** ** Lemmas *)

Lemma unframe_frame payload : unframe (frame payload) = Ok payload.
Proof. reflexivity. Qed.

Lemma unframe_Ok b payload : unframe b = Ok payload <-> b = frame payload.
Proof.
  split; [|intros ->; apply unframe_frame]. unfold unframe, split_at_checked. intros H.
  destruct (Nat.leb_spec HEADER_LEN (length b)) as [Hl|Hl]; [|discriminate]. simpl in H.
  destruct b as [|a [|b0 [|c [|d [|v b]]]]]; try (cbn in Hl; lia). cbn -[bool_decide] in H.
  case_bool_decide as E; [|discriminate]. cbn in H. injection E as -> -> -> ->.
  destruct (N.ltb_spec 0 (Byte.to_N v)) as [Hv|Hv]; [discriminate|].
  assert (v = x00) as -> by (apply to_N_inj; cbn; lia).
  injection H as <-. reflexivity.
Qed.

Lemma unframe_Err b e : unframe b = Err e -> e = Corruption.
Proof.
  unfold unframe, split_at_checked. intros H.
  repeat (apply bind_Err in H as [H|(? & _ & H)]; [revert H; unfold fail_if, ok_or; repeat case_match; congruence|];
    repeat case_match); congruence.
Qed.

Lemma decode_encode_value {M} `{ProstLaws M} (m : M) : decode_value (encode_value m) = Ok m.
Proof.
  unfold decode_value, encode_value. change (header_buf _ ++ ?p) with (frame p).
  rewrite unframe_frame. simpl. by rewrite prost_roundtrip.
Qed.
#[export] Hint Rewrite @decode_encode_value using typeclasses eauto : moraine.

Lemma encode_value_inj {M} `{ProstLaws M} (m m' : M) : encode_value m = encode_value m' -> m = m'.
Proof.
  intros E. apply (f_equal decode_value) in E. rewrite !decode_encode_value in E. by injection E.
Qed.

Lemma decode_value_Err {M} `{Prost M} b e : decode_value (M:=M) b = Err e -> e = Corruption.
Proof.
  unfold decode_value. intros [?%unframe_Err|(p & _ & Hp)]%bind_Err; [done|].
  unfold ok_or in Hp. case_match; congruence.
Qed.

(** C37: the framing is exact: [unframe] accepts a byte string if and only if it is
    [frame payload], which it then returns, and everything else, a truncated
    header, a foreign magic, a newer encoding version, is [Corruption]. *)
Theorem unframe_exact b :
  (exists payload, b = frame payload /\ unframe b = Ok payload)
  \/ ((forall payload, b <> frame payload) /\ unframe b = Err Corruption).
Proof.
  destruct (unframe b) as [p|e] eqn:E.
  - left. exists p. split; [by apply unframe_Ok|done].
  - right. split; [|by rewrite (unframe_Err _ _ E)].
    intros p ->. by rewrite unframe_frame in E.
Qed.
