(* ===== verification/Snapshot.v ===== *)
(** The materialized catalog view: [catalog/snapshot.rs], the public value types of
    [catalog/types.rs] it projects to, and the entity records of [store/read.rs]
    that fill it.

    [CatalogSnapshot] keeps one map per entity kind plus the four name indexes.
    [view_at] is its abstraction: the record the view holds at each [current] key.
    [put_record] and every removal are point updates of it. *)
From stdpp Require Import gmap strings list fin_maps.
From Stdlib Require Import NArith ZArith Lia.
From S2P Require Import Prelude Storekey KeyLayout IndexEncoding Values.

Local Open Scope N_scope.

(** ** Entity records ([store/read.rs]) *)

Inductive EntityRecord : Type :=
| ER_Schema (v : SchemaValue)
| ER_Table (v : TableValue)
| ER_View (v : ViewValue)
| ER_Column (v : ColumnValue)
| ER_File (v : DataFileValue)
| ER_DeleteFile (v : DeleteFileValue)
| ER_Partition (v : PartitionValue)
| ER_Sort (v : SortValue)
| ER_Macro (v : MacroValue)
| ER_Mapping (v : MappingValue)
| ER_Index (v : IndexValue)
| ER_FileColumnStats (v : FileColumnStatsValue)
| ER_TableStats (v : TableStatsValue)
| ER_TableColumnStats (v : TableColumnStatsValue)
| ER_Option (scope_kind scope_id : N) (value : OptionScopeValue)
| ER_Tag (v : TagValue)
| ER_GcFile (v : GcFileValue).

#[export] Instance EntityRecord_eq_dec : EqDecision EntityRecord.
Proof. solve_decision. Defined.

(** [EntityRecord::lifecycle]. *)
Definition lifecycle (r : EntityRecord) : option (N * option N) :=
  match r with
  | ER_Schema s => Some (sv_begin_snapshot s, sv_end_snapshot s)
  | ER_Table t => Some (tv_begin_snapshot t, tv_end_snapshot t)
  | ER_View v => Some (vv_begin_snapshot v, vv_end_snapshot v)
  | ER_Column c => Some (cv_begin_snapshot c, cv_end_snapshot c)
  | ER_File f => Some (df_begin_snapshot f, df_end_snapshot f)
  | ER_DeleteFile d => Some (dl_begin_snapshot d, dl_end_snapshot d)
  | ER_Partition p => Some (pv_begin_snapshot p, pv_end_snapshot p)
  | ER_Sort s => Some (ov_begin_snapshot s, ov_end_snapshot s)
  | ER_Macro m => Some (mv_begin_snapshot m, mv_end_snapshot m)
  | ER_Index i => Some (xv_begin_snapshot i, xv_end_snapshot i)
  | ER_Mapping _ | ER_FileColumnStats _ | ER_TableStats _ | ER_TableColumnStats _
  | ER_Option _ _ _ | ER_Tag _ | ER_GcFile _ => None
  end.

(** The [current] key a record's own ids name. *)
Definition record_key (r : EntityRecord) : CurrentKey :=
  match r with
  | ER_Schema s => CK_Entity (EK_Schema (sv_schema_id s))
  | ER_Table t => CK_Entity (EK_Table (tv_table_id t))
  | ER_View v => CK_Entity (EK_View (vv_view_id v))
  | ER_Column c => CK_Entity (EK_Column (cv_table_id c) (cv_column_id c))
  | ER_File f => CK_Entity (EK_File (df_table_id f) (df_data_file_id f))
  | ER_DeleteFile d => CK_Entity (EK_DeleteFile (dl_table_id d) (dl_delete_file_id d))
  | ER_Partition p => CK_Entity (EK_Partition (pv_table_id p) (pv_partition_id p))
  | ER_Sort s => CK_Entity (EK_Sort (ov_table_id s) (ov_sort_id s))
  | ER_Macro m => CK_Entity (EK_Macro (mv_macro_id m))
  | ER_Mapping m => CK_Entity (EK_Mapping (mg_table_id m) (mg_mapping_id m))
  | ER_Index i => CK_Entity (EK_Index (xv_table_id i) (xv_index_id i))
  | ER_FileColumnStats s =>
      CK_Entity (EK_FileColumnStats (fcs_table_id s) (fcs_data_file_id s) (fcs_column_id s))
  | ER_TableStats s => CK_Entity (EK_TableStats (ts_table_id s))
  | ER_TableColumnStats s => CK_Entity (EK_TableColumnStats (tcs_table_id s) (tcs_column_id s))
  | ER_Option k i _ => CK_Entity (EK_Option k i)
  | ER_Tag t => CK_Entity (EK_Tag (tg_object_id t))
  | ER_GcFile g => CK_GcFile (gc_data_file_id g)
  end.

(** ** The view *)

(** A per-scope name index: schema or table id, then name, to entity id. *)
Abbreviation ScopedNames := (gmap N (gmap string N)).

Definition SnapshotValue_default : SnapshotValue :=
  mkSnapshotValue 0 0%Z 0 0 0 EmptyString None None None [] [].

Record CatalogSnapshot : Type := mkCatalogSnapshot {
  cs_snapshot : SnapshotValue;
  cs_batch_seq : N;
  cs_schemas : gmap N SchemaValue;
  cs_tables : gmap N TableValue;
  cs_views : gmap N ViewValue;
  cs_macros : gmap N MacroValue;
  cs_columns : gmap N (gmap N ColumnValue);
  cs_schema_names : gmap string N;
  cs_table_names : ScopedNames;
  cs_view_names : ScopedNames;
  cs_macro_names : ScopedNames;
  cs_data_files : gmap N (gmap N DataFileValue);
  cs_delete_files : gmap N (gmap N DeleteFileValue);
  cs_partitions : gmap N (gmap N PartitionValue);
  cs_sorts : gmap N (gmap N SortValue);
  cs_mappings : gmap N (gmap N MappingValue);
  cs_indexes : gmap N (gmap N IndexValue);
  cs_index_names : ScopedNames;
  cs_table_stats : gmap N TableStatsValue;
  cs_table_column_stats : gmap N (gmap N TableColumnStatsValue);
  cs_file_column_stats : gmap N (gmap (N * N) FileColumnStatsValue);
  cs_options : gmap (N * N) OptionScopeValue;
  cs_tags : gmap N TagValue;
  cs_gc_files : gmap N GcFileValue;
}.

(** [CatalogSnapshot::default()]: an empty view at snapshot 0. *)
Definition CatalogSnapshot_default : CatalogSnapshot :=
  mkCatalogSnapshot SnapshotValue_default 0 ∅ ∅ ∅ ∅ ∅ ∅ ∅ ∅ ∅ ∅ ∅ ∅ ∅ ∅ ∅ ∅ ∅ ∅ ∅ ∅ ∅ ∅.

(** One field assigned. *)
Definition set_snapshot (f : SnapshotValue -> SnapshotValue) (s : CatalogSnapshot) : CatalogSnapshot :=
  mkCatalogSnapshot
    (f (cs_snapshot s)) (cs_batch_seq s) (cs_schemas s) (cs_tables s) (cs_views s) (cs_macros
    s) (cs_columns s) (cs_schema_names s) (cs_table_names s) (cs_view_names s) (cs_macro_names
    s) (cs_data_files s) (cs_delete_files s) (cs_partitions s) (cs_sorts s) (cs_mappings s)
    (cs_indexes s) (cs_index_names s) (cs_table_stats s) (cs_table_column_stats s)
    (cs_file_column_stats s) (cs_options s) (cs_tags s) (cs_gc_files s).
Definition set_batch_seq (f : N -> N) (s : CatalogSnapshot) : CatalogSnapshot :=
  mkCatalogSnapshot
    (cs_snapshot s) (f (cs_batch_seq s)) (cs_schemas s) (cs_tables s) (cs_views s) (cs_macros
    s) (cs_columns s) (cs_schema_names s) (cs_table_names s) (cs_view_names s) (cs_macro_names
    s) (cs_data_files s) (cs_delete_files s) (cs_partitions s) (cs_sorts s) (cs_mappings s)
    (cs_indexes s) (cs_index_names s) (cs_table_stats s) (cs_table_column_stats s)
    (cs_file_column_stats s) (cs_options s) (cs_tags s) (cs_gc_files s).
Definition set_schemas (f : (gmap N SchemaValue) -> (gmap N SchemaValue)) (s : CatalogSnapshot) : CatalogSnapshot :=
  mkCatalogSnapshot
    (cs_snapshot s) (cs_batch_seq s) (f (cs_schemas s)) (cs_tables s) (cs_views s) (cs_macros
    s) (cs_columns s) (cs_schema_names s) (cs_table_names s) (cs_view_names s) (cs_macro_names
    s) (cs_data_files s) (cs_delete_files s) (cs_partitions s) (cs_sorts s) (cs_mappings s)
    (cs_indexes s) (cs_index_names s) (cs_table_stats s) (cs_table_column_stats s)
    (cs_file_column_stats s) (cs_options s) (cs_tags s) (cs_gc_files s).
Definition set_tables (f : (gmap N TableValue) -> (gmap N TableValue)) (s : CatalogSnapshot) : CatalogSnapshot :=
  mkCatalogSnapshot
    (cs_snapshot s) (cs_batch_seq s) (cs_schemas s) (f (cs_tables s)) (cs_views s) (cs_macros
    s) (cs_columns s) (cs_schema_names s) (cs_table_names s) (cs_view_names s) (cs_macro_names
    s) (cs_data_files s) (cs_delete_files s) (cs_partitions s) (cs_sorts s) (cs_mappings s)
    (cs_indexes s) (cs_index_names s) (cs_table_stats s) (cs_table_column_stats s)
    (cs_file_column_stats s) (cs_options s) (cs_tags s) (cs_gc_files s).
Definition set_views (f : (gmap N ViewValue) -> (gmap N ViewValue)) (s : CatalogSnapshot) : CatalogSnapshot :=
  mkCatalogSnapshot
    (cs_snapshot s) (cs_batch_seq s) (cs_schemas s) (cs_tables s) (f (cs_views s)) (cs_macros
    s) (cs_columns s) (cs_schema_names s) (cs_table_names s) (cs_view_names s) (cs_macro_names
    s) (cs_data_files s) (cs_delete_files s) (cs_partitions s) (cs_sorts s) (cs_mappings s)
    (cs_indexes s) (cs_index_names s) (cs_table_stats s) (cs_table_column_stats s)
    (cs_file_column_stats s) (cs_options s) (cs_tags s) (cs_gc_files s).
Definition set_macros (f : (gmap N MacroValue) -> (gmap N MacroValue)) (s : CatalogSnapshot) : CatalogSnapshot :=
  mkCatalogSnapshot
    (cs_snapshot s) (cs_batch_seq s) (cs_schemas s) (cs_tables s) (cs_views s) (f (cs_macros
    s)) (cs_columns s) (cs_schema_names s) (cs_table_names s) (cs_view_names s)
    (cs_macro_names s) (cs_data_files s) (cs_delete_files s) (cs_partitions s) (cs_sorts s)
    (cs_mappings s) (cs_indexes s) (cs_index_names s) (cs_table_stats s)
    (cs_table_column_stats s) (cs_file_column_stats s) (cs_options s) (cs_tags s) (cs_gc_files
    s).
Definition set_columns (f : (gmap N (gmap N ColumnValue)) -> (gmap N (gmap N ColumnValue))) (s : CatalogSnapshot) : CatalogSnapshot :=
  mkCatalogSnapshot
    (cs_snapshot s) (cs_batch_seq s) (cs_schemas s) (cs_tables s) (cs_views s) (cs_macros s)
    (f (cs_columns s)) (cs_schema_names s) (cs_table_names s) (cs_view_names s)
    (cs_macro_names s) (cs_data_files s) (cs_delete_files s) (cs_partitions s) (cs_sorts s)
    (cs_mappings s) (cs_indexes s) (cs_index_names s) (cs_table_stats s)
    (cs_table_column_stats s) (cs_file_column_stats s) (cs_options s) (cs_tags s) (cs_gc_files
    s).
Definition set_schema_names (f : (gmap string N) -> (gmap string N)) (s : CatalogSnapshot) : CatalogSnapshot :=
  mkCatalogSnapshot
    (cs_snapshot s) (cs_batch_seq s) (cs_schemas s) (cs_tables s) (cs_views s) (cs_macros s)
    (cs_columns s) (f (cs_schema_names s)) (cs_table_names s) (cs_view_names s)
    (cs_macro_names s) (cs_data_files s) (cs_delete_files s) (cs_partitions s) (cs_sorts s)
    (cs_mappings s) (cs_indexes s) (cs_index_names s) (cs_table_stats s)
    (cs_table_column_stats s) (cs_file_column_stats s) (cs_options s) (cs_tags s) (cs_gc_files
    s).
Definition set_table_names (f : ScopedNames -> ScopedNames) (s : CatalogSnapshot) : CatalogSnapshot :=
  mkCatalogSnapshot
    (cs_snapshot s) (cs_batch_seq s) (cs_schemas s) (cs_tables s) (cs_views s) (cs_macros s)
    (cs_columns s) (cs_schema_names s) (f (cs_table_names s)) (cs_view_names s)
    (cs_macro_names s) (cs_data_files s) (cs_delete_files s) (cs_partitions s) (cs_sorts s)
    (cs_mappings s) (cs_indexes s) (cs_index_names s) (cs_table_stats s)
    (cs_table_column_stats s) (cs_file_column_stats s) (cs_options s) (cs_tags s) (cs_gc_files
    s).
Definition set_view_names (f : ScopedNames -> ScopedNames) (s : CatalogSnapshot) : CatalogSnapshot :=
  mkCatalogSnapshot
    (cs_snapshot s) (cs_batch_seq s) (cs_schemas s) (cs_tables s) (cs_views s) (cs_macros s)
    (cs_columns s) (cs_schema_names s) (cs_table_names s) (f (cs_view_names s))
    (cs_macro_names s) (cs_data_files s) (cs_delete_files s) (cs_partitions s) (cs_sorts s)
    (cs_mappings s) (cs_indexes s) (cs_index_names s) (cs_table_stats s)
    (cs_table_column_stats s) (cs_file_column_stats s) (cs_options s) (cs_tags s) (cs_gc_files
    s).
Definition set_macro_names (f : ScopedNames -> ScopedNames) (s : CatalogSnapshot) : CatalogSnapshot :=
  mkCatalogSnapshot
    (cs_snapshot s) (cs_batch_seq s) (cs_schemas s) (cs_tables s) (cs_views s) (cs_macros s)
    (cs_columns s) (cs_schema_names s) (cs_table_names s) (cs_view_names s) (f (cs_macro_names
    s)) (cs_data_files s) (cs_delete_files s) (cs_partitions s) (cs_sorts s) (cs_mappings s)
    (cs_indexes s) (cs_index_names s) (cs_table_stats s) (cs_table_column_stats s)
    (cs_file_column_stats s) (cs_options s) (cs_tags s) (cs_gc_files s).
Definition set_data_files (f : (gmap N (gmap N DataFileValue)) -> (gmap N (gmap N DataFileValue))) (s : CatalogSnapshot) : CatalogSnapshot :=
  mkCatalogSnapshot
    (cs_snapshot s) (cs_batch_seq s) (cs_schemas s) (cs_tables s) (cs_views s) (cs_macros s)
    (cs_columns s) (cs_schema_names s) (cs_table_names s) (cs_view_names s) (cs_macro_names s)
    (f (cs_data_files s)) (cs_delete_files s) (cs_partitions s) (cs_sorts s) (cs_mappings s)
    (cs_indexes s) (cs_index_names s) (cs_table_stats s) (cs_table_column_stats s)
    (cs_file_column_stats s) (cs_options s) (cs_tags s) (cs_gc_files s).
Definition set_delete_files (f : (gmap N (gmap N DeleteFileValue)) -> (gmap N (gmap N DeleteFileValue))) (s : CatalogSnapshot) : CatalogSnapshot :=
  mkCatalogSnapshot
    (cs_snapshot s) (cs_batch_seq s) (cs_schemas s) (cs_tables s) (cs_views s) (cs_macros s)
    (cs_columns s) (cs_schema_names s) (cs_table_names s) (cs_view_names s) (cs_macro_names s)
    (cs_data_files s) (f (cs_delete_files s)) (cs_partitions s) (cs_sorts s) (cs_mappings s)
    (cs_indexes s) (cs_index_names s) (cs_table_stats s) (cs_table_column_stats s)
    (cs_file_column_stats s) (cs_options s) (cs_tags s) (cs_gc_files s).
Definition set_partitions (f : (gmap N (gmap N PartitionValue)) -> (gmap N (gmap N PartitionValue))) (s : CatalogSnapshot) : CatalogSnapshot :=
  mkCatalogSnapshot
    (cs_snapshot s) (cs_batch_seq s) (cs_schemas s) (cs_tables s) (cs_views s) (cs_macros s)
    (cs_columns s) (cs_schema_names s) (cs_table_names s) (cs_view_names s) (cs_macro_names s)
    (cs_data_files s) (cs_delete_files s) (f (cs_partitions s)) (cs_sorts s) (cs_mappings s)
    (cs_indexes s) (cs_index_names s) (cs_table_stats s) (cs_table_column_stats s)
    (cs_file_column_stats s) (cs_options s) (cs_tags s) (cs_gc_files s).
Definition set_sorts (f : (gmap N (gmap N SortValue)) -> (gmap N (gmap N SortValue))) (s : CatalogSnapshot) : CatalogSnapshot :=
  mkCatalogSnapshot
    (cs_snapshot s) (cs_batch_seq s) (cs_schemas s) (cs_tables s) (cs_views s) (cs_macros s)
    (cs_columns s) (cs_schema_names s) (cs_table_names s) (cs_view_names s) (cs_macro_names s)
    (cs_data_files s) (cs_delete_files s) (cs_partitions s) (f (cs_sorts s)) (cs_mappings s)
    (cs_indexes s) (cs_index_names s) (cs_table_stats s) (cs_table_column_stats s)
    (cs_file_column_stats s) (cs_options s) (cs_tags s) (cs_gc_files s).
Definition set_mappings (f : (gmap N (gmap N MappingValue)) -> (gmap N (gmap N MappingValue))) (s : CatalogSnapshot) : CatalogSnapshot :=
  mkCatalogSnapshot
    (cs_snapshot s) (cs_batch_seq s) (cs_schemas s) (cs_tables s) (cs_views s) (cs_macros s)
    (cs_columns s) (cs_schema_names s) (cs_table_names s) (cs_view_names s) (cs_macro_names s)
    (cs_data_files s) (cs_delete_files s) (cs_partitions s) (cs_sorts s) (f (cs_mappings s))
    (cs_indexes s) (cs_index_names s) (cs_table_stats s) (cs_table_column_stats s)
    (cs_file_column_stats s) (cs_options s) (cs_tags s) (cs_gc_files s).
Definition set_indexes (f : (gmap N (gmap N IndexValue)) -> (gmap N (gmap N IndexValue))) (s : CatalogSnapshot) : CatalogSnapshot :=
  mkCatalogSnapshot
    (cs_snapshot s) (cs_batch_seq s) (cs_schemas s) (cs_tables s) (cs_views s) (cs_macros s)
    (cs_columns s) (cs_schema_names s) (cs_table_names s) (cs_view_names s) (cs_macro_names s)
    (cs_data_files s) (cs_delete_files s) (cs_partitions s) (cs_sorts s) (cs_mappings s) (f
    (cs_indexes s)) (cs_index_names s) (cs_table_stats s) (cs_table_column_stats s)
    (cs_file_column_stats s) (cs_options s) (cs_tags s) (cs_gc_files s).
Definition set_index_names (f : ScopedNames -> ScopedNames) (s : CatalogSnapshot) : CatalogSnapshot :=
  mkCatalogSnapshot
    (cs_snapshot s) (cs_batch_seq s) (cs_schemas s) (cs_tables s) (cs_views s) (cs_macros s)
    (cs_columns s) (cs_schema_names s) (cs_table_names s) (cs_view_names s) (cs_macro_names s)
    (cs_data_files s) (cs_delete_files s) (cs_partitions s) (cs_sorts s) (cs_mappings s)
    (cs_indexes s) (f (cs_index_names s)) (cs_table_stats s) (cs_table_column_stats s)
    (cs_file_column_stats s) (cs_options s) (cs_tags s) (cs_gc_files s).
Definition set_table_stats (f : (gmap N TableStatsValue) -> (gmap N TableStatsValue)) (s : CatalogSnapshot) : CatalogSnapshot :=
  mkCatalogSnapshot
    (cs_snapshot s) (cs_batch_seq s) (cs_schemas s) (cs_tables s) (cs_views s) (cs_macros s)
    (cs_columns s) (cs_schema_names s) (cs_table_names s) (cs_view_names s) (cs_macro_names s)
    (cs_data_files s) (cs_delete_files s) (cs_partitions s) (cs_sorts s) (cs_mappings s)
    (cs_indexes s) (cs_index_names s) (f (cs_table_stats s)) (cs_table_column_stats s)
    (cs_file_column_stats s) (cs_options s) (cs_tags s) (cs_gc_files s).
Definition set_table_column_stats (f : (gmap N (gmap N TableColumnStatsValue)) -> (gmap N (gmap N TableColumnStatsValue))) (s : CatalogSnapshot) : CatalogSnapshot :=
  mkCatalogSnapshot
    (cs_snapshot s) (cs_batch_seq s) (cs_schemas s) (cs_tables s) (cs_views s) (cs_macros s)
    (cs_columns s) (cs_schema_names s) (cs_table_names s) (cs_view_names s) (cs_macro_names s)
    (cs_data_files s) (cs_delete_files s) (cs_partitions s) (cs_sorts s) (cs_mappings s)
    (cs_indexes s) (cs_index_names s) (cs_table_stats s) (f (cs_table_column_stats s))
    (cs_file_column_stats s) (cs_options s) (cs_tags s) (cs_gc_files s).
Definition set_file_column_stats (f : (gmap N (gmap (N * N) FileColumnStatsValue)) -> (gmap N (gmap (N * N) FileColumnStatsValue))) (s : CatalogSnapshot) : CatalogSnapshot :=
  mkCatalogSnapshot
    (cs_snapshot s) (cs_batch_seq s) (cs_schemas s) (cs_tables s) (cs_views s) (cs_macros s)
    (cs_columns s) (cs_schema_names s) (cs_table_names s) (cs_view_names s) (cs_macro_names s)
    (cs_data_files s) (cs_delete_files s) (cs_partitions s) (cs_sorts s) (cs_mappings s)
    (cs_indexes s) (cs_index_names s) (cs_table_stats s) (cs_table_column_stats s) (f
    (cs_file_column_stats s)) (cs_options s) (cs_tags s) (cs_gc_files s).
Definition set_options (f : (gmap (N * N) OptionScopeValue) -> (gmap (N * N) OptionScopeValue)) (s : CatalogSnapshot) : CatalogSnapshot :=
  mkCatalogSnapshot
    (cs_snapshot s) (cs_batch_seq s) (cs_schemas s) (cs_tables s) (cs_views s) (cs_macros s)
    (cs_columns s) (cs_schema_names s) (cs_table_names s) (cs_view_names s) (cs_macro_names s)
    (cs_data_files s) (cs_delete_files s) (cs_partitions s) (cs_sorts s) (cs_mappings s)
    (cs_indexes s) (cs_index_names s) (cs_table_stats s) (cs_table_column_stats s)
    (cs_file_column_stats s) (f (cs_options s)) (cs_tags s) (cs_gc_files s).
Definition set_tags (f : (gmap N TagValue) -> (gmap N TagValue)) (s : CatalogSnapshot) : CatalogSnapshot :=
  mkCatalogSnapshot
    (cs_snapshot s) (cs_batch_seq s) (cs_schemas s) (cs_tables s) (cs_views s) (cs_macros s)
    (cs_columns s) (cs_schema_names s) (cs_table_names s) (cs_view_names s) (cs_macro_names s)
    (cs_data_files s) (cs_delete_files s) (cs_partitions s) (cs_sorts s) (cs_mappings s)
    (cs_indexes s) (cs_index_names s) (cs_table_stats s) (cs_table_column_stats s)
    (cs_file_column_stats s) (cs_options s) (f (cs_tags s)) (cs_gc_files s).
Definition set_gc_files (f : (gmap N GcFileValue) -> (gmap N GcFileValue)) (s : CatalogSnapshot) : CatalogSnapshot :=
  mkCatalogSnapshot
    (cs_snapshot s) (cs_batch_seq s) (cs_schemas s) (cs_tables s) (cs_views s) (cs_macros s)
    (cs_columns s) (cs_schema_names s) (cs_table_names s) (cs_view_names s) (cs_macro_names s)
    (cs_data_files s) (cs_delete_files s) (cs_partitions s) (cs_sorts s) (cs_mappings s)
    (cs_indexes s) (cs_index_names s) (cs_table_stats s) (cs_table_column_stats s)
    (cs_file_column_stats s) (cs_options s) (cs_tags s) (f (cs_gc_files s)).

(** *** Name indexes and nested maps *)

(** [scoped_name]. *)
Definition scoped_name (names : ScopedNames) (scope : N) (name : string) : option N :=
  names !! scope ≫= (fun per_scope => per_scope !! name).

(** [remove_scoped_name]: an emptied scope is dropped. *)
Definition remove_scoped_name (scope : N) (name : string) (names : ScopedNames) : ScopedNames :=
  match names !! scope with
  | Some per_scope =>
      let per_scope := delete name per_scope in
      if decide (per_scope = ∅) then delete scope names else <[scope := per_scope]> names
  | None => names
  end.

(** [names.entry(scope).or_default().insert(name, id)]. *)
Definition insert_scoped_name (scope : N) (name : string) (id : N) (names : ScopedNames)
  : ScopedNames := <[scope := <[name := id]> (default ∅ (names !! scope))]> names.

(** [put_named]: the replaced version's name is unlinked first. *)
Definition put_named {V} (identity : V -> N * N * string) (value : V)
    (values : gmap N V) (names : ScopedNames) : gmap N V * ScopedNames :=
  let '(id, scope, name) := identity value in
  let names :=
    match values !! id with
    | Some old => let '(_, old_scope, old_name) := identity old in
                  remove_scoped_name old_scope old_name names
    | None => names
    end in
  (<[id := value]> values, insert_scoped_name scope name id names).

(** [delete_named]. *)
Definition delete_named {V} (identity : V -> N * N * string) (id : N)
    (values : gmap N V) (names : ScopedNames) : gmap N V * ScopedNames :=
  match values !! id with
  | Some old => let '(_, scope, name) := identity old in
                (delete id values, remove_scoped_name scope name names)
  | None => (values, names)
  end.

Definition table_identity (v : TableValue) : N * N * string :=
  (tv_table_id v, tv_schema_id v, tv_table_name v).
Definition view_identity (v : ViewValue) : N * N * string :=
  (vv_view_id v, vv_schema_id v, vv_view_name v).
Definition macro_identity (v : MacroValue) : N * N * string :=
  (mv_macro_id v, mv_schema_id v, mv_macro_name v).
Definition index_identity (v : IndexValue) : N * N * string :=
  (xv_index_id v, xv_table_id v, xv_index_name v).

(** [put_nested], [remove_nested]: an emptied inner map stays. *)
Definition put_nested {K} `{Countable K} {V} (table_id : N) (key : K) (value : V)
    (m : gmap N (gmap K V)) : gmap N (gmap K V) :=
  <[table_id := <[key := value]> (default ∅ (m !! table_id))]> m.
Definition remove_nested {K} `{Countable K} {V} (table_id : N) (key : K)
    (m : gmap N (gmap K V)) : gmap N (gmap K V) :=
  match m !! table_id with
  | Some per_table => <[table_id := delete key per_table]> m
  | None => m
  end.

(** *** Scopes of options ([catalog/types.rs]) *)

Inductive OptionScope : Type := ScopeGlobal | ScopeSchema (id : N) | ScopeTable (id : N).

(** [OptionScope::key_components]. *)
Definition key_components (s : OptionScope) : N * N :=
  match s with ScopeGlobal => (0, 0) | ScopeSchema id => (1, id) | ScopeTable id => (2, id) end.

(** *** Puts *)

Definition put_schema (value : SchemaValue) (s : CatalogSnapshot) : CatalogSnapshot :=
  let names :=
    match cs_schemas s !! sv_schema_id value with
    | Some old => delete (sv_schema_name old) (cs_schema_names s)
    | None => cs_schema_names s
    end in
  set_schemas (insert (sv_schema_id value) value)
    (set_schema_names (fun _ => <[sv_schema_name value := sv_schema_id value]> names) s).

Definition put_table (value : TableValue) (s : CatalogSnapshot) : CatalogSnapshot :=
  let '(values, names) := put_named table_identity value (cs_tables s) (cs_table_names s) in
  set_tables (fun _ => values) (set_table_names (fun _ => names) s).

Definition put_view (value : ViewValue) (s : CatalogSnapshot) : CatalogSnapshot :=
  let '(values, names) := put_named view_identity value (cs_views s) (cs_view_names s) in
  set_views (fun _ => values) (set_view_names (fun _ => names) s).

Definition put_macro (value : MacroValue) (s : CatalogSnapshot) : CatalogSnapshot :=
  let '(values, names) := put_named macro_identity value (cs_macros s) (cs_macro_names s) in
  set_macros (fun _ => values) (set_macro_names (fun _ => names) s).

Definition put_index (value : IndexValue) (s : CatalogSnapshot) : CatalogSnapshot :=
  let names :=
    match nlookup (cs_indexes s) (xv_table_id value) (xv_index_id value) with
    | Some old => let '(_, old_scope, old_name) := index_identity old in
                  remove_scoped_name old_scope old_name (cs_index_names s)
    | None => cs_index_names s
    end in
  set_indexes (put_nested (xv_table_id value) (xv_index_id value) value)
    (set_index_names (fun _ =>
       insert_scoped_name (xv_table_id value) (xv_index_name value) (xv_index_id value) names) s).

Definition put_column (v : ColumnValue) : CatalogSnapshot -> CatalogSnapshot :=
  set_columns (put_nested (cv_table_id v) (cv_column_id v) v).
Definition put_mapping (v : MappingValue) : CatalogSnapshot -> CatalogSnapshot :=
  set_mappings (put_nested (mg_table_id v) (mg_mapping_id v) v).
Definition put_data_file (v : DataFileValue) : CatalogSnapshot -> CatalogSnapshot :=
  set_data_files (put_nested (df_table_id v) (df_data_file_id v) v).
Definition put_delete_file (v : DeleteFileValue) : CatalogSnapshot -> CatalogSnapshot :=
  set_delete_files (put_nested (dl_table_id v) (dl_delete_file_id v) v).
Definition put_partition (v : PartitionValue) : CatalogSnapshot -> CatalogSnapshot :=
  set_partitions (put_nested (pv_table_id v) (pv_partition_id v) v).
Definition put_sort (v : SortValue) : CatalogSnapshot -> CatalogSnapshot :=
  set_sorts (put_nested (ov_table_id v) (ov_sort_id v) v).
Definition put_table_stats (v : TableStatsValue) : CatalogSnapshot -> CatalogSnapshot :=
  set_table_stats (insert (ts_table_id v) v).
Definition put_table_column_stats (v : TableColumnStatsValue) : CatalogSnapshot -> CatalogSnapshot :=
  set_table_column_stats (put_nested (tcs_table_id v) (tcs_column_id v) v).
Definition put_file_column_stats (v : FileColumnStatsValue) : CatalogSnapshot -> CatalogSnapshot :=
  set_file_column_stats (put_nested (fcs_table_id v) (fcs_data_file_id v, fcs_column_id v) v).
Definition set_option_record (components : N * N) (v : OptionScopeValue)
  : CatalogSnapshot -> CatalogSnapshot := set_options (insert components v).
Definition put_tag (v : TagValue) : CatalogSnapshot -> CatalogSnapshot :=
  set_tags (insert (tg_object_id v) v).
Definition put_gc_file (v : GcFileValue) : CatalogSnapshot -> CatalogSnapshot :=
  set_gc_files (insert (gc_data_file_id v) v).

(** [CatalogSnapshot::put_record]. *)
Definition put_record (r : EntityRecord) : CatalogSnapshot -> CatalogSnapshot :=
  match r with
  | ER_Schema s => put_schema s
  | ER_Table t => put_table t
  | ER_Column c => put_column c
  | ER_File f => put_data_file f
  | ER_DeleteFile d => put_delete_file d
  | ER_View v => put_view v
  | ER_Partition p => put_partition p
  | ER_Sort s => put_sort s
  | ER_Macro m => put_macro m
  | ER_Index i => put_index i
  | ER_Mapping m => put_mapping m
  | ER_FileColumnStats fcs => put_file_column_stats fcs
  | ER_TableStats ts => put_table_stats ts
  | ER_TableColumnStats tcs => put_table_column_stats tcs
  | ER_Option scope_kind scope_id value => set_option_record (scope_kind, scope_id) value
  | ER_Tag t => put_tag t
  | ER_GcFile g => put_gc_file g
  end.

(** *** Removals *)

Definition remove_option_record (components : N * N) : CatalogSnapshot -> CatalogSnapshot :=
  set_options (delete components).

(** [remove_schema_only]: no option-scope cascade. *)
Definition remove_schema_only (schema_id : N) (s : CatalogSnapshot) : CatalogSnapshot :=
  match cs_schemas s !! schema_id with
  | Some old =>
      set_schemas (delete schema_id)
        (set_schema_names (delete (sv_schema_name old)) s)
  | None => s
  end.

Definition delete_schema (schema_id : N) (s : CatalogSnapshot) : CatalogSnapshot :=
  remove_option_record (key_components (ScopeSchema schema_id)) (remove_schema_only schema_id s).

(** [remove_table_only]: no child cascade. *)
Definition remove_table_only (table_id : N) (s : CatalogSnapshot) : CatalogSnapshot :=
  let '(values, names) := delete_named table_identity table_id (cs_tables s) (cs_table_names s) in
  set_tables (fun _ => values) (set_table_names (fun _ => names) s).

(** [delete_table] drops the table with its children; per-file statistics and
    mappings outlive it. *)
Definition delete_table (table_id : N) (s : CatalogSnapshot) : CatalogSnapshot :=
  let s := remove_table_only table_id s in
  let s := set_columns (delete table_id) s in
  let s := set_data_files (delete table_id) s in
  let s := set_delete_files (delete table_id) s in
  let s := set_partitions (delete table_id) s in
  let s := set_sorts (delete table_id) s in
  let s := set_indexes (delete table_id) s in
  let s := set_index_names (delete table_id) s in
  let s := set_table_stats (delete table_id) s in
  let s := set_table_column_stats (delete table_id) s in
  remove_option_record (key_components (ScopeTable table_id)) s.

Definition delete_view (view_id : N) (s : CatalogSnapshot) : CatalogSnapshot :=
  let '(values, names) := delete_named view_identity view_id (cs_views s) (cs_view_names s) in
  set_views (fun _ => values) (set_view_names (fun _ => names) s).

Definition delete_macro (macro_id : N) (s : CatalogSnapshot) : CatalogSnapshot :=
  let '(values, names) := delete_named macro_identity macro_id (cs_macros s) (cs_macro_names s) in
  set_macros (fun _ => values) (set_macro_names (fun _ => names) s).

Definition delete_index (table_id index_id : N) (s : CatalogSnapshot) : CatalogSnapshot :=
  match nlookup (cs_indexes s) table_id index_id with
  | Some old =>
      let '(_, scope, name) := index_identity old in
      set_indexes (remove_nested table_id index_id)
        (set_index_names (remove_scoped_name scope name) s)
  | None => s
  end.

Definition remove_column_only (table_id column_id : N) : CatalogSnapshot -> CatalogSnapshot :=
  set_columns (remove_nested table_id column_id).
Definition remove_table_column_stats (table_id column_id : N) : CatalogSnapshot -> CatalogSnapshot :=
  set_table_column_stats (remove_nested table_id column_id).
(** [delete_column]: column statistics die with the column. *)
Definition delete_column (table_id column_id : N) (s : CatalogSnapshot) : CatalogSnapshot :=
  remove_table_column_stats table_id column_id (remove_column_only table_id column_id s).
Definition delete_data_file (table_id data_file_id : N) : CatalogSnapshot -> CatalogSnapshot :=
  set_data_files (remove_nested table_id data_file_id).
Definition delete_delete_file (table_id delete_file_id : N) : CatalogSnapshot -> CatalogSnapshot :=
  set_delete_files (remove_nested table_id delete_file_id).
Definition delete_partition (table_id partition_id : N) : CatalogSnapshot -> CatalogSnapshot :=
  set_partitions (remove_nested table_id partition_id).
Definition delete_sort (table_id sort_id : N) : CatalogSnapshot -> CatalogSnapshot :=
  set_sorts (remove_nested table_id sort_id).
Definition remove_table_stats (table_id : N) : CatalogSnapshot -> CatalogSnapshot :=
  set_table_stats (delete table_id).
Definition remove_file_column_stats (table_id data_file_id column_id : N)
  : CatalogSnapshot -> CatalogSnapshot :=
  set_file_column_stats (remove_nested table_id (data_file_id, column_id)).
Definition remove_tag (object_id : N) : CatalogSnapshot -> CatalogSnapshot :=
  set_tags (delete object_id).
Definition remove_gc_file (data_file_id : N) : CatalogSnapshot -> CatalogSnapshot :=
  set_gc_files (delete data_file_id).

(** *** Building *)

(** The closure [included] of [build]. *)
Definition included (at_ : option N) (begin : N) (end_ : option N) : bool :=
  match at_ with
  | None => match end_ with None => true | Some _ => false end
  | Some s => (begin <=? s) && match end_ with None => true | Some e => s <? e end
  end.

Definition record_included (at_ : option N) (r : EntityRecord) : bool :=
  match lifecycle r with
  | Some (begin, end_) => included at_ begin end_
  | None => true
  end.

(** [CatalogSnapshot::build]. *)
Definition build (snapshot : SnapshotValue) (current history : list EntityRecord)
    (at_ : option N) : CatalogSnapshot :=
  foldl (fun view r => if record_included at_ r then put_record r view else view)
    (set_snapshot (fun _ => snapshot) CatalogSnapshot_default) (current ++ history).

(** [live_entity_count]. *)
Definition nested_len {K} `{Countable K} {V} (m : gmap N (gmap K V)) : nat :=
  sum_list (map (fun p => size p.2) (map_to_list m)).
Definition live_entity_count (s : CatalogSnapshot) : nat :=
  size (cs_schemas s) + size (cs_tables s) + size (cs_views s) + size (cs_macros s)
  + nested_len (cs_columns s) + nested_len (cs_data_files s) + nested_len (cs_delete_files s)
  + nested_len (cs_partitions s) + nested_len (cs_sorts s) + nested_len (cs_mappings s)
  + nested_len (cs_indexes s) + size (cs_table_stats s) + nested_len (cs_table_column_stats s)
  + nested_len (cs_file_column_stats s) + size (cs_options s) + size (cs_tags s)
  + size (cs_gc_files s).

(** ** The abstraction: the record at each key *)

Definition view_at (s : CatalogSnapshot) (k : CurrentKey) : option EntityRecord :=
  match k with
  | CK_Entity (EK_Schema id) => ER_Schema <$> cs_schemas s !! id
  | CK_Entity (EK_Table id) => ER_Table <$> cs_tables s !! id
  | CK_Entity (EK_View id) => ER_View <$> cs_views s !! id
  | CK_Entity (EK_Column t c) => ER_Column <$> nlookup (cs_columns s) t c
  | CK_Entity (EK_Partition t p) => ER_Partition <$> nlookup (cs_partitions s) t p
  | CK_Entity (EK_File t f) => ER_File <$> nlookup (cs_data_files s) t f
  | CK_Entity (EK_DeleteFile t f) => ER_DeleteFile <$> nlookup (cs_delete_files s) t f
  | CK_Entity (EK_FileColumnStats t f c) =>
      ER_FileColumnStats <$> nlookup (cs_file_column_stats s) t (f, c)
  | CK_Entity (EK_TableStats t) => ER_TableStats <$> cs_table_stats s !! t
  | CK_Entity (EK_TableColumnStats t c) =>
      ER_TableColumnStats <$> nlookup (cs_table_column_stats s) t c
  | CK_Entity (EK_Tag o) => ER_Tag <$> cs_tags s !! o
  | CK_Entity (EK_Option k i) => ER_Option k i <$> cs_options s !! (k, i)
  | CK_Entity (EK_Sort t i) => ER_Sort <$> nlookup (cs_sorts s) t i
  | CK_Entity (EK_Macro m) => ER_Macro <$> cs_macros s !! m
  | CK_Entity (EK_Mapping t m) => ER_Mapping <$> nlookup (cs_mappings s) t m
  | CK_Entity (EK_Index t i) => ER_Index <$> nlookup (cs_indexes s) t i
  | CK_GcFile f => ER_GcFile <$> cs_gc_files s !! f
  end.

(** Every record sits under the key its own ids name. *)
Definition well_keyed (s : CatalogSnapshot) : Prop :=
  forall k r, view_at s k = Some r -> record_key r = k.

#[export] Instance EntityKey_eq_dec : EqDecision EntityKey.
Proof. solve_decision. Defined.
#[export] Instance CurrentKey_eq_dec : EqDecision CurrentKey.
Proof. solve_decision. Defined.

Lemma nlookup_put_nested {K} `{Countable K} {V} t k (v : V) m t' (k' : K) :
  nlookup (put_nested t k v m) t' k'
  = if decide (t' = t /\ k' = k) then Some v else nlookup m t' k'.
Proof.
  unfold nlookup, put_nested. destruct (decide (t' = t)) as [->|Ht].
  - rewrite lookup_insert_eq. simpl. destruct (decide (k' = k)) as [->|Hk].
    + by rewrite decide_True, lookup_insert_eq.
    + rewrite decide_False, lookup_insert_ne by naive_solver. by destruct (m !! t).
  - by rewrite decide_False, lookup_insert_ne by naive_solver.
Qed.

Lemma nlookup_remove_nested {K} `{Countable K} {V} t k (m : gmap N (gmap K V)) t' (k' : K) :
  nlookup (remove_nested t k m) t' k'
  = if decide (t' = t /\ k' = k) then None else nlookup m t' k'.
Proof.
  unfold nlookup, remove_nested. destruct (m !! t) as [per|] eqn:E.
  - destruct (decide (t' = t)) as [->|Ht].
    + rewrite lookup_insert_eq. simpl. destruct (decide (k' = k)) as [->|Hk].
      * by rewrite decide_True, lookup_delete_eq.
      * rewrite decide_False, lookup_delete_ne by naive_solver. by rewrite E.
    + by rewrite decide_False, lookup_insert_ne by naive_solver.
  - case_decide as Hd; [|done]. destruct Hd as [-> ->]. by rewrite E.
Qed.

Lemma put_named_values {V} (identity : V -> N * N * string) v values names :
  (put_named identity v values names).1 = <[ (identity v).1.1 := v ]> values.
Proof. unfold put_named. by destruct (identity v) as [[id scope] name]. Qed.

Lemma delete_named_values {V} (identity : V -> N * N * string) id values names :
  (delete_named identity id values names).1 = delete id values.
Proof.
  unfold delete_named. destruct (values !! id) as [v|] eqn:E.
  - by destruct (identity v) as [[? ?] ?].
  - by rewrite delete_id.
Qed.

Lemma put_table_tables v s : cs_tables (put_table v s) = <[tv_table_id v := v]> (cs_tables s).
Proof.
  unfold put_table.
  pose proof (put_named_values table_identity v (cs_tables s) (cs_table_names s)) as E.
  destruct put_named. exact E.
Qed.
Lemma put_view_views v s : cs_views (put_view v s) = <[vv_view_id v := v]> (cs_views s).
Proof.
  unfold put_view.
  pose proof (put_named_values view_identity v (cs_views s) (cs_view_names s)) as E.
  destruct put_named. exact E.
Qed.
Lemma put_macro_macros v s : cs_macros (put_macro v s) = <[mv_macro_id v := v]> (cs_macros s).
Proof.
  unfold put_macro.
  pose proof (put_named_values macro_identity v (cs_macros s) (cs_macro_names s)) as E.
  destruct put_named. exact E.
Qed.
Lemma remove_table_tables i s : cs_tables (remove_table_only i s) = delete i (cs_tables s).
Proof.
  unfold remove_table_only.
  pose proof (delete_named_values table_identity i (cs_tables s) (cs_table_names s)) as E.
  destruct delete_named. exact E.
Qed.
Lemma delete_view_views i s : cs_views (delete_view i s) = delete i (cs_views s).
Proof.
  unfold delete_view.
  pose proof (delete_named_values view_identity i (cs_views s) (cs_view_names s)) as E.
  destruct delete_named. exact E.
Qed.
Lemma delete_macro_macros i s : cs_macros (delete_macro i s) = delete i (cs_macros s).
Proof.
  unfold delete_macro.
  pose proof (delete_named_values macro_identity i (cs_macros s) (cs_macro_names s)) as E.
  destruct delete_named. exact E.
Qed.

(** The rewriting that decides a lookup after a point update. *)
Ltac point_update :=
  repeat first
    [ rewrite nlookup_put_nested | rewrite nlookup_remove_nested
    | rewrite lookup_insert | rewrite lookup_delete ];
  repeat (case_decide; simplify_eq/=; try done; try tauto); try naive_solver.

Lemma put_record_at r s k :
  view_at (put_record r s) k = if decide (k = record_key r) then Some r else view_at s k.
Proof.
  destruct r as [v|v|v|v|v|v|v|v|v|v|v|v|v|v|k0 i v|v|v];
    destruct k as [[]|]; cbn [put_record view_at record_key];
    try (rewrite decide_False by congruence; first
      [ reflexivity
      | unfold put_table; by destruct put_named | unfold put_view; by destruct put_named
      | unfold put_macro; by destruct put_named ]);
    rewrite ?put_table_tables, ?put_view_views, ?put_macro_macros;
    cbn [put_schema put_column put_data_file put_delete_file put_partition put_sort put_index
         put_mapping put_file_column_stats put_table_stats put_table_column_stats
         set_option_record put_tag put_gc_file]; simpl; point_update.
Qed.

(** What each removal does to the records. *)
Lemma remove_schema_only_at i s k :
  view_at (remove_schema_only i s) k
  = if decide (k = CK_Entity (EK_Schema i)) then None else view_at s k.
Proof.
  unfold remove_schema_only. destruct (cs_schemas s !! i) eqn:E;
    destruct k as [[]|]; simpl; point_update; by rewrite E.
Qed.

Lemma remove_table_only_at i s k :
  view_at (remove_table_only i s) k
  = if decide (k = CK_Entity (EK_Table i)) then None else view_at s k.
Proof.
  destruct k as [[]|]; cbn [view_at]; rewrite ?remove_table_tables;
    try (rewrite decide_False by congruence; unfold remove_table_only; by destruct delete_named).
  point_update.
Qed.

Lemma delete_view_at i s k :
  view_at (delete_view i s) k
  = if decide (k = CK_Entity (EK_View i)) then None else view_at s k.
Proof.
  destruct k as [[]|]; cbn [view_at]; rewrite ?delete_view_views;
    try (rewrite decide_False by congruence; unfold delete_view; by destruct delete_named).
  point_update.
Qed.

Lemma delete_macro_at i s k :
  view_at (delete_macro i s) k
  = if decide (k = CK_Entity (EK_Macro i)) then None else view_at s k.
Proof.
  destruct k as [[]|]; cbn [view_at]; rewrite ?delete_macro_macros;
    try (rewrite decide_False by congruence; unfold delete_macro; by destruct delete_named).
  point_update.
Qed.

Lemma delete_index_at t i s k :
  view_at (delete_index t i s) k
  = if decide (k = CK_Entity (EK_Index t i)) then None else view_at s k.
Proof.
  unfold delete_index. destruct (nlookup (cs_indexes s) t i) eqn:E; simpl;
    destruct k as [[]|]; simpl; point_update; by rewrite E.
Qed.

(** ** Name indexes *)

Lemma scoped_name_remove scope name names scope' name' :
  scoped_name (remove_scoped_name scope name names) scope' name'
  = if decide (scope' = scope /\ name' = name) then None else scoped_name names scope' name'.
Proof.
  unfold scoped_name, remove_scoped_name. destruct (names !! scope) as [per|] eqn:E.
  - destruct (decide (scope' = scope)) as [->|Hs].
    + assert (Hd : delete name per !! name' =
        if decide (scope = scope /\ name' = name) then None else per !! name').
      { rewrite lookup_delete. repeat case_decide; naive_solver. }
      cbv zeta. destruct (decide (delete name per = ∅)) as [Hn|Hn].
      * rewrite lookup_delete_eq, E. simpl. rewrite <-Hd, Hn. done.
      * rewrite lookup_insert_eq, E. simpl. done.
    + rewrite (decide_False (P := scope' = scope /\ _)) by naive_solver.
      cbv zeta. case_decide; [by rewrite lookup_delete_ne|by rewrite lookup_insert_ne].
  - case_decide as Hd; [|done]. destruct Hd as [-> _]. by rewrite E.
Qed.

Lemma scoped_name_insert scope name id names scope' name' :
  scoped_name (insert_scoped_name scope name id names) scope' name'
  = if decide (scope' = scope /\ name' = name) then Some id else scoped_name names scope' name'.
Proof.
  unfold scoped_name, insert_scoped_name. destruct (decide (scope' = scope)) as [->|Hs].
  - rewrite lookup_insert_eq. simpl. rewrite lookup_insert.
    repeat case_decide; try naive_solver. by destruct (names !! scope).
  - by rewrite decide_False, lookup_insert_ne by naive_solver.
Qed.

(** A name index lists exactly the names of the live entities, each under its own
    id: no stale name, no missing one, and so no two entities of one name. *)
Definition indexed {V} (identity : V -> N * N * string) (values : gmap N V) (names : ScopedNames)
  : Prop :=
  (forall id v, values !! id = Some v -> (identity v).1.1 = id)
  /\ forall scope name id,
       scoped_name names scope name = Some id
       <-> exists v, values !! id = Some v /\ identity v = (id, scope, name).

(** The name a value wants is free, or already its own. *)
Definition name_free {V} (identity : V -> N * N * string) (v : V) (names : ScopedNames) : Prop :=
  forall id, scoped_name names (identity v).1.2 (identity v).2 = Some id -> id = (identity v).1.1.

Lemma indexed_put {V} (identity : V -> N * N * string) v values names :
  indexed identity values names -> name_free identity v names ->
  let '(values', names') := put_named identity v values names in indexed identity values' names'.
Proof.
  intros [Hk Hn] Hf. unfold put_named, name_free in *.
  destruct (identity v) as [[id scope] name] eqn:Ev. simpl in *. split.
  - intros id' v'. rewrite lookup_insert. case_decide; [|by apply Hk].
    intros [= <-]. by rewrite Ev.
  - intros scope' name' id'. rewrite scoped_name_insert, lookup_insert.
    destruct (decide (scope' = scope /\ name' = name)) as [[-> ->]|Hne].
    + split.
      * intros [= <-]. exists v. by rewrite decide_True.
      * intros (w & Hw & Ew). case_decide as Hid; [by subst|].
        f_equal. symmetry. apply Hf, Hn. eauto.
    + assert (Hold : forall w, values !! id = Some w -> exists sc nm, identity w = (id, sc, nm)).
      { intros w Hw. destruct (identity w) as [[i sc] nm] eqn:Ew.
        pose proof (Hk _ _ Hw) as E. rewrite Ew in E. simpl in E. subst. eauto. }
      destruct (decide (id = id')) as [<-|Hid].
      * split; [|intros (w & [= <-] & Ew); rewrite Ev in Ew; naive_solver].
        destruct (values !! id) as [old|] eqn:Eo.
        -- destruct (Hold old eq_refl) as (sc & nm & Eold). rewrite Eold, scoped_name_remove.
           case_decide as Hd; [done|]. intros (w & Hw & Ew)%Hn.
           rewrite Eo in Hw. injection Hw as <-. rewrite Eold in Ew. naive_solver.
        -- intros (w & Hw & Ew)%Hn. congruence.
      * rewrite <-Hn. destruct (values !! id) as [old|] eqn:Eo; [|done].
        destruct (Hold old eq_refl) as (sc & nm & Eold). rewrite Eold, scoped_name_remove.
        case_decide as Hd; [|done]. destruct Hd as [-> ->]. split; [done|].
        intros Hs. assert (Hs' : scoped_name names sc nm = Some id) by (apply Hn; eauto). congruence.
Qed.

Lemma indexed_delete {V} (identity : V -> N * N * string) id values names :
  indexed identity values names ->
  let '(values', names') := delete_named identity id values names in
  indexed identity values' names'.
Proof.
  intros [Hk Hn]. unfold delete_named. destruct (values !! id) as [old|] eqn:Eo; [|done].
  pose proof (Hk _ _ Eo) as Ei. destruct (identity old) as [[i sc] nm] eqn:Eold.
  simpl in Ei. subst i. split.
  - intros id' v'. rewrite lookup_delete. case_decide; [done|apply Hk].
  - intros scope name id'. rewrite scoped_name_remove, lookup_delete.
    destruct (decide (id = id')) as [<-|Hid].
    + split; [|naive_solver]. case_decide as Hd; [done|].
      intros (w & Hw & Ew)%Hn. rewrite Eo in Hw. injection Hw as <-.
      rewrite Eold in Ew. naive_solver.
    + rewrite <-Hn. case_decide as Hd; [|done]. destruct Hd as [-> ->]. split; [done|].
      intros Hs. assert (Hs' : scoped_name names sc nm = Some id) by (apply Hn; eauto). congruence.
Qed.

(** *** The five indexes of a view *)

Definition schemas_indexed (values : gmap N SchemaValue) (names : gmap string N) : Prop :=
  (forall id v, values !! id = Some v -> sv_schema_id v = id)
  /\ forall name id, names !! name = Some id
       <-> exists v, values !! id = Some v /\ sv_schema_name v = name.

Definition indexes_indexed (values : gmap N (gmap N IndexValue)) (names : ScopedNames) : Prop :=
  (forall t id v, nlookup values t id = Some v -> xv_table_id v = t /\ xv_index_id v = id)
  /\ forall t name id, scoped_name names t name = Some id
       <-> exists v, nlookup values t id = Some v /\ xv_index_name v = name.

(** The name indexes list exactly the live names. *)
Definition names_coherent (s : CatalogSnapshot) : Prop :=
  schemas_indexed (cs_schemas s) (cs_schema_names s)
  /\ indexed table_identity (cs_tables s) (cs_table_names s)
  /\ indexed view_identity (cs_views s) (cs_view_names s)
  /\ indexed macro_identity (cs_macros s) (cs_macro_names s)
  /\ indexes_indexed (cs_indexes s) (cs_index_names s).

(** No other live entity of the kind holds the record's name in its scope. *)
Definition record_name_free (r : EntityRecord) (s : CatalogSnapshot) : Prop :=
  match r with
  | ER_Schema v =>
      forall id, cs_schema_names s !! sv_schema_name v = Some id -> id = sv_schema_id v
  | ER_Table v => name_free table_identity v (cs_table_names s)
  | ER_View v => name_free view_identity v (cs_view_names s)
  | ER_Macro v => name_free macro_identity v (cs_macro_names s)
  | ER_Index v =>
      forall id, scoped_name (cs_index_names s) (xv_table_id v) (xv_index_name v) = Some id ->
                 id = xv_index_id v
  | _ => True
  end.

Lemma schemas_indexed_put v s :
  schemas_indexed (cs_schemas s) (cs_schema_names s) -> record_name_free (ER_Schema v) s ->
  schemas_indexed (cs_schemas (put_schema v s)) (cs_schema_names (put_schema v s)).
Proof.
  intros [Hk Hn] Hf. simpl in Hf. cbn. set (id := sv_schema_id v) in *.
  set (nm := sv_schema_name v) in *. split.
  - intros id' v'. rewrite lookup_insert. case_decide; [|by apply Hk]. by intros [= <-].
  - intros name id'. rewrite !lookup_insert. destruct (decide (nm = name)) as [<-|Hne].
    + split.
      * intros [= <-]. exists v. by rewrite decide_True.
      * intros (w & Hw & Ew). case_decide as Hid; [by subst|]. f_equal. symmetry. apply Hf, Hn. eauto.
    + destruct (decide (id = id')) as [<-|Hid].
      * split; [|naive_solver]. destruct (cs_schemas s !! id) as [old|] eqn:Eo.
        -- rewrite lookup_delete. case_decide as Hd; [done|]. intros (w & Hw & Ew)%Hn. congruence.
        -- intros (w & Hw & Ew)%Hn. congruence.
      * rewrite <-Hn. destruct (cs_schemas s !! id) as [old|] eqn:Eo; [|done].
        rewrite lookup_delete. case_decide as Hd; [|done]. split; [done|]. intros Hs.
        assert (Hs' : cs_schema_names s !! name = Some id) by (apply Hn; eauto). congruence.
Qed.

Lemma schemas_indexed_remove i s :
  schemas_indexed (cs_schemas s) (cs_schema_names s) ->
  schemas_indexed (cs_schemas (remove_schema_only i s)) (cs_schema_names (remove_schema_only i s)).
Proof.
  intros [Hk Hn]. unfold remove_schema_only.
  destruct (cs_schemas s !! i) as [old|] eqn:Eo; [|done]. cbn. split.
  - intros id' v'. rewrite lookup_delete. case_decide; [done|apply Hk].
  - intros name id'. rewrite !lookup_delete. destruct (decide (i = id')) as [<-|Hid].
    + split; [|naive_solver]. case_decide as Hd; [done|]. intros (w & Hw & Ew)%Hn. congruence.
    + rewrite <-Hn. case_decide as Hd; [|done]. split; [done|]. intros Hs.
      assert (Hs' : cs_schema_names s !! name = Some i) by (apply Hn; eauto). congruence.
Qed.

Lemma indexes_indexed_put v s :
  indexes_indexed (cs_indexes s) (cs_index_names s) -> record_name_free (ER_Index v) s ->
  indexes_indexed (cs_indexes (put_index v s)) (cs_index_names (put_index v s)).
Proof.
  intros [Hk Hn] Hf. simpl in Hf. cbn. set (id := xv_index_id v) in *. set (t := xv_table_id v) in *.
  split.
  - intros t' id' v'. rewrite nlookup_put_nested. case_decide as Hd; [|by apply Hk].
    intros [= <-]. by destruct Hd as [-> ->].
  - intros t' name id'. rewrite scoped_name_insert, nlookup_put_nested.
    destruct (decide (t' = t /\ name = xv_index_name v)) as [[-> ->]|Hne].
    + split.
      * intros [= <-]. exists v. by rewrite decide_True.
      * intros (w & Hw & Ew). case_decide as Hid; [by destruct Hid as [_ ->]|].
        f_equal. symmetry. apply Hf, Hn. eauto.
    + destruct (nlookup (cs_indexes s) t id) as [old|] eqn:Eo; cbn;
        [destruct (Hk _ _ _ Eo) as [Et Ei]; rewrite Et, scoped_name_remove|];
        (destruct (decide (t' = t /\ id' = id)) as [[-> ->]|Hid];
          [split; [|naive_solver] | rewrite <-Hn]).
      * case_decide as Hd; [done|]. intros (w & Hw & Ew)%Hn. naive_solver.
      * case_decide as Hd; [|done]. destruct Hd as [-> ->]. split; [done|]. intros Hs.
        assert (Hs' : scoped_name (cs_index_names s) t (xv_index_name old) = Some id)
          by (apply Hn; eauto). naive_solver.
      * intros (w & Hw & Ew)%Hn. naive_solver.
      * done.
Qed.

Lemma indexes_indexed_delete t i s :
  indexes_indexed (cs_indexes s) (cs_index_names s) ->
  indexes_indexed (cs_indexes (delete_index t i s)) (cs_index_names (delete_index t i s)).
Proof.
  intros [Hk Hn]. unfold delete_index.
  destruct (nlookup (cs_indexes s) t i) as [old|] eqn:Eo; [|done].
  destruct (Hk _ _ _ Eo) as [Et Ei]. cbn. rewrite Et. split.
  - intros t' id' v'. rewrite nlookup_remove_nested. case_decide; [done|apply Hk].
  - intros t' name id'. rewrite scoped_name_remove, nlookup_remove_nested.
    destruct (decide (t' = t /\ id' = i)) as [[-> ->]|Hid].
    + split; [|naive_solver]. case_decide as Hd; [done|]. intros (w & Hw & Ew)%Hn. naive_solver.
    + rewrite <-Hn. case_decide as Hd; [|done]. destruct Hd as [-> ->]. split; [done|]. intros Hs.
      assert (Hs' : scoped_name (cs_index_names s) t (xv_index_name old) = Some i)
        by (apply Hn; eauto). naive_solver.
Qed.

Lemma put_record_coherent r s :
  names_coherent s -> record_name_free r s -> names_coherent (put_record r s).
Proof.
  intros (Hs & Ht & Hv & Hm & Hi) Hf. unfold names_coherent.
  destruct r; cbn [put_record record_name_free] in *; try (split_and!; assumption).
  - split_and!; try done; by apply schemas_indexed_put.
  - pose proof (indexed_put _ _ _ _ Ht Hf) as H. unfold put_table. destruct put_named. done.
  - pose proof (indexed_put _ _ _ _ Hv Hf) as H. unfold put_view. destruct put_named. done.
  - pose proof (indexed_put _ _ _ _ Hm Hf) as H. unfold put_macro. destruct put_named. done.
  - split_and!; try done; by apply indexes_indexed_put.
Qed.

Lemma remove_table_only_coherent i s : names_coherent s -> names_coherent (remove_table_only i s).
Proof.
  intros (Hs & Ht & Hv & Hm & Hi). pose proof (indexed_delete _ i _ _ Ht) as H.
  unfold remove_table_only. destruct delete_named. split_and!; done.
Qed.

Lemma delete_view_coherent i s : names_coherent s -> names_coherent (delete_view i s).
Proof.
  intros (Hs & Ht & Hv & Hm & Hi). pose proof (indexed_delete _ i _ _ Hv) as H.
  unfold delete_view. destruct delete_named. split_and!; done.
Qed.

Lemma delete_macro_coherent i s : names_coherent s -> names_coherent (delete_macro i s).
Proof.
  intros (Hs & Ht & Hv & Hm & Hi). pose proof (indexed_delete _ i _ _ Hm) as H.
  unfold delete_macro. destruct delete_named. split_and!; done.
Qed.

Lemma delete_index_coherent t i s : names_coherent s -> names_coherent (delete_index t i s).
Proof.
  intros (Hs & Ht & Hv & Hm & Hi). pose proof (indexes_indexed_delete t i s Hi) as H.
  assert (E : cs_schemas (delete_index t i s) = cs_schemas s
    /\ cs_schema_names (delete_index t i s) = cs_schema_names s
    /\ cs_tables (delete_index t i s) = cs_tables s
    /\ cs_table_names (delete_index t i s) = cs_table_names s
    /\ cs_views (delete_index t i s) = cs_views s
    /\ cs_view_names (delete_index t i s) = cs_view_names s
    /\ cs_macros (delete_index t i s) = cs_macros s
    /\ cs_macro_names (delete_index t i s) = cs_macro_names s).
  { unfold delete_index. destruct nlookup; done. }
  destruct E as (E1 & E2 & E3 & E4 & E5 & E6 & E7 & E8).
  unfold names_coherent. rewrite E1, E2, E3, E4, E5, E6, E7, E8. split_and!; done.
Qed.

Lemma remove_schema_only_coherent i s : names_coherent s -> names_coherent (remove_schema_only i s).
Proof.
  intros (Hs & Ht & Hv & Hm & Hi). pose proof (schemas_indexed_remove i s Hs) as H.
  unfold remove_schema_only in *. destruct (cs_schemas s !! i); split_and!; done.
Qed.

Lemma delete_schema_coherent i s : names_coherent s -> names_coherent (delete_schema i s).
Proof. intros H%(remove_schema_only_coherent i). exact H. Qed.

(** Dropping a table drops the index definitions and their names together. *)
Lemma indexes_indexed_drop t values names :
  indexes_indexed values names -> indexes_indexed (delete t values) (delete t names).
Proof.
  intros [Hk Hn]. split.
  - intros t' id v. unfold nlookup. rewrite lookup_delete. case_decide; [done|apply Hk].
  - intros t' name id. unfold scoped_name, nlookup. rewrite !lookup_delete.
    case_decide; [naive_solver|apply Hn].
Qed.

Lemma delete_table_coherent i s : names_coherent s -> names_coherent (delete_table i s).
Proof.
  intros (Hs & Ht & Hv & Hm & Hi)%(remove_table_only_coherent i).
  pose proof (indexes_indexed_drop i _ _ Hi) as H. split_and!; done.
Qed.

(** The mutations of a view that can touch a name, with the guard each needs. *)
Inductive view_step : CatalogSnapshot -> CatalogSnapshot -> Prop :=
| step_put r s : record_name_free r s -> view_step s (put_record r s)
| step_delete_schema i s : view_step s (delete_schema i s)
| step_remove_schema i s : view_step s (remove_schema_only i s)
| step_delete_table i s : view_step s (delete_table i s)
| step_remove_table i s : view_step s (remove_table_only i s)
| step_delete_view i s : view_step s (delete_view i s)
| step_delete_macro i s : view_step s (delete_macro i s)
| step_delete_index t i s : view_step s (delete_index t i s).

Lemma view_step_coherent s s' : view_step s s' -> names_coherent s -> names_coherent s'.
Proof.
  destruct 1; eauto using put_record_coherent, delete_schema_coherent, remove_schema_only_coherent,
    delete_table_coherent, remove_table_only_coherent, delete_view_coherent,
    delete_macro_coherent, delete_index_coherent.
Qed.

Lemma default_coherent : names_coherent CatalogSnapshot_default.
Proof.
  split_and!; split; intros *; cbn;
    unfold scoped_name, nlookup; rewrite ?lookup_empty; cbn; naive_solver.
Qed.
#[export] Hint Resolve default_coherent put_record_coherent delete_schema_coherent
  delete_table_coherent delete_view_coherent delete_macro_coherent delete_index_coherent : moraine.

(** The name indexes of a catalog view are coherent in every view reached by puts of
    free names and removals: starting empty, any sequence of puts of records whose name
    no other live entity holds and of removals of schemas, tables (with their cascade), views,
    macros and indexes keeps each index listing exactly the live entities' names,
    so a name resolves to the one entity that bears it and never to an ended one. *)
Theorem name_indexes_coherent s : rtc view_step CatalogSnapshot_default s -> names_coherent s.
Proof.
  intros Hr. assert (H : forall a b, rtc view_step a b -> names_coherent a -> names_coherent b).
  { induction 1; eauto using view_step_coherent. }
  eauto using default_coherent.
Qed.

Definition sample_table (id schema : N) (name : string) : TableValue :=
  mkTableValue id "u" 1 None schema name "" true 0.

Lemma name_indexes_coherent_witness :
  let s := delete_table 1 (put_table (sample_table 2 0 "b")
             (put_table (sample_table 1 0 "a") CatalogSnapshot_default)) in
  names_coherent s /\ scoped_name (cs_table_names s) 0 "b" = Some 2
  /\ scoped_name (cs_table_names s) 0 "a" = None.
Proof.
  split; [|vm_compute; done]. apply name_indexes_coherent.
  eapply rtc_l; [apply (step_put (ER_Table (sample_table 1 0 "a")))|].
  { intros id Hid. vm_compute in Hid. discriminate. }
  eapply rtc_l; [apply (step_put (ER_Table (sample_table 2 0 "b")))|].
  { intros id Hid. vm_compute in Hid. discriminate. }
  apply rtc_once, (step_delete_table 1).
Defined.
