(* ===== verification/Catalog.v ===== *)
(** Reading a catalog view: the accessors of [catalog/snapshot.rs] and the public
    value types of [catalog/types.rs] they return, with name resolution, option
    fallback, ordering, and what [CatalogSnapshot::build] includes at a time-travel
    target. *)
From stdpp Require Import gmap strings list fin_maps sorting.
From Stdlib Require Import NArith ZArith Lia.
From S2P Require Import Prelude Storekey KeyLayout IndexEncoding Values Snapshot.

Local Open Scope N_scope.

(** ** Public values ([catalog/types.rs]); a typed id is its number *)

Record SnapshotInfo : Type := mkSnapshotInfo {
  si_id : N; si_time_micros : Z; si_schema_version : N }.
Record SchemaInfo : Type := mkSchemaInfo { schi_id : N; schi_name : string }.
Record TableInfo : Type := mkTableInfo { ti_id : N; ti_schema_id : N; ti_name : string }.
Record ViewInfo : Type := mkViewInfo {
  vi_id : N; vi_schema_id : N; vi_name : string; vi_dialect : string; vi_sql : string }.
Record MacroParameterDef : Type := mkMacroParameterDef {
  mpd_name : string; mpd_parameter_type : string; mpd_default_value : option string;
  mpd_default_value_type : string }.
Record MacroImplementationDef : Type := mkMacroImplementationDef {
  mid_dialect : string; mid_sql : string; mid_macro_type : string;
  mid_parameters : list MacroParameterDef }.
Record MacroInfo : Type := mkMacroInfo {
  mci_id : N; mci_schema_id : N; mci_name : string;
  mci_implementations : list MacroImplementationDef }.
Record NameMappingDef : Type := mkNameMappingDef {
  nmd_column_id : N; nmd_source_name : string; nmd_target_field_id : N;
  nmd_parent_column : option N; nmd_is_partition : bool }.
Record MappingInfo : Type := mkMappingInfo {
  mpi_id : N; mpi_table_id : N; mpi_map_type : string; mpi_name_mappings : list NameMappingDef }.
Record PartitionColumnDef : Type := mkPartitionColumnDef { pcd_column : N; pcd_transform : string }.
Record PartitionSpec : Type := mkPartitionSpec {
  ps_id : N; ps_columns : list PartitionColumnDef }.
Record SortKeyDef : Type := mkSortKeyDef {
  skd_expression : string; skd_dialect : string; skd_sort_direction : string;
  skd_null_order : string }.
Record SortSpec : Type := mkSortSpec { ss_id : N; ss_keys : list SortKeyDef }.
Record DataFileInfo : Type := mkDataFileInfo {
  dfi_id : N; dfi_path : string; dfi_path_is_relative : bool; dfi_file_format : string;
  dfi_record_count : N; dfi_file_size_bytes : N; dfi_footer_size : N;
  dfi_row_id_start : option N; dfi_encryption_key : option string;
  dfi_partition_id : option N; dfi_partition_values : list string; dfi_partial_max : option N }.
Record DeleteFileInfo : Type := mkDeleteFileInfo {
  dli_id : N; dli_data_file_id : N; dli_path : string; dli_path_is_relative : bool;
  dli_format : string; dli_delete_count : N; dli_file_size_bytes : N; dli_footer_size : N;
  dli_encryption_key : option string }.
Record TableStats : Type := mkTableStats {
  tst_record_count : N; tst_file_size_bytes : N; tst_next_row_id : N }.
Record ColumnStats : Type := mkColumnStats {
  cst_contains_null : option bool; cst_contains_nan : option bool; cst_min_value : option string;
  cst_max_value : option string; cst_extra_stats : option string }.
Record ColumnInfo : Type := mkColumnInfo {
  ci_id : N; ci_name : string; ci_column_type : string; ci_nulls_allowed : bool;
  ci_default_value : option string; ci_position : N; ci_parent_column : option N }.
Record ScheduledDeletion : Type := mkScheduledDeletion {
  sd_data_file_id : N; sd_path : string; sd_path_is_relative : bool;
  sd_schedule_start_micros : Z }.

Inductive IndexState : Type := IS_Ready | IS_Building | IS_Maintaining | IS_Poisoned.
Inductive IndexMaintenance : Type := Synchronous | Deferred.
Record IndexInfo : Type := mkIndexInfo {
  ii_id : N; ii_table_id : N; ii_name : string; ii_columns : list N;
  ii_directions : list Direction; ii_nulls : list NullOrder; ii_unique : bool;
  ii_maintenance : IndexMaintenance; ii_state : IndexState;
  ii_build_cursor : option N; ii_build_file_cursor : option N;
  ii_build_position_cursor : option N }.

(** ** Projections of one record *)

Definition schema_info (v : SchemaValue) : SchemaInfo :=
  mkSchemaInfo (sv_schema_id v) (sv_schema_name v).
Definition table_info (v : TableValue) : TableInfo :=
  mkTableInfo (tv_table_id v) (tv_schema_id v) (tv_table_name v).
Definition view_info (v : ViewValue) : ViewInfo :=
  mkViewInfo (vv_view_id v) (vv_schema_id v) (vv_view_name v) (vv_dialect v) (vv_sql v).
Definition mapping_info (v : MappingValue) : MappingInfo :=
  mkMappingInfo (mg_mapping_id v) (mg_table_id v) (mg_map_type v)
    (map (fun row => mkNameMappingDef (nm_column_id row) (nm_source_name row)
       (nm_target_field_id row) (nm_parent_column row) (nm_is_partition row))
       (mg_name_mappings v)).
Definition sort_spec (v : SortValue) : SortSpec :=
  mkSortSpec (ov_sort_id v)
    (map (fun e => mkSortKeyDef (se_expression e) (se_dialect e) (se_sort_direction e)
       (se_null_order e)) (sort_by_key se_sort_key_index (ov_expressions v))).
Definition partition_spec (v : PartitionValue) : PartitionSpec :=
  mkPartitionSpec (pv_partition_id v)
    (map (fun c => mkPartitionColumnDef (pc_column_id c) (pc_transform c))
       (sort_by_key pc_partition_key_index (pv_columns v))).
Definition macro_info (v : MacroValue) : MacroInfo :=
  mkMacroInfo (mv_macro_id v) (mv_schema_id v) (mv_macro_name v)
    (map (fun i => mkMacroImplementationDef (mi_dialect i) (mi_sql i) (mi_macro_type i)
       (map (fun p => mkMacroParameterDef (mp_parameter_name p) (mp_parameter_type p)
          (mp_default_value p) (mp_default_value_type p)) (mi_parameters i)))
       (mv_implementations v)).

(** [index_info]: a poisoned index reads poisoned whatever its build state. *)
Definition index_info (v : IndexValue) : IndexInfo :=
  let state :=
    if bool_decide (xv_poisoned v = Some true) then IS_Poisoned
    else if bool_decide (xv_build_state v = Some "maintaining"%string) then IS_Maintaining
    else match xv_build_state v with Some _ => IS_Building | None => IS_Ready end in
  let columns := xv_column_ids v in
  let directions := map (fun i =>
    if default false (xv_column_descending v !! i) then Descending else Ascending)
    (seq 0 (length columns)) in
  let nulls := map (fun i =>
    if default false (xv_column_nulls_first v !! i) then NullsFirst else NullsLast)
    (seq 0 (length columns)) in
  mkIndexInfo (xv_index_id v) (xv_table_id v) (xv_index_name v) columns directions nulls
    (xv_unique v)
    (if bool_decide (xv_deferred_maintenance v = Some true) then Deferred else Synchronous)
    state (xv_build_cursor_row_id v) (xv_build_cursor_file v) (xv_build_cursor_position v).

(** [partition_values]: in key order. *)
Definition partition_values (v : DataFileValue) : list string :=
  map fp_partition_value (sort_by_key fp_partition_key_index (df_partition_values v)).
Definition data_file_info (v : DataFileValue) : DataFileInfo :=
  mkDataFileInfo (df_data_file_id v) (df_path v) (df_path_is_relative v) (df_file_format v)
    (df_record_count v) (df_file_size_bytes v) (df_footer_size v) (df_row_id_start v)
    (df_encryption_key v) (df_partition_id v) (partition_values v) (df_partial_max v).
Definition delete_file_info (v : DeleteFileValue) : DeleteFileInfo :=
  mkDeleteFileInfo (dl_delete_file_id v) (dl_data_file_id v) (dl_path v) (dl_path_is_relative v)
    (dl_format v) (dl_delete_count v) (dl_file_size_bytes v) (dl_footer_size v)
    (dl_encryption_key v).
Definition table_stats_from_proto (v : TableStatsValue) : TableStats :=
  mkTableStats (ts_record_count v) (ts_file_size_bytes v) (ts_next_row_id v).
Definition column_stats_from_proto (v : TableColumnStatsValue) : ColumnStats :=
  mkColumnStats (tcs_contains_null v) (tcs_contains_nan v) (tcs_min_value v) (tcs_max_value v)
    (tcs_extra_stats v).
Definition column_info (c : ColumnValue) : ColumnInfo :=
  mkColumnInfo (cv_column_id c) (cv_column_name c) (cv_column_type c) (cv_nulls_allowed c)
    (cv_default_value c) (cv_column_order c) (cv_parent_column c).

(** ** Accessors *)

Section Accessors.
  Variable s : CatalogSnapshot.

Definition current_snapshot : SnapshotInfo :=
  mkSnapshotInfo (sn_snapshot_id (cs_snapshot s)) (sn_snapshot_time_micros (cs_snapshot s))
    (sn_schema_version (cs_snapshot s)).

Definition schemas_of : list SchemaInfo := map schema_info (btree_values (cs_schemas s)).
Definition schema_by_name (name : string) : option SchemaInfo :=
  schema_info <$> (cs_schema_names s !! name ≫= (fun id => cs_schemas s !! id)).
Definition schema_by_id (id : N) : option SchemaInfo := schema_info <$> cs_schemas s !! id.

Definition tables_in (schema : N) : list TableInfo :=
  map table_info (filter (fun t => tv_schema_id t = schema) (btree_values (cs_tables s))).
Definition table_by_name (schema : N) (name : string) : option TableInfo :=
  table_info <$> (scoped_name (cs_table_names s) schema name ≫= (fun id => cs_tables s !! id)).
Definition table_by_id (id : N) : option TableInfo := table_info <$> cs_tables s !! id.

(** [columns_of]: ordered by position. *)
Definition columns_of (table : N) : list ColumnInfo :=
  match cs_columns s !! table with
  | None => []
  | Some columns => sort_by_key ci_position (map column_info (btree_values columns))
  end.

Definition views_in (schema : N) : list ViewInfo :=
  map view_info (filter (fun v => vv_schema_id v = schema) (btree_values (cs_views s))).
Definition view_by_name (schema : N) (name : string) : option ViewInfo :=
  view_info <$> (scoped_name (cs_view_names s) schema name ≫= (fun id => cs_views s !! id)).
Definition view_by_id (id : N) : option ViewInfo := view_info <$> cs_views s !! id.

Definition macros_in (schema : N) : list MacroInfo :=
  map macro_info (filter (fun m => mv_schema_id m = schema) (btree_values (cs_macros s))).
Definition macro_by_name (schema : N) (name : string) : option MacroInfo :=
  macro_info <$> (scoped_name (cs_macro_names s) schema name ≫= (fun id => cs_macros s !! id)).
Definition macro_by_id (id : N) : option MacroInfo := macro_info <$> cs_macros s !! id.

(** [per_table.values()] of one table's nested map, empty when it has none. *)
Definition nested_values {V} (m : gmap N (gmap N V)) (table : N) : list V :=
  match m !! table with Some per_table => btree_values per_table | None => [] end.

Definition mappings_of (table : N) : list MappingInfo :=
  map mapping_info (nested_values (cs_mappings s) table).
Definition partitioning_of (table : N) : option PartitionSpec :=
  partition_spec <$> head (nested_values (cs_partitions s) table).
Definition sorting_of (table : N) : option SortSpec :=
  sort_spec <$> head (nested_values (cs_sorts s) table).
Definition indexes_of (table : N) : list IndexInfo :=
  map index_info (nested_values (cs_indexes s) table).
Definition index_by_name (table : N) (name : string) : option IndexInfo :=
  index_info <$> (scoped_name (cs_index_names s) table name ≫=
    (fun id => nlookup (cs_indexes s) table id)).
Definition index_by_id (table id : N) : option IndexInfo :=
  index_info <$> nlookup (cs_indexes s) table id.
Definition data_files_of (table : N) : list DataFileInfo :=
  map data_file_info (nested_values (cs_data_files s) table).
Definition delete_files_of (table : N) : list DeleteFileInfo :=
  map delete_file_info (nested_values (cs_delete_files s) table).
Definition table_stats_of (table : N) : option TableStats :=
  table_stats_from_proto <$> cs_table_stats s !! table.
Definition column_stats_of (table column : N) : option ColumnStats :=
  column_stats_from_proto <$> nlookup (cs_table_column_stats s) table column.
Definition scheduled_deletions : list ScheduledDeletion :=
  map (fun g => mkScheduledDeletion (gc_data_file_id g) (gc_path g) (gc_path_is_relative g)
    (gc_schedule_start_micros g)) (btree_values (cs_gc_files s)).
Definition tags_of (object_id : N) : list TagEntry :=
  match cs_tags s !! object_id with Some container => tg_entries container | None => [] end.

(** [table_data_prefix]: a live table without its schema is [Corruption]. *)
Definition table_data_prefix (table : N) : result string :=
  table_value ← ok_or NotFound (cs_tables s !! table);
  schema_value ← ok_or Corruption (cs_schemas s !! tv_schema_id table_value);
  Ok (sv_path schema_value ++ tv_path table_value)%string.

(** [option]: the candidate scopes, most specific first. *)
Definition option_candidates (scope : OptionScope) : list (N * N) :=
  key_components scope ::
  match scope with
  | ScopeTable t =>
      match cs_tables s !! t with
      | Some table => [key_components (ScopeSchema (tv_schema_id table))]
      | None => []
      end ++ [key_components ScopeGlobal]
  | ScopeSchema _ => [key_components ScopeGlobal]
  | ScopeGlobal => []
  end.

Fixpoint find_map {A B} (f : A -> option B) (l : list A) : option B :=
  match l with
  | [] => None
  | x :: l => match f x with Some y => Some y | None => find_map f l end
  end.

Definition option_in (key : string) (c : N * N) : option string :=
  cs_options s !! c ≫= (fun v => os_options v !! key).
Definition option_value (scope : OptionScope) (key : string) : option string :=
  find_map (option_in key) (option_candidates scope).
Definition data_path : option string := option_value ScopeGlobal "data_path".
End Accessors.

(** ** Name resolution *)

Lemma resolve_scoped {V} (identity : V -> N * N * string) values names scope name v :
  indexed identity values names ->
  (scoped_name names scope name ≫= (fun id => values !! id)) = Some v
  <-> exists id, values !! id = Some v /\ identity v = (id, scope, name).
Proof.
  intros [Hk Hn]. split.
  - intros (id & Hid & Hv)%bind_Some. exists id.
    apply Hn in Hid as (w & Hw & Ew). rewrite Hw in Hv. by injection Hv as ->.
  - intros (id & Hv & Ev). apply bind_Some. exists id. split; [|done]. apply Hn. eauto.
Qed.

(** In a coherent view, [schema_by_name], [table_by_name], [view_by_name],
    [macro_by_name] and [index_by_name] return what the maps hold under the name. *)
Lemma by_name_exact s :
  names_coherent s ->
  (forall name i, schema_by_name s name = Some i <->
     exists id v, cs_schemas s !! id = Some v /\ sv_schema_name v = name /\ i = schema_info v)
  /\ (forall schema name i, table_by_name s schema name = Some i <->
     exists id v, cs_tables s !! id = Some v /\ tv_schema_id v = schema /\ tv_table_name v = name
       /\ i = table_info v)
  /\ (forall schema name i, view_by_name s schema name = Some i <->
     exists id v, cs_views s !! id = Some v /\ vv_schema_id v = schema /\ vv_view_name v = name
       /\ i = view_info v)
  /\ (forall schema name i, macro_by_name s schema name = Some i <->
     exists id v, cs_macros s !! id = Some v /\ mv_schema_id v = schema /\ mv_macro_name v = name
       /\ i = macro_info v)
  /\ (forall table name i, index_by_name s table name = Some i <->
     exists id v, nlookup (cs_indexes s) table id = Some v /\ xv_index_name v = name
       /\ i = index_info v).
Proof.
  intros (Hs & Ht & Hv & Hm & Hi). split_and!.
  - intros name i. unfold schema_by_name. rewrite fmap_Some. setoid_rewrite bind_Some.
    destruct Hs as [Hk Hn]. split.
    + intros (v & (id & (w & Hw & Ew)%Hn & Hv') & ->). exists id, v.
      rewrite Hv' in Hw. injection Hw as ->. done.
    + intros (id & v & Hv' & En & ->). exists v. split; [|done]. exists id. split; [|done].
      apply Hn. eauto.
  - intros schema name i. unfold table_by_name. rewrite fmap_Some.
    setoid_rewrite (fun v => resolve_scoped table_identity _ _ schema name v Ht). unfold table_identity. split.
    + intros (v & (id & Hid & E) & ->). exists id, v. naive_solver.
    + intros (id & v & Hid & <- & <- & ->). exists v. split; [|done]. exists id. split; [done|].
      by rewrite <-(proj1 Ht id v Hid).
  - intros schema name i. unfold view_by_name. rewrite fmap_Some.
    setoid_rewrite (fun v => resolve_scoped view_identity _ _ schema name v Hv). unfold view_identity. split.
    + intros (v & (id & Hid & E) & ->). exists id, v. naive_solver.
    + intros (id & v & Hid & <- & <- & ->). exists v. split; [|done]. exists id. split; [done|].
      by rewrite <-(proj1 Hv id v Hid).
  - intros schema name i. unfold macro_by_name. rewrite fmap_Some.
    setoid_rewrite (fun v => resolve_scoped macro_identity _ _ schema name v Hm). unfold macro_identity. split.
    + intros (v & (id & Hid & E) & ->). exists id, v. naive_solver.
    + intros (id & v & Hid & <- & <- & ->). exists v. split; [|done]. exists id. split; [done|].
      by rewrite <-(proj1 Hm id v Hid).
  - intros table name i. unfold index_by_name. rewrite fmap_Some.
    destruct Hi as [Hk Hn]. split.
    + intros (v & (id & (w & Hw & Ew)%Hn & Hv')%bind_Some & ->). exists id, v.
      rewrite Hv' in Hw. injection Hw as ->. done.
    + intros (id & v & Hv' & En & ->). exists v. split; [|done].
      apply bind_Some. exists id. split; [|done]. apply Hn. eauto.
Qed.

(** ** What a view is built from *)

(** The last record of a list that is included and keyed [k]. *)
Definition wins (at_ : option N) (k : CurrentKey) (l : list EntityRecord) : option EntityRecord :=
  last (filter (fun r => record_included at_ r = true /\ record_key r = k) l).

Lemma fold_put_at at_ l s k :
  view_at (foldl (fun view r => if record_included at_ r then put_record r view else view) s l) k
  = match wins at_ k l with Some r => Some r | None => view_at s k end.
Proof.
  unfold wins. revert s. induction l as [|r l IH] using rev_ind; intros s; [done|].
  rewrite foldl_snoc, filter_app, filter_cons, filter_nil.
  destruct (record_included at_ r) eqn:Ei.
  - rewrite put_record_at, IH. destruct (decide (k = record_key r)) as [->|Hne].
    + rewrite decide_True by done. by rewrite last_snoc.
    + rewrite decide_False by naive_solver. by rewrite app_nil_r.
  - rewrite decide_False by naive_solver. by rewrite app_nil_r, IH.
Qed.

Lemma view_at_default k : view_at CatalogSnapshot_default k = None.
Proof.
  destruct k as [[]|]; cbn; unfold nlookup; by rewrite lookup_empty.
Qed.

Lemma view_at_set_snapshot f s k : view_at (set_snapshot f s) k = view_at s k.
Proof. by destruct k as [[]|]. Qed.

Lemma build_at snapshot current history at_ k :
  view_at (build snapshot current history at_) k = wins at_ k (current ++ history).
Proof.
  unfold build. rewrite fold_put_at. case_match; [done|].
  by rewrite view_at_set_snapshot, view_at_default.
Qed.

(** A record is alive at a snapshot: it began by it and has not ended by it.  Records of
    the kinds without a lifecycle always are. *)
Definition within (t begin : N) (end_ : option N) : Prop :=
  begin <= t /\ match end_ with Some e => t < e | None => True end.
Definition alive (t : N) (r : EntityRecord) : Prop :=
  match r with
  | ER_Schema v => within t (sv_begin_snapshot v) (sv_end_snapshot v)
  | ER_Table v => within t (tv_begin_snapshot v) (tv_end_snapshot v)
  | ER_View v => within t (vv_begin_snapshot v) (vv_end_snapshot v)
  | ER_Column v => within t (cv_begin_snapshot v) (cv_end_snapshot v)
  | ER_File v => within t (df_begin_snapshot v) (df_end_snapshot v)
  | ER_DeleteFile v => within t (dl_begin_snapshot v) (dl_end_snapshot v)
  | ER_Partition v => within t (pv_begin_snapshot v) (pv_end_snapshot v)
  | ER_Sort v => within t (ov_begin_snapshot v) (ov_end_snapshot v)
  | ER_Macro v => within t (mv_begin_snapshot v) (mv_end_snapshot v)
  | ER_Index v => within t (xv_begin_snapshot v) (xv_end_snapshot v)
  | ER_Mapping _ | ER_FileColumnStats _ | ER_TableStats _ | ER_TableColumnStats _
  | ER_Option _ _ _ | ER_Tag _ | ER_GcFile _ => True
  end.
(** No two versions of one entity are ever alive together. *)
Definition lifetimes_disjoint (l : list EntityRecord) : Prop :=
  forall t r r', r ∈ l -> r' ∈ l -> record_key r = record_key r' -> alive t r -> alive t r' -> r = r'.

Lemma included_within t begin end_ : included (Some t) begin end_ = true <-> within t begin end_.
Proof. unfold included, within. rewrite andb_true_iff, N.leb_le. destruct end_; [by rewrite N.ltb_lt|naive_solver]. Qed.

Lemma included_alive t r : record_included (Some t) r = true <-> alive t r.
Proof. destruct r; unfold record_included; cbn [lifecycle alive]; solve [apply included_within|by split]. Qed.

Lemma built_at snapshot current history t k r :
  lifetimes_disjoint (current ++ history) ->
  view_at (build snapshot current history (Some t)) k = Some r <->
  r ∈ current ++ history /\ alive t r /\ record_key r = k.
Proof.
  intros Hd. rewrite build_at. unfold wins. rewrite <-included_alive. split.
  - intros Hl%last_Some_elem_of. apply list_elem_of_filter in Hl. tauto.
  - intros (Hr & Hi & Hk).
    assert (Hin : r ∈ filter (fun r => record_included (Some t) r = true /\ record_key r = k)
              (current ++ history)) by (by apply list_elem_of_filter).
    destruct (last _) as [r'|] eqn:E.
    + f_equal. apply last_Some_elem_of, list_elem_of_filter in E as [[Hi' Hk'] Hr'].
      apply (Hd t); [done..|congruence|by apply included_alive|by apply included_alive].
    + apply last_None in E. rewrite E in Hin. by apply elem_of_nil in Hin.
Qed.

(** C19: a time-travel view is exact.  When no two versions of one entity are alive
    together, the view built at snapshot [t] holds at each key exactly the version alive
    at [t] (begun at or before [t] and not ended at or before it), whether that version
    is still current or already in history, and nothing at a key with no such version. *)
Theorem time_travel_exact snapshot current history t k r :
  lifetimes_disjoint (current ++ history) ->
  view_at (build snapshot current history (Some t)) k = Some r <->
  r ∈ current ++ history /\ alive t r /\ record_key r = k.
Proof. apply built_at. Qed.

Definition sample_ended : TableValue := mkTableValue 1 "u" 1 (Some 3) 0 "a" "" true 0.
Definition sample_renamed : TableValue := mkTableValue 1 "u" 3 None 0 "b" "" true 0.
Definition sample_scan : list EntityRecord := [ER_Table sample_renamed] ++ [ER_Table sample_ended].

Lemma sample_lifetimes : lifetimes_disjoint sample_scan.
Proof.
  intros t r r' Hr Hr' _ Ha Ha'.
  assert (r = ER_Table sample_renamed \/ r = ER_Table sample_ended) as [-> | ->] by (unfold sample_scan in Hr; set_solver);
  assert (r' = ER_Table sample_renamed \/ r' = ER_Table sample_ended) as [-> | ->] by (unfold sample_scan in Hr'; set_solver);
    try done; cbn in Ha, Ha'; unfold within in *; lia.
Qed.

Lemma time_travel_exact_witness :
  view_at (build SnapshotValue_default [ER_Table sample_renamed] [ER_Table sample_ended] (Some 2))
    (CK_Entity (EK_Table 1)) = Some (ER_Table sample_ended).
Proof.
  apply (time_travel_exact SnapshotValue_default [ER_Table sample_renamed]
    [ER_Table sample_ended] 2); [apply sample_lifetimes|]. split_and!; [set_solver|by vm_compute|done].
Defined.

(** ** Names of a built view *)

(** The namespace, scope and name a record claims, if its kind has names. *)
Definition record_name (r : EntityRecord) : option (nat * N * string) :=
  match r with
  | ER_Schema v => Some (0%nat, 0, sv_schema_name v)
  | ER_Table v => Some (1%nat, tv_schema_id v, tv_table_name v)
  | ER_View v => Some (2%nat, vv_schema_id v, vv_view_name v)
  | ER_Macro v => Some (3%nat, mv_schema_id v, mv_macro_name v)
  | ER_Index v => Some (4%nat, xv_table_id v, xv_index_name v)
  | _ => None
  end.

(** No two entities claim one name. *)
Definition names_distinct (l : list EntityRecord) : Prop :=
  forall r r', r ∈ l -> r' ∈ l -> is_Some (record_name r) -> record_name r = record_name r' ->
    record_key r = record_key r'.

Lemma record_free_intro r v :
  names_coherent v ->
  (forall k r', view_at v k = Some r' -> is_Some (record_name r') ->
     record_name r' = record_name r -> k = record_key r) ->
  record_name_free r v.
Proof.
  intros (Hs & Ht & Hv & Hm & Hi) Hr. destruct r; cbn; try done; intros id Hid.
  - apply (proj2 Hs) in Hid as (w & Hw & Ew).
    assert (E := Hr (CK_Entity (EK_Schema id)) (ER_Schema w)). cbn in E. rewrite Hw, Ew in E.
    by injection (E eq_refl (mk_is_Some _ _ eq_refl) eq_refl).
  - apply (proj2 Ht) in Hid as (w & Hw & Ew). unfold table_identity in Ew. injection Ew as _ E1 E2.
    assert (E := Hr (CK_Entity (EK_Table id)) (ER_Table w)). cbn in E. rewrite Hw, E1, E2 in E.
    by injection (E eq_refl (mk_is_Some _ _ eq_refl) eq_refl).
  - apply (proj2 Hv) in Hid as (w & Hw & Ew). unfold view_identity in Ew. injection Ew as _ E1 E2.
    assert (E := Hr (CK_Entity (EK_View id)) (ER_View w)). cbn in E. rewrite Hw, E1, E2 in E.
    by injection (E eq_refl (mk_is_Some _ _ eq_refl) eq_refl).
  - apply (proj2 Hm) in Hid as (w & Hw & Ew). unfold macro_identity in Ew. injection Ew as _ E1 E2.
    assert (E := Hr (CK_Entity (EK_Macro id)) (ER_Macro w)). cbn in E. rewrite Hw, E1, E2 in E.
    by injection (E eq_refl (mk_is_Some _ _ eq_refl) eq_refl).
  - apply (proj2 Hi) in Hid as (w & Hw & Ew). destruct (proj1 Hi _ _ _ Hw) as [Et _].
    assert (E := Hr (CK_Entity (EK_Index (xv_table_id v0) id)) (ER_Index w)). cbn in E.
    rewrite Hw, Ew, Et in E. by injection (E eq_refl (mk_is_Some _ _ eq_refl) eq_refl).
Qed.

Lemma fold_put_coherent at_ l s :
  names_distinct (filter (fun r => record_included at_ r = true) l) -> names_coherent s -> (forall k, view_at s k = None) ->
  names_coherent
    (foldl (fun view r => if record_included at_ r then put_record r view else view) s l).
Proof.
  intros Hd Hs Hempty. induction l as [|r l IH] using rev_ind; [done|].
  rewrite foldl_snoc. rewrite filter_app, filter_cons in Hd. destruct (record_included at_ r) eqn:Ei.
  2: { rewrite decide_False in Hd by done. rewrite filter_nil, app_nil_r in Hd. by apply IH. }
  rewrite decide_True in Hd by done. specialize (IH ltac:(intros a b Ha Hb; apply Hd; set_solver)).
  apply put_record_coherent; [done|]. apply record_free_intro; [done|].
  intros k r'. rewrite fold_put_at, Hempty. intros Hw Hn Hname.
  assert (Hin : r' ∈ filter (fun r => record_included at_ r = true) l /\ record_key r' = k).
  { destruct (wins at_ k l) as [w|] eqn:E; [|done]. injection Hw as ->. unfold wins in E.
    apply last_Some_elem_of, list_elem_of_filter in E. rewrite list_elem_of_filter. tauto. }
  destruct Hin as [Hin <-]. apply Hd; set_solver.
Qed.

Lemma build_coherent snapshot current history at_ :
  names_distinct (filter (fun r => record_included at_ r = true) (current ++ history)) ->
  names_coherent (build snapshot current history at_).
Proof.
  intros Hd. unfold build. apply fold_put_coherent; [done|apply default_coherent|].
  intros k. by rewrite view_at_set_snapshot, view_at_default.
Qed.

Lemma names_distinct_filter at_ l :
  names_distinct l -> names_distinct (filter (fun r => record_included at_ r = true) l).
Proof. intros Hd r r' [_ Hr]%list_elem_of_filter [_ Hr']%list_elem_of_filter. by apply Hd. Qed.

(** C25: a view built from a scan resolves names exactly: when no two records of the
    scan claim one name in one scope (two versions of one entity may), the built
    view's name indexes are coherent, at head as at any time-travel target. *)
Theorem build_names_coherent snapshot current history at_ :
  names_distinct (current ++ history) ->
  names_coherent (build snapshot current history at_).
Proof.
  intros Hd. by apply build_coherent, names_distinct_filter.
Qed.

Lemma build_names_coherent_witness :
  names_coherent (build SnapshotValue_default
    [ER_Table (sample_table 1 0 "a"); ER_Table (sample_table 2 0 "b")] [] None).
Proof.
  apply build_names_coherent. intros r r' Hr Hr' _.
  assert (r = ER_Table (sample_table 1 0 "a") \/ r = ER_Table (sample_table 2 0 "b")) as [-> | ->]
    by set_solver;
  assert (r' = ER_Table (sample_table 1 0 "a") \/ r' = ER_Table (sample_table 2 0 "b")) as [-> | ->]
    by set_solver; intros E; first [reflexivity | discriminate E].
Defined.

(** C24: resolving a name as of a snapshot is exact.  In the view built at [t] from scanned
    records, when no two versions of one entity are alive together and no two entities
    alive at [t] claim one name in one scope, [schema_by_name], [table_by_name],
    [view_by_name], [macro_by_name] and [index_by_name] return an entity exactly when a
    scanned record alive at [t] bears the name in the scope, and describe that record. *)
Theorem names_resolve_at snapshot current history t :
  let scan := current ++ history in
  let view := build snapshot current history (Some t) in
  lifetimes_disjoint scan ->
  (forall r r', r ∈ scan -> r' ∈ scan -> alive t r -> alive t r' -> is_Some (record_name r) ->
     record_name r = record_name r' -> record_key r = record_key r') ->
  (forall name i, schema_by_name view name = Some i <->
     exists v, ER_Schema v ∈ scan /\ alive t (ER_Schema v) /\ sv_schema_name v = name
       /\ i = mkSchemaInfo (sv_schema_id v) (sv_schema_name v))
  /\ (forall schema name i, table_by_name view schema name = Some i <->
     exists v, ER_Table v ∈ scan /\ alive t (ER_Table v) /\ tv_schema_id v = schema /\ tv_table_name v = name
       /\ i = mkTableInfo (tv_table_id v) (tv_schema_id v) (tv_table_name v))
  /\ (forall schema name i, view_by_name view schema name = Some i <->
     exists v, ER_View v ∈ scan /\ alive t (ER_View v) /\ vv_schema_id v = schema /\ vv_view_name v = name
       /\ i = mkViewInfo (vv_view_id v) (vv_schema_id v) (vv_view_name v) (vv_dialect v) (vv_sql v))
  /\ (forall schema name i, macro_by_name view schema name = Some i <->
     exists v, ER_Macro v ∈ scan /\ alive t (ER_Macro v) /\ mv_schema_id v = schema /\ mv_macro_name v = name
       /\ i = macro_info v)
  /\ (forall table name i, index_by_name view table name = Some i <->
     exists v, ER_Index v ∈ scan /\ alive t (ER_Index v) /\ xv_table_id v = table /\ xv_index_name v = name
       /\ i = index_info v).
Proof.
  intros scan view Hd Hn.
  assert (Hc : names_coherent view).
  { apply build_coherent. intros r r' [Hi Hr]%list_elem_of_filter [Hi' Hr']%list_elem_of_filter.
    apply Hn; [done..|by apply included_alive|by apply included_alive]. }
  pose proof (fun k r => built_at snapshot current history t k r Hd) as Hb. fold scan view in Hb.
  destruct (by_name_exact view Hc) as (Hs & Ht & Hv & Hm & Hi). split_and!.
  - intros name i. rewrite Hs. split.
    + intros (id & v & E & En & ->). exists v.
      destruct (proj1 (Hb (CK_Entity (EK_Schema id)) (ER_Schema v))) as (? & ? & _); [cbn; by rewrite E|done].
    + intros (v & Hin & Ha & En & ->). exists (sv_schema_id v), v. split; [|done].
      assert (E := proj2 (Hb _ (ER_Schema v)) (conj Hin (conj Ha eq_refl))). cbn in E. by apply fmap_Some in E as (w & ? & [= <-]).
  - intros schema name i. rewrite Ht. split.
    + intros (id & v & E & Es & En & ->). exists v.
      destruct (proj1 (Hb (CK_Entity (EK_Table id)) (ER_Table v))) as (? & ? & _); [cbn; by rewrite E|done].
    + intros (v & Hin & Ha & Es & En & ->). exists (tv_table_id v), v. split; [|done].
      assert (E := proj2 (Hb _ (ER_Table v)) (conj Hin (conj Ha eq_refl))). cbn in E. by apply fmap_Some in E as (w & ? & [= <-]).
  - intros schema name i. rewrite Hv. split.
    + intros (id & v & E & Es & En & ->). exists v.
      destruct (proj1 (Hb (CK_Entity (EK_View id)) (ER_View v))) as (? & ? & _); [cbn; by rewrite E|done].
    + intros (v & Hin & Ha & Es & En & ->). exists (vv_view_id v), v. split; [|done].
      assert (E := proj2 (Hb _ (ER_View v)) (conj Hin (conj Ha eq_refl))). cbn in E. by apply fmap_Some in E as (w & ? & [= <-]).
  - intros schema name i. rewrite Hm. split.
    + intros (id & v & E & Es & En & ->). exists v.
      destruct (proj1 (Hb (CK_Entity (EK_Macro id)) (ER_Macro v))) as (? & ? & _); [cbn; by rewrite E|done].
    + intros (v & Hin & Ha & Es & En & ->). exists (mv_macro_id v), v. split; [|done].
      assert (E := proj2 (Hb _ (ER_Macro v)) (conj Hin (conj Ha eq_refl))). cbn in E. by apply fmap_Some in E as (w & ? & [= <-]).
  - intros table name i. rewrite Hi. split.
    + intros (id & v & E & En & ->). exists v.
      destruct (proj1 (Hb (CK_Entity (EK_Index table id)) (ER_Index v))) as (? & ? & Ek); [cbn; by rewrite E|].
      by injection Ek as -> _.
    + intros (v & Hin & Ha & <- & En & ->). exists (xv_index_id v), v. split; [|done].
      assert (E := proj2 (Hb _ (ER_Index v)) (conj Hin (conj Ha eq_refl))). cbn in E. by apply fmap_Some in E as (w & ? & [= <-]).
Qed.

Lemma names_resolve_at_witness :
  table_by_name (build SnapshotValue_default [ER_Table sample_renamed] [ER_Table sample_ended] (Some 2)) 0 "a"
    = Some (mkTableInfo 1 0 "a").
Proof.
  destruct (names_resolve_at SnapshotValue_default [ER_Table sample_renamed] [ER_Table sample_ended] 2 sample_lifetimes)
    as (_ & Ht & _).
  - intros r r' Hr Hr' _ _ _ _.
    assert (r = ER_Table sample_renamed \/ r = ER_Table sample_ended) as [-> | ->] by set_solver;
    assert (r' = ER_Table sample_renamed \/ r' = ER_Table sample_ended) as [-> | ->] by set_solver; done.
  - apply Ht. exists sample_ended. split_and!; [set_solver|by vm_compute|done..].
Defined.

(** C38: [columns_of] returns the live columns of the table, each once and nothing else,
    in the order of their recorded column orders, and describes each by the fields of its
    record, its position being its column order. *)
Theorem columns_of_ordered s table :
  exists columns : list ColumnValue,
    columns ≡ₚ (map_to_list (default ∅ (cs_columns s !! table))).*2
    /\ StronglySorted (fun a b => cv_column_order a <= cv_column_order b) columns
    /\ columns_of s table = map (fun c => mkColumnInfo (cv_column_id c) (cv_column_name c) (cv_column_type c)
         (cv_nulls_allowed c) (cv_default_value c) (cv_column_order c) (cv_parent_column c)) columns.
Proof.
  unfold columns_of. destruct (cs_columns s !! table) as [cols|]; cbn [default id].
  - exists (sort_by_key cv_column_order (btree_values cols)). split_and!.
    + rewrite sort_by_key_perm. apply btree_values_perm.
    + apply sort_by_key_sorted.
    + apply (sort_by_key_map column_info ci_position).
  - exists []. rewrite map_to_list_empty. split_and!; [done|constructor|done].
Qed.
