(* ===== verification/Store.v ===== *)
(** Typed reads over the store ([store/read.rs], [store/handle.rs]).

    The key-value store itself is SlateDB, outside the repository: class [KV] is
    what the typed reads ask of it (point reads, prefix scans in key order, a
    batch applied atomically), [KVLaws] what its documentation promises, and a
    [gmap] of byte strings is an instance.

    A typed read is a [Reader] program: a tree of point reads and scans.  Run
    against one state ([run]) it is what a transaction sees; run against a
    timeline ([run_over]), where each call may see a later state, it is what a
    read-only reader following the manifest sees. *)
From stdpp Require Import gmap strings list fin_maps sorting.
From Stdlib Require Import NArith ZArith Lia.
From S2P Require Import Prelude Storekey KeyLayout Values Snapshot.

Local Open Scope N_scope.

(** ** The store interface *)

(** One write of a batch: a put, or a delete. *)
Abbreviation StagedWrite := (bytes * option bytes)%type.

(** The last write a batch makes to a key. *)
Definition last_write (ws : list StagedWrite) (k : bytes) : option (option bytes) :=
  snd <$> last (filter (fun w => w.1 = k) ws).

Class KV (S : Type) : Type := {
  kv_get : S -> bytes -> option bytes;
  kv_scan : S -> bytes -> list (bytes * bytes);
  kv_apply : S -> list StagedWrite -> S;
}.

Class KVLaws (S : Type) {K : KV S} : Prop := {
  kv_get_apply : forall (s : S) ws k,
    kv_get (kv_apply s ws) k = match last_write ws k with Some v => v | None => kv_get s k end;
  kv_scan_elem : forall (s : S) p k v,
    (k, v) ∈ kv_scan s p <-> kv_get s k = Some v /\ p `prefix_of` k;
  kv_scan_sorted : forall (s : S) p,
    StronglySorted (fun a b => bytes_lt a.1 b.1) (kv_scan s p);
}.

(** *** The last write *)

Lemma last_write_snoc ws w k :
  last_write (ws ++ [w]) k = if decide (w.1 = k) then Some w.2 else last_write ws k.
Proof.
  unfold last_write. rewrite filter_app, filter_cons, filter_nil.
  case_decide; [by rewrite last_snoc|by rewrite app_nil_r].
Qed.

Lemma last_write_elem ws k v : last_write ws k = Some v -> (k, v) ∈ ws.
Proof.
  unfold last_write. intros ([k' v'] & Hl & Hv)%fmap_Some.
  apply last_Some_elem_of, list_elem_of_filter in Hl as [Hk Hin]. simpl in *. by subst.
Qed.

Lemma last_write_none ws k : (forall v, (k, v) ∉ ws) -> last_write ws k = None.
Proof.
  intros Hno. unfold last_write. apply fmap_None, last_None, elem_of_nil_inv.
  intros [k' v] [Hk Hw]%list_elem_of_filter. simpl in Hk. subst k'. by eapply Hno.
Qed.

Lemma last_write_app ws ws' k :
  last_write (ws ++ ws') k = match last_write ws' k with Some v => Some v | None => last_write ws k end.
Proof.
  induction ws' as [|w ws' IH] using rev_ind; [by rewrite app_nil_r|].
  rewrite app_assoc, !last_write_snoc. by case_decide.
Qed.

Lemma last_write_cons w ws k :
  last_write (w :: ws) k
  = match last_write ws k with Some v => Some v | None => if decide (w.1 = k) then Some w.2 else None end.
Proof. change (w :: ws) with ([] ++ [w] ++ ws). rewrite app_assoc, last_write_app, last_write_snoc. done. Qed.

Lemma last_write_nil k : last_write [] k = None.
Proof. done. Qed.

(** ** Programs of reads *)

Inductive Reader (A : Type) : Type :=
| RRet (r : result A)
| RGet (k : bytes) (cont : option bytes -> Reader A)
| RScan (p : bytes) (cont : list (bytes * bytes) -> Reader A).
Arguments RRet {A} r.
Arguments RGet {A} k cont.
Arguments RScan {A} p cont.

Fixpoint Reader_bind {A B} (f : A -> Reader B) (m : Reader A) : Reader B :=
  match m with
  | RRet (Ok a) => f a
  | RRet (Err e) => RRet (Err e)
  | RGet k c => RGet k (fun o => Reader_bind f (c o))
  | RScan p c => RScan p (fun l => Reader_bind f (c l))
  end.
#[export] Instance Reader_mret : MRet Reader := fun A a => RRet (Ok a).
#[export] Instance Reader_mbind : MBind Reader := fun A B f m => Reader_bind f m.

(** A pure fallible step. *)
Definition lift {A} (r : result A) : Reader A := RRet r.

Section Run.
  Context {S : Type} `{KV S}.

Fixpoint run {A} (s : S) (m : Reader A) : result A :=
  match m with
  | RRet r => r
  | RGet k c => run s (c (kv_get s k))
  | RScan p c => run s (c (kv_scan s p))
  end.

(** Against a timeline: each call sees the state of its instant, and time passes. *)
Fixpoint run_over {A} (world : nat -> S) (now : nat) (m : Reader A) : result A * nat :=
  match m with
  | RRet r => (r, now)
  | RGet k c => run_over world (now + 1)%nat (c (kv_get (world now) k))
  | RScan p c => run_over world (now + 1)%nat (c (kv_scan (world now) p))
  end.

Lemma run_bind {A B} (f : A -> Reader B) m s : run s (m ≫= f) = run s m ≫= (fun a => run s (f a)).
Proof. induction m as [[a|e]| |]; simpl; auto. Qed.

Lemma run_bind_Ok {A B} (f : A -> Reader B) m s a :
  run s m = Ok a -> run s (m ≫= f) = run s (f a).
Proof. intros E. by rewrite run_bind, E. Qed.

Lemma run_bind_Err {A B} (f : A -> Reader B) m s e :
  run s m = Err e -> run s (m ≫= f) = Err e.
Proof. intros E. by rewrite run_bind, E. Qed.

Lemma run_bind_inv {A B} (f : A -> Reader B) m s b :
  run s (m ≫= f) = Ok b -> exists a, run s m = Ok a /\ run s (f a) = Ok b.
Proof. rewrite run_bind. apply bind_Ok. Qed.

Lemma run_over_bind {A B} (f : A -> Reader B) m world now :
  run_over world now (m ≫= f) =
  match run_over world now m with
  | (Ok a, t) => run_over world t (f a)
  | (Err e, t) => (Err e, t)
  end.
Proof. revert now. induction m as [[a|e]| |]; intros; simpl; auto. Qed.

Lemma run_over_time {A} (m : Reader A) world now : (now <= (run_over world now m).2)%nat.
Proof.
  revert now. induction m as [r|k c IH|p c IH]; intros now; simpl; [done|..].
  - specialize (IH (kv_get (world now) k) (now + 1)%nat). lia.
  - specialize (IH (kv_scan (world now) p) (now + 1)%nat). lia.
Qed.

(** Over instants that all show one state, a program sees that state. *)
Lemma run_over_stable {A} (m : Reader A) world now s :
  (forall t, (now <= t < (run_over world now m).2)%nat -> world t = s) ->
  (run_over world now m).1 = run s m.
Proof.
  revert now. induction m as [r|k c IH|p c IH]; intros now Hw; simpl in *; [done|..].
  - assert (E : world now = s).
    { apply Hw. pose proof (run_over_time (c (kv_get (world now) k)) world (now + 1)%nat). lia. }
    rewrite E in *. apply IH. intros t Ht. apply Hw. lia.
  - assert (E : world now = s).
    { apply Hw. pose proof (run_over_time (c (kv_scan (world now) p)) world (now + 1)%nat). lia. }
    rewrite E in *. apply IH. intros t Ht. apply Hw. lia.
Qed.
End Run.

(** ** Typed reads ([store/read.rs]) *)

(** [Option::transpose] after [map]. *)
Definition transpose {A} (o : option (result A)) : result (option A) :=
  match o with Some (Ok a) => Ok (Some a) | Some (Err e) => Err e | None => Ok None end.

Fixpoint collect {A B} (f : A -> result B) (l : list A) : result (list B) :=
  match l with
  | [] => Ok []
  | x :: l => y ← f x; ys ← collect f l; Ok (y :: ys)
  end.

Section Reads.
  Context `{SK : Storekey, MS : Messages}.

(** [read_singleton]. *)
Definition read_singleton {M} `{Prost M} (k : Key) : Reader (option M) :=
  RGet (Key_encode k) (fun o => RRet (transpose (decode_value <$> o))).

(** [scan_decode]. *)
Definition scan_decode {T} (prefix : bytes) (extract : Key -> bytes -> result T) : Reader (list T) :=
  RScan prefix (fun entries =>
    RRet (collect (fun e => k ← Key_decode e.1; extract k e.2) entries)).

Definition read_format : Reader (option FormatValue) := read_singleton (K_Sys SK_Format).
Definition read_migration : Reader (option MigrationValue) := read_singleton (K_Sys SK_Migration).
Definition read_head : Reader (option HeadValue) := read_singleton (K_Sys SK_Head).
Definition read_changelog (snapshot_id : N) : Reader (option ChangelogValue) :=
  read_singleton (K_Changelog snapshot_id).
Definition read_snapshot (snapshot_id : N) : Reader (option SnapshotValue) :=
  read_singleton (K_Snapshot snapshot_id).

(** [decode_entity]. *)
Definition decode_entity (entity : EntityKey) (b : bytes) : result EntityRecord :=
  match entity with
  | EK_Schema _ => ER_Schema <$> decode_value b
  | EK_Table _ => ER_Table <$> decode_value b
  | EK_View _ => ER_View <$> decode_value b
  | EK_Column _ _ => ER_Column <$> decode_value b
  | EK_File _ _ => ER_File <$> decode_value b
  | EK_DeleteFile _ _ => ER_DeleteFile <$> decode_value b
  | EK_Partition _ _ => ER_Partition <$> decode_value b
  | EK_Sort _ _ => ER_Sort <$> decode_value b
  | EK_Macro _ => ER_Macro <$> decode_value b
  | EK_Mapping _ _ => ER_Mapping <$> decode_value b
  | EK_Index _ _ => ER_Index <$> decode_value b
  | EK_FileColumnStats _ _ _ => ER_FileColumnStats <$> decode_value b
  | EK_TableStats _ => ER_TableStats <$> decode_value b
  | EK_TableColumnStats _ _ => ER_TableColumnStats <$> decode_value b
  | EK_Option scope_kind scope_id => ER_Option scope_kind scope_id <$> decode_value b
  | EK_Tag _ => ER_Tag <$> decode_value b
  end.

Definition scan_snapshots : Reader (list SnapshotValue) :=
  scan_decode (subspace_prefix SnapshotSpace) (fun key b =>
    match key with K_Snapshot _ => decode_value b | _ => Err Corruption end).

Definition scan_schema_versions : Reader (list (N * N * N)) :=
  scan_decode (subspace_prefix SchemaVersionSpace) (fun key b =>
    match key with
    | K_SchemaVersion table_id begin_snapshot =>
        value ← decode_value b; Ok (table_id, begin_snapshot, svv_schema_version value)
    | _ => Err Corruption
    end).

(** The extractor of [scan_current_entities]. *)
Definition decode_current (key : Key) (b : bytes) : result EntityRecord :=
  match key with
  | K_Current (CK_Entity entity) => decode_entity entity b
  | K_Current (CK_GcFile _) => ER_GcFile <$> decode_value b
  | _ => Err Corruption
  end.
Definition scan_current_entities : Reader (list EntityRecord) :=
  scan_decode (subspace_prefix CurrentSpace) decode_current.

(** The extractor of [scan_history_entities]: an unversioned kind in history is
    store damage. *)
Definition decode_history (key : Key) (b : bytes) : result EntityRecord :=
  match key with
  | K_History h =>
      if negb (is_versioned (history_entity h)) then Err Corruption
      else decode_entity (history_entity h) b
  | _ => Err Corruption
  end.
Definition scan_history_entities : Reader (list EntityRecord) :=
  scan_decode (subspace_prefix HistorySpace) decode_history.

(** *** Stable passes *)

Definition STABLE_READ_ATTEMPTS : nat := 8.

(** [consistent] on a reader that is not isolated: the pass between two reads of
    the head record, retried while the record moved. *)
Fixpoint consistent_attempts {T} (attempts : nat) (read : Reader T) : Reader T :=
  match attempts with
  | O => lift (Err RetryBudgetExhausted)
  | S attempts =>
      before ← read_head;
      value ← read;
      after ← read_head;
      if bool_decide (after = before) then mret value else consistent_attempts attempts read
  end.

Definition consistent {T} (is_isolated : bool) (read : Reader T) : Reader T :=
  if is_isolated then read else consistent_attempts STABLE_READ_ATTEMPTS read.
End Reads.

(** ** What the typed reads return *)

Lemma collect_Ok {A B} (f : A -> result B) l :
  (forall x, x ∈ l -> exists y, f x = Ok y) ->
  exists ys, collect f l = Ok ys /\ (forall y, y ∈ ys <-> exists x, x ∈ l /\ f x = Ok y).
Proof.
  induction l as [|x l IH]; intros Hf; simpl.
  - exists []. split; [done|]. set_solver.
  - destruct (Hf x) as [y Hy]; [set_solver|]. destruct IH as (ys & Hys & Hin); [set_solver|].
    exists (y :: ys). rewrite Hy. cbn. rewrite Hys. split; [done|].
    intros z. rewrite elem_of_cons, Hin. setoid_rewrite elem_of_cons. split.
    + intros [->|(x' & ? & ?)]; eauto.
    + intros (x' & [->|?] & Hx'); [left; congruence|eauto].
Qed.

Section ReadLaws.
  Context {S : Type} `{KVLaws S, SKL : StorekeyLaws, MSL : MessagesLaws}.

Lemma run_singleton {M} `{ProstLaws M} (s : S) (k : Key) (m : M) :
  kv_get s (Key_encode k) = Some (encode_value m) -> run s (read_singleton k) = Ok (Some m).
Proof.
  intros E. unfold read_singleton. cbn [run]. rewrite E. cbn [fmap option_fmap option_map].
  by rewrite decode_encode_value.
Qed.

Lemma run_singleton_none {M} `{Prost M} (s : S) (k : Key) :
  kv_get s (Key_encode k) = None -> run s (read_singleton (M := M) k) = Ok None.
Proof. intros E. cbn. by rewrite E. Qed.

Lemma run_singleton_same {M} `{Prost M} (s s' : S) (k : Key) :
  kv_get s (Key_encode k) = kv_get s' (Key_encode k) ->
  run s (read_singleton (M := M) k) = run s' (read_singleton k).
Proof. intros E. cbn. by rewrite E. Qed.

Lemma run_singleton_some {M} `{Prost M} (s : S) (k : Key) (m : M) :
  run s (read_singleton k) = Ok (Some m) ->
  exists b, kv_get s (Key_encode k) = Some b /\ decode_value b = Ok m.
Proof.
  unfold read_singleton. cbn [run]. destruct (kv_get s (Key_encode k)) as [b|]; [|done].
  cbn [fmap option_fmap option_map]. destruct (decode_value b) eqn:E; [|done].
  intros [= ->]. eauto.
Qed.

(** A key no write of the list names. *)
Lemma last_write_other ws k :
  Key_wf k -> Forall (fun w => exists k', w.1 = Key_encode k' /\ Key_wf k' /\ k' <> k) ws ->
  last_write ws (Key_encode k) = None.
Proof.
  intros Hk Hws. apply last_write_none. intros v Hv. rewrite Forall_forall in Hws.
  apply Hws in Hv as (k' & E & Hk' & Hne). apply Hne. by apply Key_encode_inj.
Qed.

Lemma Key_encode_eq k k' : Key_wf k -> Key_wf k' -> Key_encode k = Key_encode k' <-> k = k'.
Proof. intros ??. split; [by apply Key_encode_inj|by intros ->]. Qed.

(** A scan over records that all extract returns exactly them. *)
Lemma scan_decode_ok {T} (s : S) p (extract : Key -> bytes -> result T) :
  (forall kb b, kv_get s kb = Some b -> p `prefix_of` kb ->
     exists k t, kb = Key_encode k /\ Key_wf k /\ extract k b = Ok t) ->
  exists l, run s (scan_decode p extract) = Ok l
    /\ forall t, t ∈ l <-> exists k b, Key_wf k /\ p `prefix_of` Key_encode k
         /\ kv_get s (Key_encode k) = Some b /\ extract k b = Ok t.
Proof.
  intros Hs. destruct (collect_Ok (fun e : bytes * bytes => k ← Key_decode e.1; extract k e.2)
    (kv_scan s p)) as (l & E & Hin).
  { intros [kb b] [Hg Hp]%kv_scan_elem. destruct (Hs kb b Hg Hp) as (k & t & -> & Hk & Ht).
    exists t. cbn [fst snd]. by rewrite Key_decode_encode. }
  exists l. split; [exact E|]. intros t. rewrite Hin. split.
  - intros ([kb b] & [Hg Hp]%kv_scan_elem & Hd). destruct (Hs kb b Hg Hp) as (k & t' & -> & Hk & Ht).
    cbn [fst snd] in Hd. rewrite Key_decode_encode in Hd by done. cbn [mbind result_bind] in Hd. eauto 10.
  - intros (k & b & Hk & Hp & Hg & Ht). exists (Key_encode k, b). rewrite kv_scan_elem.
    cbn [fst snd]. by rewrite Key_decode_encode.
Qed.
End ReadLaws.

(** ** Stores that hold the same *)

Section StoreEquiv.
  Context {S : Type} `{KVLaws S}.

#[export] Instance store_equiv : Equiv S := fun s s' => forall k, kv_get s k = kv_get s' k.
#[export] Instance store_equivalence : Equivalence (≡@{S}).
Proof.
  split; [by intros s k|by intros s s' E k; rewrite E|].
  intros s s' s'' E E' k. by rewrite E, E'.
Qed.

Lemma entries_unique (l l' : list (bytes * bytes)) :
  StronglySorted (fun a b => bytes_lt a.1 b.1) l -> StronglySorted (fun a b => bytes_lt a.1 b.1) l' ->
  (forall e, e ∈ l <-> e ∈ l') -> l = l'.
Proof.
  assert (Hirr : forall a b : bytes, bytes_lt a b -> ~ bytes_lt b a).
  { intros a b. unfold bytes_lt. rewrite (bytes_compare_antisym a b). by destruct bytes_compare. }
  intros Hl. revert l'. induction Hl as [|a l Hl IH Ha]; intros l' Hl' E.
  - symmetry. apply elem_of_nil_inv. intros e He%E. by apply elem_of_nil in He.
  - destruct Hl' as [|b l' Hl' Hb]; [by destruct (proj1 (elem_of_nil a)); apply E; left|].
    rewrite Forall_forall in Ha, Hb.
    assert (a = b) as <-.
    { destruct (proj1 (elem_of_cons _ _ _) (proj1 (E a) ltac:(by left))) as [?|Hin]; [done|].
      destruct (proj1 (elem_of_cons _ _ _) (proj2 (E b) ltac:(by left))) as [?|Hin']; [done|].
      destruct (Hirr b.1 a.1); auto. }
    f_equal. apply IH; [done|]. intros e. specialize (E e). rewrite !elem_of_cons in E.
    split; intros He; [destruct (proj1 E) as [->|]|destruct (proj2 E) as [->|]]; auto;
      [destruct (Hirr a.1 a.1)|destruct (Hirr a.1 a.1)]; auto.
Qed.

Lemma kv_scan_equiv (s s' : S) p : s ≡ s' -> kv_scan s p = kv_scan s' p.
Proof.
  intros E. apply entries_unique; [apply kv_scan_sorted..|].
  intros [k v]. by rewrite !kv_scan_elem, E.
Qed.

(** A program cannot tell such stores apart. *)
#[export] Instance run_proper {A} : Proper ((≡@{S}) ==> eq ==> eq) (run (A := A)).
Proof.
  intros s s' E m ? <-. induction m as [r|k c IH|p c IH]; cbn; [done|..].
  - by rewrite <-E.
  - by rewrite <-(kv_scan_equiv s s').
Qed.

#[export] Instance kv_apply_proper : Proper ((≡@{S}) ==> eq ==> (≡@{S})) kv_apply.
Proof. intros s s' E ws ? <- k. rewrite !kv_get_apply. by case_match. Qed.

Lemma kv_apply_app (s : S) ws ws' : kv_apply (kv_apply s ws) ws' ≡ kv_apply s (ws ++ ws').
Proof. intros k. rewrite !kv_get_apply, last_write_app. by repeat case_match. Qed.

Lemma kv_apply_nil (s : S) : kv_apply s [] ≡ s.
Proof. intros k. by rewrite kv_get_apply. Qed.
End StoreEquiv.

(** ** Transactions

    A transaction reads its snapshot through the writes it has staged; its state is
    that view of the store.  Rolling back drops the view; committing without a
    conflict makes it the store. *)
Definition Tx (S A : Type) : Type := S -> result (A * S).

Section Transactions.
  Context {S : Type} `{KV S}.

#[export] Instance tx_mret : MRet (Tx S) := fun A a s => Ok (a, s).
#[export] Instance tx_mbind : MBind (Tx S) := fun A B f m s =>
  match m s with Ok (a, s') => f a s' | Err e => Err e end.
Definition tx_fail {A} (e : Error) : Tx S A := fun _ => Err e.
Definition tx_read {A} (m : Reader A) : Tx S A := fun s => a ← run s m; Ok (a, s).
Definition tx_put (k v : bytes) : Tx S unit := fun s => Ok (tt, kv_apply s [(k, Some v)]).
Definition tx_delete (k : bytes) : Tx S unit := fun s => Ok (tt, kv_apply s [(k, None)]).
End Transactions.

(** ** Ranged scans ([ReadHandle::scan_prefix_ordered]) *)

Inductive Bound (A : Type) : Type := Included (a : A) | Excluded (a : A) | Unbounded.
Arguments Included {A} a.
Arguments Excluded {A} a.
Arguments Unbounded {A}.

Inductive ScanOrder : Type := ScanAscending | ScanDescending.

Definition from_reverse (reverse : bool) : ScanOrder :=
  if reverse then ScanDescending else ScanAscending.

(** Whether a key suffix lies in a range. *)
Definition in_bounds (start end_ : Bound bytes) (suffix : bytes) : bool :=
  match start with
  | Included b => bytes_leb b suffix
  | Excluded b => negb (bytes_leb suffix b)
  | Unbounded => true
  end
  && match end_ with
     | Included b => bytes_leb suffix b
     | Excluded b => negb (bytes_leb b suffix)
     | Unbounded => true
     end.

(** Keys sharing [prefix] whose suffix lies in the range, in the order asked. *)
Definition scan_prefix_ordered (prefix : bytes) (start end_ : Bound bytes) (order : ScanOrder)
  : Reader (list (bytes * bytes)) :=
  RScan prefix (fun entries =>
    let selected := filter (fun e => in_bounds start end_ (drop (length prefix) e.1) = true) entries in
    RRet (Ok (match order with ScanAscending => selected | ScanDescending => reverse selected end))).

(** ** The in-memory store *)

Definition gmap_apply (m : gmap bytes bytes) (ws : list StagedWrite) : gmap bytes bytes :=
  foldl (fun m w => match w.2 with Some v => <[w.1 := v]> m | None => delete w.1 m end) m ws.

Definition entry_le (a b : bytes * bytes) : Prop := bytes_le a.1 b.1.
#[local] Instance entry_le_dec : RelDecision entry_le.
Proof. intros a b. unfold entry_le. apply _. Defined.

#[export] Instance gmap_kv : KV (gmap bytes bytes) := {|
  kv_get m k := m !! k;
  kv_scan m p := merge_sort entry_le (map_to_list (filter (fun e => p `prefix_of` e.1) m));
  kv_apply := gmap_apply;
|}.

Lemma gmap_apply_lookup ws m k :
  gmap_apply m ws !! k = match last_write ws k with Some v => v | None => m !! k end.
Proof.
  unfold gmap_apply, last_write. induction ws as [|[k' v] ws IH] using rev_ind; [done|].
  rewrite foldl_snoc, filter_app, filter_cons, filter_nil. cbn [fst snd].
  destruct (decide (k' = k)) as [->|Hne].
  - rewrite last_snoc. destruct v; simpl; [by rewrite lookup_insert_eq|by rewrite lookup_delete_eq].
  - rewrite app_nil_r, <-IH. destruct v; [by rewrite lookup_insert_ne|by rewrite lookup_delete_ne].
Qed.

(** What a fresh store holds, it was written. *)
Lemma gmap_apply_elem ws kb b :
  gmap_apply ∅ ws !! kb = Some b -> (kb, Some b) ∈ ws.
Proof.
  rewrite gmap_apply_lookup. destruct (last_write ws kb) as [o|] eqn:E.
  - intros ->. by apply last_write_elem.
  - by rewrite lookup_empty.
Qed.

#[local] Instance entry_le_trans : Transitive entry_le.
Proof. intros a b c. apply bytes_le_trans. Qed.
#[local] Instance entry_le_total : Total entry_le.
Proof. intros a b. apply bytes_le_total. Qed.

Lemma StronglySorted_lt (l : list (bytes * bytes)) :
  NoDup l.*1 -> StronglySorted entry_le l -> StronglySorted (fun a b => bytes_lt a.1 b.1) l.
Proof.
  induction l as [|a l IH]; simpl; intros Hn Hs; [constructor|].
  apply NoDup_cons in Hn as [Ha Hn]. apply StronglySorted_inv in Hs as [Hs Hl].
  constructor; [by apply IH|]. rewrite Forall_forall in *. intros b Hb.
  specialize (Hl b Hb). apply bytes_le_lt in Hl as [?|E]; [done|].
  exfalso. apply Ha. rewrite E. by apply list_elem_of_fmap_2.
Qed.

#[export] Instance gmap_kv_laws : KVLaws (gmap bytes bytes).
Proof.
  split.
  - intros m ws k. apply gmap_apply_lookup.
  - intros m p k v. simpl. rewrite merge_sort_Permutation, elem_of_map_to_list, map_lookup_filter_Some.
    done.
  - intros m p. simpl. apply StronglySorted_lt.
    + rewrite merge_sort_Permutation. apply NoDup_fst_map_to_list.
    + apply (StronglySorted_merge_sort entry_le).
Qed.

(** ** A pass over a moving store *)

Section Moving.
  Context {S : Type} `{KV S, SK : Storekey, MS : Messages}.
  Variable world : nat -> S.

(** How a store moves: a batch that changes it advances the head record's batch
    count. *)
Definition advances : Prop :=
  forall i, exists h h', run (world i) read_head = Ok (Some h)
    /\ run (world (i + 1)%nat) read_head = Ok (Some h')
    /\ (world (i + 1)%nat = world i \/ hd_batch_seq h < hd_batch_seq h').

Lemma advances_monotone i j :
  advances -> (i <= j)%nat -> exists h h',
    run (world i) read_head = Ok (Some h) /\ run (world j) read_head = Ok (Some h')
    /\ (hd_batch_seq h < hd_batch_seq h'
        \/ hd_batch_seq h = hd_batch_seq h' /\ forall t, (i <= t <= j)%nat -> world t = world i).
Proof.
  intros Ha. induction 1 as [|j Hij IH].
  - destruct (Ha i) as (h & _ & Hh & _). exists h, h. split_and!; try done. right. split; [done|].
    intros t Ht. f_equal. lia.
  - destruct IH as (h & h1 & Hh & Hh1 & Hm).
    destruct (Ha j) as (h1' & h2 & Hh1' & Hh2 & Hs). rewrite Nat.add_1_r in *.
    rewrite Hh1 in Hh1'. injection Hh1' as <-. exists h, h2. split_and!; try done.
    destruct Hs as [E|Hlt]; [|left; destruct Hm as [?|[? ?]]; lia].
    rewrite E, Hh1 in Hh2. injection Hh2 as <-.
    destruct Hm as [?|[Heq Hw]]; [by left|right; split; [done|]].
    intros t Ht. destruct (decide (t = Datatypes.S j)) as [->|Hne]; [|apply Hw; lia].
    rewrite E. apply Hw. lia.
Qed.

Lemma run_over_read_head now :
  run_over world now read_head = (run (world now) read_head, (now + 1)%nat).
Proof. done. Qed.

(** One attempt whose two head reads agree saw one state. *)
Lemma attempt_stable {T} (read : Reader T) now value later :
  advances -> run_over world (now + 1)%nat read = (Ok value, later) ->
  run (world now) read_head = run (world later) read_head ->
  run (world now) read = Ok value.
Proof.
  intros Ha Hr Hh.
  pose proof (run_over_time read world (now + 1)%nat) as Ht. rewrite Hr in Ht. simpl in Ht.
  destruct (advances_monotone now later Ha ltac:(lia)) as (h & h' & E & E' & Hm).
  rewrite E, E' in Hh. injection Hh as ->.
  destruct Hm as [?|[_ Hw]]; [lia|].
  rewrite <-(run_over_stable read world (now + 1)%nat (world now)); [by rewrite Hr|].
  intros t. rewrite Hr. simpl. intros Ht'. apply Hw. lia.
Qed.

Lemma consistent_attempts_stable {T} (read : Reader T) n now value :
  advances -> (run_over world now (consistent_attempts n read)).1 = Ok value ->
  exists t, (now <= t)%nat /\ run (world t) read = Ok value.
Proof.
  intros Ha. revert now. induction n as [|n IH]; intros now; [done|].
  cbn [consistent_attempts]. rewrite run_over_bind, run_over_read_head.
  destruct (run (world now) read_head) as [before|] eqn:Eb; [|done].
  rewrite run_over_bind. destruct (run_over world (now + 1)%nat read) as [[v|e] later] eqn:Er; [|done].
  pose proof (run_over_time read world (now + 1)%nat) as Ht. rewrite Er in Ht. simpl in Ht.
  rewrite run_over_bind, run_over_read_head.
  destruct (run (world later) read_head) as [after|] eqn:Ea; [|done].
  case_bool_decide as E; intros Hv.
  - simpl in Hv. injection Hv as <-. exists now. split; [done|].
    apply (attempt_stable read now v later); try done. congruence.
  - apply IH in Hv as (t & ? & ?). exists t. split; [lia|done].
Qed.
End Moving.

(** C16: a pass of several reads through a reader that follows a moving store never
    returns a mix of states: whatever [consistent] returns is what the pass reads
    at one single state of the timeline, provided every batch that changes the
    store advances the head record's batch count; and on a store at rest it
    returns what the pass reads, at the first attempt. *)
Theorem consistent_single_state {S} `{KV S} `{SK : Storekey, MS : Messages} {T}
    (world : nat -> S) (isolated : bool) (read : Reader T) now value :
  advances world ->
  (isolated = true -> forall t, world t = world now) ->
  ((run_over world now (consistent isolated read)).1 = Ok value ->
     exists t, (now <= t)%nat /\ run (world t) read = Ok value)
  /\ ((forall t, world t = world now) -> run (world now) read = Ok value ->
     (run_over world now (consistent isolated read)).1 = Ok value).
Proof.
  intros Ha Hi. split.
  - destruct isolated; cbn [consistent]; [|by apply consistent_attempts_stable].
    intros Hr. exists now. split; [done|].
    by rewrite <-Hr, (run_over_stable read world now (world now)) by auto.
  - intros Hq Hr.
    destruct isolated; cbn [consistent]; [by rewrite (run_over_stable read world now (world now))|].
    unfold STABLE_READ_ATTEMPTS. cbn [consistent_attempts].
    destruct (Ha now) as (h & _ & Hh & _).
    rewrite run_over_bind, run_over_read_head, Hh, run_over_bind.
    pose proof (run_over_stable read world (now + 1)%nat (world now) ltac:(auto)) as E.
    destruct (run_over world (now + 1)%nat read) as [r later]. simpl in E. rewrite E, Hr.
    rewrite run_over_bind, run_over_read_head, (Hq later), Hh. by rewrite bool_decide_true.
Qed.

(** A store whose head is at batch [n], and a timeline that commits at each instant. *)
Definition sample_store (n : N) : gmap bytes bytes :=
  let _ := reference_storekey in let _ := reference_messages in
  {[ Key_encode (K_Sys SK_Head) := encode_value (mkHeadValue n n) ]}.

Lemma sample_store_head n :
  let _ := reference_storekey in let _ := reference_messages in
  run (sample_store n) read_head = Ok (Some (mkHeadValue n n)).
Proof.
  intros SK MS. pose proof reference_messages_laws.
  unfold read_head, read_singleton, sample_store, run, kv_get, gmap_kv.
  rewrite lookup_singleton_eq. cbn [fmap option_fmap option_map].
  by rewrite (decode_encode_value (mkHeadValue n n)).
Qed.

Lemma consistent_single_state_witness :
  let _ := reference_storekey in let _ := reference_messages in
  let world := fun i => if (i <=? 2)%nat then sample_store (N.of_nat i) else sample_store 2 in
  (run_over world 0 (consistent false read_head)).1 = Ok (Some (mkHeadValue 2 2))
  /\ exists t, run (world t) read_head = Ok (Some (mkHeadValue 2 2)).
Proof.
  intros SK MS world.
  assert (Hr : (run_over world 0 (consistent false read_head)).1 = Ok (Some (mkHeadValue 2 2)))
    by (vm_compute; reflexivity).
  split; [exact Hr|].
  assert (Ha : advances world).
  { intros i. unfold world.
    destruct i as [|[|[|i]]]; do 2 eexists;
      (split; [apply sample_store_head|]); (split; [apply sample_store_head|]);
      [right; done|right; done|left; done|left; done]. }
  destruct (consistent_single_state world false read_head 0 (Some (mkHeadValue 2 2)) Ha
    ltac:(discriminate)) as [H _].
  destruct (H Hr) as (t & _ & Ht). exists t. exact Ht.
Defined.
