(* ===== verification/Inline.v ===== *)
(** Inlined rows ([store/inline.rs], [catalog/inline.rs], [transaction/inline.rs],
    [transaction/staged/inline.rs]): the typed reads over the inline subspace, the
    rows a table's chunks and tombstones denote and the four ways they are scanned,
    the write builders, and the translation of the inline operations a commit
    closure staged into store writes. *)
From stdpp Require Import gmap strings list fin_maps sorting.
From Stdlib Require Import NArith ZArith Lia Strings.Byte.
From S2P Require Import Prelude Storekey KeyLayout Values Snapshot Store.

Local Open Scope N_scope.

(** ** Rows ([catalog/inline.rs]) *)

Record InlineRow : Type := mkInlineRow {
  ir_row_id : N;
  ir_begin_snapshot : N;
  ir_end_snapshot : option N;
  ir_chunk : nat;
  ir_offset_in_chunk : N;
}.
#[export] Instance InlineRow_eq_dec : EqDecision InlineRow.
Proof. solve_decision. Defined.

(** The tombstones by row: a [HashMap] collected from the scan. *)
Definition tombstone_map (inline_deletes : list (N * InlineInlineDeleteValue)) : gmap N N :=
  foldl (fun m d => <[d.1 := iid_end_snapshot d.2]> m) ∅ inline_deletes.

(** A tombstone ends only a version begun before it. *)
Definition version_end (tombstones : gmap N N) (row_id begin_snapshot : N) : option N :=
  match tombstones !! row_id with
  | Some end_ => if begin_snapshot <? end_ then Some end_ else None
  | None => None
  end.

Definition chunk_rows (tombstones : gmap N N) (chunk_index : nat)
    (chunk : InlineOperation * InlineChunkValue) : list InlineRow :=
  match chunk.1 with
  | IO_Insert _ _ begin_snapshot _ =>
      map (fun offset =>
        let row_id := wrapping_add (ic_row_id_start chunk.2) offset in
        mkInlineRow row_id begin_snapshot (version_end tombstones row_id begin_snapshot)
          chunk_index offset)
        (range (ic_row_count chunk.2))
  | _ => []
  end.

(** [materialize_inline_rows]. *)
Definition materialize_inline_rows (chunks : list (InlineOperation * InlineChunkValue))
    (inline_deletes : list (N * InlineInlineDeleteValue)) : list InlineRow :=
  concat (imap (chunk_rows (tombstone_map inline_deletes)) chunks).

Inductive InlineScanKind : Type := ISK_Table | ISK_Insertions | ISK_Deletions | ISK_ForFlush.

(** The predicate of each scan. *)
Definition scan_included (kind : InlineScanKind) (snapshot start : N) (row : InlineRow) : bool :=
  match kind with
  | ISK_Table => (ir_begin_snapshot row <=? snapshot)
      && match ir_end_snapshot row with None => true | Some end_ => snapshot <? end_ end
  | ISK_Insertions => (start <=? ir_begin_snapshot row) && (ir_begin_snapshot row <=? snapshot)
  | ISK_Deletions =>
      match ir_end_snapshot row with
      | Some end_ => (start <=? end_) && (end_ <=? snapshot)
      | None => false
      end
  | ISK_ForFlush => ir_begin_snapshot row <=? snapshot
  end.

(** The sort key [(row_id, begin_snapshot)]. *)
Definition row_leb (a b : InlineRow) : bool :=
  (ir_row_id a <? ir_row_id b)
  || (ir_row_id a =? ir_row_id b) && (ir_begin_snapshot a <=? ir_begin_snapshot b).

(** [InlineScanKind::select]. *)
Definition select (kind : InlineScanKind) (rows : list InlineRow) (snapshot start : N)
  : list InlineRow :=
  sort_by row_leb (filter (fun row => scan_included kind snapshot start row = true) rows).

(** ** What a commit closure stages ([transaction/inline.rs]) *)

Inductive InlineStage : Type :=
| IS_Schema (table_id schema_version : N) (arrow_schema : bytes)
| IS_Insert (table_id schema_version begin_snapshot chunk_seq row_id_start row_count : N)
    (arrow_body : bytes)
| IS_Tombstone (table_id row_id end_snapshot : N)
| IS_Flush (table_id schema_version flush_snapshot : N).

Section InlineStore.
  Context `{SK : Storekey, MS : Messages}.

(** ** Typed reads ([store/inline.rs]) *)

Definition scan_inline_chunks (table_id : N)
  : Reader (list (InlineOperation * InlineChunkValue)) :=
  scan_decode (inline_live_table_prefix IOK_Insert table_id) (fun key b =>
    match key with
    | K_Inline (IK_Live (IO_Insert _ _ _ _ as op)) => v ← decode_value b; Ok (op, v)
    | _ => Err Corruption
    end).

Definition scan_inline_inline_deletes (table_id : N)
  : Reader (list (N * InlineInlineDeleteValue)) :=
  scan_decode (inline_live_table_prefix IOK_InlineDelete table_id) (fun key b =>
    match key with
    | K_Inline (IK_Live (IO_InlineDelete _ row_id)) => v ← decode_value b; Ok (row_id, v)
    | _ => Err Corruption
    end).

Definition scan_inline_file_deletes (table_id : N)
  : Reader (list (N * N * InlineFileDeleteValue)) :=
  scan_decode (inline_live_table_prefix IOK_FileDelete table_id) (fun key b =>
    match key with
    | K_Inline (IK_Live (IO_FileDelete _ data_file_id row_id)) =>
        v ← decode_value b; Ok (data_file_id, row_id, v)
    | _ => Err Corruption
    end).

Definition read_inline_file_delete_table (table_id : N) : Reader bool :=
  marker ← read_singleton (M := InlineFileDeleteTableValue) (K_Inline (IK_FileDeleteTable table_id));
  mret (match marker with Some _ => true | None => false end).

Definition read_inline_schema (table_id schema_version : N) : Reader (option InlineSchemaValue) :=
  read_singleton (K_Inline (IK_Schema table_id schema_version)).

Definition scan_inline_schemas (table_id : N) : Reader (list (N * InlineSchemaValue)) :=
  scan_decode (inline_schema_table_prefix table_id) (fun key b =>
    match key with
    | K_Inline (IK_Schema _ schema_version) => v ← decode_value b; Ok (schema_version, v)
    | _ => Err Corruption
    end).

Definition scan_all_inline_schemas : Reader (list (N * N * InlineSchemaValue)) :=
  scan_decode inline_schema_prefix (fun key b =>
    match key with
    | K_Inline (IK_Schema table_id schema_version) =>
        v ← decode_value b; Ok (table_id, schema_version, v)
    | _ => Err Corruption
    end).

(** ** Write builders ([transaction/staged/inline.rs]) *)

Definition inline_schema_write (table_id schema_version : N) (arrow_schema : bytes) : StagedWrite :=
  (Key_encode (K_Inline (IK_Schema table_id schema_version)),
   Some (encode_value (mkInlineSchemaValue arrow_schema))).

Definition inline_insert_write
    (table_id schema_version begin_snapshot chunk_seq row_id_start row_count : N)
    (arrow_body : bytes) : StagedWrite :=
  (Key_encode (K_Inline (IK_Live (IO_Insert table_id schema_version begin_snapshot chunk_seq))),
   Some (encode_value (mkInlineChunkValue arrow_body row_id_start row_count None))).

Definition inline_inline_delete_write (table_id row_id end_snapshot : N) : StagedWrite :=
  (Key_encode (K_Inline (IK_Live (IO_InlineDelete table_id row_id))),
   Some (encode_value (mkInlineInlineDeleteValue end_snapshot))).

Definition inline_schema_drop_write (table_id schema_version : N) : StagedWrite :=
  (Key_encode (K_Inline (IK_Schema table_id schema_version)), None).

Definition inline_file_delete_table_write (table_id : N) : StagedWrite :=
  (Key_encode (K_Inline (IK_FileDeleteTable table_id)),
   Some (encode_value mkInlineFileDeleteTableValue)).

Definition inline_file_delete_write (table_id data_file_id row_id begin_snapshot : N) : StagedWrite :=
  (Key_encode (K_Inline (IK_Live (IO_FileDelete table_id data_file_id row_id))),
   Some (encode_value (mkInlineFileDeleteValue begin_snapshot))).

(** ** Flush, removals, drop *)

(** Whether a flush of [schema_version] at [flush_snapshot] drains a chunk. *)
Definition chunk_flushed (schema_version flush_snapshot : N)
    (chunk : InlineOperation * InlineChunkValue) : bool :=
  match chunk.1 with
  | IO_Insert _ v begin_snapshot _ => (v =? schema_version) && (begin_snapshot <=? flush_snapshot)
  | _ => false
  end.

Definition chunk_scoped (schema_version : N) (chunk : InlineOperation * InlineChunkValue) : bool :=
  match chunk.1 with IO_Insert _ v _ _ => v =? schema_version | _ => false end.

(** [translate_inline_flush_delete]: the writes, and the rows drained. *)
Definition translate_inline_flush_delete (table_id schema_version flush_snapshot : N)
  : Reader (list StagedWrite * gset N) :=
  chunks ← scan_inline_chunks table_id;
  inline_deletes ← scan_inline_inline_deletes table_id;
  let scoped := filter (fun chunk => chunk_scoped schema_version chunk = true) chunks in
  let chunk_writes := map (fun chunk => (Key_encode (K_Inline (IK_Live chunk.1)), None))
    (filter (fun chunk => chunk_flushed schema_version flush_snapshot chunk = true) scoped) in
  let rows := select ISK_ForFlush (materialize_inline_rows scoped inline_deletes) flush_snapshot 0 in
  let tombstone_writes := map (fun row =>
      (Key_encode (K_Inline (IK_Live (IO_InlineDelete table_id (ir_row_id row)))), None))
    (filter (fun row => is_Some (ir_end_snapshot row)) rows) in
  mret (chunk_writes ++ tombstone_writes, list_to_set (map ir_row_id rows)).

(** The removals of [translate_inline_file_delete_removals]. *)
Fixpoint removal_writes (table_id : N) (live : gset (N * N)) (removals : list (N * N))
  : result (list StagedWrite) :=
  match removals with
  | [] => Ok []
  | (data_file_id, row_id) :: removals =>
      if bool_decide ((data_file_id, row_id) ∈ live) then
        writes ← removal_writes table_id live removals;
        Ok ((Key_encode (K_Inline (IK_Live (IO_FileDelete table_id data_file_id row_id))), None)
          :: writes)
      else Err Corruption
  end.

(** [translate_inline_file_delete_removals]. *)
Definition translate_inline_file_delete_removals (table_id : N) (removals : list (N * N))
  : Reader (list StagedWrite) :=
  live ← scan_inline_file_deletes table_id;
  writes ← lift (removal_writes table_id (list_to_set (map fst live)) removals);
  mret (inline_file_delete_table_write table_id :: writes).

(** [translate_inline_drop]. *)
Definition translate_inline_drop (table_id : N) : Reader (list StagedWrite) :=
  chunks ← scan_inline_chunks table_id;
  inline_deletes ← scan_inline_inline_deletes table_id;
  file_deletes ← scan_inline_file_deletes table_id;
  schemas ← scan_inline_schemas table_id;
  mret (map (fun c => (Key_encode (K_Inline (IK_Live c.1)), None)) chunks
    ++ map (fun d => (Key_encode (K_Inline (IK_Live (IO_InlineDelete table_id d.1))), None))
         inline_deletes
    ++ map (fun d => (Key_encode (K_Inline (IK_Live (IO_FileDelete table_id d.1.1 d.1.2))), None))
         file_deletes
    ++ map (fun d => (Key_encode (K_Inline (IK_Schema table_id d.1)), None)) schemas
    ++ [(Key_encode (K_Inline (IK_FileDeleteTable table_id)), None)]).

(** ** The translation of a closure's inline operations ([transaction/inline.rs]) *)

(** [schema_write_if_new]. *)
Definition schema_write_if_new (table_id schema_version : N) (arrow_schema : bytes)
  : Reader (option StagedWrite) :=
  recorded ← read_inline_schema table_id schema_version;
  match recorded with
  | Some recorded =>
      if bool_decide (isv_arrow_schema recorded = arrow_schema) then mret None
      else lift (Err Constraint)
  | None => mret (Some (inline_schema_write table_id schema_version arrow_schema))
  end.

(** [refuse_tombstones_of_drained_rows]. *)
Fixpoint refuse_tombstones_of_drained_rows (table_id : N) (drained : gset N)
    (ops : list InlineStage) : result unit :=
  match ops with
  | [] => Ok tt
  | op :: ops =>
      _ ← fail_if (match op with
                   | IS_Tombstone tombstoned_table row_id _ =>
                       (tombstoned_table =? table_id) && bool_decide (row_id ∈ drained)
                   | _ => false
                   end) Constraint;
      refuse_tombstones_of_drained_rows table_id drained ops
  end.

(** The loop of [stage_inline_writes]: [all] is the whole operation list, [settled]
    the versions whose schema record this batch has already resolved. *)
Fixpoint stage_inline_loop (all ops : list InlineStage) (settled : gset (N * N))
  : Reader (list StagedWrite) :=
  match ops with
  | [] => mret []
  | op :: ops =>
      match op with
      | IS_Schema table_id schema_version arrow_schema =>
          if bool_decide ((table_id, schema_version) ∈ settled) then
            stage_inline_loop all ops settled
          else
            w ← schema_write_if_new table_id schema_version arrow_schema;
            ws ← stage_inline_loop all ops ({[(table_id, schema_version)]} ∪ settled);
            mret (match w with Some w => [w] | None => [] end ++ ws)
      | IS_Insert table_id schema_version begin_snapshot chunk_seq row_id_start row_count arrow_body =>
          ws ← stage_inline_loop all ops settled;
          mret (inline_insert_write table_id schema_version begin_snapshot chunk_seq
                  row_id_start row_count arrow_body :: ws)
      | IS_Tombstone table_id row_id end_snapshot =>
          ws ← stage_inline_loop all ops settled;
          mret (inline_inline_delete_write table_id row_id end_snapshot :: ws)
      | IS_Flush table_id schema_version flush_snapshot =>
          '(flush, drained) ← translate_inline_flush_delete table_id schema_version flush_snapshot;
          _ ← lift (refuse_tombstones_of_drained_rows table_id drained all);
          ws ← stage_inline_loop all ops settled;
          mret (flush ++ ws)
      end
  end.

(** [stage_inline_writes]. *)
Definition stage_inline_writes (ops : list InlineStage) : Reader (list StagedWrite) :=
  stage_inline_loop ops ops ∅.
End InlineStore.

(** ** Rows denoted by chunks and tombstones *)

Definition covers (v : InlineChunkValue) (row_id : N) : Prop :=
  exists offset, offset < ic_row_count v /\ wrapping_add (ic_row_id_start v) offset = row_id.

Lemma tombstone_map_lookup l r e :
  (forall r d d', (r, d) ∈ l -> (r, d') ∈ l -> d = d') ->
  tombstone_map l !! r = Some e <-> exists d, (r, d) ∈ l /\ iid_end_snapshot d = e.
Proof.
  unfold tombstone_map. induction l as [|[r0 d0] l IH] using rev_ind; intros Hu.
  { cbn [foldl]. rewrite lookup_empty. set_solver. }
  rewrite foldl_snoc. cbn [fst snd].
  assert (IH' := IH ltac:(intros; eapply Hu; apply elem_of_app; by left)). clear IH.
  setoid_rewrite elem_of_app. setoid_rewrite list_elem_of_singleton.
  destruct (decide (r0 = r)) as [->|Hne].
  - rewrite lookup_insert_eq. split.
    + intros [= <-]. exists d0. auto.
    + intros (d & Hd & <-). f_equal. f_equal. apply (Hu r); set_solver.
  - rewrite lookup_insert_ne, IH' by done. split; intros (d & Hd & ?); exists d; naive_solver.
Qed.

Lemma version_end_Some m r b e : version_end m r b = Some e <-> m !! r = Some e /\ b < e.
Proof.
  unfold version_end. destruct (m !! r) as [e'|]; [|naive_solver].
  destruct (N.ltb_spec b e'); naive_solver lia.
Qed.

Lemma elem_of_materialize chunks dels row :
  row ∈ materialize_inline_rows chunks dels <->
  exists i t sv b c v, chunks !! i = Some (IO_Insert t sv b c, v)
    /\ ir_offset_in_chunk row < ic_row_count v
    /\ row = mkInlineRow (wrapping_add (ic_row_id_start v) (ir_offset_in_chunk row)) b
         (version_end (tombstone_map dels) (wrapping_add (ic_row_id_start v) (ir_offset_in_chunk row)) b)
         i (ir_offset_in_chunk row).
Proof.
  unfold materialize_inline_rows. rewrite list_elem_of_In, in_concat. split.
  - intros (rows & Hrows%list_elem_of_In & Hrow%list_elem_of_In).
    apply elem_of_lookup_imap in Hrows as (i & [op v] & -> & Hi).
    unfold chunk_rows in Hrow. cbn [fst snd] in Hrow. destruct op as [t sv b c| |];
      [|by apply elem_of_nil in Hrow..].
    apply list_elem_of_In, in_map_iff in Hrow as (o & <- & Ho%list_elem_of_In%elem_of_range).
    exists i, t, sv, b, c, v. auto.
  - intros (i & t & sv & b & c & v & Hi & Ho & E).
    exists (chunk_rows (tombstone_map dels) i (IO_Insert t sv b c, v)). split.
    + apply list_elem_of_In, elem_of_lookup_imap. eauto.
    + apply in_map_iff. exists (ir_offset_in_chunk row). split; [exact (eq_sym E)|].
      by apply list_elem_of_In, elem_of_range.
Qed.

(** A row version is materialized exactly when a chunk carries it. *)
Lemma materialize_versions chunks dels r b e :
  (exists i o, mkInlineRow r b e i o ∈ materialize_inline_rows chunks dels) <->
  exists t sv c v, (IO_Insert t sv b c, v) ∈ chunks /\ covers v r
    /\ e = version_end (tombstone_map dels) r b.
Proof.
  setoid_rewrite elem_of_materialize. cbn [ir_offset_in_chunk]. unfold covers. split.
  - intros (i & o & i' & t & sv & b' & c & v & Hi & Ho & [= -> -> -> _]).
    exists t, sv, c, v. split_and!; [by eapply list_elem_of_lookup_2|eauto|done].
  - intros (t & sv & c & v & (i & Hi)%list_elem_of_lookup_1 & (o & Ho & <-) & ->).
    by exists i, o, i, t, sv, b, c, v.
Qed.

Lemma elem_of_select kind rows snapshot start row :
  row ∈ select kind rows snapshot start <->
  row ∈ rows /\ scan_included kind snapshot start row = true.
Proof. unfold select. rewrite sort_by_perm, list_elem_of_filter. naive_solver. Qed.

Lemma row_leb_true a b :
  row_leb a b = true <-> ir_row_id a < ir_row_id b
    \/ ir_row_id a = ir_row_id b /\ ir_begin_snapshot a <= ir_begin_snapshot b.
Proof. unfold row_leb. by rewrite orb_true_iff, andb_true_iff, N.ltb_lt, N.eqb_eq, N.leb_le. Qed.

Lemma select_sorted kind rows snapshot start :
  StronglySorted row_leb (select kind rows snapshot start).
Proof.
  apply sort_by_sorted.
  - intros a b. rewrite !row_leb_true. lia.
  - intros a b c. rewrite !row_leb_true. lia.
Qed.

(** ** What the store holds *)

Section InlineLaws.
  Context {S : Type} `{KVLaws S, SKL : StorekeyLaws, MSL : MessagesLaws}.

(** Every record of the inline subspace decodes as the kind its key names. *)
Definition inline_value_wf (k : InlineKey) (b : bytes) : Prop :=
  match k with
  | IK_Schema _ _ => exists v : InlineSchemaValue, decode_value b = Ok v
  | IK_Live (IO_Insert _ _ _ _) => exists v : InlineChunkValue, decode_value b = Ok v
  | IK_Live (IO_InlineDelete _ _) => exists v : InlineInlineDeleteValue, decode_value b = Ok v
  | IK_Live (IO_FileDelete _ _ _) => exists v : InlineFileDeleteValue, decode_value b = Ok v
  | IK_Arch _ => True
  | IK_FileDeleteTable _ => exists v : InlineFileDeleteTableValue, decode_value b = Ok v
  end.
Definition inline_wf (s : S) : Prop :=
  forall kb b, kv_get s kb = Some b -> subspace_prefix InlineSpace `prefix_of` kb ->
  exists k, kb = Key_encode (K_Inline k) /\ Key_wf (K_Inline k) /\ inline_value_wf k b.

(** The typed record standing under a key. *)
Definition stored {M} `{Prost M} (s : S) (k : Key) (m : M) : Prop :=
  Key_wf k /\ exists b, kv_get s (Key_encode k) = Some b /\ decode_value b = Ok m.

Abbreviation live op := (K_Inline (IK_Live op)).

Lemma stored_functional {M} `{Prost M} s k (m m' : M) : stored s k m -> stored s k m' -> m = m'.
Proof. intros (_ & b & E & D) (_ & b' & E' & D'). congruence. Qed.

Lemma live_prefix_inline kind t kb :
  u64 t -> inline_live_table_prefix kind t `prefix_of` kb -> subspace_prefix InlineSpace `prefix_of` kb.
Proof.
  intros Ht. rewrite inline_live_table_prefix_eq, subspace_prefix_eq by done. cbn [Key_variant Subspace_sample].
  intros [r ->]. rewrite app_nil_r, <-!app_assoc. by apply prefix_app_r.
Qed.

(** A table scan of one kind returns the records of that kind. *)
Lemma scan_live_ok {T} (s : S) kind t (extract : Key -> bytes -> result T) :
  u64 t -> inline_wf s ->
  (forall op b, inline_in_table kind t op -> inline_value_wf (IK_Live op) b ->
     exists v, extract (live op) b = Ok v) ->
  exists l, run s (scan_decode (inline_live_table_prefix kind t) extract) = Ok l
    /\ forall v, v ∈ l <-> exists op b, Key_wf (live op) /\ inline_in_table kind t op
         /\ kv_get s (Key_encode (live op)) = Some b /\ extract (live op) b = Ok v.
Proof.
  intros Ht Hs He.
  destruct (scan_decode_ok s (inline_live_table_prefix kind t) extract) as (l & E & Hin).
  { intros kb b Hg Hp. destruct (Hs kb b Hg) as (k & -> & Hk & Hv); [by eapply live_prefix_inline|].
    apply inline_live_table_prefix_exact in Hp as (op & [= ->] & Hop); [|done..].
    destruct (He op b Hop Hv) as [v Hx]. eauto. }
  exists l. split; [done|]. intros v. rewrite Hin. split.
  - intros (k & b & Hk & Hp & Hg & Hv).
    apply inline_live_table_prefix_exact in Hp as (op & -> & Hop); [|done..]. eauto 10.
  - intros (op & b & Hk & Hop & Hg & Hv). exists (live op), b. split_and!; [done| |done..].
    apply inline_live_table_prefix_exact; eauto.
Qed.

Ltac scan_live t kind :=
  match goal with |- context [run ?s (scan_decode _ ?e)] =>
    let l := fresh "l" in let E := fresh "E" in let Hin := fresh "Hin" in
    destruct (scan_live_ok s kind t e) as (l & E & Hin) end.

Lemma scan_chunks_ok (s : S) t :
  u64 t -> inline_wf s -> exists l, run s (scan_inline_chunks t) = Ok l
    /\ forall op v, (op, v) ∈ l <-> (exists sv b c, op = IO_Insert t sv b c) /\ stored s (live op) v.
Proof.
  intros Ht Hs. unfold scan_inline_chunks. scan_live t IOK_Insert; [done..| |].
  2: { exists l. split; [exact E|]. intros op v. rewrite Hin. split.
    - intros (op' & b & Hk & [Hv Hh] & Hg & Hx). destruct op' as [t' sv b' c| |]; [|done..].
      cbn in Hh. injection Hh as ->. apply bind_Ok in Hx as (v' & Hd & [= <- <-]).
      split; [eauto|]. split; eauto.
    - intros [(sv & b & c & ->) (Hk & bs & Hg & Hd)]. exists (IO_Insert t sv b c), bs.
      split_and!; [done..|]. cbn. by rewrite Hd. }
  intros [t' sv b c| |] bs [Hv Hh] Hw; [|done..]. destruct Hw as [v Hd]. cbn. rewrite Hd. by eexists.
Qed.

Lemma scan_inline_deletes_ok (s : S) t :
  u64 t -> inline_wf s -> exists l, run s (scan_inline_inline_deletes t) = Ok l
    /\ forall r d, (r, d) ∈ l <-> stored s (live (IO_InlineDelete t r)) d.
Proof.
  intros Ht Hs. unfold scan_inline_inline_deletes. scan_live t IOK_InlineDelete; [done..| |].
  2: { exists l. split; [exact E|]. intros r d. rewrite Hin. split.
    - intros (op' & b & Hk & [Hv Hh] & Hg & Hx). destruct op' as [|t' r'|]; [done| |done].
      cbn in Hh. injection Hh as ->. apply bind_Ok in Hx as (v' & Hd & [= <- <-]). split; eauto.
    - intros (Hk & bs & Hg & Hd). exists (IO_InlineDelete t r), bs.
      split_and!; [done..|]. cbn. by rewrite Hd. }
  intros [|t' r|] bs [Hv Hh] Hw; [done| |done]. destruct Hw as [v Hd]. cbn. rewrite Hd. by eexists.
Qed.

Lemma scan_file_deletes_ok (s : S) t :
  u64 t -> inline_wf s -> exists l, run s (scan_inline_file_deletes t) = Ok l
    /\ forall f r d, (f, r, d) ∈ l <-> stored s (live (IO_FileDelete t f r)) d.
Proof.
  intros Ht Hs. unfold scan_inline_file_deletes. scan_live t IOK_FileDelete; [done..| |].
  2: { exists l. split; [exact E|]. intros f r d. rewrite Hin. split.
    - intros (op' & b & Hk & [Hv Hh] & Hg & Hx). destruct op' as [| |t' f' r']; [done..|].
      cbn in Hh. injection Hh as ->. apply bind_Ok in Hx as (v' & Hd & [= <- <- <-]). split; eauto.
    - intros (Hk & bs & Hg & Hd). exists (IO_FileDelete t f r), bs.
      split_and!; [done..|]. cbn. by rewrite Hd. }
  intros [| |t' f r] bs [Hv Hh] Hw; [done..|]. destruct Hw as [v Hd]. cbn. rewrite Hd. by eexists.
Qed.
End InlineLaws.

(** ** Flush *)

Section FlushLaws.
  Context {S : Type} `{KVLaws S, SKL : StorekeyLaws, MSL : MessagesLaws}.
Abbreviation live op := (K_Inline (IK_Live op)).

(** Some chunk of schema version [sv] carries row [r], begun at [b]. *)
Definition version (s : S) (t sv r b : N) : Prop :=
  exists c v, stored s (live (IO_Insert t sv b c)) v /\ covers v r.

(** Row [r]'s tombstone. *)
Definition tombstone (s : S) (t r e : N) : Prop :=
  exists d, stored s (live (IO_InlineDelete t r)) d /\ iid_end_snapshot d = e.

(** A version with its end, as a scan of the table shows it. *)
Definition shows (s : S) (t sv r b : N) (e : option N) : Prop :=
  version s t sv r b /\ forall x, e = Some x <-> tombstone s t r x /\ b < x.

(** The rows of a table, from its two scans. *)
Definition table_rows (t : N) : Reader (list InlineRow) :=
  chunks ← scan_inline_chunks t; dels ← scan_inline_inline_deletes t;
  mret (materialize_inline_rows chunks dels).

Lemma deletes_apply (s : S) ws kb :
  Forall (fun w => w.2 = None) ws ->
  kv_get (kv_apply s ws) kb = if decide (kb ∈ ws.*1) then None else kv_get s kb.
Proof.
  intros Hd. rewrite kv_get_apply. destruct (last_write ws kb) as [o|] eqn:E.
  - apply last_write_elem in E. rewrite decide_True by (by apply (list_elem_of_fmap_2 fst) in E).
    rewrite Forall_forall in Hd. apply (Hd _ E).
  - rewrite decide_False; [done|]. intros ([k o] & -> & Hin)%list_elem_of_fmap.
    revert E. unfold last_write. rewrite fmap_None, last_None. cbn. intros E.
    assert (Hf : (k, o) ∈ filter (fun w : StagedWrite => w.1 = k) ws) by (by apply list_elem_of_filter).
    rewrite E in Hf. by apply elem_of_nil in Hf.
Qed.

Lemma inline_wf_deletes (s : S) ws :
  inline_wf s -> Forall (fun w => w.2 = None) ws -> inline_wf (kv_apply s ws).
Proof. intros Hs Hd kb b. rewrite deletes_apply by done. case_decide; [done|apply Hs]. Qed.

Lemma stored_deletes {M} `{Prost M} (s : S) ws k (m : M) :
  Forall (fun w => w.2 = None) ws ->
  stored (kv_apply s ws) k m <-> stored s k m /\ Key_encode k ∉ ws.*1.
Proof.
  intros Hd. unfold stored. setoid_rewrite deletes_apply; [|done..]. case_decide; naive_solver.
Qed.

(** The tombstone map of a scan. *)
Lemma scanned_version_end (s : S) t dels r b x :
  (forall r d, (r, d) ∈ dels <-> stored s (live (IO_InlineDelete t r)) d) ->
  version_end (tombstone_map dels) r b = Some x <-> tombstone s t r x /\ b < x.
Proof.
  intros Hd. rewrite version_end_Some, tombstone_map_lookup.
  - setoid_rewrite Hd. done.
  - intros r' d d'. rewrite !Hd. apply stored_functional.
Qed.

(** A scan of the table shows exactly its versions. *)
Lemma table_rows_ok (s : S) t :
  u64 t -> inline_wf s -> exists rows, run s (table_rows t) = Ok rows
    /\ forall r b e, (exists i o, mkInlineRow r b e i o ∈ rows) <-> exists sv, shows s t sv r b e.
Proof.
  intros Ht Hs. destruct (scan_chunks_ok s t Ht Hs) as (chunks & Ec & Hc).
  destruct (scan_inline_deletes_ok s t Ht Hs) as (dels & Ed & Hd).
  exists (materialize_inline_rows chunks dels). split.
  { unfold table_rows. rewrite (run_bind_Ok _ _ _ _ Ec), (run_bind_Ok _ _ _ _ Ed). done. }
  intros r b e. rewrite materialize_versions. split.
  - intros (t' & sv & c & v & [(sv' & b' & c' & [= -> -> -> ->]) Hst]%Hc & Hcov & ->).
    exists sv'. split; [by exists c', v|]. intros x. by apply scanned_version_end.
  - intros (sv & (c & v & Hst & Hcov) & He). exists t, sv, c, v. rewrite Hc. split_and!; [eauto|done..|].
    apply option_eq. intros x. rewrite He. symmetry. by apply scanned_version_end.
Qed.

Lemma scoped_elem (s : S) t sv (chunks : list (InlineOperation * InlineChunkValue)) op v :
  (forall op v, (op, v) ∈ chunks <->
     (exists sv b c, op = IO_Insert t sv b c) /\ stored s (live op) v) ->
  (op, v) ∈ filter (fun chunk => chunk_scoped sv chunk = true) chunks
  <-> exists b c, op = IO_Insert t sv b c /\ stored s (live op) v.
Proof.
  intros Hc. rewrite list_elem_of_filter, Hc. unfold chunk_scoped. cbn [fst]. split.
  - intros [E [(sv' & b & c & ->) Hst]]. apply N.eqb_eq in E as ->. eauto.
  - intros (b & c & -> & Hst). rewrite N.eqb_refl. eauto 10.
Qed.

(** The rows a flush selects are the versions it drains, each with its end. *)
Lemma flush_rows_elem (s : S) t sv snap
    (scoped : list (InlineOperation * InlineChunkValue)) dels r b e :
  (forall op v, (op, v) ∈ scoped <-> exists b c, op = IO_Insert t sv b c /\ stored s (live op) v) ->
  (forall r d, (r, d) ∈ dels <-> stored s (live (IO_InlineDelete t r)) d) ->
  (exists i o, mkInlineRow r b e i o ∈
      select ISK_ForFlush (materialize_inline_rows scoped dels) snap 0)
  <-> b <= snap /\ shows s t sv r b e.
Proof.
  intros Hs Hd. setoid_rewrite elem_of_select. cbn [scan_included ir_begin_snapshot].
  setoid_rewrite N.leb_le.
  transitivity (b <= snap /\ exists i o, mkInlineRow r b e i o ∈ materialize_inline_rows scoped dels);
    [naive_solver|].
  rewrite materialize_versions. apply and_iff_compat_l. split.
  - intros (t' & sv' & c & v & (b' & c' & [= -> -> -> ->] & Hst)%Hs & Hcov & ->).
    split; [by exists c', v|]. intros x. by apply scanned_version_end.
  - intros ((c & v & Hst & Hcov) & He). exists t, sv, c, v. rewrite Hs. split_and!; [eauto|done..|].
    apply option_eq. intros x. rewrite He. symmetry. by apply scanned_version_end.
Qed.

(** Every version has an end to show. *)
Lemma shows_total (s : S) t sv r b (dels : list (N * InlineInlineDeleteValue)) :
  (forall r d, (r, d) ∈ dels <-> stored s (live (IO_InlineDelete t r)) d) ->
  version s t sv r b -> exists e, shows s t sv r b e.
Proof.
  intros Hd Hv. exists (version_end (tombstone_map dels) r b). split; [done|].
  intros x. by apply scanned_version_end.
Qed.

(** The keys a flush deletes. *)
Lemma flush_writes_ok (s : S) t sv snap :
  u64 t -> inline_wf s ->
  exists ws drained, run s (translate_inline_flush_delete t sv snap) = Ok (ws, drained)
  /\ Forall (fun w => w.2 = None) ws
  /\ (forall r, r ∈ drained <-> exists b, b <= snap /\ version s t sv r b)
  /\ (forall kb, kb ∈ ws.*1 <->
        (exists b c v, kb = Key_encode (live (IO_Insert t sv b c)) /\ b <= snap
           /\ stored (M := InlineChunkValue) s (live (IO_Insert t sv b c)) v)
        \/ (exists r b e, kb = Key_encode (live (IO_InlineDelete t r))
           /\ b <= snap /\ b < e /\ version s t sv r b /\ tombstone s t r e)).
Proof.
  intros Ht Hs. destruct (scan_chunks_ok s t Ht Hs) as (chunks & Ec & Hc).
  destruct (scan_inline_deletes_ok s t Ht Hs) as (dels & Ed & Hd).
  pose proof (fun op v => scoped_elem s t sv chunks op v Hc) as Hscoped.
  pose proof (fun r b e => flush_rows_elem s t sv snap _ dels r b e Hscoped Hd) as Hrow.
  eexists _, _. split.
  { unfold translate_inline_flush_delete.
    rewrite (run_bind_Ok _ _ _ _ Ec), (run_bind_Ok _ _ _ _ Ed). reflexivity. }
  set (scoped := filter _ chunks) in *. set (rows := select _ _ _ _) in *.
  assert (Hsel : forall r b, b <= snap -> version s t sv r b ->
    exists row, row ∈ rows /\ ir_row_id row = r
      /\ forall x, tombstone s t r x -> b < x -> is_Some (ir_end_snapshot row)).
  { intros r b Hb Hv. destruct (shows_total s t sv r b dels Hd Hv) as [e He].
    destruct (proj2 (Hrow r b e) (conj Hb He)) as (i & o & Hin). exists (mkInlineRow r b e i o).
    split_and!; [done..|]. intros x Hx Hlt. exists x. by apply He. }
  split_and!.
  - rewrite Forall_app, !Forall_map. split; by apply Forall_true.
  - intros r. rewrite elem_of_list_to_set, list_elem_of_fmap. split.
    + intros ([r' b e i o] & -> & Hin). exists b. destruct (proj1 (Hrow r' b e)) as (? & ? & _); eauto.
    + intros (b & Hb & Hv). destruct (Hsel r b Hb Hv) as (row & Hin & <- & _). eauto.
  - intros kb. rewrite fmap_app, elem_of_app, <-!list_fmap_compose, !list_elem_of_fmap.
    apply Morphisms_Prop.or_iff_morphism; split.
    + intros ([op v] & -> & [Hf Hin]%list_elem_of_filter). apply Hscoped in Hin as (b & c & -> & Hst).
      unfold chunk_flushed in Hf. cbn [fst] in Hf. apply andb_true_iff in Hf as [_ Hb%N.leb_le].
      by exists b, c, v.
    + intros (b & c & v & -> & Hb & Hst). exists (IO_Insert t sv b c, v). split; [done|].
      rewrite list_elem_of_filter, Hscoped. unfold chunk_flushed. cbn [fst].
      rewrite N.eqb_refl, (proj2 (N.leb_le b snap) Hb). eauto.
    + intros ([r b e i o] & -> & [[x He] Hin]%list_elem_of_filter). cbn in He.
      destruct (proj1 (Hrow r b e)) as (Hb & Hv & Hx); [eauto|]. apply Hx in He as [Htb Hlt].
      by exists r, b, x.
    + intros (r & b & e & -> & Hb & Hlt & Hv & Htb).
      destruct (Hsel r b Hb Hv) as (row & Hin & <- & He). exists row. split; [done|].
      apply list_elem_of_filter. eauto.
Qed.

Lemma inline_insert_wf t sv b c :
  Key_wf (live (IO_Insert t sv b c)) <-> u64 t /\ u64 sv /\ u64 b /\ u64 c.
Proof. cbn. unfold InlineOperation_wf. cbn. rewrite !Forall_cons, Forall_nil. naive_solver. Qed.

(** What survives a flush. *)
Lemma flush_survivors (s : S) t sv snap ws drained :
  u64 t -> inline_wf s -> run s (translate_inline_flush_delete t sv snap) = Ok (ws, drained) ->
  (forall sv' r b, version (kv_apply s ws) t sv' r b
     <-> version s t sv' r b /\ ~ (sv' = sv /\ b <= snap))
  /\ (forall r e, tombstone (kv_apply s ws) t r e
     <-> tombstone s t r e /\ ~ exists b, b <= snap /\ b < e /\ version s t sv r b).
Proof.
  intros Ht Hs Hr. destruct (flush_writes_ok s t sv snap Ht Hs) as (ws' & d' & E & Hd & _ & Hk).
  rewrite E in Hr. injection Hr as -> ->. split.
  - intros sv' r b. unfold version. setoid_rewrite stored_deletes; [|done..]. setoid_rewrite Hk. split.
    + intros (c & v & [Hst Hno] & Hcov). split; [by exists c, v|]. intros [-> Hb]. apply Hno. left. eauto 10.
    + intros [(c & v & Hst & Hcov) Hno]. exists c, v. split_and!; [done| |done]. intros [Hx|Hx].
      * destruct Hx as (b' & c' & v' & Ek & Hb & Hst').
        apply Key_encode_inj in Ek as [= -> -> ->]; [|by destruct Hst|by destruct Hst']. by apply Hno.
      * destruct Hx as (r' & b' & e & Ek & _ & _ & _ & (d & [Hw _] & _)).
        apply Key_encode_inj in Ek; [done|by destruct Hst|done].
  - intros r e. unfold tombstone at 1 2. setoid_rewrite stored_deletes; [|done..]. setoid_rewrite Hk. split.
    + intros (d & [Hst Hno] & <-). split; [by exists d|]. intros (b & Hb & Hlt & Hv). apply Hno. right.
      exists r, b, (iid_end_snapshot d). split_and!; [done..|by exists d].
    + intros [(d & Hst & <-) Hno]. exists d. split_and!; [done| |done]. intros [Hx|Hx].
      * destruct Hx as (b' & c' & v' & Ek & Hb & Hst').
        apply Key_encode_inj in Ek; [done|by destruct Hst|by destruct Hst'].
      * destruct Hx as (r' & b' & e & Ek & Hb & Hlt & Hv & (d' & Hst' & <-)).
        apply Key_encode_inj in Ek as [= <-]; [|by destruct Hst|by destruct Hst'].
        rewrite (stored_functional _ _ _ _ Hst Hst') in Hno. apply Hno. eauto.
Qed.

(** A flush touches nothing but the chunks and tombstones of its table. *)
Lemma flush_elsewhere (s : S) t sv snap ws drained k :
  u64 t -> inline_wf s -> run s (translate_inline_flush_delete t sv snap) = Ok (ws, drained) ->
  Key_wf k -> (forall sv b c, k <> live (IO_Insert t sv b c)) ->
  (forall r, k <> live (IO_InlineDelete t r)) ->
  kv_get (kv_apply s ws) (Key_encode k) = kv_get s (Key_encode k).
Proof.
  intros Ht Hs Hr Hkw H1 H2.
  destruct (flush_writes_ok s t sv snap Ht Hs) as (ws' & d' & E & Hd & _ & Hk).
  rewrite E in Hr. injection Hr as -> ->. rewrite deletes_apply by done. rewrite decide_False; [done|].
  rewrite Hk. intros [(b & c & v & Ek & _ & [Hw _])|(r & b & e & Ek & _ & _ & _ & (d & [Hw _] & _))];
    apply Key_encode_inj in Ek; naive_solver.
Qed.
End FlushLaws.

(** ** The translation as a whole *)

(** The schema a batch's first chunk of a version names. *)
Fixpoint first_schema (t sv : N) (ops : list InlineStage) : option bytes :=
  match ops with
  | [] => None
  | IS_Schema t' sv' a :: ops => if (t' =? t) && (sv' =? sv) then Some a else first_schema t sv ops
  | _ :: ops => first_schema t sv ops
  end.

(** Every id an operation names is a [u64]. *)
Definition stage_wf (op : InlineStage) : Prop :=
  match op with
  | IS_Schema t sv _ => u64 t /\ u64 sv
  | IS_Insert t sv b c _ _ _ => u64 t /\ u64 sv /\ u64 b /\ u64 c
  | IS_Tombstone t r _ => u64 t /\ u64 r
  | IS_Flush t _ _ => u64 t
  end.

Section StageLaws.
  Context {S : Type} `{KVLaws S, SKL : StorekeyLaws, MSL : MessagesLaws}.
Abbreviation live op := (K_Inline (IK_Live op)).

(** What a flush of the pre-commit store drains. *)
Definition drains (s : S) (t sv snap r : N) : Prop := exists b, b <= snap /\ version s t sv r b.

(** The commits the translation accepts. *)
Definition admissible (s : S) (all ops : list InlineStage) (settled : gset (N * N)) : Prop :=
  (forall t sv snap r e, IS_Flush t sv snap ∈ ops -> IS_Tombstone t r e ∈ all ->
     ~ drains s t sv snap r)
  /\ (forall t sv a x, (t, sv) ∉ settled -> first_schema t sv ops = Some a ->
        stored s (K_Inline (IK_Schema t sv)) x -> isv_arrow_schema x = a).

(** The writes of one operation. *)
Definition op_write (s : S) (op : InlineStage) (w : StagedWrite) : Prop :=
  match op with
  | IS_Schema t sv a => w = inline_schema_write t sv a
      /\ kv_get s (Key_encode (K_Inline (IK_Schema t sv))) = None
  | IS_Insert t sv b c r n body => w = inline_insert_write t sv b c r n body
  | IS_Tombstone t r e => w = inline_inline_delete_write t r e
  | IS_Flush t sv snap => exists ws d,
      run s (translate_inline_flush_delete t sv snap) = Ok (ws, d) /\ w ∈ ws
  end.

(** The writes of a batch: each operation's, the schema of a version once. *)
Definition batch_write (s : S) (ops : list InlineStage) (settled : gset (N * N)) (w : StagedWrite)
  : Prop :=
  exists op, op ∈ ops /\ op_write s op w
  /\ match op with
     | IS_Schema t sv a => ((t, sv) ∉ settled) /\ first_schema t sv ops = Some a
     | _ => True
     end.

Lemma refuse_Ok t drained ops :
  refuse_tombstones_of_drained_rows t drained ops = Ok tt
  <-> forall r e, IS_Tombstone t r e ∈ ops -> r ∉ drained.
Proof.
  induction ops as [|op ops IH]; cbn [refuse_tombstones_of_drained_rows]; [set_solver|].
  rewrite bind_Ok. setoid_rewrite fail_if_Ok. setoid_rewrite elem_of_cons. split.
  - intros ([] & Hop & Hops) r e [<-|Hin]; [|by eapply IH].
    rewrite N.eqb_refl in Hop. cbn in Hop. by apply bool_decide_eq_false in Hop.
  - intros Hall. exists tt. split; [|apply IH; eauto].
    destruct op as [| |t' r e|]; try done. destruct (N.eqb_spec t' t) as [->|]; [|done].
    apply bool_decide_eq_false. eapply Hall. by left.
Qed.

Lemma refuse_cases t drained ops :
  refuse_tombstones_of_drained_rows t drained ops = Ok tt
  \/ refuse_tombstones_of_drained_rows t drained ops = Err Constraint.
Proof.
  induction ops as [|op ops IH]; cbn [refuse_tombstones_of_drained_rows]; [by left|].
  unfold fail_if. case_match; [by right|exact IH].
Qed.

Lemma schema_if_new_ok (s : S) t sv a :
  inline_wf s -> u64 t -> u64 sv ->
  match run s (schema_write_if_new t sv a) with
  | Ok (Some w) => op_write s (IS_Schema t sv a) w
  | Ok None => exists x, stored s (K_Inline (IK_Schema t sv)) x /\ isv_arrow_schema x = a
  | Err e => e = Constraint /\ exists x, stored s (K_Inline (IK_Schema t sv)) x /\ isv_arrow_schema x <> a
  end.
Proof.
  intros Hs Ht Hsv. unfold schema_write_if_new, read_inline_schema.
  destruct (kv_get s (Key_encode (K_Inline (IK_Schema t sv)))) as [b|] eqn:E.
  - destruct (Hs _ _ E) as (k & Ek & Hk & Hv); [by apply subspace_prefix_iff|].
    apply Key_encode_inj in Ek as [= <-]; [|done..]. destruct Hv as [x Hx].
    assert (Hr : run s (read_singleton (K_Inline (IK_Schema t sv))) = Ok (Some x)).
    { cbn. rewrite E. cbn. by rewrite Hx. }
    rewrite (run_bind_Ok _ _ _ _ Hr). case_bool_decide; cbn; [|split; [done|]];
      exists x; (split; [split; eauto|done]).
  - rewrite (run_bind_Ok _ _ _ _ (run_singleton_none s _ E)). done.
Qed.
Lemma admissible_cons_other (s : S) all op ops settled :
  (forall t sv a, op <> IS_Schema t sv a) ->
  admissible s all (op :: ops) settled <->
  (forall t sv snap r e, op = IS_Flush t sv snap -> IS_Tombstone t r e ∈ all -> ~ drains s t sv snap r)
  /\ admissible s all ops settled.
Proof.
  intros Hop. unfold admissible. setoid_rewrite elem_of_cons.
  assert (E : forall t sv, first_schema t sv (op :: ops) = first_schema t sv ops)
    by (destruct op; try done; by destruct (Hop table_id schema_version arrow_schema)).
  setoid_rewrite E. split.
  - intros [Hf Hsc]. split_and!; eauto.
  - intros (Hf & Hf' & Hsc). split; [|done]. intros t sv snap r e [Eop|Hin]; eauto.
Qed.

Lemma batch_write_cons_other (s : S) op ops settled w :
  (forall t sv a, op <> IS_Schema t sv a) ->
  batch_write s (op :: ops) settled w <-> op_write s op w \/ batch_write s ops settled w.
Proof.
  intros Hop. unfold batch_write. setoid_rewrite elem_of_cons.
  assert (E : forall t sv, first_schema t sv (op :: ops) = first_schema t sv ops)
    by (destruct op; try done; by destruct (Hop table_id schema_version arrow_schema)).
  split.
  - intros (op' & [->|Hin] & Hw & Hm); [by left|right]. exists op'. split_and!; [done..|].
    destruct op' as [t sv a| | |]; [by rewrite E in Hm|done..].
  - intros [Hw|(op' & Hin & Hw & Hm)].
    + exists op. split_and!; [by left|done|]. destruct op; try done. by edestruct Hop.
    + exists op'. split_and!; [by right|done|]. destruct op' as [t sv a| | |]; [by rewrite E|done..].
Qed.

Lemma first_schema_cons t sv t' sv' a ops :
  first_schema t sv (IS_Schema t' sv' a :: ops)
  = if decide ((t', sv') = (t, sv)) then Some a else first_schema t sv ops.
Proof.
  cbn. destruct (N.eqb_spec t' t) as [->|], (N.eqb_spec sv' sv) as [->|]; cbn; case_decide; congruence.
Qed.

(** A schema operation whose version is settled adds nothing; one whose version is
    not settles it. *)
Lemma schema_settled (s : S) all ops settled t sv a :
  (t, sv) ∈ settled ->
  (admissible s all (IS_Schema t sv a :: ops) settled <-> admissible s all ops settled)
  /\ (forall w, batch_write s (IS_Schema t sv a :: ops) settled w <-> batch_write s ops settled w).
Proof.
  intros Hin.
  assert (E : forall t' sv', (t', sv') ∉ settled ->
    first_schema t' sv' (IS_Schema t sv a :: ops) = first_schema t' sv' ops)
    by (intros t' sv' Hn; rewrite first_schema_cons; case_decide; congruence).
  unfold admissible, batch_write. setoid_rewrite elem_of_cons. split.
  - split; intros [Hf Hsc]; (split; [naive_solver|]); intros t' sv' a' x Hn; specialize (E t' sv' Hn);
      [rewrite <-E|rewrite E]; eauto.
  - intros w. split; intros (op & Hop & Hw & Hm).
    + destruct Hop as [->|Hop]; [naive_solver|]. exists op. split_and!; [done..|].
      destruct op; try done. destruct Hm as [Hn Hm]. by rewrite E in Hm.
    + exists op. split_and!; [by right|done|]. destruct op; try done. destruct Hm as [Hn Hm].
      by rewrite E.
Qed.

Lemma schema_unsettled (s : S) all ops settled t sv a :
  (t, sv) ∉ settled ->
  (admissible s all (IS_Schema t sv a :: ops) settled <->
     (forall x, stored s (K_Inline (IK_Schema t sv)) x -> isv_arrow_schema x = a)
     /\ admissible s all ops ({[(t, sv)]} ∪ settled))
  /\ (forall w, batch_write s (IS_Schema t sv a :: ops) settled w <->
        op_write s (IS_Schema t sv a) w \/ batch_write s ops ({[(t, sv)]} ∪ settled) w).
Proof.
  intros Hn.
  assert (E : forall t' sv', (t', sv') ∉ ({[(t, sv)]} ∪ settled : gset (N * N)) ->
    ((t', sv') ∉ settled) /\ first_schema t' sv' (IS_Schema t sv a :: ops) = first_schema t' sv' ops).
  { intros t' sv' Hn'. split; [set_solver|]. rewrite first_schema_cons. case_decide; set_solver. }
  assert (E0 : first_schema t sv (IS_Schema t sv a :: ops) = Some a)
    by (rewrite first_schema_cons; by rewrite decide_True).
  unfold admissible, batch_write. setoid_rewrite elem_of_cons. split.
  - split.
    + intros [Hf Hsc]. split_and!; [|naive_solver|].
      * intros x Hx. by apply (Hsc t sv a x).
      * intros t' sv' a' x Hn' Hfs. destruct (E _ _ Hn') as [? E']. rewrite <-E' in Hfs. eauto.
    + intros (Hx & Hf & Hsc). split; [naive_solver|]. intros t' sv' a' x Hn'.
      destruct (decide ((t, sv) = (t', sv'))) as [[= <- <-]|Hne].
      * rewrite E0. intros [= <-]. auto.
      * assert (Hn2 : (t', sv') ∉ ({[(t, sv)]} ∪ settled : gset (N * N))) by set_solver.
        destruct (E _ _ Hn2) as [_ ->]. eauto.
  - intros w. split.
    + intros (op & [->|Hop] & Hw & Hm); [by left|].
      destruct op as [t' sv' a'| | |]; try (right; by eexists).
      destruct Hm as [Hn' Hm]. destruct (decide ((t, sv) = (t', sv'))) as [[= <- <-]|Hne].
      * rewrite E0 in Hm. injection Hm as ->. by left.
      * right. assert (Hn2 : (t', sv') ∉ ({[(t, sv)]} ∪ settled : gset (N * N))) by set_solver.
        exists (IS_Schema t' sv' a'). destruct (E _ _ Hn2) as [_ E2]. rewrite E2 in Hm. done.
    + intros [Hw|(op & Hop & Hw & Hm)].
      * exists (IS_Schema t sv a). auto.
      * exists op. split_and!; [by right|done|]. destruct op as [t' sv' a'| | |]; try done.
        destruct Hm as [Hn' Hm]. destruct (E _ _ Hn') as [? E2]. by rewrite E2.
Qed.
(** The loop accepts exactly the admissible operations and stages exactly their
    writes; its only refusal is [Constraint]. *)
Lemma stage_inline_loop_ok (s : S) all ops settled :
  inline_wf s -> Forall stage_wf ops ->
  match run s (stage_inline_loop all ops settled) with
  | Ok ws => admissible s all ops settled /\ forall w, w ∈ ws <-> batch_write s ops settled w
  | Err e => e = Constraint /\ ~ admissible s all ops settled
  end.
Proof.
  intros Hs. revert settled. induction ops as [|op ops IH]; intros settled Hops.
  { cbn. split; [split; [set_solver|done]|]. intros w. unfold batch_write. set_solver. }
  apply Forall_cons in Hops as [Hop Hops]. cbn [stage_inline_loop].
  destruct op as [t sv a|t sv b c r n body|t r e|t sv snap].
  - destruct (decide ((t, sv) ∈ settled)) as [Hin|Hn].
    + rewrite bool_decide_true by done. destruct (schema_settled s all ops settled t sv a Hin) as [EA EB].
      specialize (IH settled Hops). destruct run; setoid_rewrite EA; [|done]. by setoid_rewrite EB.
    + rewrite bool_decide_false by done. destruct (schema_unsettled s all ops settled t sv a Hn) as [EA EB].
      specialize (IH ({[(t, sv)]} ∪ settled) Hops). destruct Hop as [Ht Hsv].
      pose proof (schema_if_new_ok s t sv a Hs Ht Hsv) as Hnew. rewrite run_bind.
      destruct (run s (schema_write_if_new t sv a)) as [o|e]; cbn [mbind result_bind run mret Reader_mret].
      2: { destruct Hnew as (-> & x & Hx & Hne). split; [done|]. rewrite EA. naive_solver. }
      assert (Hadm : forall x, stored s (K_Inline (IK_Schema t sv)) x -> isv_arrow_schema x = a).
      { intros x Hx. destruct o as [w|].
        - destruct Hnew as [_ Hnone], Hx as (_ & bs & Hb & _). congruence.
        - destruct Hnew as (x' & Hx' & <-). by rewrite (stored_functional _ _ _ _ Hx Hx'). }
      rewrite run_bind. destruct (run s (stage_inline_loop _ _ _)) as [ws|e]; cbn [mbind result_bind run mret Reader_mret].
      2: { rewrite EA. naive_solver. }
      destruct IH as [IHA IHB]. cbn [run mret Reader_mret]. split; [by rewrite EA|]. intros w.
      rewrite EB, elem_of_app, IHB. apply Morphisms_Prop.or_iff_morphism; [|done].
      destruct o as [w'|]; cbn [op_write] in *.
      * rewrite list_elem_of_singleton. naive_solver.
      * split; [by intros ?%elem_of_nil|]. intros [_ Hnone].
        destruct Hnew as (x & (_ & bs & Hb & _) & _). congruence.
  - specialize (IH settled Hops). rewrite run_bind. destruct run as [ws|e]; cbn [mbind result_bind run mret Reader_mret];
      rewrite admissible_cons_other by done; [|naive_solver].
    destruct IH as [IHA IHB]. split; [naive_solver|]. intros w.
    by rewrite batch_write_cons_other, <-IHB, elem_of_cons by done.
  - specialize (IH settled Hops). rewrite run_bind. destruct run as [ws|e']; cbn [mbind result_bind run mret Reader_mret];
      rewrite admissible_cons_other by done; [|naive_solver].
    destruct IH as [IHA IHB]. split; [naive_solver|]. intros w.
    by rewrite batch_write_cons_other, <-IHB, elem_of_cons by done.
  - specialize (IH settled Hops).
    destruct (flush_writes_ok s t sv snap Hop Hs) as (fws & drained & Ef & _ & Hdr & _).
    rewrite (run_bind_Ok _ _ _ _ Ef). rewrite run_bind. cbn [run lift].
    assert (Hre : refuse_tombstones_of_drained_rows t drained all = Ok tt <->
      forall t' sv' snap' r e, IS_Flush t sv snap = IS_Flush t' sv' snap' ->
        IS_Tombstone t' r e ∈ all -> ~ drains s t' sv' snap' r).
    { rewrite refuse_Ok. split.
      - intros Hr t' sv' snap' r e [= <- <- <-] Hin Hd. by apply (Hr r e), Hdr.
      - intros Hr r e Hin Hd%Hdr. by eapply Hr. }
    destruct (refuse_cases t drained all) as [E|E]; rewrite E; cbn [mbind result_bind].
    2: { rewrite admissible_cons_other by done. split; [done|]. intros [Ha _]. apply Hre in Ha. congruence. }
    rewrite run_bind. destruct run as [ws|e]; cbn [mbind result_bind run mret Reader_mret];
      rewrite admissible_cons_other by done; [|naive_solver].
    destruct IH as [IHA IHB]. split; [split; [by apply Hre|done]|]. intros w.
    rewrite batch_write_cons_other, elem_of_app, IHB by done. cbn [op_write].
    apply Morphisms_Prop.or_iff_morphism; [|done]. split; [by eauto|].
    intros (ws' & d' & E' & Hin). rewrite Ef in E'. by injection E' as <- _.
Qed.
Lemma stage_inline_ok (s : S) ops :
  inline_wf s -> Forall stage_wf ops ->
  match run s (stage_inline_writes ops) with
  | Ok ws => admissible s ops ops ∅ /\ forall w, w ∈ ws <-> batch_write s ops ∅ w
  | Err e => e = Constraint /\ ~ admissible s ops ops ∅
  end.
Proof. intros. by apply stage_inline_loop_ok. Qed.

(** A write of the inline subspace, typed by its key. *)
Definition inline_write (k : InlineKey) (w : StagedWrite) : Prop :=
  w.1 = Key_encode (K_Inline k) /\ Key_wf (K_Inline k)
  /\ match w.2 with Some b => inline_value_wf k b | None => True end.

(** The key of each operation's writes. *)
Definition op_names (op : InlineStage) (k : InlineKey) : Prop :=
  match op, k with
  | IS_Schema t sv _, IK_Schema t' sv' => t' = t /\ sv' = sv
  | IS_Insert t sv b c _ _ _, IK_Live (IO_Insert t' sv' b' c') => t' = t /\ sv' = sv /\ b' = b /\ c' = c
  | IS_Tombstone t r _, IK_Live (IO_InlineDelete t' r') => t' = t /\ r' = r
  | IS_Flush t sv snap, IK_Live (IO_Insert t' sv' b _) => t' = t /\ sv' = sv /\ b <= snap
  | IS_Flush t _ _, IK_Live (IO_InlineDelete t' _) => t' = t
  | _, _ => False
  end.

Lemma op_write_typed (s : S) op w :
  inline_wf s -> stage_wf op -> op_write s op w ->
  exists k, inline_write k w /\ op_names op k
  /\ match op with
     | IS_Flush t sv snap => w.2 = None
         /\ match k with IK_Live (IO_InlineDelete _ r) => drains s t sv snap r | _ => True end
     | _ => is_Some w.2
     end.
Proof.
  intros Hs Hop Hw. destruct op as [t sv a|t sv b c r n body|t r e|t sv snap]; cbn [op_write] in Hw.
  - destruct Hw as [-> _]. exists (IK_Schema t sv). split_and!; [|done..]. split_and!; [done..|].
    eexists. apply decode_encode_value.
  - subst w. exists (IK_Live (IO_Insert t sv b c)). split_and!; [|done..]. split_and!; [done| |].
    + by apply inline_insert_wf.
    + eexists. apply decode_encode_value.
  - subst w. exists (IK_Live (IO_InlineDelete t r)). split_and!; [|done..]. split_and!; [done| |].
    + destruct Hop. by repeat constructor.
    + eexists. apply decode_encode_value.
  - destruct Hw as (ws & d & E & Hin).
    destruct (flush_writes_ok s t sv snap Hop Hs) as (ws' & d' & E' & Hd & _ & Hk).
    rewrite E' in E. injection E as -> ->. rewrite Forall_forall in Hd.
    pose proof (Hd w Hin) as Hw2. apply (list_elem_of_fmap_2 fst), Hk in Hin as [Hin|Hin].
    + destruct Hin as (b & c & v & Ek & Hb & [Hkw _]). exists (IK_Live (IO_Insert t sv b c)).
      split_and!; [|done..]. split_and!; [done..|]. by rewrite Hw2.
    + destruct Hin as (r & b & e & Ek & Hb & Hlt & Hv & (x & [Hkw _] & _)).
      exists (IK_Live (IO_InlineDelete t r)). split_and!; [|done..|by exists b]. split_and!; [done..|].
      by rewrite Hw2.
Qed.

Lemma batch_write_typed (s : S) ops settled w :
  inline_wf s -> Forall stage_wf ops -> batch_write s ops settled w ->
  exists op k, op ∈ ops /\ op_write s op w /\ inline_write k w /\ op_names op k.
Proof.
  intros Hs Hops (op & Hin & Hw & _). rewrite Forall_forall in Hops.
  destruct (op_write_typed s op w Hs (Hops op Hin) Hw) as (k & ? & ? & _). eauto 10.
Qed.

Lemma inline_wf_apply (s : S) ws :
  inline_wf s ->
  (forall w, w ∈ ws -> (exists k, inline_write k w) \/ ~ subspace_prefix InlineSpace `prefix_of` w.1) ->
  inline_wf (kv_apply s ws).
Proof.
  intros Hs Hws kb b. rewrite kv_get_apply. destruct (last_write ws kb) as [o|] eqn:E; [|apply Hs].
  intros -> Hp. apply last_write_elem in E. destruct (Hws _ E) as [(k & Ek & Hk & Hv)|?]; [|done].
  by exists k.
Qed.

(** Where a batch writes, its last write is one of an operation's. *)
Lemma batch_last (s : S) ops ws kb o :
  (forall w, w ∈ ws <-> batch_write s ops ∅ w) -> last_write ws kb = Some o ->
  exists op, op ∈ ops /\ op_write s op (kb, o).
Proof. intros Hws Hl. apply last_write_elem, Hws in Hl as (op & ? & ? & _). eauto. Qed.

Lemma last_write_is_Some ws k (o : option bytes) : (k, o) ∈ ws -> is_Some (last_write ws k).
Proof.
  intros Hin. destruct (last_write ws k) as [x|] eqn:E; [by eexists|]. exfalso.
  revert E. unfold last_write. rewrite fmap_None, last_None. intros E.
  assert (Hf : (k, o) ∈ filter (fun w : StagedWrite => w.1 = k) ws) by (by apply list_elem_of_filter).
  rewrite E in Hf. by apply elem_of_nil in Hf.
Qed.

(** Recorded schemas are never rewritten. *)
Lemma stage_schema_kept (s : S) ops ws t sv x :
  inline_wf s -> Forall stage_wf ops -> (forall w, w ∈ ws <-> batch_write s ops ∅ w) ->
  stored (M := InlineSchemaValue) s (K_Inline (IK_Schema t sv)) x ->
  kv_get (kv_apply s ws) (Key_encode (K_Inline (IK_Schema t sv)))
  = kv_get s (Key_encode (K_Inline (IK_Schema t sv))).
Proof.
  intros Hs Hops Hws (Hk & b & Hb & Hd). rewrite kv_get_apply.
  destruct (last_write ws _) as [o|] eqn:E; [|done]. exfalso.
  apply (batch_last s ops) in E as (op & Hin & Hw); [|done].
  rewrite Forall_forall in Hops. destruct (op_write_typed s op _ Hs (Hops _ Hin) Hw)
    as (k & (Ek & Hkw & _) & Hn & _). apply Key_encode_inj in Ek as [= <-]; [|done..].
  destruct op; cbn in Hn; try done. destruct Hn as [-> ->], Hw as [_ Hnone]. congruence.
Qed.

(** A tombstone of the batch lands. *)
Lemma stage_tombstone_lands (s : S) ops ws t r e :
  inline_wf s -> Forall stage_wf ops -> admissible s ops ops ∅ ->
  (forall w, w ∈ ws <-> batch_write s ops ∅ w) -> IS_Tombstone t r e ∈ ops ->
  exists e', IS_Tombstone t r e' ∈ ops /\ tombstone (kv_apply s ws) t r e'.
Proof.
  intros Hs Hops [Hadm _] Hws Hin.
  assert (Hkw : Key_wf (live (IO_InlineDelete t r))).
  { rewrite Forall_forall in Hops. destruct (Hops _ Hin). by repeat constructor. }
  destruct (last_write_is_Some ws (Key_encode (live (IO_InlineDelete t r)))
    (Some (encode_value (mkInlineInlineDeleteValue e)))) as [o Ho].
  { apply Hws. exists (IS_Tombstone t r e). done. }
  pose proof (batch_last s ops ws _ _ Hws Ho) as (op & Hin' & Hw). rewrite Forall_forall in Hops.
  destruct (op_write_typed s op _ Hs (Hops _ Hin') Hw) as (k & (Ek & Hk & _) & Hn & Hm).
  apply Key_encode_inj in Ek as [= <-]; [|done..].
  destruct op as [| |t' r' e'|t' sv snap]; cbn in Hn; try done.
  - destruct Hn as [-> ->]. injection Hw as ->. exists e'. split; [done|].
    exists (mkInlineInlineDeleteValue e'). split; [|done]. split; [done|].
    rewrite kv_get_apply, Ho. eexists. split; [done|]. apply decode_encode_value.
  - subst t'. destruct Hm as [_ Hd]. by destruct (Hadm t sv snap r e Hin' Hin).
Qed.

(** A batch names one schema for a version. *)
Definition one_schema (ops : list InlineStage) : Prop :=
  forall t sv a a', IS_Schema t sv a ∈ ops -> IS_Schema t sv a' ∈ ops -> a = a'.
(** The batches that fit the store: no row is tombstoned that a flush of the batch drains,
    and the schema named for a version is the one recorded for it, if any. *)
Definition fits_store (s : S) (ops : list InlineStage) : Prop :=
  (forall t sv snap r e, IS_Flush t sv snap ∈ ops -> IS_Tombstone t r e ∈ ops -> ~ drains s t sv snap r)
  /\ (forall t sv a x, IS_Schema t sv a ∈ ops -> stored s (K_Inline (IK_Schema t sv)) x -> isv_arrow_schema x = a).

Lemma first_schema_elem t sv ops a : first_schema t sv ops = Some a -> IS_Schema t sv a ∈ ops.
Proof.
  induction ops as [|op ops IH]; [done|]. destruct op as [t' sv' a'| | |]; cbn; try (intros; right; by apply IH).
  destruct (N.eqb_spec t' t) as [->|], (N.eqb_spec sv' sv) as [->|]; cbn; try (intros; right; by apply IH).
  intros [= ->]. by left.
Qed.

Lemma first_schema_exists t sv ops a : IS_Schema t sv a ∈ ops -> is_Some (first_schema t sv ops).
Proof.
  induction ops as [|op ops IH]; [by intros ?%elem_of_nil|]. intros [<-|Hin]%elem_of_cons.
  - cbn. by rewrite !N.eqb_refl.
  - destruct op; cbn; try by apply IH. case_match; [done|by apply IH].
Qed.

Lemma admissible_fits (s : S) ops : one_schema ops -> admissible s ops ops ∅ <-> fits_store s ops.
Proof.
  intros H1. unfold admissible, fits_store. apply and_iff_compat_l. split.
  - intros Hsc t sv a x Hin Hx. destruct (first_schema_exists _ _ _ _ Hin) as [a0 Ha0].
    rewrite (Hsc t sv a0 x) by (done || set_solver). eapply H1; [by apply first_schema_elem|done].
  - intros Hsc t sv a x _ Hf Hx. eapply Hsc; [by apply first_schema_elem|done].
Qed.

(** The schema a version is given stands after the batch. *)
Lemma stage_schema_lands (s : S) ops ws t sv a :
  inline_wf s -> Forall stage_wf ops -> one_schema ops -> fits_store s ops ->
  (forall w, w ∈ ws <-> batch_write s ops ∅ w) -> IS_Schema t sv a ∈ ops ->
  exists x, stored (kv_apply s ws) (K_Inline (IK_Schema t sv)) x /\ isv_arrow_schema x = a.
Proof.
  intros Hs Hops H1 [_ Hfit] Hws Hin.
  assert (Hkw : Key_wf (K_Inline (IK_Schema t sv))).
  { rewrite Forall_forall in Hops. destruct (Hops _ Hin). by repeat constructor. }
  destruct (kv_get s (Key_encode (K_Inline (IK_Schema t sv)))) as [b|] eqn:Eb.
  - destruct (Hs _ _ Eb) as (k & Ek & Hk & Hv); [by apply subspace_prefix_iff|].
    apply Key_encode_inj in Ek as [= <-]; [|done..]. destruct Hv as [x Hx].
    assert (Hst : stored s (K_Inline (IK_Schema t sv)) x) by (split; eauto).
    exists x. split; [|by eapply Hfit]. split; [done|]. rewrite (stage_schema_kept s ops ws t sv x) by done. eauto.
  - destruct (first_schema_exists _ _ _ _ Hin) as [a0 Ha0].
    assert (a0 = a) as -> by (eapply H1; [by apply first_schema_elem|done]).
    destruct (last_write_is_Some ws (Key_encode (K_Inline (IK_Schema t sv)))
      (Some (encode_value (mkInlineSchemaValue a)))) as [o Ho].
    { apply Hws. exists (IS_Schema t sv a). split_and!; [done|by split|set_solver|done]. }
    pose proof (batch_last s ops ws _ _ Hws Ho) as (op & Hin' & Hw). rewrite Forall_forall in Hops.
    destruct (op_write_typed s op _ Hs (Hops _ Hin') Hw) as (k & (Ek & Hk & _) & Hn & _).
    apply Key_encode_inj in Ek as [= <-]; [|done..]. destruct op as [t' sv' a'| | |]; cbn in Hn; try done.
    destruct Hn as [<- <-]. rewrite (H1 _ _ _ _ Hin' Hin) in Hw. destruct Hw as [[= ->] _].
    exists (mkInlineSchemaValue a). split; [|done]. split; [done|]. rewrite kv_get_apply, Ho. eexists. split; [done|].
    apply decode_encode_value.
Qed.

(** The chunks a flush of the batch drains are gone, unless written again. *)
Lemma stage_chunk_drained (s : S) ops ws t sv snap b c :
  inline_wf s -> Forall stage_wf ops -> (forall w, w ∈ ws <-> batch_write s ops ∅ w) ->
  IS_Flush t sv snap ∈ ops -> b <= snap -> Key_wf (live (IO_Insert t sv b c)) ->
  (forall r n body, IS_Insert t sv b c r n body ∉ ops) ->
  kv_get (kv_apply s ws) (Key_encode (live (IO_Insert t sv b c))) = None.
Proof.
  intros Hs Hops Hws Hin Hb Hkw Hno. rewrite kv_get_apply. pose proof Hops as Hall. rewrite Forall_forall in Hall.
  destruct (last_write ws _) as [o|] eqn:Eo.
  - pose proof (batch_last s ops ws _ _ Hws Eo) as (op & Hin' & Hw).
    destruct (op_write_typed s op _ Hs (Hall _ Hin') Hw) as (k & (Ek & Hk & _) & Hn & Hm).
    apply Key_encode_inj in Ek as [= <-]; [|done..].
    destruct op as [|t' sv' b' c' r' n' body'| |t' sv' snap']; cbn in Hn; try done.
    + destruct Hn as (<- & <- & <- & <-). by destruct (Hno r' n' body').
    + by destruct Hm.
  - destruct (kv_get s _) as [bs|] eqn:Eb; [|done]. exfalso.
    destruct (Hs _ _ Eb) as (k & Ek & Hk & Hv); [by apply subspace_prefix_iff|].
    apply Key_encode_inj in Ek as [= <-]; [|done..]. destruct Hv as [v Hv].
    destruct (flush_writes_ok s t sv snap (Hall _ Hin) Hs) as (fws & d & Ef & _ & _ & Hk').
    assert (Hel : Key_encode (live (IO_Insert t sv b c)) ∈ fws.*1).
    { apply Hk'. left. exists b, c, v. split_and!; [done..|]. split; eauto. }
    apply list_elem_of_fmap in Hel as ([kb ob] & E1 & Hel). cbn in E1. subst kb.
    destruct (last_write_is_Some ws (Key_encode (live (IO_Insert t sv b c))) ob) as [o Ho]; [|congruence].
    apply Hws. exists (IS_Flush t sv snap). split_and!; [done| |done]. by exists fws, d.
Qed.

(** Nothing is written but under the keys the operations name. *)
Lemma stage_elsewhere (s : S) ops ws kb :
  inline_wf s -> Forall stage_wf ops -> (forall w, w ∈ ws <-> batch_write s ops ∅ w) ->
  (forall op k, op ∈ ops -> Key_wf (K_Inline k) -> op_names op k -> kb <> Key_encode (K_Inline k)) ->
  kv_get (kv_apply s ws) kb = kv_get s kb.
Proof.
  intros Hs Hops Hws Hno. rewrite kv_get_apply. destruct (last_write ws kb) as [o|] eqn:Eo; [|done]. exfalso.
  pose proof (batch_last s ops ws _ _ Hws Eo) as (op & Hin & Hw). rewrite Forall_forall in Hops.
  destruct (op_write_typed s op _ Hs (Hops _ Hin) Hw) as (k & (Ek & Hk & _) & Hn & _). by apply (Hno op k).
Qed.

(** A chunk under a fresh key lands. *)
Lemma stage_chunk_lands (s : S) ops ws t sv b c r n body :
  inline_wf s -> Forall stage_wf ops -> (forall w, w ∈ ws <-> batch_write s ops ∅ w) ->
  kv_get s (Key_encode (live (IO_Insert t sv b c))) = None ->
  IS_Insert t sv b c r n body ∈ ops ->
  (forall r' n' body', IS_Insert t sv b c r' n' body' ∈ ops -> (r', n', body') = (r, n, body)) ->
  stored (kv_apply s ws) (live (IO_Insert t sv b c)) (mkInlineChunkValue body r n None).
Proof.
  intros Hs Hops Hws Hnone Hin Hu.
  assert (Hkw : Key_wf (live (IO_Insert t sv b c))).
  { rewrite Forall_forall in Hops. apply inline_insert_wf, (Hops _ Hin). }
  destruct (last_write_is_Some ws (Key_encode (live (IO_Insert t sv b c)))
    (Some (encode_value (mkInlineChunkValue body r n None)))) as [o Ho].
  { apply Hws. exists (IS_Insert t sv b c r n body). done. }
  pose proof (batch_last s ops ws _ _ Hws Ho) as (op & Hin' & Hw). rewrite Forall_forall in Hops.
  destruct (op_write_typed s op _ Hs (Hops _ Hin') Hw) as (k & (Ek & Hk & _) & Hn & Hm).
  apply Key_encode_inj in Ek as [= <-]; [|done..].
  destruct op as [|t' sv' b' c' r' n' body'| |t' sv' snap]; cbn in Hn; try done.
  - destruct Hn as (-> & -> & -> & ->). pose proof (Hu _ _ _ Hin') as [= -> -> ->].
    injection Hw as ->. split; [done|]. rewrite kv_get_apply, Ho. eexists. split; [done|].
    apply decode_encode_value.
  - destruct Hw as (fws & d & E & Hin2). pose proof (Hops _ Hin') as Ht'.
    destruct (flush_writes_ok s t' sv' snap Ht' Hs) as (ws' & d' & E' & _ & _ & Hk').
    rewrite E' in E. injection E as -> ->. apply (list_elem_of_fmap_2 fst), Hk' in Hin2 as [Hx|Hx].
    + destruct Hx as (b' & c' & v & Ek & _ & (Hkw' & bs & Hbs & _)).
      apply Key_encode_inj in Ek as [= <- <- <- <-]; [|done..]. congruence.
    + destruct Hx as (r' & b' & e & Ek & _ & _ & _ & (x & [Hkw' _] & _)).
      apply Key_encode_inj in Ek; done.
Qed.
End StageLaws.

(** ** Drop *)

Section DropLaws.
  Context {S : Type} `{KVLaws S, SKL : StorekeyLaws, MSL : MessagesLaws}.
Abbreviation live op := (K_Inline (IK_Live op)).

(** The inline records of one table. *)
Definition inline_of_table (t : N) (k : InlineKey) : Prop :=
  match k with
  | IK_Schema t' _ | IK_FileDeleteTable t'
  | IK_Live (IO_Insert t' _ _ _) | IK_Live (IO_InlineDelete t' _)
  | IK_Live (IO_FileDelete t' _ _) => t' = t
  | IK_Arch _ => False
  end.

Lemma scan_schemas_ok (s : S) t :
  u64 t -> inline_wf s -> exists l, run s (scan_inline_schemas t) = Ok l
    /\ forall sv x, (sv, x) ∈ l <-> stored s (K_Inline (IK_Schema t sv)) x.
Proof.
  intros Ht Hs. unfold scan_inline_schemas.
  match goal with |- context [run ?s (scan_decode ?p ?e)] =>
    destruct (scan_decode_ok s p e) as (l & E & Hin) end.
  - intros kb b Hg Hp. destruct (Hs kb b Hg) as (k & -> & Hk & Hv).
    { rewrite inline_schema_table_prefix_eq in Hp by done. destruct Hp as [r ->].
      rewrite subspace_prefix_eq, app_nil_r, <-!app_assoc. by apply prefix_app_r. }
    apply inline_schema_table_prefix_exact in Hp as (sv & [= ->]); [|done..].
    destruct Hv as [x Hx]. do 2 eexists. split_and!; [done..|]. cbn. by rewrite Hx.
  - exists l. split; [done|]. intros sv x. rewrite Hin. split.
    + intros (k & b & Hk & Hp & Hg & Hx).
      apply inline_schema_table_prefix_exact in Hp as (sv' & ->); [|done..].
      apply bind_Ok in Hx as (x' & Hd & [= -> ->]). split; eauto.
    + intros (Hk & b & Hg & Hd). eexists _, b. split_and!; [exact Hk| |done|cbn; by rewrite Hd].
      apply inline_schema_table_prefix_exact; eauto.
Qed.

(** The keys a drop deletes. *)
Lemma drop_writes_ok (s : S) t :
  u64 t -> inline_wf s -> exists ws, run s (translate_inline_drop t) = Ok ws
    /\ Forall (fun w => w.2 = None) ws
    /\ (forall kb, kb ∈ ws.*1 -> exists k, kb = Key_encode (K_Inline k) /\ Key_wf (K_Inline k) /\ inline_of_table t k)
    /\ forall k, Key_wf (K_Inline k) -> inline_of_table t k ->
         is_Some (kv_get s (Key_encode (K_Inline k))) -> Key_encode (K_Inline k) ∈ ws.*1.
Proof.
  intros Ht Hs. destruct (scan_chunks_ok s t Ht Hs) as (chunks & Ec & Hc).
  destruct (scan_inline_deletes_ok s t Ht Hs) as (dels & Ed & Hd).
  destruct (scan_file_deletes_ok s t Ht Hs) as (files & Ef & Hf).
  destruct (scan_schemas_ok s t Ht Hs) as (schemas & Es & Hsc).
  eexists. split.
  { unfold translate_inline_drop. rewrite (run_bind_Ok _ _ _ _ Ec), (run_bind_Ok _ _ _ _ Ed),
      (run_bind_Ok _ _ _ _ Ef), (run_bind_Ok _ _ _ _ Es). reflexivity. }
  split.
  { rewrite !Forall_app, !Forall_map. split_and!; try by apply Forall_true. by repeat constructor. }
  split.
  - intros kb. rewrite !fmap_app, !elem_of_app, <-!list_fmap_compose, !list_elem_of_fmap.
    intros [([op v] & -> & Hin)|[([r d] & -> & Hin)|[([[f r] d] & -> & Hin)|[([sv x] & -> & Hin)|Ek]]]].
    + apply Hc in Hin as [(sv & b & c & ->) [Hw _]]. by eexists.
    + apply Hd in Hin as [Hw _]. by eexists.
    + apply Hf in Hin as [Hw _]. by eexists.
    + apply Hsc in Hin as [Hw _]. by eexists.
    + destruct Ek as (w & -> & ->%list_elem_of_singleton). exists (IK_FileDeleteTable t). split_and!; [done| |done]. by repeat constructor.
  - intros k Hk Hof [b Hb]. rewrite !fmap_app, !elem_of_app, <-!list_fmap_compose, !list_elem_of_fmap.
    destruct (Hs _ _ Hb) as (k' & Ek & Hk' & Hv); [by apply subspace_prefix_iff|].
    apply Key_encode_inj in Ek as [= <-]; [|done..].
    destruct k as [t' sv|[t' sv b' c|t' r|t' f r]| |t']; cbn in Hof; try done; subst t'.
    + destruct Hv as [x Hx]. do 3 right. left. exists (sv, x). split; [done|]. apply Hsc. split; eauto.
    + destruct Hv as [v Hx]. left. exists (IO_Insert t sv b' c, v). split; [done|]. apply Hc.
      split; [eauto|]. split; eauto.
    + destruct Hv as [v Hx]. right. left. exists (r, v). split; [done|]. apply Hd. split; eauto.
    + destruct Hv as [v Hx]. do 2 right. left. exists (f, r, v). split; [done|]. apply Hf. split; eauto.
    + do 4 right. eexists. split; [|by apply list_elem_of_singleton]. done.
Qed.
End DropLaws.

(** ** Properties *)

(** C13: a flush drains exactly the chunks of its schema version begun at or before
    its snapshot.  It reports exactly the rows they carry; the rows a later scan of the
    table shows are exactly the surviving versions.  The tombstone of a row is removed
    exactly when it ended a drained version, so a survivor keeps its end unless that one
    tombstone also ended a drained version of the row, and then shows without an end.
    The table's other records and every other key are untouched. *)
Theorem inline_flush_exact {S} `{KVLaws S, SKL : StorekeyLaws, MSL : MessagesLaws}
    (s : S) (t sv snap : N) :
  u64 t -> inline_wf s ->
  let drained_version r b := b <= snap /\ version s t sv r b in
  exists ws drained rows',
    run s (translate_inline_flush_delete t sv snap) = Ok (ws, drained)
    /\ run (kv_apply s ws) (table_rows t) = Ok rows'
    /\ (forall r, r ∈ drained <-> exists b, drained_version r b)
    /\ (forall r e, tombstone (kv_apply s ws) t r e <->
          tombstone s t r e /\ ~ exists b, drained_version r b /\ b < e)
    /\ (forall r b e, (exists i o, mkInlineRow r b e i o ∈ rows') <->
          exists sv', version s t sv' r b /\ ~ (sv' = sv /\ b <= snap)
            /\ forall x, e = Some x <->
                 tombstone s t r x /\ b < x /\ ~ exists b', drained_version r b' /\ b' < x)
    /\ (forall k, Key_wf k -> (forall sv b c, k <> K_Inline (IK_Live (IO_Insert t sv b c))) ->
          (forall r, k <> K_Inline (IK_Live (IO_InlineDelete t r))) ->
          kv_get (kv_apply s ws) (Key_encode k) = kv_get s (Key_encode k)).
Proof.
  intros Ht Hs drained_version.
  destruct (flush_writes_ok s t sv snap Ht Hs) as (ws & drained & E & Hd & Hdr & _).
  destruct (flush_survivors s t sv snap ws drained Ht Hs E) as [Hv Htb].
  destruct (table_rows_ok (kv_apply s ws) t Ht) as (rows' & Er' & Hrows');
    [by apply inline_wf_deletes|].
  assert (Htb' : forall r e, tombstone (kv_apply s ws) t r e <->
    tombstone s t r e /\ ~ exists b, drained_version r b /\ b < e)
    by (intros r e; rewrite Htb; unfold drained_version; naive_solver).
  exists ws, drained, rows'. split_and!; [done..|exact Htb'| |].
  - intros r b e. rewrite Hrows'. unfold shows. setoid_rewrite Hv. setoid_rewrite Htb'.
    split; intros (sv' & H'); exists sv'; naive_solver.
  - intros k. by apply flush_elsewhere with (sv := sv) (snap := snap) (drained := drained).
Qed.

(** C22: the inline operations of a commit that names one schema for each version are
    accepted exactly when they fit the store: no row is tombstoned that a flush of the
    same commit drains, and the schema named for a version is the one recorded for it, if
    any; anything else is refused as a constraint violation.  Accepted, no recorded schema
    moves, the schema of every named version stands, every tombstone lands, every chunk
    under a fresh key lands, the chunks a flush drains are gone, every record of the
    subspace still decodes, and nothing is written but under the keys named. *)
Theorem stage_inline_exact {S} `{KVLaws S, SKL : StorekeyLaws, MSL : MessagesLaws}
    (s : S) (ops : list InlineStage) :
  inline_wf s -> Forall stage_wf ops -> one_schema ops ->
  (~ fits_store s ops -> run s (stage_inline_writes ops) = Err Constraint)
  /\ (fits_store s ops -> exists ws, run s (stage_inline_writes ops) = Ok ws
      /\ inline_wf (kv_apply s ws)
      /\ (forall t sv (x : InlineSchemaValue), stored s (K_Inline (IK_Schema t sv)) x ->
            stored (kv_apply s ws) (K_Inline (IK_Schema t sv)) x)
      /\ (forall t sv a, IS_Schema t sv a ∈ ops ->
            exists x, stored (kv_apply s ws) (K_Inline (IK_Schema t sv)) x /\ isv_arrow_schema x = a)
      /\ (forall t r e, IS_Tombstone t r e ∈ ops ->
            exists e', IS_Tombstone t r e' ∈ ops /\ tombstone (kv_apply s ws) t r e')
      /\ (forall t sv b c r n body, IS_Insert t sv b c r n body ∈ ops ->
            kv_get s (Key_encode (K_Inline (IK_Live (IO_Insert t sv b c)))) = None ->
            (forall r' n' body', IS_Insert t sv b c r' n' body' ∈ ops ->
               (r', n', body') = (r, n, body)) ->
            stored (kv_apply s ws) (K_Inline (IK_Live (IO_Insert t sv b c)))
              (mkInlineChunkValue body r n None))
      /\ (forall t sv snap b c, IS_Flush t sv snap ∈ ops -> b <= snap ->
            Key_wf (K_Inline (IK_Live (IO_Insert t sv b c))) ->
            (forall r n body, IS_Insert t sv b c r n body ∉ ops) ->
            kv_get (kv_apply s ws) (Key_encode (K_Inline (IK_Live (IO_Insert t sv b c)))) = None)
      /\ (forall kb, (forall op k, op ∈ ops -> Key_wf (K_Inline k) -> op_names op k -> kb <> Key_encode (K_Inline k)) ->
            kv_get (kv_apply s ws) kb = kv_get s kb)).
Proof.
  intros Hs Hops H1. pose proof (stage_inline_ok s ops Hs Hops) as Hok. pose proof (admissible_fits s ops H1) as Hadm.
  destruct (run s (stage_inline_writes ops)) as [ws|e] eqn:E.
  - destruct Hok as [Hfit%Hadm Hws]. split; [done|]. intros _. exists ws. split_and!; [done|..].
    + apply inline_wf_apply; [done|]. intros w Hw%Hws. left.
      destruct (batch_write_typed s ops ∅ w Hs Hops Hw) as (_ & k & _ & _ & ? & _). eauto.
    + intros t sv x Hx. destruct Hx as (Hk & b & Hb & Hd) eqn:Ex. split; [done|].
      rewrite (stage_schema_kept s ops ws t sv x); eauto.
    + intros t sv a. by apply stage_schema_lands.
    + intros t r e. apply stage_tombstone_lands; [done..|by apply admissible_fits|done].
    + intros t sv b c r n body Hin Hnone Hu. by apply (stage_chunk_lands s ops).
    + intros t sv snap b c Hin Hb Hk Hno. by apply (stage_chunk_drained s ops ws t sv snap).
    + intros kb. by apply stage_elsewhere.
  - destruct Hok as [-> Hno]. rewrite Hadm in Hno. split; [done|]. by intros ?.
Qed.

(** C29: dropping a table removes every live inline record it has (schemas, chunks,
    tombstones, file deletions, the existence marker) and leaves every other key of the
    store, of any subspace, as it was. *)
Theorem inline_drop_clears {S} `{KVLaws S, SKL : StorekeyLaws, MSL : MessagesLaws} (s : S) (t : N) :
  u64 t -> inline_wf s ->
  exists ws, run s (translate_inline_drop t) = Ok ws
    /\ (forall k, Key_wf (K_Inline k) -> inline_of_table t k ->
          kv_get (kv_apply s ws) (Key_encode (K_Inline k)) = None)
    /\ (forall kb, (forall k, Key_wf (K_Inline k) -> inline_of_table t k -> kb <> Key_encode (K_Inline k)) ->
          kv_get (kv_apply s ws) kb = kv_get s kb)
    /\ run (kv_apply s ws) (table_rows t) = Ok []
    /\ run (kv_apply s ws) (scan_inline_file_deletes t) = Ok []
    /\ run (kv_apply s ws) (read_inline_file_delete_table t) = Ok false.
Proof.
  intros Ht Hs. destruct (drop_writes_ok s t Ht Hs) as (ws & E & Hd & Hof & Hk).
  assert (Hgone : forall k, Key_wf (K_Inline k) -> inline_of_table t k ->
    kv_get (kv_apply s ws) (Key_encode (K_Inline k)) = None).
  { intros k Hkw Hkt. rewrite deletes_apply by done. case_decide as Hin; [done|].
    apply eq_None_not_Some. intros Hb. by apply Hin, Hk. }
  assert (Hs' : inline_wf (kv_apply s ws)) by (by apply inline_wf_deletes).
  exists ws. split_and!; [done|..].
  - exact Hgone.
  - intros kb Hno. rewrite deletes_apply by done. case_decide as Hin; [|done].
    apply Hof in Hin as (k & -> & Hkw & Hkt). by destruct (Hno k Hkw Hkt).
  - destruct (table_rows_ok _ t Ht Hs') as (rows & Er & Hrows). rewrite Er. f_equal.
    apply elem_of_nil_inv. intros [r b e i o] Hin.
    destruct (proj1 (Hrows r b e)) as (sv & (c & v & (Hkw & bs & Hb & _) & _) & _); [eauto|].
    rewrite Hgone in Hb; done.
  - destruct (scan_file_deletes_ok _ t Ht Hs') as (l & El & Hl). rewrite El. f_equal.
    apply elem_of_nil_inv. intros [[f r] d] (Hkw & bs & Hb & _)%Hl. rewrite Hgone in Hb; done.
  - unfold read_inline_file_delete_table.
    by rewrite (run_bind_Ok _ _ _ _ (run_singleton_none _ _ (Hgone (IK_FileDeleteTable t) Ht eq_refl))).
Qed.

(** ** Witnesses *)

(** Table 7 with two chunks of schema version 0 (rows 0-2 begun at 1, rows 10-11
    begun at 5), one of version 1, and a tombstone ending row 1 at snapshot 4. *)
Definition sample_inline_writes : list StagedWrite :=
  let _ := reference_storekey in let _ := reference_messages in
  [inline_schema_write 7 0 [x41]; inline_insert_write 7 0 1 0 0 3 [];
   inline_insert_write 7 0 5 0 10 2 []; inline_insert_write 7 1 6 0 20 1 [];
   inline_inline_delete_write 7 1 4].
Definition sample_inline : gmap bytes bytes := gmap_apply ∅ sample_inline_writes.

Section SampleInline.
Local Existing Instance reference_storekey.
Local Existing Instance reference_storekey_laws.
Local Existing Instance reference_messages.
Local Existing Instance reference_messages_laws.

Lemma sample_inline_elem kb b : kv_get sample_inline kb = Some b -> (kb, Some b) ∈ sample_inline_writes.
Proof.
  apply gmap_apply_elem.
Qed.

Lemma sample_inline_wf : inline_wf sample_inline.
Proof.
  change (inline_wf (kv_apply (∅ : gmap bytes bytes) sample_inline_writes)). apply inline_wf_apply.
  { intros kb b. unfold kv_get, gmap_kv. by rewrite lookup_empty. }
  intros w Hw. left. unfold sample_inline_writes in Hw. rewrite !elem_of_cons, elem_of_nil in Hw.
  destruct_or? Hw; try done; subst w; eexists; (split_and!; [reflexivity|by repeat constructor|]);
    eexists; apply decode_encode_value.
Qed.

Lemma sample_writes_elem kb b :
  (kb, Some b) ∈ sample_inline_writes ->
  kb = Key_encode (K_Inline (IK_Schema 7 0)) /\ b = encode_value (mkInlineSchemaValue [x41])
  \/ kb = Key_encode (K_Inline (IK_Live (IO_Insert 7 0 1 0)))
     /\ b = encode_value (mkInlineChunkValue [] 0 3 None)
  \/ kb = Key_encode (K_Inline (IK_Live (IO_Insert 7 0 5 0)))
     /\ b = encode_value (mkInlineChunkValue [] 10 2 None)
  \/ kb = Key_encode (K_Inline (IK_Live (IO_Insert 7 1 6 0)))
     /\ b = encode_value (mkInlineChunkValue [] 20 1 None)
  \/ kb = Key_encode (K_Inline (IK_Live (IO_InlineDelete 7 1)))
     /\ b = encode_value (mkInlineInlineDeleteValue 4).
Proof.
  unfold sample_inline_writes. rewrite !elem_of_cons, elem_of_nil.
  unfold inline_schema_write, inline_insert_write, inline_inline_delete_write.
  rewrite !pair_equal_spec. naive_solver.
Qed.

(** A record of the sample, read back. *)
Lemma sample_stored k (v : InlineChunkValue) :
  Key_wf k -> kv_get sample_inline (Key_encode k) = Some (encode_value v) -> stored sample_inline k v.
Proof. intros Hk Hg. split; [done|]. eexists. split; [exact Hg|]. apply decode_encode_value. Qed.

(** The chunks of the sample. *)
Lemma sample_versions sv r b :
  version sample_inline 7 sv r b <->
  sv = 0 /\ b = 1 /\ r < 3 \/ sv = 0 /\ b = 5 /\ 10 <= r < 12 \/ sv = 1 /\ b = 6 /\ r = 20.
Proof.
  split.
  - intros (c & v & (Hk & bs & Hb%sample_inline_elem & Hd) & Hcov).
    apply sample_writes_elem in Hb; destruct_or! Hb; destruct Hb as [Ek ->];
      apply Key_encode_inj in Ek; try done; try (by repeat constructor); injection Ek as -> -> ->;
      rewrite decode_encode_value in Hd; injection Hd as <-; destruct Hcov as (o & Ho & <-); cbn in Ho |- *;
      rewrite wrapping_add_exact by (unfold u64, u64_size; lia); lia.
  - intros [(-> & -> & Hr)|[(-> & -> & Hr)|(-> & -> & ->)]]; exists 0.
    + exists (mkInlineChunkValue [] 0 3 None). split; [apply sample_stored; [by repeat constructor|vm_compute; reflexivity]|].
      exists r. cbn. rewrite wrapping_add_exact by (unfold u64, u64_size; lia). lia.
    + exists (mkInlineChunkValue [] 10 2 None). split; [apply sample_stored; [by repeat constructor|vm_compute; reflexivity]|].
      exists (r - 10). cbn. rewrite wrapping_add_exact by (unfold u64, u64_size; lia). lia.
    + exists (mkInlineChunkValue [] 20 1 None). split; [apply sample_stored; [by repeat constructor|vm_compute; reflexivity]|].
      exists 0. cbn. rewrite wrapping_add_exact by (unfold u64, u64_size; lia). lia.
Qed.

Lemma sample_tombstones r e : tombstone sample_inline 7 r e -> r = 1 /\ e = 4.
Proof.
  intros (d & (Hk & bs & Hb%sample_inline_elem & Hd) & <-).
  apply sample_writes_elem in Hb; destruct_or! Hb; destruct Hb as [Ek ->];
    apply Key_encode_inj in Ek; try done; try (by repeat constructor). injection Ek as ->.
  rewrite decode_encode_value in Hd. by injection Hd as <-.
Qed.

Lemma inline_flush_exact_witness :
  exists ws drained rows',
    run sample_inline (translate_inline_flush_delete 7 0 3) = Ok (ws, drained)
    /\ drained = {[0; 1; 2]}
    /\ run (kv_apply sample_inline ws) (table_rows 7) = Ok rows'
    /\ map ir_row_id rows' = [10; 11; 20].
Proof.
  destruct (inline_flush_exact sample_inline 7 0 3 eq_refl sample_inline_wf) as
    (ws & drained & rows' & E & E' & _).
  exists ws, drained, rows'. split; [exact E|].
  assert (C : match run sample_inline (translate_inline_flush_delete 7 0 3) with
    | Ok (ws, drained) => bool_decide (drained = {[0; 1; 2]}) = true
        /\ match run (kv_apply sample_inline ws) (table_rows 7) with
           | Ok rows => map ir_row_id rows = [10; 11; 20] | Err _ => False end
    | Err _ => False end) by (vm_compute; split; reflexivity).
  rewrite E in C. destruct C as [C1 C2]. rewrite E' in C2.
  split; [by apply bool_decide_eq_true in C1|]. split; [exact E'|exact C2].
Defined.

Lemma stage_inline_exact_witness :
  run sample_inline (stage_inline_writes [IS_Flush 7 0 3; IS_Tombstone 7 2 9]) = Err Constraint
  /\ exists ws, run sample_inline (stage_inline_writes [IS_Flush 7 0 3; IS_Tombstone 7 10 9]) = Ok ws
       /\ tombstone (kv_apply sample_inline ws) 7 10 9.
Proof.
  assert (W : Forall stage_wf [IS_Flush 7 0 3; IS_Tombstone 7 2 9]) by (by repeat constructor).
  assert (W' : Forall stage_wf [IS_Flush 7 0 3; IS_Tombstone 7 10 9]) by (by repeat constructor).
  assert (N : forall r e, one_schema [IS_Flush 7 0 3; IS_Tombstone 7 r e])
    by (intros r e t sv a a' Hin; rewrite !elem_of_cons, elem_of_nil in Hin; by destruct_or! Hin).
  split.
  - apply (proj1 (stage_inline_exact sample_inline _ sample_inline_wf W (N 2 9))). intros [Ha _].
    apply (Ha 7 0 3 2 9); [rewrite !elem_of_cons; auto..|]. exists 1. split; [lia|]. apply sample_versions. lia.
  - destruct (proj2 (stage_inline_exact sample_inline _ sample_inline_wf W' (N 10 9))) as
      (ws & E & _ & _ & _ & Ht & _).
    { split; [|intros t sv a x Hin; rewrite !elem_of_cons, elem_of_nil in Hin; by destruct_or! Hin]. intros t sv snap r e Hf Hr.
      rewrite !elem_of_cons, elem_of_nil in Hf, Hr. destruct_or! Hf; destruct_or! Hr; try done.
      injection Hf as -> -> ->. injection Hr as -> ->. intros (b & Hb & Hv%sample_versions). lia. }
    exists ws. split; [exact E|]. destruct (Ht 7 10 9) as (e' & Hin & Htb); [rewrite !elem_of_cons; auto|].
    assert (e' = 9) as -> by (clear -Hin; rewrite !elem_of_cons, elem_of_nil in Hin; naive_solver).
    exact Htb.
Defined.

Lemma inline_drop_clears_witness :
  exists ws, run sample_inline (translate_inline_drop 7) = Ok ws
    /\ run (kv_apply sample_inline ws) (table_rows 7) = Ok [].
Proof.
  destruct (inline_drop_clears sample_inline 7 eq_refl sample_inline_wf) as (ws & E & _ & _ & R & _).
  exists ws. split; [exact E|exact R].
Defined.
End SampleInline.

(** The schema check resolves a version once per commit.  Two chunks of a fresh
    version whose schemas differ are both accepted in one commit: only the first
    schema is recorded, and the second chunk stands under a schema it was not
    written with. *)
Theorem second_schema_dropped {S} `{KVLaws S, SKL : StorekeyLaws, MSL : MessagesLaws}
    (s : S) (t sv b : N) (a a' body body' : bytes) (r n n' : N) :
  run s (read_inline_schema t sv) = Ok None ->
  run s (stage_inline_writes
    [IS_Schema t sv a; IS_Insert t sv b 0 r n body;
     IS_Schema t sv a'; IS_Insert t sv b 1 (r + n) n' body'])
  = Ok [inline_schema_write t sv a; inline_insert_write t sv b 0 r n body;
        inline_insert_write t sv b 1 (r + n) n' body'].
Proof.
  intros Hnone. unfold stage_inline_writes. cbn [stage_inline_loop].
  rewrite bool_decide_false by set_solver.
  assert (E : run s (schema_write_if_new t sv a) = Ok (Some (inline_schema_write t sv a))).
  { unfold schema_write_if_new. by rewrite (run_bind_Ok _ _ _ _ Hnone). }
  rewrite (run_bind_Ok _ _ _ _ E). by rewrite bool_decide_true by set_solver.
Qed.

Lemma second_schema_dropped_witness :
  let _ := reference_storekey in let _ := reference_messages in
  run (∅ : gmap bytes bytes) (stage_inline_writes
    [IS_Schema 7 0 [x41]; IS_Insert 7 0 3 0 0 2 []; IS_Schema 7 0 [x42]; IS_Insert 7 0 3 1 2 2 []])
  = Ok [inline_schema_write 7 0 [x41]; inline_insert_write 7 0 3 0 0 2 [];
        inline_insert_write 7 0 3 1 2 2 []].
Proof.
  exact (@second_schema_dropped _ gmap_kv gmap_kv_laws reference_storekey reference_storekey_laws
    reference_messages reference_messages_laws ∅ 7 0 3 [x41] [x42] [] [] 0 2 2 eq_refl).
Defined.

(** A row's tombstone is one record, so a second update of an inlined row
    overwrites the end of its first version.  A row inserted at 1, updated at 5 and
    updated again at 7 is shown twice by a table scan at snapshot 6, and the
    deletions of the first update are lost. *)
Theorem updated_row_shown_twice :
  let _ := reference_storekey in let _ := reference_messages in
  let write := fun (s : gmap bytes bytes) ops =>
    match run s (stage_inline_writes ops) with Ok ws => kv_apply s ws | Err _ => s end in
  let insert := write ∅ [IS_Schema 7 0 []; IS_Insert 7 0 1 0 0 1 []] in
  let update := write insert [IS_Tombstone 7 0 5; IS_Insert 7 0 5 0 0 1 []] in
  let again := write update [IS_Tombstone 7 0 7; IS_Insert 7 0 7 0 0 1 []] in
  (exists rows, run update (table_rows 7) = Ok rows
     /\ map ir_row_id (select ISK_Table rows 6 0) = [0]
     /\ map ir_row_id (select ISK_Deletions rows 5 5) = [0])
  /\ (exists rows, run again (table_rows 7) = Ok rows
     /\ map ir_row_id (select ISK_Table rows 6 0) = [0; 0]
     /\ select ISK_Deletions rows 5 5 = []).
Proof. cbv zeta. split; (eexists; split; [vm_compute; reflexivity|]); vm_compute; split; reflexivity. Qed.

(** A row's one tombstone serves its versions under every schema version, and a flush
    of one of them takes it away.  A row inserted at 1 under schema version 0, updated
    at 5 under schema version 1 and deleted at 6 is dead at snapshot 7; after the flush
    of schema version 0 at snapshot 5 a table scan at 7 shows it again. *)
Theorem flush_revives_row :
  let _ := reference_storekey in let _ := reference_messages in
  let write := fun (s : gmap bytes bytes) ops =>
    match run s (stage_inline_writes ops) with Ok ws => kv_apply s ws | Err _ => s end in
  let insert := write ∅ [IS_Schema 7 0 [x41]; IS_Insert 7 0 1 0 0 1 []] in
  let update := write insert [IS_Tombstone 7 0 5; IS_Schema 7 1 [x42]; IS_Insert 7 1 5 0 0 1 []] in
  let deleted := write update [IS_Tombstone 7 0 6] in
  let flushed := write deleted [IS_Flush 7 0 5] in
  (exists rows, run deleted (table_rows 7) = Ok rows /\ select ISK_Table rows 7 0 = [])
  /\ (exists rows, run flushed (table_rows 7) = Ok rows
     /\ map (fun r => (ir_row_id r, ir_end_snapshot r)) (select ISK_Table rows 7 0) = [(0, None)]).
Proof. cbv zeta. split; (eexists; split; [vm_compute; reflexivity|]); vm_compute; reflexivity. Qed.
