(* ===== verification/IndexMaintenance.v ===== *)
(** Index entries ([transaction/index_maintenance.rs]): staging the entries a
    commit supplies, with uniqueness enforced at commit, poisoning of building
    indexes, reclamation of dropped ones, and the point, range and null-prefix
    lookups that serve reads. *)
From stdpp Require Import gmap strings list fin_maps sorting.
From Stdlib Require Import NArith ZArith Lia Strings.Byte.
From S2P Require Import Prelude Storekey KeyLayout IndexEncoding Values Snapshot Store.

Local Open Scope N_scope.

(** ** Data *)

Record StagedIndexEntry : Type := mkStagedIndexEntry {
  se_index_id : N;
  se_unique : bool;
  se_key : CanonicalKey;
  se_row_id : N;
  se_delete : bool;
  se_building : bool;
}.

Record StagedEntries : Type := mkStagedEntries {
  ses_poisoned : list N;
  ses_deferred : list N;
  ses_bytes : N;
}.

Record PendingProbe : Type := mkPendingProbe {
  pp_key : bytes;
  pp_row_id : N;
  pp_index_id : N;
  pp_building : bool;
}.

Definition UNIQUENESS_PROBE_GROUP : nat := Eval compute in 1024%nat.
Definition MAX_INDEX_ENTRIES_PER_COMMIT : N := 8000000.

(** [StagedBytes::add]. *)
Definition staged_add (staged : N) (key value : nat) : N :=
  saturating_add (saturating_add staged (N.of_nat key)) (N.of_nat value).

(** [entry_key]. *)
Definition entry_key (entry : StagedIndexEntry) : Key :=
  if se_unique entry then K_Index (XK_Unique (se_index_id entry) (se_key entry))
  else K_Index (XK_Multi (se_index_id entry) (se_key entry) (se_row_id entry)).

(** [u64::to_be_bytes], [decode_row_id]. *)
Definition row_id_bytes (row_id : N) : bytes := be_bytes 8 row_id.
Definition decode_row_id (b : bytes) : result N :=
  if (length b =? 8)%nat then Ok (be_value b) else Err Corruption.

(** [collision]: the verdict, and the poisoned list. *)
Definition collision (probe_index_id : N) (building : bool) (poisoned : list N)
  : option Error * list N :=
  if building then (None, poisoned ++ [probe_index_id]) else (Some Constraint, poisoned).

Section Staging.
  Context {S : Type} `{KV S, SK : Storekey}.

(** The reads of [resolve_probes]: none for a value this batch deletes. *)
Fixpoint read_held (deleted_unique : gset bytes) (pending : list PendingProbe)
  : Reader (list (option bytes)) :=
  match pending with
  | [] => mret []
  | probe :: pending =>
      if bool_decide (pp_key probe ∈ deleted_unique) then
        held ← read_held deleted_unique pending; mret (None :: held)
      else RGet (pp_key probe) (fun present =>
        held ← read_held deleted_unique pending; mret (present :: held))
  end.

(** The loop of [resolve_probes], in batch order. *)
Fixpoint resolve_loop (held : list (PendingProbe * option bytes)) (poisoned : list N) (staged : N)
  : Tx S (list N * N) :=
  match held with
  | [] => mret (poisoned, staged)
  | (probe, present) :: held =>
      match present with
      | Some b =>
          match decode_row_id b with
          | Err e => tx_fail e
          | Ok row_id =>
              if negb (row_id =? pp_row_id probe) then
                match collision (pp_index_id probe) (pp_building probe) poisoned with
                | (Some error, _) => tx_fail error
                | (None, poisoned) => resolve_loop held poisoned staged
                end
              else resolve_loop held poisoned staged
          end
      | None =>
          _ ← tx_put (pp_key probe) (row_id_bytes (pp_row_id probe));
          resolve_loop held poisoned (staged_add staged (length (pp_key probe)) 8)
      end
  end.

(** [resolve_probes]. *)
Definition resolve_probes (deleted_unique : gset bytes) (pending : list PendingProbe)
    (poisoned : list N) (staged : N) : Tx S (list N * N) :=
  held ← tx_read (read_held deleted_unique pending);
  resolve_loop (zip pending held) poisoned staged.

(** The deletes of [stage_index_entries]. *)
Fixpoint stage_deletes (entries : list StagedIndexEntry) (deleted_unique : gset bytes) (staged : N)
  : Tx S (gset bytes * N) :=
  match entries with
  | [] => mret (deleted_unique, staged)
  | entry :: entries =>
      let key_bytes := Key_encode (entry_key entry) in
      let deleted_unique :=
        if se_unique entry then {[key_bytes]} ∪ deleted_unique else deleted_unique in
      _ ← tx_delete key_bytes;
      stage_deletes entries deleted_unique (staged_add staged (length key_bytes) 0)
  end.

(** The puts: non-unique ones at once, unique ones one probe per distinct key,
    resolved a group at a time. *)
Fixpoint stage_puts (deleted_unique : gset bytes) (entries : list StagedIndexEntry)
    (pending : list PendingProbe) (claimed : gmap bytes N) (poisoned : list N) (staged : N)
  : Tx S (list N * N) :=
  match entries with
  | [] => resolve_probes deleted_unique pending poisoned staged
  | entry :: entries =>
      let key_bytes := Key_encode (entry_key entry) in
      if negb (se_unique entry) then
        _ ← tx_put key_bytes [];
        stage_puts deleted_unique entries pending claimed poisoned
          (staged_add staged (length key_bytes) 0)
      else
        match claimed !! key_bytes with
        | Some holder =>
            if negb (holder =? se_row_id entry) then
              match collision (se_index_id entry) (se_building entry) poisoned with
              | (Some error, _) => tx_fail error
              | (None, poisoned) => stage_puts deleted_unique entries pending claimed poisoned staged
              end
            else stage_puts deleted_unique entries pending claimed poisoned staged
        | None =>
            let claimed := <[key_bytes := se_row_id entry]> claimed in
            let pending := pending ++ [mkPendingProbe key_bytes (se_row_id entry)
              (se_index_id entry) (se_building entry)] in
            if (UNIQUENESS_PROBE_GROUP <=? length pending)%nat then
              '(poisoned, staged) ← resolve_probes deleted_unique pending poisoned staged;
              stage_puts deleted_unique entries [] claimed poisoned staged
            else stage_puts deleted_unique entries pending claimed poisoned staged
        end
  end.

(** [stage_index_entries]. *)
Definition stage_index_entries (entries : list StagedIndexEntry) : Tx S StagedEntries :=
  if MAX_INDEX_ENTRIES_PER_COMMIT <? N.of_nat (length entries) then tx_fail Constraint
  else
    '(deleted_unique, staged) ←
      stage_deletes (filter (fun entry => se_delete entry = true) entries) ∅ 0;
    '(poisoned, staged) ←
      stage_puts deleted_unique (filter (fun entry => se_delete entry = false) entries) [] ∅ [] staged;
    mret (mkStagedEntries (in_order N.le (list_to_set poisoned)) [] staged).

(** ** Reclamation *)

(** The deletes of [reclaim_entries_from], in scan order. *)
Fixpoint reclaim_keys (keys : list bytes) (staged : N) : Tx S N :=
  match keys with
  | [] => mret staged
  | key :: keys => _ ← tx_delete key; reclaim_keys keys (staged_add staged (length key) 0)
  end.

(** [reclaim_entries_from]: how many entries went, the last of them, and the bytes. *)
Definition reclaim_entries_from (kind : IndexKind) (index_id : N) (limit : nat)
    (start_from : option bytes) (staged : N) : Tx S (nat * option bytes * N) :=
  let prefix := index_index_prefix kind index_id in
  let suffix := match start_from with
    | Some key => if (length prefix <=? length key)%nat then drop (length prefix) key else []
    | None => []
    end in
  entries ← tx_read (scan_prefix_ordered prefix (Included suffix) Unbounded ScanAscending);
  let keys := map fst (take limit entries) in
  staged ← reclaim_keys keys staged;
  mret (length keys, last keys, staged).

(** [reclaim_entries]. *)
Definition reclaim_entries (index_id : N) (limit : nat) (staged : N) : Tx S (nat * N) :=
  if (limit <=? 0)%nat then mret (0%nat, staged)
  else
    '(unique, _, staged) ← reclaim_entries_from IndexUnique index_id limit None staged;
    if (limit <=? unique)%nat then mret (unique, staged)
    else
      '(multi, _, staged) ← reclaim_entries_from IndexMulti index_id (limit - unique) None staged;
      mret ((unique + multi)%nat, staged).
End Staging.

(** ** Poison and deferral *)

Definition xv_set_poisoned (x : option bool) (v : IndexValue) : IndexValue :=
  mkIndexValue (xv_index_id v) (xv_table_id v) (xv_begin_snapshot v) (xv_end_snapshot v)
    (xv_index_name v) (xv_column_ids v) (xv_unique v) (xv_column_descending v)
    (xv_column_nulls_first v) (xv_build_state v) (xv_build_cursor_file v) (xv_build_cursor_row_id v)
    (xv_build_cursor_position v) (xv_build_deletes_scanned v) x (xv_ducklake_index_id v)
    (xv_deferred_maintenance v).

(** [apply_poison]. *)
Definition apply_poison (poisoned : list N) (state : CatalogSnapshot) : CatalogSnapshot :=
  foldl (fun state index_id =>
    set_indexes (fmap (fun per_table =>
      alter (xv_set_poisoned (Some true)) index_id per_table)) state) state poisoned.

(** The start of a repair: the definition is marked, its cursor past what the old
    snapshot held. *)
Definition begin_maintaining (new_snapshot : N) (cursor_row_id : option N) (tail : option DataFileValue)
    (v : IndexValue) : IndexValue :=
  mkIndexValue (xv_index_id v) (xv_table_id v) new_snapshot (xv_end_snapshot v)
    (xv_index_name v) (xv_column_ids v) (xv_unique v) (xv_column_descending v)
    (xv_column_nulls_first v) (Some "maintaining"%string)
    (Some (match tail with Some file => df_data_file_id file | None => 0 end)) cursor_row_id
    (Some (match tail with Some file => saturating_sub (df_record_count file) 1 | None => 0 end))
    (xv_build_deletes_scanned v) (xv_poisoned v) (xv_ducklake_index_id v)
    (xv_deferred_maintenance v).

(** [max_by_key]: the last of the greatest. *)
Definition max_file (files : gmap N DataFileValue) : option DataFileValue :=
  foldl (fun best file =>
    match best with
    | Some b => if df_data_file_id b <=? df_data_file_id file then Some file else best
    | None => Some file
    end) None (btree_values files).

(** [apply_deferred_maintenance]. *)
Definition apply_deferred_maintenance (base state : CatalogSnapshot) (deferred : list N)
    (new_snapshot : N) : CatalogSnapshot :=
  foldl (fun state index_id =>
    set_indexes (map_imap (fun table_id per_table =>
      Some (alter (fun value =>
        match xv_build_state value with
        | Some _ => value
        | None =>
            begin_maintaining new_snapshot
              (stats ← cs_table_stats base !! table_id; checked_sub (ts_next_row_id stats) 1)
              (files ← cs_data_files base !! table_id; max_file files) value
        end) index_id per_table))) state) state deferred.

(** ** Lookups *)

Section Lookups.
  Context `{SK : Storekey}.

(** The row ids of scanned non-unique entries. *)
Definition multi_row_id (key : bytes) : result N :=
  k ← Key_decode key;
  match k with K_Index (XK_Multi _ _ row_id) => Ok row_id | _ => Err Corruption end.

(** [lookup_row_ids]. *)
Definition lookup_row_ids (index_id : N) (unique : bool) (key : CanonicalKey) : Reader (list N) :=
  if unique then
    RGet (Key_encode (K_Index (XK_Unique index_id key))) (fun present =>
      match present with
      | Some b => lift (row_id ← decode_row_id b; Ok [row_id])
      | None => mret []
      end)
  else
    entries ← scan_prefix_ordered (index_multi_value_prefix index_id key) Unbounded Unbounded
      ScanAscending;
    lift (collect (fun entry => multi_row_id entry.1) entries).

(** The bounds of [range_row_ids]. *)
Definition range_start (kind : IndexKind) (index_id : N) (leading_nulls : NullOrder)
    (lower : Bound CanonicalKey) : Bound bytes :=
  match lower with
  | Included canon => Included (index_value_suffix kind index_id canon)
  | Excluded canon =>
      match index_value_above kind index_id canon with
      | Some above => Included above
      | None => Excluded (index_value_suffix kind index_id canon)
      end
  | Unbounded => Included (index_value_body kind index_id (non_null_flag_key leading_nulls))
  end.

Definition past_non_null (kind : IndexKind) (index_id : N) (leading_nulls : NullOrder) : Bound bytes :=
  match index_value_above kind index_id (non_null_flag_key leading_nulls) with
  | Some above => Excluded above
  | None => Unbounded
  end.

Definition range_end (kind : IndexKind) (index_id : N) (leading_nulls : NullOrder)
    (upper : Bound CanonicalKey) : Bound bytes :=
  match upper with
  | Included canon =>
      match index_value_above kind index_id canon with
      | Some above => Excluded above
      | None => past_non_null kind index_id leading_nulls
      end
  | Excluded canon => Excluded (index_value_suffix kind index_id canon)
  | Unbounded => past_non_null kind index_id leading_nulls
  end.

(** [range_row_ids]. *)
Definition range_row_ids (index_id : N) (unique : bool) (leading_nulls : NullOrder)
    (lower upper : Bound CanonicalKey) (order : ScanOrder) : Reader (list N) :=
  let kind := if unique then IndexUnique else IndexMulti in
  entries ← scan_prefix_ordered (index_index_prefix kind index_id)
    (range_start kind index_id leading_nulls lower) (range_end kind index_id leading_nulls upper) order;
  lift (collect (fun entry => if unique then decode_row_id entry.2 else multi_row_id entry.1) entries).

(** [null_prefix_row_ids]: the terminator popped off the value prefix. *)
Definition null_prefix_row_ids (index_id : N) (prefix : CanonicalKey) (order : ScanOrder)
  : Reader (list N) :=
  let framed := index_multi_value_prefix index_id prefix in
  entries ← scan_prefix_ordered (take (length framed - 1) framed) Unbounded Unbounded order;
  lift (collect (fun entry => multi_row_id entry.1) entries).
End Lookups.

(** ** What staging does *)

Lemma decode_row_id_bytes r : u64 r -> decode_row_id (row_id_bytes r) = Ok r.
Proof.
  intros Hr. unfold decode_row_id, row_id_bytes. rewrite length_be_bytes, Nat.eqb_refl.
  by rewrite be_value_bytes.
Qed.

Section StagingLaws.
  Context {S : Type} `{KVLaws S, SKL : StorekeyLaws}.

Abbreviation ekey e := (Key_encode (entry_key e)).

(** The ids of an entry are [u64]s. *)
Definition entry_wf (e : StagedIndexEntry) : Prop := u64 (se_index_id e) /\ u64 (se_row_id e).

(** The index subspace holds only index keys, and a unique entry names its row. *)
Definition index_wf (s : S) : Prop :=
  forall kb b, kv_get s kb = Some b -> subspace_prefix IndexSpace `prefix_of` kb ->
  exists k, kb = Key_encode (K_Index k) /\ Key_wf (K_Index k)
    /\ match k with XK_Unique _ _ => exists r, u64 r /\ b = row_id_bytes r | XK_Multi _ _ _ => True end.

(** The first claim of a key among the entries. *)
Fixpoint first_claim (entries : list StagedIndexEntry) (kb : bytes) : option StagedIndexEntry :=
  match entries with
  | [] => None
  | e :: entries =>
      if se_unique e && bool_decide (ekey e = kb) then Some e else first_claim entries kb
  end.

(** A non-unique entry among the puts. *)
Definition multi_put (entries : list StagedIndexEntry) (kb : bytes) : bool :=
  existsb (fun e => negb (se_unique e) && bool_decide (ekey e = kb)) entries.

(** Another row holds the value. *)
Definition held_by_other (held : option bytes) (row_id : N) : Prop :=
  exists b r, held = Some b /\ decode_row_id b = Ok r /\ r <> row_id.

Definition pending_row (pending : list PendingProbe) (kb : bytes) : option N :=
  (list_to_map (map (fun p => (pp_key p, pp_row_id p)) pending) : gmap bytes N) !! kb.

(** A tx whose resolution is still pending holds this. *)
Definition resolved (v0 : bytes -> option bytes) (s : S) (pending : list PendingProbe) (kb : bytes)
  : option bytes :=
  match pending_row pending kb with
  | Some r => Some (default (row_id_bytes r) (v0 kb))
  | None => kv_get s kb
  end.

Definition clashing (v0 : bytes -> option bytes) (p : PendingProbe) : Prop :=
  held_by_other (v0 (pp_key p)) (pp_row_id p).

Lemma entry_key_wf e : entry_wf e -> Key_wf (entry_key e).
Proof. intros [??]. unfold entry_key. by case_match. Qed.

Lemma unique_multi_keys e e' :
  entry_wf e -> entry_wf e' -> se_unique e = true -> se_unique e' = false -> ekey e <> ekey e'.
Proof.
  intros He He' Hu Hu' Ek. apply Key_encode_inj in Ek; [|by apply entry_key_wf..].
  unfold entry_key in Ek. rewrite Hu, Hu' in Ek. done.
Qed.

Lemma first_claim_Some entries kb e :
  first_claim entries kb = Some e -> e ∈ entries /\ se_unique e = true /\ ekey e = kb.
Proof.
  induction entries as [|x l IH]; cbn; [done|].
  destruct (se_unique x) eqn:Eu; cbn; [case_bool_decide as Ek|].
  - intros [= <-]. split_and!; [by left|done..].
  - intros ?%IH. set_solver.
  - intros ?%IH. set_solver.
Qed.

Lemma first_claim_of entries e :
  e ∈ entries -> se_unique e = true -> exists c, first_claim entries (ekey e) = Some c.
Proof.
  induction entries as [|x l IH]; [set_solver|]. intros Hin Hu. cbn.
  destruct (se_unique x && bool_decide (ekey x = ekey e)) eqn:E; [by eexists|].
  apply elem_of_cons in Hin as [<-|Hin]; [|by apply IH].
  rewrite Hu, bool_decide_true in E; done.
Qed.

Lemma multi_put_true entries kb :
  multi_put entries kb = true <-> exists e, e ∈ entries /\ se_unique e = false /\ ekey e = kb.
Proof.
  unfold multi_put. rewrite existsb_exists. setoid_rewrite <-list_elem_of_In.
  setoid_rewrite andb_true_iff. setoid_rewrite negb_true_iff. setoid_rewrite bool_decide_eq_true. done.
Qed.

Lemma pending_row_snoc pending p kb :
  pp_key p ∉ map pp_key pending ->
  pending_row (pending ++ [p]) kb = if decide (pp_key p = kb) then Some (pp_row_id p) else pending_row pending kb.
Proof.
  intros Hn. unfold pending_row. rewrite map_app, list_to_map_app. cbn [map list_to_map foldr uncurry fst snd].
  case_decide as E.
  - subst kb. rewrite lookup_union_r, lookup_insert_eq; [done|].
    apply not_elem_of_list_to_map_1. intros ([k r] & Ek & Hin)%list_elem_of_fmap.
    apply Hn. rewrite Ek. apply list_elem_of_In, in_map_iff in Hin as (p' & [= <- <-] & Hin). cbn.
    apply list_elem_of_In, in_map_iff. eauto.
  - by rewrite insert_empty, lookup_union, lookup_singleton_ne, (right_id_L None (∪)).
Qed.

Lemma pending_row_Some pending kb r :
  pending_row pending kb = Some r -> exists p, p ∈ pending /\ pp_key p = kb /\ pp_row_id p = r.
Proof.
  unfold pending_row. intros Hl%elem_of_list_to_map_2. apply list_elem_of_In, in_map_iff in Hl as (p & [= <- <-] & Hin).
  exists p. by rewrite list_elem_of_In.
Qed.

Lemma pending_row_elem pending p :
  NoDup (map pp_key pending) -> p ∈ pending -> pending_row pending (pp_key p) = Some (pp_row_id p).
Proof.
  intros Hn Hin. unfold pending_row. apply elem_of_list_to_map_1.
  - rewrite <-list_fmap_compose. exact Hn.
  - apply list_elem_of_In, in_map_iff. exists p. by rewrite <-list_elem_of_In.
Qed.
Lemma read_held_ok (s : S) deleted pending :
  (forall p, p ∈ pending -> pp_key p ∈ deleted -> kv_get s (pp_key p) = None) ->
  run s (read_held deleted pending) = Ok (map (fun p => kv_get s (pp_key p)) pending).
Proof.
  induction pending as [|p pending IH]; intros Hd; cbn [read_held map]; [done|].
  assert (E := IH ltac:(intros q Hq; apply Hd; by right)). case_bool_decide as Hin.
  - rewrite (run_bind_Ok _ _ _ _ E), Hd; [done|by left|done].
  - cbn [run]. by rewrite (run_bind_Ok _ _ _ _ E).
Qed.

(** Where the held values stand as [v0] says, resolution refuses exactly a clash of
    an index in service, poisons exactly the building indexes that clash, and leaves
    each pending key resolved. *)
Lemma resolve_loop_ok v0 (s : S) pending poisoned staged :
  NoDup (map pp_key pending) ->
  (forall p b, p ∈ pending -> v0 (pp_key p) = Some b -> exists r, decode_row_id b = Ok r) ->
  (forall p, p ∈ pending -> kv_get s (pp_key p) = v0 (pp_key p)) ->
  match resolve_loop (map (fun p => (p, v0 (pp_key p))) pending) poisoned staged s with
  | Ok (poisoned', _, s') =>
      (forall p, p ∈ pending -> clashing v0 p -> pp_building p = true)
      /\ (forall i, i ∈ poisoned' <->
            i ∈ poisoned \/ exists p, p ∈ pending /\ clashing v0 p /\ pp_index_id p = i)
      /\ (forall kb, kv_get s' kb = resolved v0 s pending kb)
  | Err e => e = Constraint /\ exists p, p ∈ pending /\ clashing v0 p /\ pp_building p = false
  end.
Proof.
  revert s poisoned staged. induction pending as [|p pending IH]; intros s poisoned staged Hn Hdec Hv.
  { cbn. split_and!; [set_solver|set_solver|done]. }
  cbn [map] in Hn. apply NoDup_cons in Hn as [Hp Hn]. cbn [map resolve_loop].
  assert (Hrow : forall kb, pending_row (p :: pending) kb
    = if decide (pp_key p = kb) then Some (pp_row_id p) else pending_row pending kb).
  { intros kb. unfold pending_row. cbn [map list_to_map foldr uncurry fst snd].
    case_decide; [subst; apply lookup_insert_eq|by rewrite lookup_insert_ne]. }
  assert (Hpn : pending_row pending (pp_key p) = None).
  { destruct (pending_row pending (pp_key p)) as [r|] eqn:E; [|done]. exfalso.
    apply pending_row_Some in E as (q & Hq & Ek & _). apply Hp. rewrite <-Ek.
    apply list_elem_of_In, in_map. by apply list_elem_of_In. }
  assert (Hskip : forall poisoned', is_Some (v0 (pp_key p)) ->
    (clashing v0 p -> pp_building p = true) ->
    (forall i, i ∈ poisoned' <-> i ∈ poisoned \/ clashing v0 p /\ pp_index_id p = i) ->
    match resolve_loop (map (fun p => (p, v0 (pp_key p))) pending) poisoned' staged s with
    | Ok (poisoned', _, s') =>
        (forall q, q ∈ p :: pending -> clashing v0 q -> pp_building q = true)
        /\ (forall i, i ∈ poisoned' <->
              i ∈ poisoned \/ exists q, q ∈ p :: pending /\ clashing v0 q /\ pp_index_id q = i)
        /\ (forall kb, kv_get s' kb = resolved v0 s (p :: pending) kb)
    | Err e => e = Constraint /\ exists q, q ∈ p :: pending /\ clashing v0 q /\ pp_building q = false
    end).
  { intros poisoned' [b Hb] Hbu Hpo. specialize (IH s poisoned' staged Hn
      ltac:(intros q b' Hq; apply Hdec; by right) ltac:(intros q Hq; apply Hv; by right)).
    destruct resolve_loop as [[[po st] s']|e]; setoid_rewrite elem_of_cons; [|naive_solver].
    destruct IH as (IHb & IHp & IHk). split_and!; [naive_solver|intros i; rewrite IHp, Hpo; naive_solver|].
    intros kb. rewrite IHk. unfold resolved. rewrite Hrow. case_decide as E; [|done].
    subst kb. rewrite Hpn, Hv, Hb by (by left). done. }
  destruct (v0 (pp_key p)) as [b|] eqn:Eb.
  - destruct (Hdec p b ltac:(by left) Eb) as [r Hr]. rewrite Hr.
    destruct (N.eqb_spec r (pp_row_id p)) as [->|Hne]; cbn [negb].
    + assert (Hnc : ~ clashing v0 p).
      { intros (b' & r' & Eb' & Hr' & Hne). rewrite Eb in Eb'. injection Eb' as <-. congruence. }
      apply Hskip; [by eexists|done|]. intros i. split; [by left|by intros [?|[? _]]].
    + assert (Hcl : clashing v0 p) by (exists b, r; by rewrite Eb).
      unfold collision. destruct (pp_building p) eqn:Ebu.
      * apply Hskip; [by eexists|done|]. intros i. rewrite elem_of_app, list_elem_of_singleton.
        split; intros [?|Hi]; [by left|right|by left|right]; [by split|by destruct Hi].
      * split; [done|]. exists p. split_and!; [by left|done..].
  - cbv [mbind tx_mbind tx_put]. cbv beta iota.
    assert (Hnc : ~ clashing v0 p) by (intros (b' & r' & Eb' & _); congruence).
    specialize (IH (kv_apply s [(pp_key p, Some (row_id_bytes (pp_row_id p)))]) poisoned
      (staged_add staged (length (pp_key p)) 8) Hn ltac:(intros q b' Hq; apply Hdec; by right)).
    assert (Hget : forall kb, kv_get (kv_apply s [(pp_key p, Some (row_id_bytes (pp_row_id p)))]) kb
      = if decide (pp_key p = kb) then Some (row_id_bytes (pp_row_id p)) else kv_get s kb).
    { intros kb. rewrite kv_get_apply, last_write_cons, last_write_nil. cbn [fst snd]. by case_decide. }
    assert (Hv' : forall q, q ∈ pending ->
      kv_get (kv_apply s [(pp_key p, Some (row_id_bytes (pp_row_id p)))]) (pp_key q) = v0 (pp_key q)).
    { intros q Hq. rewrite Hget, decide_False; [apply Hv; by right|]. intros Ek. apply Hp. rewrite Ek.
      apply list_elem_of_In, in_map. by apply list_elem_of_In. }
    specialize (IH Hv').
    destruct resolve_loop as [[[po st] s']|e]; setoid_rewrite elem_of_cons; [|naive_solver].
    destruct IH as (IHb & IHp & IHk).
    split_and!; [naive_solver|intros i; rewrite IHp; naive_solver|].
    intros kb. rewrite IHk. unfold resolved. rewrite Hrow, Hget. case_decide as E; [|done].
    subst kb. by rewrite Hpn, Eb.
Qed.

Lemma resolve_probes_ok v0 (s : S) deleted pending poisoned staged :
  NoDup (map pp_key pending) ->
  (forall p b, p ∈ pending -> v0 (pp_key p) = Some b -> exists r, decode_row_id b = Ok r) ->
  (forall p, p ∈ pending -> kv_get s (pp_key p) = v0 (pp_key p)) ->
  (forall kb, kb ∈ deleted -> v0 kb = None) ->
  match resolve_probes deleted pending poisoned staged s with
  | Ok (poisoned', _, s') =>
      (forall p, p ∈ pending -> clashing v0 p -> pp_building p = true)
      /\ (forall i, i ∈ poisoned' <->
            i ∈ poisoned \/ exists p, p ∈ pending /\ clashing v0 p /\ pp_index_id p = i)
      /\ (forall kb, kv_get s' kb = resolved v0 s pending kb)
  | Err e => e = Constraint /\ exists p, p ∈ pending /\ clashing v0 p /\ pp_building p = false
  end.
Proof.
  intros Hn Hdec Hv Hd. cbv [resolve_probes tx_read mbind tx_mbind].
  rewrite read_held_ok by (intros p Hp Hin; rewrite Hv by done; by apply Hd). cbv [result_bind].
  replace (zip pending (map (fun p => kv_get s (pp_key p)) pending))
    with (map (fun p => (p, v0 (pp_key p))) pending); [by apply resolve_loop_ok|].
  clear Hn Hdec. induction pending as [|p pending IH]; [done|]. cbn. rewrite Hv by (by left).
  f_equal. apply IH. intros q Hq. apply Hv. by right.
Qed.
(** *** The loop over the puts *)

Section Puts.
  Variables (v0 : bytes -> option bytes).

(** An entry clashes with an earlier claim of the batch, or its claim with the
    holder the store has. *)
Definition clash (claimed : gmap bytes N) (entries : list StagedIndexEntry) (e : StagedIndexEntry)
  : Prop :=
  match claimed !! ekey e with
  | Some r => r <> se_row_id e
  | None => exists c, first_claim entries (ekey e) = Some c
      /\ (se_row_id c <> se_row_id e \/ held_by_other (v0 (ekey e)) (se_row_id c))
  end.

(** What the puts leave at a key. *)
Definition put_content (claimed : gmap bytes N) (entries : list StagedIndexEntry)
    (old : bytes -> option bytes) (kb : bytes) : option bytes :=
  if multi_put entries kb then Some []
  else match claimed !! kb, first_claim entries kb with
       | None, Some c => Some (default (row_id_bytes (se_row_id c)) (v0 kb))
       | _, _ => old kb
       end.

Definition puts_outcome (claimed : gmap bytes N) (entries : list StagedIndexEntry)
    (pending : list PendingProbe) (s : S) (poisoned : list N) (out : result (list N * N * S)) : Prop :=
  match out with
  | Ok (poisoned', _, s') =>
      (forall p, p ∈ pending -> clashing v0 p -> pp_building p = true)
      /\ (forall e, e ∈ entries -> se_unique e = true -> clash claimed entries e ->
            se_building e = true)
      /\ (forall i, i ∈ poisoned' <-> i ∈ poisoned
            \/ (exists p, p ∈ pending /\ clashing v0 p /\ pp_index_id p = i)
            \/ (exists e, e ∈ entries /\ se_unique e = true /\ clash claimed entries e
                 /\ se_index_id e = i))
      /\ (forall kb, kv_get s' kb = put_content claimed entries (resolved v0 s pending) kb)
  | Err x => x = Constraint
      /\ ((exists p, p ∈ pending /\ clashing v0 p /\ pp_building p = false)
          \/ (exists e, e ∈ entries /\ se_unique e = true /\ clash claimed entries e
               /\ se_building e = false))
  end.

(** The state of the loop: pending probes are claimed, and neither they nor the
    unclaimed keys have been written. *)
Record puts_inv (entries : list StagedIndexEntry) (pending : list PendingProbe)
    (claimed : gmap bytes N) (s : S) : Prop := {
  pi_nodup : NoDup (map pp_key pending);
  pi_claimed : forall p, p ∈ pending -> claimed !! pp_key p = Some (pp_row_id p);
  pi_unique : forall p, p ∈ pending -> exists e, entry_wf e /\ se_unique e = true /\ pp_key p = ekey e;
  pi_pending : forall p, p ∈ pending -> kv_get s (pp_key p) = v0 (pp_key p);
  pi_unclaimed : forall e, e ∈ entries -> se_unique e = true -> claimed !! ekey e = None ->
    kv_get s (ekey e) = v0 (ekey e);
}.

Lemma outcome_multi e entries pending claimed (s : S) poisoned out :
  entry_wf e -> Forall entry_wf entries -> se_unique e = false -> puts_inv (e :: entries) pending claimed s ->
  puts_outcome claimed entries pending (kv_apply s [(ekey e, Some [])]) poisoned out ->
  puts_outcome claimed (e :: entries) pending s poisoned out.
Proof.
  intros He Hes Hu Hi Ho.
  assert (Hfc : forall kb, first_claim (e :: entries) kb = first_claim entries kb)
    by (intros; cbn; by rewrite Hu).
  assert (Hcl : forall e', clash claimed (e :: entries) e' <-> clash claimed entries e')
    by (intros e'; unfold clash; by rewrite Hfc).
  assert (Hin : forall e', se_unique e' = true -> e' ∈ e :: entries <-> e' ∈ entries).
  { intros e' Hu'. rewrite elem_of_cons. split; [|by right]. intros [->|?]; [congruence|done]. }
  destruct out as [[[po st] s']|x]; cbn [puts_outcome] in *.
  - destruct Ho as (Hp & Hb & Hi' & Hk). split_and!; [done| |..].
    + intros e' He' Hu' Hc. apply Hin in He'; [|done]. apply Hcl in Hc. eauto.
    + intros i. rewrite Hi'. setoid_rewrite Hcl. split; intros [?|[?|(e' & ? & ? & ?)]]; auto;
        right; right; exists e'; (split; [by apply Hin|done]).
    + intros kb. rewrite Hk. unfold put_content. rewrite Hfc. cbn [multi_put existsb]. rewrite Hu.
      cbn [negb andb]. fold (multi_put entries kb). case_bool_decide as Ek; cbn [orb].
      * subst kb. destruct (multi_put entries (ekey e)); [done|].
        assert (Hr : resolved v0 (kv_apply s [(ekey e, Some [])]) pending (ekey e) = Some []).
        { unfold resolved. destruct (pending_row pending (ekey e)) as [r|] eqn:Er.
          - apply pending_row_Some in Er as (p & Hp' & Ek & _).
            destruct (pi_unique _ _ _ _ Hi p Hp') as (e' & He' & Hu' & Ek').
            exfalso. apply (unique_multi_keys e' e); congruence.
          - by rewrite kv_get_apply, last_write_cons, last_write_nil, decide_True. }
        destruct (claimed !! ekey e); [exact Hr|]. destruct (first_claim entries (ekey e)) as [c|] eqn:Ec; [|exact Hr].
        apply first_claim_Some in Ec as (Hc & Hcu & Ek). exfalso. rewrite Forall_forall in Hes.
        apply (unique_multi_keys c e); auto.
      * assert (Hr : resolved v0 (kv_apply s [(ekey e, Some [])]) pending kb = resolved v0 s pending kb).
        { unfold resolved. destruct (pending_row pending kb); [done|].
          by rewrite kv_get_apply, last_write_cons, last_write_nil, decide_False. }
        by rewrite Hr.
  - destruct Ho as [-> [?|(e' & He' & Hu' & Hc & Hb)]]; (split; [done|]); [by left|right].
    exists e'. rewrite Hcl, Hin by done. done.
Qed.

(** A key already claimed. *)
Lemma outcome_again e entries pending claimed (s : S) poisoned poisoned1 out holder :
  se_unique e = true -> claimed !! ekey e = Some holder ->
  (holder <> se_row_id e -> se_building e = true) ->
  (forall i, i ∈ poisoned1 <-> i ∈ poisoned \/ holder <> se_row_id e /\ se_index_id e = i) ->
  puts_outcome claimed entries pending s poisoned1 out ->
  puts_outcome claimed (e :: entries) pending s poisoned out.
Proof.
  intros Hu Hcl Hbu Hpo Ho.
  assert (Hfc : forall kb, claimed !! kb = None -> first_claim (e :: entries) kb = first_claim entries kb).
  { intros kb Hn. cbn. rewrite Hu. rewrite bool_decide_false; [done|]. intros <-. congruence. }
  assert (Hc : forall e', clash claimed (e :: entries) e' <-> clash claimed entries e').
  { intros e'. unfold clash. destruct (claimed !! ekey e') eqn:E; [done|]. by rewrite Hfc. }
  assert (Hce : clash claimed entries e <-> holder <> se_row_id e) by (unfold clash; by rewrite Hcl).
  destruct out as [[[po st] s']|x]; cbn [puts_outcome] in *.
  - destruct Ho as (Hp & Hb & Hi' & Hk). split_and!; [done| |..].
    + intros e' [->|He']%elem_of_cons Hu' Hc'%Hc; [by apply Hbu, Hce|eauto].
    + intros i. rewrite Hi', Hpo. setoid_rewrite Hc. setoid_rewrite elem_of_cons. split.
      * intros [[?|[Hne <-]]|[?|(e' & ? & ? & ?)]]; [by left| |auto|].
        -- right; right. exists e. rewrite Hce. auto.
        -- right; right. exists e'. auto.
      * intros [?|[?|(e' & [->|He'] & Hu' & Hc' & <-)]]; [auto..| |].
        -- left. right. split; [by apply Hce|done].
        -- right; right. exists e'. auto.
    + intros kb. rewrite Hk. unfold put_content. cbn [multi_put existsb]. rewrite Hu. cbn [negb andb orb].
      fold (multi_put entries kb). destruct (multi_put entries kb); [done|].
      destruct (claimed !! kb) eqn:E; [done|]. by rewrite Hfc.
  - destruct Ho as [-> [?|(e' & He' & Hu' & Hc' & Hb)]]; (split; [done|]); [by left|right].
    exists e'. rewrite Hc, elem_of_cons. auto.
Qed.
(** A fresh claim joins the pending probes. *)
Lemma outcome_claim e entries pending claimed (s : S) poisoned out :
  entry_wf e -> Forall entry_wf entries -> se_unique e = true -> claimed !! ekey e = None ->
  (forall e', e' ∈ entries -> se_index_id e' = se_index_id e -> se_building e' = se_building e) ->
  puts_inv (e :: entries) pending claimed s ->
  puts_outcome (<[ekey e := se_row_id e]> claimed) entries
    (pending ++ [mkPendingProbe (ekey e) (se_row_id e) (se_index_id e) (se_building e)]) s poisoned out ->
  puts_outcome claimed (e :: entries) pending s poisoned out.
Proof.
  intros He Hes Hu Hn Hcoh Hi Ho. set (p := mkPendingProbe _ _ _ _) in *.
  assert (Hce : clash claimed (e :: entries) e <-> clashing v0 p).
  { unfold clash. rewrite Hn. cbn. rewrite Hu, bool_decide_true by done. cbn. unfold clashing. cbn.
    split; [intros (c & [= <-] & [?|?]); done|eauto]. }
  assert (Hck : forall e', e' ∈ entries -> se_unique e' = true -> ekey e' = ekey e ->
    se_index_id e' = se_index_id e
    /\ (clash claimed (e :: entries) e'
        <-> clash (<[ekey e := se_row_id e]> claimed) entries e' \/ clashing v0 p)).
  { intros e' He' Hu' Ek. rewrite Forall_forall in Hes. split.
    - apply Key_encode_inj in Ek; [|auto using entry_key_wf..]. unfold entry_key in Ek.
      rewrite Hu, Hu' in Ek. by injection Ek.
    - unfold clash. rewrite Ek, Hn, lookup_insert_eq. cbn. rewrite Hu, bool_decide_true by done. cbn.
      unfold clashing. cbn. split; [intros (c & [= <-] & ?); naive_solver|naive_solver]. }
  assert (Hco : forall e', ekey e' <> ekey e ->
    clash claimed (e :: entries) e' <-> clash (<[ekey e := se_row_id e]> claimed) entries e').
  { intros e' Hne. unfold clash. rewrite lookup_insert_ne by done. cbn.
    rewrite Hu, (bool_decide_false (ekey e = ekey e')) by done. done. }
  destruct out as [[[po st] s']|x]; cbn [puts_outcome] in *.
  - destruct Ho as (Hp & Hb & Hpo & Hk). setoid_rewrite elem_of_app in Hp.
    setoid_rewrite elem_of_app in Hpo. setoid_rewrite list_elem_of_singleton in Hp.
    setoid_rewrite list_elem_of_singleton in Hpo. split_and!.
    + auto.
    + intros e' [->|He']%elem_of_cons Hu' Hc.
      * apply Hce in Hc. apply (Hp p); auto.
      * destruct (decide (ekey e' = ekey e)) as [Ek|Hne].
        -- destruct (Hck e' He' Hu' Ek) as [Ei Hiff]. apply Hiff in Hc as [Hc|Hc]; [eauto|].
           rewrite Hcoh by done. apply (Hp p); auto.
        -- apply Hco in Hc; [eauto|done].
    + intros i. rewrite Hpo. setoid_rewrite elem_of_cons. split.
      * intros [?|[(q & [Hq| ->] & Hc & <-)|(e' & He' & Hu' & Hc & <-)]]; [by left|right; left; by exists q| |].
        -- right; right. exists e. rewrite Hce. auto.
        -- right; right. exists e'. split_and!; auto.
           destruct (decide (ekey e' = ekey e)) as [Ek|Hne]; [apply Hck; auto|by apply Hco].
      * intros [?|[(q & Hq & Hc & <-)|(e' & [->|He'] & Hu' & Hc & <-)]]; [by left|right; left; exists q; auto| |].
        -- right; left. exists p. rewrite <-Hce. auto.
        -- destruct (decide (ekey e' = ekey e)) as [Ek|Hne].
           ++ destruct (Hck e' He' Hu' Ek) as [Ei Hiff]. apply Hiff in Hc as [Hc|Hc]; [right; right; by exists e'|].
              right; left. exists p. rewrite Ei. auto.
           ++ right; right. exists e'. rewrite <-Hco by done. auto.
    + intros kb. rewrite Hk. unfold put_content. cbn [multi_put existsb]. rewrite Hu. cbn [negb andb orb].
      fold (multi_put entries kb). destruct (multi_put entries kb) eqn:Em; [done|].
      assert (Hr : resolved v0 s (pending ++ [p]) kb
        = if decide (ekey e = kb) then Some (default (row_id_bytes (se_row_id e)) (v0 kb))
          else resolved v0 s pending kb).
      { unfold resolved. rewrite pending_row_snoc; [cbn [pp_key pp_row_id p]; by case_decide|]. intros Hin.
        apply list_elem_of_In, in_map_iff in Hin as (q & Ek & Hq%list_elem_of_In).
        apply (pi_claimed _ _ _ _ Hi) in Hq. rewrite Ek in Hq. cbn in Hq. congruence. }
      rewrite Hr. cbn [first_claim]. rewrite Hu. cbn [andb]. destruct (decide (ekey e = kb)) as [<-|Hne].
      * by rewrite lookup_insert_eq, Hn, bool_decide_true.
      * by rewrite lookup_insert_ne, bool_decide_false.
  - destruct Ho as [-> Ho]; (split; [done|]). setoid_rewrite elem_of_app in Ho.
    setoid_rewrite list_elem_of_singleton in Ho.
    destruct Ho as [(q & [Hq| ->] & Hc & Hb)|(e' & He' & Hu' & Hc & Hb)]; [left; by exists q| |].
    + right. exists e. rewrite Hce. split_and!; [by left|done..].
    + right. exists e'. split_and!; [by right|done| |done].
      destruct (decide (ekey e' = ekey e)) as [Ek|Hne]; [apply Hck; auto|by apply Hco].
Qed.

(** Pending probes resolved early. *)
Lemma outcome_flush entries pending claimed (s s1 : S) poisoned poisoned1 out :
  (forall p, p ∈ pending -> clashing v0 p -> pp_building p = true) ->
  (forall i, i ∈ poisoned1 <->
     i ∈ poisoned \/ exists p, p ∈ pending /\ clashing v0 p /\ pp_index_id p = i) ->
  (forall kb, kv_get s1 kb = resolved v0 s pending kb) ->
  puts_outcome claimed entries [] s1 poisoned1 out ->
  puts_outcome claimed entries pending s poisoned out.
Proof.
  intros Hb Hpo Hk Ho. destruct out as [[[po st] s']|x]; cbn [puts_outcome] in *.
  - destruct Ho as (_ & Hb' & Hpo' & Hk'). split_and!; [done..| |].
    + intros i. rewrite Hpo', Hpo. set_solver.
    + intros kb. rewrite Hk'. unfold put_content. change (resolved v0 s1 [] kb) with (kv_get s1 kb).
      by rewrite Hk.
  - set_solver.
Qed.

Lemma puts_inv_claim e entries pending claimed (s : S) :
  entry_wf e -> se_unique e = true -> claimed !! ekey e = None ->
  puts_inv (e :: entries) pending claimed s ->
  puts_inv entries
    (pending ++ [mkPendingProbe (ekey e) (se_row_id e) (se_index_id e) (se_building e)])
    (<[ekey e := se_row_id e]> claimed) s.
Proof.
  intros He Hu Hcl Hi. set (p := mkPendingProbe _ _ _ _).
  assert (Hne : forall q, q ∈ pending -> ekey e <> pp_key q).
  { intros q Hq%(pi_claimed _ _ _ _ Hi) Ek. rewrite <-Ek in Hq. congruence. }
  split.
  - rewrite map_app, NoDup_app. split_and!; [apply Hi| |apply NoDup_singleton].
    intros k Hk Hk'%list_elem_of_singleton. subst k.
    apply list_elem_of_In, in_map_iff in Hk as (q & Ek & Hq%list_elem_of_In). by apply (Hne q).
  - intros q [Hq| ->%list_elem_of_singleton]%elem_of_app.
    + rewrite lookup_insert_ne by auto. by apply Hi.
    + by rewrite lookup_insert_eq.
  - intros q [Hq| ->%list_elem_of_singleton]%elem_of_app; [by apply Hi|by exists e].
  - intros q [Hq| ->%list_elem_of_singleton]%elem_of_app; [by apply Hi|].
    apply (pi_unclaimed _ _ _ _ Hi e); [by left|done..].
  - intros e' He' Hu'. destruct (decide (ekey e = ekey e')) as [->|Hk].
    + by rewrite lookup_insert_eq.
    + rewrite lookup_insert_ne by done. apply Hi; [by right|done].
Qed.

Lemma puts_inv_multi e entries pending claimed (s : S) :
  entry_wf e -> Forall entry_wf entries -> se_unique e = false ->
  puts_inv (e :: entries) pending claimed s ->
  puts_inv entries pending claimed (kv_apply s [(ekey e, Some [])]).
Proof.
  intros He Hes Hu Hi.
  assert (Hget : forall e', entry_wf e' -> se_unique e' = true ->
    kv_get (kv_apply s [(ekey e, Some [])]) (ekey e') = kv_get s (ekey e')).
  { intros e' He' Hu'. rewrite kv_get_apply, last_write_cons, last_write_nil, decide_False; [done|].
    intros Ek. by apply (unique_multi_keys e' e). }
  split; try apply Hi.
  - intros p Hp. destruct (pi_unique _ _ _ _ Hi p Hp) as (e' & He' & Hu' & Ek).
    rewrite Ek, Hget, <-Ek by done. by apply Hi.
  - intros e' He' Hu' Hn. rewrite Forall_forall in Hes.
    rewrite Hget; [apply Hi; [by right|done..]|auto|done].
Qed.

(** Resolved probes leave the unclaimed keys alone. *)
Lemma puts_inv_flushed entries pending claimed (s s1 : S) :
  puts_inv entries pending claimed s ->
  (forall kb, kv_get s1 kb = resolved v0 s pending kb) -> puts_inv entries [] claimed s1.
Proof.
  intros Hi Hk. split; [apply NoDup_nil_2|by intros q Hq%elem_of_nil..|].
  intros e' He' Hu' Hn. rewrite Hk. unfold resolved.
  destruct (pending_row pending (ekey e')) as [r|] eqn:Er; [|by apply (pi_unclaimed _ _ _ _ Hi)].
  apply pending_row_Some in Er as (q & Hq & Ek & _). apply (pi_claimed _ _ _ _ Hi) in Hq.
  rewrite Ek in Hq. congruence.
Qed.

Lemma stage_puts_ok deleted entries pending claimed (s : S) poisoned staged :
  Forall entry_wf entries ->
  (forall e e', e ∈ entries -> e' ∈ entries -> se_index_id e' = se_index_id e ->
     se_building e' = se_building e) ->
  (forall e b, entry_wf e -> se_unique e = true -> v0 (ekey e) = Some b ->
     exists r, decode_row_id b = Ok r) ->
  (forall kb, kb ∈ deleted -> v0 kb = None) ->
  puts_inv entries pending claimed s ->
  puts_outcome claimed entries pending s poisoned
    (stage_puts deleted entries pending claimed poisoned staged s).
Proof.
  intros Hes Hcoh Hdec Hdel. revert pending claimed s poisoned staged.
  induction entries as [|e entries IH]; intros pending claimed s poisoned staged Hi.
  { pose proof (resolve_probes_ok v0 s deleted pending poisoned staged (pi_nodup _ _ _ _ Hi)) as Hr.
    cbn [stage_puts]. unfold puts_outcome. destruct resolve_probes as [[[po st] s']|x].
    - destruct Hr as (? & Hpo & ?); [|apply Hi|done|].
      { intros p b Hp. destruct (pi_unique _ _ _ _ Hi p Hp) as (e & ? & ? & ->). eauto. }
      split_and!; [done|set_solver|intros i; rewrite Hpo; set_solver|].
      intros kb. unfold put_content. cbn. destruct (claimed !! kb); auto.
    - destruct Hr as (? & ?); [|apply Hi|done|auto].
      intros p b Hp. destruct (pi_unique _ _ _ _ Hi p Hp) as (e & ? & ? & ->). eauto. }
  apply Forall_cons in Hes as [He Hes].
  specialize (IH Hes ltac:(intros e1 e2 ??; apply Hcoh; by right)).
  assert (Hsub : forall e', e' ∈ entries -> e' ∈ e :: entries) by (intros; by right).
  cbn [stage_puts]. destruct (se_unique e) eqn:Hu; cbn [negb].
  2: { cbv [mbind tx_mbind tx_put]. cbv beta iota. apply outcome_multi; [done..|]. apply IH.
    by apply puts_inv_multi. }
  destruct (claimed !! ekey e) as [holder|] eqn:Hcl.
  - assert (Hi' : puts_inv entries pending claimed s).
    { split; try apply Hi. intros e' He'. apply Hi. auto. }
    destruct (N.eqb_spec holder (se_row_id e)) as [->|Hne]; cbn [negb].
    + eapply outcome_again; [done..| |by apply IH]. naive_solver.
    + unfold collision. destruct (se_building e) eqn:Hb.
      * eapply outcome_again; [done..| |by apply IH]. intros i.
        rewrite elem_of_app, list_elem_of_singleton. naive_solver.
      * cbn. split; [done|]. right. exists e. split_and!; [by left|done| |done].
        unfold clash. by rewrite Hcl.
  - set (p := mkPendingProbe (ekey e) (se_row_id e) (se_index_id e) (se_building e)).
    set (claimed' := <[ekey e := se_row_id e]> claimed).
    assert (Hnew : puts_inv entries (pending ++ [p]) claimed' s) by (by apply puts_inv_claim).
    apply (outcome_claim e entries pending claimed s poisoned _ He Hes Hu Hcl);
      [intros e' He' E; apply Hcoh; auto; by left|done|].
    fold p claimed'. destruct (UNIQUENESS_PROBE_GROUP <=? length (pending ++ [p]))%nat; [|by apply IH].
    cbv [mbind tx_mbind].
    pose proof (resolve_probes_ok v0 s deleted (pending ++ [p]) poisoned staged
      (pi_nodup _ _ _ _ Hnew)) as Hr.
    specialize (Hr ltac:(intros q b Hq; destruct (pi_unique _ _ _ _ Hnew q Hq) as (e' & ? & ? & ->); eauto)
      (pi_pending _ _ _ _ Hnew) Hdel).
    destruct resolve_probes as [[[po st] s1]|x]; [|destruct Hr; split; [done|by left]].
    destruct Hr as (Hb & Hpo & Hk). eapply outcome_flush; [done..|]. apply IH. by eapply puts_inv_flushed.
Qed.
End Puts.
(** *** The whole batch *)

Lemma stage_deletes_ok entries deleted staged (s : S) :
  exists deleted' staged' s', stage_deletes entries deleted staged s = Ok (deleted', staged', s')
  /\ (forall kb, kb ∈ deleted' <->
        kb ∈ deleted \/ exists e, e ∈ entries /\ se_unique e = true /\ ekey e = kb)
  /\ (forall kb, kv_get s' kb = if decide (kb ∈ map (fun e => ekey e) entries) then None else kv_get s kb).
Proof.
  revert deleted staged s. induction entries as [|e entries IH]; intros deleted staged s.
  { do 3 eexists. split_and!; [reflexivity|set_solver|]. intros kb. by rewrite decide_False by set_solver. }
  cbn [stage_deletes]. cbv [mbind tx_mbind tx_delete]. cbv beta iota.
  edestruct IH as (d' & st' & s' & -> & Hd & Hk). do 3 eexists. split_and!; [reflexivity|..].
  - intros kb. rewrite Hd. setoid_rewrite elem_of_cons.
    destruct (se_unique e) eqn:Hu; [rewrite elem_of_union, elem_of_singleton|]; split.
    + intros [[->|?]|(e' & ? & ? & ?)]; [right; exists e; auto|by left|right; exists e'; auto].
    + intros [?|(e' & [->|?] & ? & ?)]; [auto| |right; eauto]. left. left. done.
    + intros [?|(e' & ? & ? & ?)]; [by left|right; exists e'; auto].
    + intros [?|(e' & [->|?] & ? & ?)]; [auto|congruence|right; eauto].
  - intros kb. rewrite Hk, kv_get_apply, last_write_cons, last_write_nil. cbn [map fst snd].
    destruct (decide (kb ∈ map (fun e => ekey e) entries)) as [Hin|Hn].
    + by rewrite decide_True by (by right).
    + destruct (decide (ekey e = kb)) as [<-|Hne]; [by rewrite decide_True by left|].
      rewrite decide_False; [done|]. rewrite elem_of_cons. naive_solver.
Qed.

(** The puts of a batch, and what the store holds once its deletes are staged. *)
Definition puts_of (entries : list StagedIndexEntry) : list StagedIndexEntry :=
  filter (fun e => se_delete e = false) entries.
Definition after_deletes (s : S) (entries : list StagedIndexEntry) (kb : bytes) : option bytes :=
  if decide (kb ∈ map (fun e => ekey e) (filter (fun e => se_delete e = true) entries)) then None
  else kv_get s kb.

(** Another row claims an entry's value: in the batch, or in the store. *)
Definition duplicated (s : S) (entries : list StagedIndexEntry) (e : StagedIndexEntry) : Prop :=
  (exists e', e' ∈ puts_of entries /\ se_unique e' = true /\ ekey e' = ekey e
     /\ se_row_id e' <> se_row_id e)
  \/ held_by_other (after_deletes s entries (ekey e)) (se_row_id e).

(** One index is building or in service for the whole batch. *)
Definition coherent (entries : list StagedIndexEntry) : Prop :=
  forall e e', e ∈ entries -> e' ∈ entries -> se_index_id e' = se_index_id e ->
  se_building e' = se_building e.

Lemma same_key_index e e' :
  entry_wf e -> entry_wf e' -> se_unique e = true -> se_unique e' = true -> ekey e = ekey e' ->
  se_index_id e = se_index_id e' /\ se_key e = se_key e'.
Proof.
  intros He He' Hu Hu' Ek. apply Key_encode_inj in Ek; [|by apply entry_key_wf..].
  unfold entry_key in Ek. rewrite Hu, Hu' in Ek. by injection Ek.
Qed.

Lemma decode_index_value (s : S) entries e b :
  index_wf s -> entry_wf e -> se_unique e = true ->
  after_deletes s entries (ekey e) = Some b -> exists r, u64 r /\ b = row_id_bytes r.
Proof.
  intros Hs He Hu Hb. unfold after_deletes in Hb. case_decide; [done|].
  destruct (Hs _ _ Hb) as (k & Ek & Hk & Hv).
  { apply subspace_prefix_iff. unfold entry_key. by rewrite Hu. }
  apply Key_encode_inj in Ek; [|by apply entry_key_wf|done].
  unfold entry_key in Ek. rewrite Hu in Ek. injection Ek as <-. done.
Qed.

(** Some entry of an index clashes exactly when some entry of it is duplicated. *)
Lemma clash_duplicated (s : S) entries (P : N -> Prop) :
  Forall entry_wf entries ->
  (exists e, e ∈ puts_of entries /\ se_unique e = true
     /\ clash (after_deletes s entries) ∅ (puts_of entries) e /\ P (se_index_id e))
  <-> (exists e, e ∈ puts_of entries /\ se_unique e = true /\ duplicated s entries e
       /\ P (se_index_id e)).
Proof.
  intros Hwf. rewrite Forall_forall in Hwf.
  assert (Hin : forall e, e ∈ puts_of entries -> e ∈ entries)
    by (intros e He; by apply list_elem_of_filter in He as [_ ?]).
  split.
  - intros (e & He & Hu & Hc & HP). unfold clash in Hc. rewrite lookup_empty in Hc.
    destruct Hc as (c & Hfc & Hc). apply first_claim_Some in Hfc as (Hcin & Hcu & Ek).
    destruct (same_key_index c e) as [Ei _]; auto. destruct Hc as [Hne|Hh].
    + exists e. split_and!; [done..|left; eauto|done].
    + exists c. split_and!; [done..|right; by rewrite Ek|by rewrite Ei].
  - intros (e & He & Hu & Hd & HP). destruct (first_claim_of _ _ He Hu) as [c Hc].
    assert (Hcl : forall e', e' ∈ puts_of entries -> se_unique e' = true -> ekey e' = ekey e ->
      clash (after_deletes s entries) ∅ (puts_of entries) e' ->
      exists e, e ∈ puts_of entries /\ se_unique e = true
        /\ clash (after_deletes s entries) ∅ (puts_of entries) e /\ P (se_index_id e)).
    { intros e' He' Hu' Ek Hx. destruct (same_key_index e' e) as [Ei _]; auto.
      exists e'. rewrite Ei. auto. }
    assert (Hclash : forall e', ekey e' = ekey e ->
      (se_row_id c <> se_row_id e' \/ held_by_other (after_deletes s entries (ekey e)) (se_row_id c)) ->
      clash (after_deletes s entries) ∅ (puts_of entries) e').
    { intros e' Ek Hx. unfold clash. rewrite lookup_empty, Ek. eauto. }
    destruct (decide (se_row_id c = se_row_id e)) as [E|Hne].
    + destruct Hd as [(e' & He' & Hu' & Ek & Hne)|Hh].
      * apply (Hcl e'); [done..|]. apply Hclash; [done|]. left. congruence.
      * apply (Hcl e); [done..|]. apply Hclash; [done|]. right. by rewrite E.
    + apply (Hcl e); [done..|]. apply Hclash; [done|]. by left.
Qed.

(** The verdict on a batch, and what it leaves. *)
Lemma stage_index_entries_ok (s : S) entries :
  index_wf s -> Forall entry_wf entries -> coherent entries ->
  N.of_nat (length entries) <= MAX_INDEX_ENTRIES_PER_COMMIT ->
  match stage_index_entries entries s with
  | Ok (out, s') =>
      (forall e, e ∈ puts_of entries -> se_unique e = true -> duplicated s entries e ->
         se_building e = true)
      /\ (forall i, i ∈ ses_poisoned out <-> exists e, e ∈ puts_of entries /\ se_unique e = true
            /\ duplicated s entries e /\ se_index_id e = i)
      /\ (forall kb, kv_get s' kb =
            put_content (after_deletes s entries) ∅ (puts_of entries) (after_deletes s entries) kb)
  | Err x => x = Constraint /\ exists e, e ∈ puts_of entries /\ se_unique e = true
      /\ duplicated s entries e /\ se_building e = false
  end.
Proof.
  intros Hs Hwf Hcoh Hmax. unfold stage_index_entries.
  rewrite (proj2 (N.ltb_ge _ _) Hmax). cbv [mbind tx_mbind].
  destruct (stage_deletes_ok (filter (fun e => se_delete e = true) entries) ∅ 0 s)
    as (deleted & st & s0 & -> & Hd & Hk0). cbv beta iota.
  assert (Hin : forall e, e ∈ puts_of entries -> e ∈ entries)
    by (intros e He; by apply list_elem_of_filter in He as [_ ?]).
  assert (Hb : forall e e', e ∈ puts_of entries -> e' ∈ puts_of entries -> se_index_id e' = se_index_id e ->
    se_building e' = se_building e) by (intros; apply Hcoh; auto).
  assert (Hwf' : Forall entry_wf (puts_of entries)).
  { rewrite Forall_forall in *. auto. }
  pose proof (stage_puts_ok (after_deletes s entries) deleted (puts_of entries) [] ∅ s0 [] st Hwf' Hb)
    as Ho. fold (puts_of entries).
  specialize (Ho ltac:(intros e b He Hu Hv;
    destruct (decode_index_value s entries e b Hs He Hu Hv) as (r & Hr & ->); exists r;
    by apply decode_row_id_bytes)).
  assert (Hdel : forall kb, kb ∈ deleted -> after_deletes s entries kb = None).
  { intros kb [?|(e & He & _ & <-)]%Hd; [set_solver|]. unfold after_deletes.
    rewrite decide_True; [done|]. by apply (list_elem_of_fmap_2 (fun e => ekey e)). }
  assert (Hinv : puts_inv (after_deletes s entries) (puts_of entries) [] ∅ s0).
  { split; [apply NoDup_nil_2|by intros q Hq%elem_of_nil..|]. intros e He Hu _. apply Hk0. }
  specialize (Ho Hdel Hinv). destruct stage_puts as [[[po st'] s']|x]; cbn [puts_outcome] in Ho.
  - destruct Ho as (_ & Hbu & Hpo & Hk). cbv [mret tx_mret]. split_and!.
    + intros e He Hu Hdup. destruct (se_building e) eqn:E; [done|exfalso].
      destruct (proj2 (clash_duplicated s entries (fun i => i = se_index_id e) Hwf)) as
        (e' & He' & Hu' & Hc & Ei); [by exists e|].
      apply Hbu in Hc; [|done..]. rewrite (Hb e e') in Hc; congruence.
    + intros i. cbn [ses_poisoned]. rewrite elem_of_in_order, elem_of_list_to_set, Hpo.
      pose proof (clash_duplicated s entries (fun j => j = i) Hwf) as Hcd. cbv beta in Hcd. rewrite <-Hcd.
      set_solver.
    + intros kb. rewrite Hk. unfold put_content. change (resolved _ s0 [] kb) with (kv_get s0 kb).
      by rewrite Hk0.
  - destruct Ho as (-> & [(p & Hp%elem_of_nil & _)|(e & He & Hu & Hc & Hbf)]); [done|].
    split; [done|]. destruct (proj1 (clash_duplicated s entries (fun i => i = se_index_id e) Hwf)) as
      (e' & He' & Hu' & Hdup & Ei); [by exists e|].
    exists e'. split_and!; [done..|]. rewrite (Hb e e'); congruence.
Qed.
End StagingLaws.

(** ** What the lookups return *)

Section LookupLaws.
  Context {S : Type} `{KVLaws S, SKL : StorekeyLaws}.
Local Open Scope moraine_scope.

(** The key of an index's entry for a value and a row. *)
Definition value_key (i : N) (unique : bool) (v : CanonicalKey) (r : N) : Key :=
  K_Index (if unique then XK_Unique i v else XK_Multi i v r).

(** An entry of the store: value and row. *)
Definition index_entry (s : S) (i : N) (unique : bool) (v : CanonicalKey) (r : N) : Prop :=
  u64 r /\ exists b, kv_get s (Key_encode (value_key i unique v r)) = Some b
    /\ (unique = true -> decode_row_id b = Ok r).

(** A scanned pair that is such an entry. *)
Definition is_entry (i : N) (unique : bool) (e : bytes * bytes) (vr : CanonicalKey * N) : Prop :=
  u64 vr.2 /\ e.1 = Key_encode (value_key i unique vr.1 vr.2)
  /\ (unique = true -> decode_row_id e.2 = Ok vr.2).

(** Value order, then row order. *)
Definition entry_lt (a b : CanonicalKey * N) : Prop :=
  (CanonicalKey_compare a.1 b.1 ⨟ (a.2 ?= b.2)%N) = Lt.

Definition entry_row (unique : bool) (e : bytes * bytes) : result N :=
  if unique then decode_row_id e.2 else multi_row_id e.1.

Lemma value_key_wf i unique v r : u64 i -> u64 r -> Key_wf (value_key i unique v r).
Proof. intros. by destruct unique. Qed.

Lemma is_entry_row i unique e vr : u64 i -> is_entry i unique e vr -> entry_row unique e = Ok vr.2.
Proof.
  intros Hi (Hr & Ek & Hd). unfold entry_row. destruct unique; [by apply Hd|].
  unfold multi_row_id. by rewrite Ek, Key_decode_encode.
Qed.

(** A batch of entries reads as their rows. *)
Lemma collect_entries i unique E :
  u64 i -> (forall e, e ∈ E -> exists vr, is_entry i unique e vr) ->
  exists l, collect (entry_row unique) E = Ok (map snd l) /\ Forall2 (is_entry i unique) E l.
Proof.
  intros Hi. induction E as [|e E IH]; intros He; [by exists []|].
  destruct (He e) as [vr Hvr]; [by left|]. destruct IH as (l & Ec & Hl); [intros; apply He; by right|].
  exists (vr :: l). split; [|by constructor]. cbn [collect map].
  rewrite (is_entry_row i unique e vr Hi Hvr). cbn [mbind result_bind]. by rewrite Ec.
Qed.

Lemma value_key_compare i unique v r v' r' :
  Key_compare (value_key i unique v r) (value_key i unique v' r')
  = (CanonicalKey_compare v v' ⨟ if unique then Eq else (r ?= r')%N).
Proof. destruct unique; cbn; rewrite N.compare_refl; [by rewrite thenc_Eq_r|done]. Qed.

(** Key order is entry order. *)
Lemma entries_sorted i unique E l :
  u64 i -> StronglySorted (fun a b => bytes_lt a.1 b.1) E -> Forall2 (is_entry i unique) E l ->
  StronglySorted entry_lt l.
Proof.
  intros Hi HE. revert l. induction HE as [|e E HE IH He]; intros l Hl.
  { apply Forall2_nil_inv_l in Hl as ->. constructor. }
  apply Forall2_cons_inv_l in Hl as ([v r] & l' & (Hr & Ek & _) & Hl & ->).
  constructor; [by apply IH|]. apply Forall_forall. rewrite Forall_forall in He. intros [v' r'] Hb.
  apply list_elem_of_lookup in Hb as [n Hb].
  destruct (Forall2_lookup_r _ _ _ _ _ Hl Hb) as (e' & He'%list_elem_of_lookup_2 & Hr' & Ek' & _).
  specialize (He e' He').
  cbn [fst snd] in *. rewrite Ek, Ek' in He. unfold bytes_lt in He.
  rewrite (oc_order_nil Key_wf Key_compare Key_encode Key_read) in He by (by apply value_key_wf).
  rewrite value_key_compare in He. unfold entry_lt. cbn [fst snd].
  destruct (CanonicalKey_compare v v'); [|done..]. by destruct unique.
Qed.
Lemma StronglySorted_snoc {A} (R : relation A) l x :
  StronglySorted R l -> Forall (fun y => R y x) l -> StronglySorted R (l ++ [x]).
Proof.
  induction 1 as [|y l Hl IH Hy]; intros Hx; [by repeat constructor|].
  apply Forall_cons in Hx as [Hyx Hx]. constructor; [by apply IH|].
  rewrite Forall_app. split; [done|]. by constructor.
Qed.

Lemma StronglySorted_reverse {A} (R : relation A) l :
  StronglySorted R l -> StronglySorted (flip R) (reverse l).
Proof.
  induction 1 as [|y l Hl IH Hy]; [constructor|]. rewrite reverse_cons.
  apply StronglySorted_snoc; [done|]. by apply Forall_reverse.
Qed.

Lemma StronglySorted_filter_keep {A} (R : relation A) (P : A -> Prop) `{!forall x, Decision (P x)} l :
  StronglySorted R l -> StronglySorted R (filter P l).
Proof.
  induction 1 as [|y l Hl IH Hy]; [constructor|]. rewrite filter_cons. case_decide; [|done].
  constructor; [done|]. rewrite Forall_forall in *. intros z Hz. apply list_elem_of_filter in Hz as [_ Hz].
  by apply Hy.
Qed.

Definition scan_lt (order : ScanOrder) : relation (CanonicalKey * N) :=
  match order with ScanAscending => entry_lt | ScanDescending => flip entry_lt end.

(** The entries a ranged scan selects. *)
Definition selected (p : bytes) (start end_ : Bound bytes) (k : Key) : Prop :=
  p `prefix_of` Key_encode k /\ in_bounds start end_ (drop (length p) (Key_encode k)) = true.

Lemma index_scan_ok (s : S) i unique p start end_ order :
  u64 i -> index_wf s -> subspace_prefix IndexSpace `prefix_of` p ->
  (forall k, Key_wf k -> p `prefix_of` Key_encode k -> exists v r, k = value_key i unique v r) ->
  exists l, run s (entries ← scan_prefix_ordered p start end_ order;
                   lift (collect (entry_row unique) entries)) = Ok (map snd l)
    /\ (forall v r, (v, r) ∈ l <->
          index_entry s i unique v r /\ selected p start end_ (value_key i unique v r))
    /\ StronglySorted (scan_lt order) l.
Proof.
  intros Hi Hs Hp Hkind.
  set (E := filter (fun e => in_bounds start end_ (drop (length p) e.1) = true) (kv_scan s p)).
  assert (HE : forall e, e ∈ E -> exists vr, is_entry i unique e vr).
  { intros [kb b] [_ [Hg Hpk]%kv_scan_elem]%list_elem_of_filter.
    destruct (Hs kb b Hg) as (k & -> & Hk & Hv); [by etrans|].
    destruct (Hkind _ Hk Hpk) as (v & r & [= ->]). destruct unique.
    - destruct Hv as (r' & Hr' & ->). exists (v, r'). split_and!; [done..|].
      intros _. by apply decode_row_id_bytes.
    - exists (v, r). split_and!; [by destruct Hk|done..]. }
  set (F := match order with ScanAscending => E | ScanDescending => reverse E end).
  destruct (collect_entries i unique F Hi) as (l & Ec & Hl).
  { intros e He. apply HE. unfold F in He. destruct order; [done|]. by rewrite elem_of_reverse in He. }
  exists l. split_and!.
  - unfold scan_prefix_ordered. cbn. exact Ec.
  - assert (Hin : forall e, e ∈ F <-> e ∈ E) by (intros e; unfold F; destruct order; [done|apply elem_of_reverse]).
    assert (HinE : forall e, e ∈ E <-> (kv_get s e.1 = Some e.2 /\ p `prefix_of` e.1)
      /\ in_bounds start end_ (drop (length p) e.1) = true).
    { intros [kb b]. unfold E. rewrite list_elem_of_filter, kv_scan_elem. naive_solver. }
    intros v r. split.
    + intros [n Hn]%list_elem_of_lookup.
      destruct (Forall2_lookup_r _ _ _ _ _ Hl Hn) as (e & He%list_elem_of_lookup_2 & Hr & Ek & Hd).
      cbn [fst snd] in *. apply Hin, HinE in He as [[Hg Hpk] Hb]. rewrite Ek in Hg, Hpk, Hb.
      split; [split; [done|eauto]|done].
    + intros [(Hr & b & Hg & Hd) [Hpk Hb]].
      assert (He : (Key_encode (value_key i unique v r), b) ∈ F) by (apply Hin, HinE; done).
      apply list_elem_of_lookup in He as [n Hn].
      destruct (Forall2_lookup_l _ _ _ _ _ Hl Hn) as ([v' r'] & Hvr%list_elem_of_lookup_2 & Hr' & Ek & Hd').
      cbn [fst snd] in *. apply Key_encode_inj in Ek; [|by apply value_key_wf..].
      destruct unique; injection Ek as <-; [|by subst r'].
      specialize (Hd eq_refl). specialize (Hd' eq_refl). rewrite Hd in Hd'. injection Hd' as <-. done.
  - assert (HsE : StronglySorted (fun a b => bytes_lt a.1 b.1) E)
      by apply StronglySorted_filter_keep, kv_scan_sorted.
    unfold F in Hl. destruct order; cbn [scan_lt]; [by eapply entries_sorted|].
    apply Forall2_reverse in Hl. rewrite reverse_involutive in Hl.
    rewrite <-(reverse_involutive l). apply StronglySorted_reverse. by eapply entries_sorted.
Qed.
(** *** Range bounds *)

(** A value above every value that begins with [c]. *)
Definition past (c w : CanonicalKey) : Prop :=
  bytes_le (canonical_bytes c) (canonical_bytes w) /\ ~ canonical_bytes c `prefix_of` canonical_bytes w.

Definition lower_ok (leading_nulls : NullOrder) (lower : Bound CanonicalKey) (w : CanonicalKey) : Prop :=
  match lower with
  | Included c => bytes_le (canonical_bytes c) (canonical_bytes w)
  | Excluded c => past c w
  | Unbounded => bytes_le (canonical_bytes (non_null_flag_key leading_nulls)) (canonical_bytes w)
  end.

Definition upper_ok (leading_nulls : NullOrder) (upper : Bound CanonicalKey) (w : CanonicalKey) : Prop :=
  match upper with
  | Included c => ~ past c w
  | Excluded c => bytes_lt (canonical_bytes w) (canonical_bytes c)
  | Unbounded => ~ past (non_null_flag_key leading_nulls) w
  end.

(** A bound the encoder can produce: its first byte is a NULL flag. *)
Definition bound_wf (b : Bound CanonicalKey) : Prop :=
  match b with
  | Included c | Excluded c => exists f rest, canonical_bytes c = f :: rest /\ f <> xff
  | Unbounded => True
  end.

Lemma compare_app_not_prefix p x e :
  ~ p `prefix_of` e -> bytes_compare (p ++ x) e = bytes_compare p e.
Proof.
  revert e. induction p as [|a p IH]; intros e Hn; [destruct Hn; apply prefix_nil|].
  destruct e as [|b e]; [done|]. cbn [app]. rewrite !bytes_compare_cons.
  destruct (byte_compare a b) eqn:E; cbn [thenc]; [|done..].
  apply IH. intros Hp. apply Hn. apply byte_compare_eq in E as ->. by apply prefix_cons.
Qed.

Lemma prefix_bytes_le p e : p `prefix_of` e -> bytes_le p e.
Proof.
  intros [k ->]. unfold bytes_le. rewrite <-(app_nil_r p) at 1. rewrite bytes_compare_app_same.
  apply bytes_le_nil.
Qed.

Lemma bytes_leb_true a b : bytes_leb a b = true <-> bytes_le a b.
Proof. unfold bytes_leb, bytes_le. by destruct bytes_compare. Qed.

Lemma bytes_lt_not_le a b : bytes_lt a b <-> ~ bytes_le b a.
Proof. unfold bytes_lt, bytes_le. rewrite (bytes_compare_antisym a b). destruct bytes_compare; naive_solver. Qed.

(** An escaped body against an entry. *)
Lemma body_past c w t :
  bytes_le (escape (canonical_bytes c)) (escape (canonical_bytes w) ++ x00 :: t)
    /\ ~ escape (canonical_bytes c) `prefix_of` escape (canonical_bytes w) ++ x00 :: t
  <-> past c w.
Proof.
  unfold past. rewrite escape_prefix.
  assert (E : ~ canonical_bytes c `prefix_of` canonical_bytes w ->
    bytes_compare (escape (canonical_bytes c)) (escape (canonical_bytes w) ++ x00 :: t)
    = bytes_compare (canonical_bytes c) (canonical_bytes w)).
  { intros Hn. rewrite <-(compare_app_not_prefix _ [x00]) by (by rewrite escape_prefix).
    rewrite escape_compare. destruct (bytes_compare (canonical_bytes c) _) eqn:E; [|done..].
    apply bytes_compare_eq in E. rewrite E in Hn. by destruct Hn. }
  unfold bytes_le. split; intros [Hle Hn]; (split; [|done]); [by rewrite <-E|by rewrite E].
Qed.

Lemma suffix_le c w t :
  bytes_le (escape (canonical_bytes c) ++ [x00]) (escape (canonical_bytes w) ++ x00 :: t)
  <-> bytes_le (canonical_bytes c) (canonical_bytes w).
Proof.
  unfold bytes_le. rewrite escape_compare.
  destruct (bytes_compare (canonical_bytes c) (canonical_bytes w)) eqn:E; cbn [thenc]; [|done..].
  split; [done|]. intros _. apply bytes_le_nil.
Qed.

Lemma body_le c w t :
  bytes_le (escape (canonical_bytes c)) (escape (canonical_bytes w) ++ x00 :: t)
  <-> bytes_le (canonical_bytes c) (canonical_bytes w).
Proof.
  destruct (decide (canonical_bytes c `prefix_of` canonical_bytes w)) as [Hp|Hn].
  - split; intros _; apply prefix_bytes_le; [done|by apply escape_prefix].
  - pose proof (body_past c w t) as Hb. unfold past in Hb. rewrite escape_prefix in Hb. tauto.
Qed.

Lemma above_le kind i c a w t :
  u64 i -> index_value_above kind i c = Some a ->
  bytes_le a (escape (canonical_bytes w) ++ x00 :: t) <-> past c w.
Proof.
  intros Hi Ha. unfold index_value_above in Ha. rewrite index_value_body_eq in Ha by done.
  rewrite <-(body_past c w t). set (e := escape (canonical_bytes w) ++ x00 :: t).
  pose proof (increment_prefix_range _ _ e Ha) as Hr.
  pose proof (increment_prefix_range _ _ (escape (canonical_bytes c)) Ha) as Hself.
  assert (Hlt : bytes_lt (escape (canonical_bytes c)) a) by (by apply Hself).
  rewrite <-Hr. split.
  - intros Hle. split; [|intros [_ Hx%bytes_lt_not_le]; done].
    apply bytes_le_trans with a; [|done]. by apply bytes_le_lt; left.
  - intros [Hle Hn]. destruct (decide (bytes_le a e)) as [?|Hx]; [done|].
    apply bytes_lt_not_le in Hx. naive_solver.
Qed.

Lemma bound_above kind i c f rest :
  u64 i -> canonical_bytes c = f :: rest -> f <> xff -> exists a, index_value_above kind i c = Some a.
Proof.
  intros Hi Ec Hf. unfold index_value_above. rewrite index_value_body_eq by done.
  destruct (increment_prefix (escape (canonical_bytes c))) as [a|] eqn:E; [by eexists|].
  apply increment_prefix_None in E. rewrite Ec in E. cbn in E. unfold escape_byte in E.
  destruct (Byte.to_N f <=? 1); cbn in E; apply Forall_cons in E as [E _]; done.
Qed.

Lemma flag_above kind i nulls :
  u64 i -> exists a, index_value_above kind i (non_null_flag_key nulls) = Some a.
Proof.
  intros Hi. destruct nulls; [apply (bound_above kind i _ x01 [])|apply (bound_above kind i _ x00 [])];
    done.
Qed.

Lemma in_range_iff kind i nulls lower upper w t :
  u64 i -> bound_wf lower -> bound_wf upper ->
  in_bounds (range_start kind i nulls lower) (range_end kind i nulls upper)
    (escape (canonical_bytes w) ++ x00 :: t) = true
  <-> lower_ok nulls lower w /\ upper_ok nulls upper w.
Proof.
  intros Hi Hl Hu. unfold in_bounds. rewrite andb_true_iff.
  destruct (flag_above kind i nulls Hi) as [fa Hfa].
  apply Morphisms_Prop.and_iff_morphism.
  - destruct lower as [c|c|]; cbn [range_start lower_ok].
    + rewrite bytes_leb_true, index_value_suffix_eq, write_slice_bytes by done. apply suffix_le.
    + destruct Hl as (f & rest & Ec & Hf). destruct (bound_above kind i c f rest Hi Ec Hf) as [a Ha].
      rewrite Ha, bytes_leb_true. by apply (above_le kind i).
    + rewrite bytes_leb_true, index_value_body_eq by done. apply body_le.
  - destruct upper as [c|c|]; cbn [range_end upper_ok]; unfold past_non_null; rewrite ?Hfa.
    + destruct Hu as (f & rest & Ec & Hf). destruct (bound_above kind i c f rest Hi Ec Hf) as [a Ha].
      rewrite Ha, negb_true_iff, <-(above_le kind i c a w t Hi Ha), <-bytes_leb_true.
      by rewrite not_true_iff_false.
    + rewrite negb_true_iff, index_value_suffix_eq, write_slice_bytes by done.
      rewrite <-not_true_iff_false, bytes_leb_true, suffix_le. symmetry. apply bytes_lt_not_le.
    + rewrite negb_true_iff, <-(above_le kind i _ fa w t Hi Hfa), <-bytes_leb_true.
      by rewrite not_true_iff_false.
Qed.

Lemma entry_suffix kind i (unique : bool) v r :
  u64 i -> u64 r -> kind = (if unique then IndexUnique else IndexMulti) ->
  index_index_prefix kind i `prefix_of` Key_encode (value_key i unique v r)
  /\ drop (length (index_index_prefix kind i)) (Key_encode (value_key i unique v r))
     = escape (canonical_bytes v) ++ x00 :: (if unique then [] else write_u64 r).
Proof.
  intros Hi Hr ->. split.
  - apply index_index_prefix_exact; [done|by apply value_key_wf|]. destruct unique; cbn; eauto.
  - assert (Hlen : length (index_index_prefix (if unique then IndexUnique else IndexMulti) i) = 10%nat).
    { rewrite index_index_prefix_eq, !length_app, length_write_u64 by done.
      by rewrite !length_write_variant by (destruct unique; lia). }
    rewrite Hlen. unfold value_key, Key_encode. cbn [Key_variant].
    destruct unique; cbn [IndexKey_encode]; unfold CanonicalKey_encode;
      rewrite !drop_variant, drop_u64, write_slice_bytes, <-?app_assoc by (done || lia); done.
Qed.
Lemma index_prefix_space kind i : u64 i -> subspace_prefix IndexSpace `prefix_of` index_index_prefix kind i.
Proof.
  intros Hi. rewrite subspace_prefix_eq, index_index_prefix_eq, app_nil_r by done. by apply prefix_app_r.
Qed.

Lemma range_scan_ok (s : S) i unique nulls lower upper order :
  u64 i -> index_wf s -> bound_wf lower -> bound_wf upper ->
  exists l, run s (range_row_ids i unique nulls lower upper order) = Ok (map snd l)
    /\ (forall v r, (v, r) ∈ l <->
          index_entry s i unique v r /\ lower_ok nulls lower v /\ upper_ok nulls upper v)
    /\ StronglySorted (scan_lt order) l.
Proof.
  intros Hi Hs Hl Hu. set (kind := if unique then IndexUnique else IndexMulti).
  destruct (index_scan_ok s i unique (index_index_prefix kind i) (range_start kind i nulls lower)
    (range_end kind i nulls upper) order Hi Hs (index_prefix_space kind i Hi)) as (l & E & Hin & Hst).
  { intros k Hk Hp. apply index_index_prefix_exact in Hp; [|done..]. subst kind.
    destruct unique; [destruct Hp as (v & ->); by exists v, 0|destruct Hp as (v & r & ->); by exists v, r]. }
  exists l. split_and!; [exact E| |done]. intros v r. rewrite Hin. unfold selected.
  split; intros [He Hx]; (split; [done|]); destruct He as (Hr & _);
    destruct (entry_suffix kind i unique v r Hi Hr eq_refl) as [Hp Hd]; rewrite Hd in *.
  - destruct Hx as [_ Hx]. by apply in_range_iff in Hx.
  - split; [done|]. by apply in_range_iff.
Qed.

(** *** Value prefixes *)

Lemma multi_value_prefix_eq i v :
  u64 i -> index_multi_value_prefix i v
  = write_variant 5 ++ write_variant 1 ++ write_u64 i ++ escape (canonical_bytes v) ++ [x00].
Proof.
  intros Hi. unfold index_multi_value_prefix, Key_encode. cbn [Key_variant IndexKey_encode].
  unfold CanonicalKey_encode. rewrite !app_assoc, length_app, (length_write_u64 0), Nat.add_sub, take_app_length
    by apply u64_0. by rewrite write_slice_bytes, <-!app_assoc.
Qed.

Lemma multi_key_eq i v r :
  Key_encode (K_Index (XK_Multi i v r))
  = write_variant 5 ++ write_variant 1 ++ write_u64 i ++ escape (canonical_bytes v) ++ x00 :: write_u64 r.
Proof.
  unfold Key_encode. cbn [Key_variant IndexKey_encode]. unfold CanonicalKey_encode.
  by rewrite write_slice_bytes, <-app_assoc.
Qed.

Lemma multi_prefix_key i rest k :
  u64 i -> Key_wf k -> write_variant 5 ++ write_variant 1 ++ write_u64 i ++ rest `prefix_of` Key_encode k ->
  exists w r, k = K_Index (XK_Multi i w r) /\ u64 r
    /\ rest `prefix_of` escape (canonical_bytes w) ++ x00 :: write_u64 r.
Proof.
  intros Hi Hk Hp. assert (Hx : index_index_prefix IndexMulti i `prefix_of` Key_encode k).
  { rewrite index_index_prefix_eq by done. etrans; [|exact Hp]. exists rest. by rewrite app_nil_r, <-!app_assoc. }
  apply index_index_prefix_exact in Hx as (w & r & ->); [|done..]. exists w, r. split; [done|].
  split; [apply Hk|]. rewrite multi_key_eq in Hp. by do 3 apply prefix_app_inv in Hp.
Qed.

Lemma escape_term_prefix v w r :
  escape v ++ [x00] `prefix_of` escape w ++ x00 :: r <-> v = w.
Proof.
  split; [|intros ->; apply prefix_app, prefix_cons, prefix_nil].
  intros [k Hk]. assert (E : read_vec (write_slice v ++ k) = read_vec (write_slice w ++ r)).
  { rewrite !write_slice_bytes, <-Hk. by rewrite <-app_assoc. }
  rewrite !read_vec_write in E. by injection E.
Qed.

(** Entries of one value, in entry order, are in row order. *)
Lemma StronglySorted_map_const v l :
  (forall w r, (w, r) ∈ l -> w = v) -> StronglySorted entry_lt l -> StronglySorted N.lt (map snd l).
Proof.
  intros Hv. induction 1 as [|[w r] l Hl IH Hw]; [constructor|]. cbn [map].
  assert (w = v) as -> by (eapply Hv; by left). constructor; [apply IH; intros; eapply Hv; by right|].
  apply Forall_forall. rewrite Forall_forall in Hw. intros r' ([w' r''] & -> & Hw')%list_elem_of_fmap.
  pose proof (Hw _ Hw') as Hlt. assert (w' = v) as -> by (eapply Hv; by right).
  unfold entry_lt in Hlt. cbn [fst snd] in Hlt. unfold CanonicalKey_compare in Hlt.
  rewrite bytes_compare_refl in Hlt. by apply N.compare_lt_iff.
Qed.

Lemma lookup_multi_ok (s : S) i v :
  u64 i -> index_wf s ->
  exists ids, run s (lookup_row_ids i false v) = Ok ids
    /\ (forall r, r ∈ ids <-> index_entry s i false v r) /\ StronglySorted N.lt ids.
Proof.
  intros Hi Hs. pose proof (multi_value_prefix_eq i v Hi) as Ep.
  destruct (index_scan_ok s i false (index_multi_value_prefix i v) Unbounded Unbounded ScanAscending Hi Hs)
    as (l & E & Hin & Hst).
  { rewrite Ep, subspace_prefix_eq, app_nil_r. by apply prefix_app_r. }
  { intros k Hk Hp. rewrite Ep in Hp. apply multi_prefix_key in Hp as (w & r & -> & _); [|done..].
    by exists w, r. }
  assert (Hv : forall w r, (w, r) ∈ l <-> w = v /\ index_entry s i false v r).
  { intros w r. rewrite Hin. unfold selected.
    change (value_key i false w r) with (K_Index (XK_Multi i w r)). split.
    - intros [He [Hp _]].
      rewrite Ep, multi_key_eq in Hp. do 3 apply prefix_app_inv in Hp.
      apply escape_term_prefix in Hp. assert (w = v) as -> by (destruct v, w; cbn in Hp; congruence).
      done.
    - intros [-> He]. split; [done|]. split; [|done]. rewrite Ep, multi_key_eq.
      do 3 apply prefix_app. by apply escape_term_prefix. }
  exists (map snd l). split_and!; [exact E|..].
  - intros r. rewrite list_elem_of_fmap. split.
    + intros ([w r'] & -> & [-> He]%Hv). exact He.
    + intros He. exists (v, r). split; [done|]. by apply Hv.
  - apply (StronglySorted_map_const v); [|exact Hst]. intros w r Hw. by apply Hv in Hw as [-> _].
Qed.

Lemma null_prefix_scan_ok (s : S) i c order :
  u64 i -> index_wf s ->
  exists l, run s (null_prefix_row_ids i c order) = Ok (map snd l)
    /\ (forall v r, (v, r) ∈ l <->
          index_entry s i false v r /\ canonical_bytes c `prefix_of` canonical_bytes v)
    /\ StronglySorted (scan_lt order) l.
Proof.
  intros Hi Hs.
  assert (Ep : take (length (index_multi_value_prefix i c) - 1) (index_multi_value_prefix i c)
    = write_variant 5 ++ write_variant 1 ++ write_u64 i ++ escape (canonical_bytes c)).
  { rewrite multi_value_prefix_eq by done. rewrite !app_assoc, length_app. cbn [length].
    by rewrite Nat.add_sub, take_app_length. }
  unfold null_prefix_row_ids. set (p := take _ _) in *.
  destruct (index_scan_ok s i false p Unbounded Unbounded order Hi Hs) as (l & E & Hin & Hst).
  { rewrite Ep, subspace_prefix_eq, app_nil_r. by apply prefix_app_r. }
  { intros k Hk Hp. rewrite Ep in Hp. apply multi_prefix_key in Hp as (w & r & -> & _); [|done..].
    by exists w, r. }
  exists l. split_and!; [exact E| |done]. intros v r. rewrite Hin. unfold selected.
  change (value_key i false v r) with (K_Index (XK_Multi i v r)). rewrite Ep, multi_key_eq.
  assert (Hiff : write_variant 5 ++ write_variant 1 ++ write_u64 i ++ escape (canonical_bytes c)
    `prefix_of` write_variant 5 ++ write_variant 1 ++ write_u64 i ++
      escape (canonical_bytes v) ++ x00 :: write_u64 r
    <-> canonical_bytes c `prefix_of` canonical_bytes v).
  { rewrite <-(escape_prefix (canonical_bytes c) (canonical_bytes v) (write_u64 r)). split.
    - intros Hp. by do 3 apply prefix_app_inv in Hp.
    - intros Hp. by do 3 apply prefix_app. }
  rewrite Hiff. naive_solver.
Qed.

Lemma lookup_unique_ok (s : S) i v r :
  kv_get s (Key_encode (K_Index (XK_Unique i v))) = Some (row_id_bytes r) -> u64 r ->
  run s (lookup_row_ids i true v) = Ok [r].
Proof. intros E Hr. cbn [lookup_row_ids run]. rewrite E. cbn [run lift]. by rewrite decode_row_id_bytes. Qed.

(** A point read of a unique index finds the row of the value, if it has one. *)
Lemma lookup_unique_exact (s : S) i v :
  u64 i -> index_wf s ->
  exists ids, run s (lookup_row_ids i true v) = Ok ids
    /\ (forall r, r ∈ ids <-> index_entry s i true v r) /\ StronglySorted N.lt ids
    /\ (true = true -> (length ids <= 1)%nat).
Proof.
  intros Hi Hs. unfold index_entry, value_key.
  assert (Hk : Key_wf (K_Index (XK_Unique i v))) by exact (value_key_wf i true v 0 Hi eq_refl).
  destruct (kv_get s (Key_encode (K_Index (XK_Unique i v)))) as [b|] eqn:E.
  - destruct (Hs _ _ E) as (k & Ek & Hkw & Hv); [by apply subspace_prefix_iff|].
    apply Key_encode_inj in Ek as [= <-]; [|done..]. destruct Hv as (r & Hr & ->).
    exists [r]. split_and!; [by apply lookup_unique_ok| |repeat constructor|cbn; lia].
    intros r'. rewrite list_elem_of_singleton. split.
    + intros ->. split; [done|]. exists (row_id_bytes r). split; [done|]. intros _. by apply decode_row_id_bytes.
    + intros (_ & b & [= <-] & Hd). specialize (Hd eq_refl). rewrite decode_row_id_bytes in Hd by done. by injection Hd.
  - exists []. split_and!; [by cbn [lookup_row_ids run]; rewrite E| |constructor|cbn; lia].
    intros r. rewrite elem_of_nil. split; [done|]. by intros (_ & b & [=] & _).
Qed.

(** The batch leaves an index subspace in order. *)
Lemma index_wf_staged (s s' : S) entries :
  index_wf s -> Forall entry_wf entries ->
  (forall kb, kv_get s' kb =
     put_content (after_deletes s entries) ∅ (puts_of entries) (after_deletes s entries) kb) ->
  index_wf s'.
Proof.
  intros Hs Hwf Hk kb b. rewrite Hk. unfold put_content.
  assert (Hin : forall e, e ∈ puts_of entries -> entry_wf e).
  { intros e [_ He]%list_elem_of_filter. rewrite Forall_forall in Hwf. auto. }
  assert (Hold : after_deletes s entries kb = Some b -> kv_get s kb = Some b)
    by (unfold after_deletes; by case_decide).
  destruct (multi_put (puts_of entries) kb) eqn:Em.
  - intros _ _. apply multi_put_true in Em as (e & He & Hu & <-).
    exists (XK_Multi (se_index_id e) (se_key e) (se_row_id e)).
    pose proof (entry_key_wf e (Hin e He)) as Hkw. unfold entry_key in *. rewrite Hu in *. done.
  - rewrite lookup_empty. destruct (first_claim (puts_of entries) kb) as [c|] eqn:Ec; [|auto].
    apply first_claim_Some in Ec as (Hc & Hu & <-). intros [= <-] Hp.
    destruct (after_deletes s entries (Key_encode (entry_key c))) as [b'|] eqn:Eb; cbn [default].
    + by apply Hs; [apply Hold|].
    + exists (XK_Unique (se_index_id c) (se_key c)).
      pose proof (entry_key_wf c (Hin c Hc)) as Hkw. unfold entry_key in *. rewrite Hu in *.
      split_and!; [done..|]. exists (se_row_id c). split; [apply (Hin c Hc)|done].
Qed.
End LookupLaws.

(** ** Properties *)

(** C10: staging a commit's index entries enforces uniqueness exactly.  The batch is
    refused, as a constraint violation, when some entry of an index in service
    claims a value another row claims in the batch or holds in the store and the
    batch does not delete; otherwise it is staged.  Afterwards every claim of an index in
    service resolves to its row and to no other, every non-unique entry is found under its
    value, and the building indexes poisoned are exactly those with a duplicate. *)
Theorem unique_entries_enforced {S} `{KVLaws S, SKL : StorekeyLaws} (s : S)
    (entries : list StagedIndexEntry) :
  index_wf s -> Forall entry_wf entries -> coherent entries ->
  N.of_nat (length entries) <= MAX_INDEX_ENTRIES_PER_COMMIT ->
  ((exists e, e ∈ puts_of entries /\ se_unique e = true /\ se_building e = false
      /\ duplicated s entries e) ->
     stage_index_entries entries s = Err Constraint)
  /\ (~ (exists e, e ∈ puts_of entries /\ se_unique e = true /\ se_building e = false
           /\ duplicated s entries e) ->
      exists out s', stage_index_entries entries s = Ok (out, s') /\ index_wf s'
      /\ (forall e, e ∈ puts_of entries -> se_unique e = true -> se_building e = false ->
            run s' (lookup_row_ids (se_index_id e) true (se_key e)) = Ok [se_row_id e])
      /\ (forall e, e ∈ puts_of entries -> se_unique e = false ->
            exists ids, run s' (lookup_row_ids (se_index_id e) false (se_key e)) = Ok ids
              /\ se_row_id e ∈ ids)
      /\ (forall i, i ∈ ses_poisoned out <->
            exists e, e ∈ puts_of entries /\ se_unique e = true /\ duplicated s entries e
              /\ se_index_id e = i)).
Proof.
  intros Hs Hwf Hcoh Hmax. pose proof (stage_index_entries_ok s entries Hs Hwf Hcoh Hmax) as Hok.
  assert (Hin : forall e, e ∈ puts_of entries -> entry_wf e).
  { intros e [_ He]%list_elem_of_filter. rewrite Forall_forall in Hwf. auto. }
  destruct (stage_index_entries entries s) as [[out s']|x].
  2: { destruct Hok as (-> & e & ? & ? & ? & ?). split; [done|]. intros Hno. destruct Hno. eauto 10. }
  destruct Hok as (Hb & Hp & Hk). split.
  { intros (e & He & Hu & Hbf & Hd). rewrite (Hb e He Hu Hd) in Hbf. done. }
  intros Hno. pose proof (index_wf_staged s s' entries Hs Hwf Hk) as Hs'.
  exists out, s'. split_and!; [done..| | |done].
  - intros e He Hu Hbf. destruct (Hin e He) as [Hi Hr]. apply lookup_unique_ok; [|done].
    assert (Ek : Key_encode (K_Index (XK_Unique (se_index_id e) (se_key e))) = Key_encode (entry_key e))
      by (unfold entry_key; by rewrite Hu).
    rewrite Ek, Hk. unfold put_content. destruct (multi_put (puts_of entries) _) eqn:Em.
    { apply multi_put_true in Em as (e' & He' & Hu' & Ek'). exfalso.
      apply (unique_multi_keys e e'); auto. }
    rewrite lookup_empty. destruct (first_claim_of _ _ He Hu) as [c Hc]. rewrite Hc.
    apply first_claim_Some in Hc as (Hcin & Hcu & Eck).
    assert (Hrow : se_row_id c = se_row_id e).
    { destruct (decide (se_row_id c = se_row_id e)) as [?|Hne]; [done|]. destruct Hno. exists e.
      split_and!; [done..|]. left. exists c. done. }
    rewrite Hrow. f_equal.
    destruct (after_deletes s entries (Key_encode (entry_key e))) as [b|] eqn:Eb; [|done]. cbn [default].
    destruct (decode_index_value s entries e b Hs (Hin e He) Hu Eb) as (r & Hur & ->).
    destruct (decide (r = se_row_id e)) as [->|Hne]; [done|]. destruct Hno. exists e.
    split_and!; [done..|]. right. exists (row_id_bytes r), r. rewrite Eb.
    split_and!; [done|by apply decode_row_id_bytes|done].
  - intros e He Hu. destruct (Hin e He) as [Hi Hr].
    destruct (lookup_multi_ok s' (se_index_id e) (se_key e) Hi Hs') as (ids & E & Hids & _).
    exists ids. split; [exact E|]. apply Hids. split; [done|]. exists []. split; [|done].
    change (value_key (se_index_id e) false (se_key e) (se_row_id e))
      with (K_Index (XK_Multi (se_index_id e) (se_key e) (se_row_id e))).
    assert (Ek : entry_key e = K_Index (XK_Multi (se_index_id e) (se_key e) (se_row_id e)))
      by (unfold entry_key; by rewrite Hu).
    rewrite <-Ek, Hk. unfold put_content. rewrite (proj2 (multi_put_true _ _)); [done|eauto].
Qed.

(** C17: a range read of an index returns exactly the rows whose value lies between
    its bounds, in value order then row order, or the exact opposite: an included
    bound takes in every value that begins with it, an excluded lower bound skips
    them all, and an open side stays within the values whose leading column is not
    NULL.  A null-prefix read returns exactly the rows of the values that begin with
    the prefix.  A point read returns exactly the rows of the value itself, in row
    order; of a unique index that is the one row the value has, or none. *)
Theorem index_reads_exact {S} `{KVLaws S, SKL : StorekeyLaws} (s : S) (i : N) :
  u64 i -> index_wf s ->
  (forall unique nulls lower upper order, bound_wf lower -> bound_wf upper ->
     exists l, run s (range_row_ids i unique nulls lower upper order) = Ok (map snd l)
       /\ (forall v r, (v, r) ∈ l <-> index_entry s i unique v r
             /\ lower_ok nulls lower v /\ upper_ok nulls upper v)
       /\ StronglySorted (scan_lt order) l)
  /\ (forall prefix order,
     exists l, run s (null_prefix_row_ids i prefix order) = Ok (map snd l)
       /\ (forall v r, (v, r) ∈ l <-> index_entry s i false v r
             /\ canonical_bytes prefix `prefix_of` canonical_bytes v)
       /\ StronglySorted (scan_lt order) l)
  /\ (forall unique v, exists ids, run s (lookup_row_ids i unique v) = Ok ids
       /\ (forall r, r ∈ ids <-> index_entry s i unique v r) /\ StronglySorted N.lt ids
       /\ (unique = true -> (length ids <= 1)%nat)).
Proof.
  intros Hi Hs. split_and!.
  - intros. by apply range_scan_ok.
  - intros. by apply null_prefix_scan_ok.
  - intros [] v; [by apply lookup_unique_exact|].
    destruct (lookup_multi_ok s i v Hi Hs) as (ids & ? & ? & ?). by exists ids.
Qed.

(** ** Witnesses *)

Section SampleIndex.
Local Existing Instance reference_storekey.
Local Existing Instance reference_storekey_laws.

Definition sample_value (b : byte) : CanonicalKey := mkCanonicalKey [x01; b].

(** Unique index 7 holds one value; index 8 three entries of two values. *)
Definition sample_index_keys : list (IndexKey * bytes) :=
  [(XK_Unique 7 (sample_value x05), row_id_bytes 3);
   (XK_Multi 8 (sample_value x02) 4, []); (XK_Multi 8 (sample_value x02) 9, []);
   (XK_Multi 8 (sample_value x07) 1, [])].
Definition sample_index : gmap bytes bytes :=
  gmap_apply ∅ (map (fun e => (Key_encode (K_Index e.1), Some e.2)) sample_index_keys).

Lemma sample_index_wf : index_wf sample_index.
Proof.
  intros kb b Hb _. apply gmap_apply_elem in Hb.
  apply list_elem_of_In, in_map_iff in Hb as ([k v] & [= <- <-] & Hin%list_elem_of_In).
  exists k. cbn [fst snd]. split; [done|].
  unfold sample_index_keys in Hin. rewrite !elem_of_cons, elem_of_nil in Hin.
  destruct_or? Hin; try done; injection Hin as -> ->; (split; [by repeat constructor|]); [by exists 3|done..].
Qed.

Lemma unique_entries_enforced_witness :
  let put := fun i u b r => mkStagedIndexEntry i u (sample_value b) r false false in
  stage_index_entries [put 7 true x05 4] sample_index = Err Constraint
  /\ exists out s', stage_index_entries [put 7 true x06 4; put 8 false x02 5] sample_index = Ok (out, s')
       /\ run s' (lookup_row_ids 7 true (sample_value x06)) = Ok [4].
Proof.
  intros put.
  assert (W : Forall entry_wf [put 7 true x05 4]) by (by repeat constructor).
  assert (W' : Forall entry_wf [put 7 true x06 4; put 8 false x02 5]) by (by repeat constructor).
  assert (C : coherent [put 7 true x05 4]).
  { intros e e' He%list_elem_of_singleton He'%list_elem_of_singleton _. by subst. }
  assert (C' : coherent [put 7 true x06 4; put 8 false x02 5]).
  { intros e e' He He' _. rewrite !elem_of_cons, elem_of_nil in He, He'.
    destruct_or? He; destruct_or? He'; by subst. }
  split.
  - apply (proj1 (unique_entries_enforced sample_index _ sample_index_wf W C ltac:(done))).
    exists (put 7 true x05 4). split_and!; [by apply list_elem_of_singleton|done..|].
    right. exists (row_id_bytes 3), 3. split_and!; [vm_compute; reflexivity..|done].
  - destruct (proj2 (unique_entries_enforced sample_index _ sample_index_wf W' C' ltac:(done)))
      as (out & s' & E & _ & Hl & _).
    { intros (e & He & Hu & _ & Hd). change (puts_of _) with [put 7 true x06 4; put 8 false x02 5] in He.
      rewrite !elem_of_cons, elem_of_nil in He. destruct_or? He; subst e; try done.
      destruct Hd as [(e' & He' & Hu' & _ & Hne)|(b & r & Hb & _)].
      - change (puts_of _) with [put 7 true x06 4; put 8 false x02 5] in He'.
        rewrite !elem_of_cons, elem_of_nil in He'. destruct_or? He'; [subst e'; by destruct Hne|subst e'; discriminate Hu'].
      - vm_compute in Hb. discriminate Hb. }
    exists out, s'. split; [exact E|].
    apply (Hl (put 7 true x06 4)); [by apply list_elem_of_here|reflexivity|reflexivity].
Defined.

Lemma index_reads_exact_witness :
  run sample_index (range_row_ids 8 false NullsFirst (Included (sample_value x02))
    (Excluded (sample_value x07)) ScanDescending) = Ok [9; 4]
  /\ exists l, run sample_index (range_row_ids 8 false NullsFirst (Included (sample_value x02))
    (Excluded (sample_value x07)) ScanDescending) = Ok (map snd l)
    /\ StronglySorted (scan_lt ScanDescending) l
  /\ exists ids, run sample_index (lookup_row_ids 7 true (sample_value x05)) = Ok ids
    /\ (3 ∈ ids <-> index_entry sample_index 7 true (sample_value x05) 3).
Proof.
  split; [vm_compute; reflexivity|].
  destruct (proj2 (proj2 (index_reads_exact sample_index 7 eq_refl sample_index_wf)) true (sample_value x05))
    as (ids & Ei & Hids & _).
  destruct (proj1 (index_reads_exact sample_index 8 eq_refl sample_index_wf) false NullsFirst
    (Included (sample_value x02)) (Excluded (sample_value x07)) ScanDescending) as (l & E & _ & Hs).
  - by exists x01, [x02].
  - by exists x01, [x07].
  - exists l. split_and!; [exact E|exact Hs|]. exists ids. split; [exact Ei|apply Hids].
Defined.
End SampleIndex.
