(* ===== verification/Fold.v ===== *)
(** Folding a committed batch forward into a materialized view
    ([transaction/commit/fold.rs]), and its refinement: the folded view holds, key
    by key, what a fresh scan of the store after the batch builds. *)
From stdpp Require Import gmap strings list fin_maps.
From Stdlib Require Import NArith ZArith Lia.
From S2P Require Import Prelude Storekey KeyLayout Values Snapshot Catalog Store.

Local Open Scope N_scope.

(** [remove_entity]. *)
Definition remove_entity (entity : EntityKey) (view : CatalogSnapshot) : result CatalogSnapshot :=
  match entity with
  | EK_Schema schema_id => Ok (remove_schema_only schema_id view)
  | EK_Table table_id => Ok (remove_table_only table_id view)
  | EK_View view_id => Ok (delete_view view_id view)
  | EK_Column table_id column_id => Ok (remove_column_only table_id column_id view)
  | EK_File table_id data_file_id => Ok (delete_data_file table_id data_file_id view)
  | EK_DeleteFile table_id delete_file_id => Ok (delete_delete_file table_id delete_file_id view)
  | EK_Partition table_id partition_id => Ok (delete_partition table_id partition_id view)
  | EK_Sort table_id sort_id => Ok (delete_sort table_id sort_id view)
  | EK_Macro macro_id => Ok (delete_macro macro_id view)
  | EK_Index table_id index_id => Ok (delete_index table_id index_id view)
  | EK_FileColumnStats table_id data_file_id column_id =>
      Ok (remove_file_column_stats table_id data_file_id column_id view)
  | EK_TableStats table_id => Ok (remove_table_stats table_id view)
  | EK_TableColumnStats table_id column_id => Ok (remove_table_column_stats table_id column_id view)
  | EK_Option scope_kind scope_id => Ok (remove_option_record (scope_kind, scope_id) view)
  | EK_Tag object_id => Ok (remove_tag object_id view)
  | EK_Mapping _ _ => Err Corruption
  end.

Section Fold.
  Context `{SK : Storekey, MS : Messages}.

(** The locals of [fold_batch]: the view, [new_head] and [minted]. *)
Definition FoldState : Type := CatalogSnapshot * option N * option SnapshotValue.

(** One iteration of [fold_batch]. *)
Definition fold_write (st : FoldState) (w : StagedWrite) : result FoldState :=
  let '(view, new_head, minted) := st in
  let '(encoded_key, write) := w in
  key ← Key_decode encoded_key;
  match key, write with
  | K_Current (CK_Entity entity), Some b =>
      r ← decode_entity entity b; Ok (put_record r view, new_head, minted)
  | K_Current (CK_Entity entity), None =>
      view ← remove_entity entity view; Ok (view, new_head, minted)
  | K_Current (CK_GcFile _), Some b =>
      v ← decode_value b; Ok (put_gc_file v view, new_head, minted)
  | K_Current (CK_GcFile data_file_id), None =>
      Ok (remove_gc_file data_file_id view, new_head, minted)
  | K_Snapshot _, Some b => v ← decode_value b; Ok (view, new_head, Some v)
  | K_Sys SK_Head, Some b =>
      head ← decode_value b;
      Ok (set_batch_seq (fun _ => hd_batch_seq head) view, Some (hd_snapshot_id head), minted)
  | _, _ => Ok st
  end.

(** [fold_batch]. *)
Definition fold_batch (view : CatalogSnapshot) (writes : list StagedWrite) : result CatalogSnapshot :=
  st ← foldl (fun acc w => st ← acc; fold_write st w) (Ok (view, None, None)) writes;
  let '(view, new_head, minted) := st in
  match new_head, minted with
  | Some head, Some snapshot =>
      if sn_snapshot_id snapshot =? head then Ok (set_snapshot (fun _ => snapshot) view) else Ok view
  | _, _ => Ok view
  end.
End Fold.

(** ** Removal of one record *)

Lemma remove_entity_at e v v' k :
  remove_entity e v = Ok v' ->
  view_at v' k = if decide (k = CK_Entity e) then None else view_at v k.
Proof.
  destruct e; cbn [remove_entity]; intros [= <-];
    auto using remove_schema_only_at, remove_table_only_at, delete_view_at, delete_macro_at,
      delete_index_at; destruct k as [[]|]; cbn; point_update.
Qed.

Lemma remove_entity_ok e v :
  (forall t m, e <> EK_Mapping t m) -> exists v', remove_entity e v = Ok v'.
Proof. intros H. destruct e; cbn; eauto. by destruct (H table_id mapping_id). Qed.

(** ** The refinement *)

Lemma remove_entity_snapshot e v v' :
  remove_entity e v = Ok v' -> cs_snapshot v' = cs_snapshot v /\ cs_batch_seq v' = cs_batch_seq v.
Proof.
  destruct e; cbn; intros [= <-]; try done;
    unfold remove_schema_only, remove_table_only, delete_view, delete_macro, delete_index;
    repeat case_match; try done; simplify_eq; done.
Qed.

Section Refinement.
  Context {S : Type} `{KVLaws S, SKL : StorekeyLaws, MSL : MessagesLaws}.

(** A live record, stored under the key its ids name. *)
Definition stored_as (c : CurrentKey) (b : bytes) (r : EntityRecord) : Prop :=
  decode_current (K_Current c) b = Ok r /\ record_key r = c /\ record_included None r = true.

(** The [current] subspace holds only well-formed live records. *)
Definition current_wf (s : S) : Prop :=
  forall kb b, kv_get s kb = Some b -> subspace_prefix CurrentSpace `prefix_of` kb ->
  exists c r, kb = Key_encode (K_Current c) /\ Key_wf (K_Current c) /\ stored_as c b r.

(** The view holds at each key what the store holds there. *)
Definition Represents (v : CatalogSnapshot) (s : S) : Prop :=
  forall c, (~ Key_wf (K_Current c) -> view_at v c = None)
    /\ (Key_wf (K_Current c) ->
        match kv_get s (Key_encode (K_Current c)) with
        | Some b => exists r, stored_as c b r /\ view_at v c = Some r
        | None => view_at v c = None
        end).

(** A write the committer stages: a well-formed key, and under a [current] key a
    live record of that key, never the removal of a mapping. *)
Definition write_wf (w : StagedWrite) : Prop :=
  exists k, w.1 = Key_encode k /\ Key_wf k
    /\ match k, w.2 with
       | K_Current c, Some b => exists r, stored_as c b r
       | K_Current c, None => forall t m, c <> CK_Entity (EK_Mapping t m)
       | K_Snapshot _, Some b => exists v : SnapshotValue, decode_value b = Ok v
       | K_Sys SK_Head, Some b => exists v : HeadValue, decode_value b = Ok v
       | _, _ => True
       end.

(** What a batch leaves at a key, given what the view held there. *)
Definition folded_at (ws : list StagedWrite) (old : option EntityRecord) (c : CurrentKey)
  : option EntityRecord :=
  match last_write ws (Key_encode (K_Current c)) with
  | Some (Some b) => match decode_current (K_Current c) b with Ok r => Some r | Err _ => None end
  | Some None => None
  | None => old
  end.

Lemma Key_encode_current_eq k c :
  Key_wf k -> Key_wf (K_Current c) ->
  Key_encode k = Key_encode (K_Current c) <-> k = K_Current c.
Proof. intros ??. split; [by apply Key_encode_inj|by intros ->]. Qed.

(** One write moves exactly its own key. *)
Lemma fold_write_at view new_head minted w :
  write_wf w -> exists view' h' m', fold_write (view, new_head, minted) w = Ok (view', h', m')
    /\ (forall c, Key_wf (K_Current c) ->
          view_at view' c = folded_at [w] (view_at view c) c)
    /\ (forall c, ~ Key_wf (K_Current c) -> view_at view' c = view_at view c).
Proof.
  intros (k & Ek & Hk & Hw). destruct w as [kb o]; simpl in *. subst kb.
  assert (Hat : forall c, Key_wf (K_Current c) ->
    folded_at [(Key_encode k, o)] (view_at view c) c =
    if decide (k = K_Current c)
    then match o with
         | Some b => match decode_current (K_Current c) b with Ok r => Some r | Err _ => None end
         | None => None end
    else view_at view c).
  { intros c Hc. unfold folded_at. change [(Key_encode k, o)] with ([] ++ [(Key_encode k, o)]).
    rewrite last_write_snoc. simpl.
    destruct (decide (k = K_Current c)) as [->|Hne]; [by rewrite decide_True by done|].
    rewrite decide_False; [done|]. by rewrite Key_encode_current_eq. }
  rewrite Key_decode_encode by done.
  assert (Hskip : (forall c, k <> K_Current c) ->
    (forall c, Key_wf (K_Current c) ->
       view_at view c = folded_at [(Key_encode k, o)] (view_at view c) c)).
  { intros Hne c Hc. rewrite Hat by done. by rewrite decide_False by apply Hne. }
  destruct k as [[]|sn|[e|f]|h|i|x|t sn|sn]; cbn -[decode_value];
    try (destruct o as [b|]; [|by do 3 eexists; split_and!; [reflexivity|apply Hskip; congruence|]]);
    try (by do 3 eexists; split_and!; [reflexivity|apply Hskip; congruence|]).
  - destruct Hw as [v ->]. do 3 eexists. split_and!; [reflexivity| |];
      intros c Hc; [rewrite <-Hskip by (congruence || done)|]; by destruct c as [[]|].
  - destruct Hw as [v ->]. do 3 eexists. split_and!; [reflexivity|apply Hskip; congruence|done].
  - destruct o as [b|].
    + destruct Hw as (r & Hd & Hr & _). cbn in Hd. rewrite Hd. do 3 eexists.
      split_and!; [reflexivity| |]; intros c Hc; rewrite put_record_at, Hr.
      * rewrite Hat by done. destruct (decide (c = CK_Entity e)) as [->|Hne].
        -- rewrite decide_True by done. cbn. by rewrite Hd.
        -- by rewrite decide_False by congruence.
      * rewrite decide_False; [done|]. by intros ->.
    + destruct (remove_entity_ok e view) as [v' E]; [by intros t m ->; eapply Hw|]. rewrite E.
      do 3 eexists. split_and!; [reflexivity| |]; intros c Hc; rewrite (remove_entity_at _ _ _ _ E).
      * rewrite Hat by done. destruct (decide (c = CK_Entity e)) as [->|Hne].
        -- by rewrite decide_True.
        -- by rewrite decide_False by congruence.
      * rewrite decide_False; [done|]. by intros ->.
  - destruct o as [b|].
    + destruct Hw as (r & Hd & Hr & _). cbn in Hd.
      destruct (decode_value b) as [v|] eqn:Ev; [|discriminate]. injection Hd as <-.
      do 3 eexists. split_and!; [reflexivity| |]; intros c Hc;
        change (put_gc_file v view) with (put_record (ER_GcFile v) view); rewrite put_record_at, Hr.
      * rewrite Hat by done. destruct (decide (c = CK_GcFile f)) as [->|Hne].
        -- rewrite decide_True by done. cbn. by rewrite Ev.
        -- by rewrite decide_False by congruence.
      * rewrite decide_False; [done|]. by intros ->.
    + do 3 eexists. split_and!; [reflexivity| |]; intros c Hc.
      * rewrite Hat by done. destruct c as [[]|f']; cbn; try by rewrite decide_False by congruence.
        rewrite lookup_delete. destruct (decide (f = f')) as [->|Hne]; [by rewrite decide_True|].
        by rewrite decide_False by congruence.
      * destruct c as [[]|f']; cbn; try done. rewrite lookup_delete_ne; [done|]. intros ->. done.
Qed.

Lemma folded_at_snoc ws w old c : folded_at (ws ++ [w]) old c = folded_at [w] (folded_at ws old c) c.
Proof.
  unfold folded_at. change (last_write [w]) with (last_write ([] ++ [w])).
  rewrite !last_write_snoc. by case_decide.
Qed.

Lemma fold_writes_at view ws :
  Forall write_wf ws -> exists view' h m,
    foldl (fun acc w => st ← acc; fold_write st w) (Ok (view, None, None)) ws = Ok (view', h, m)
    /\ (forall c, Key_wf (K_Current c) -> view_at view' c = folded_at ws (view_at view c) c)
    /\ (forall c, ~ Key_wf (K_Current c) -> view_at view' c = view_at view c).
Proof.
  induction ws as [|w ws IH] using rev_ind; intros Hws; [by do 3 eexists|].
  apply Forall_app in Hws as [Hws Hw]. apply (proj1 (Forall_singleton _ _)) in Hw.
  destruct (IH Hws) as (v1 & h1 & m1 & E1 & Hat1 & Hno1).
  destruct (fold_write_at v1 h1 m1 w Hw) as (v2 & h2 & m2 & E2 & Hat2 & Hno2).
  exists v2, h2, m2. rewrite foldl_snoc, E1. split_and!; [exact E2| |].
  - intros c Hc. by rewrite Hat2, Hat1, folded_at_snoc.
  - intros c Hc. by rewrite Hno2, Hno1.
Qed.

Lemma fold_batch_at view ws :
  Forall write_wf ws -> exists view', fold_batch view ws = Ok view'
    /\ (forall c, Key_wf (K_Current c) -> view_at view' c = folded_at ws (view_at view c) c)
    /\ (forall c, ~ Key_wf (K_Current c) -> view_at view' c = view_at view c).
Proof.
  intros (v & h & m & E & Hat & Hno)%(fold_writes_at view). unfold fold_batch. rewrite E. cbn.
  destruct h as [h|], m as [m|]; try by eexists.
  case_match; (eexists; split_and!; [reflexivity|..]; try done);
    intros c Hc; rewrite view_at_set_snapshot; auto.
Qed.

Lemma fold_batch_represents view s ws :
  Represents view s -> Forall write_wf ws ->
  exists view', fold_batch view ws = Ok view' /\ Represents view' (kv_apply s ws).
Proof.
  intros Hr Hws. destruct (fold_batch_at view ws Hws) as (v' & E & Hat & Hno).
  exists v'. split; [done|]. intros c. split; [intros Hc; rewrite Hno by done; by apply Hr|].
  intros Hc. rewrite Hat, kv_get_apply by done. unfold folded_at.
  destruct (last_write ws (Key_encode (K_Current c))) as [[b|]|] eqn:El; [|done|by apply Hr].
  apply last_write_elem in El. rewrite Forall_forall in Hws. apply Hws in El as (k & Ek & Hk & Hw).
  cbn [fst snd] in *. apply Key_encode_inj in Ek as <-; [|done|done]. destruct Hw as (r & Hst).
  exists r. split; [done|]. destruct Hst as (-> & _). done.
Qed.

Lemma current_wf_apply s ws : current_wf s -> Forall write_wf ws -> current_wf (kv_apply s ws).
Proof.
  intros Hs Hws kb b. rewrite kv_get_apply. destruct (last_write ws kb) as [o|] eqn:El; [|apply Hs].
  intros -> Hp. apply last_write_elem in El. rewrite Forall_forall in Hws.
  apply Hws in El as (k & Ek & Hk & Hw). simpl in *. subst kb. apply subspace_prefix_iff in Hp.
  destruct k as [| |c| | | | |]; try discriminate Hp. destruct Hw as (r & Hst). eauto.
Qed.

(** ** A fresh scan *)

Lemma scan_current_ok s :
  current_wf s -> exists recs, run s scan_current_entities = Ok recs
    /\ forall r, r ∈ recs <-> exists c b, Key_wf (K_Current c)
         /\ kv_get s (Key_encode (K_Current c)) = Some b /\ stored_as c b r.
Proof.
  intros Hs. destruct (scan_decode_ok s (subspace_prefix CurrentSpace) decode_current)
    as (recs & E & Hin).
  { intros kb b Hg Hp. destruct (Hs kb b Hg Hp) as (c & r & -> & Hc & Hd & _). eauto. }
  exists recs. split; [exact E|]. intros r. rewrite Hin. split.
  - intros (k & b & Hk & Hp%subspace_prefix_iff & Hg & Hd).
    destruct k as [| |c| | | | |]; try discriminate Hp. exists c, b. split_and!; [done..|].
    destruct (Hs _ _ Hg) as (c' & r' & Ec & Hc & Hd' & ?); [by apply subspace_prefix_iff|].
    apply Key_encode_inj in Ec as [= <-]; [|done..]. rewrite Hd in Hd'. injection Hd' as <-. done.
  - intros (c & b & Hc & Hg & Hd & _). exists (K_Current c), b. split_and!; [done| |done..].
    by apply subspace_prefix_iff.
Qed.

Lemma last_unique {A} (l : list A) x : x ∈ l -> (forall y, y ∈ l -> y = x) -> last l = Some x.
Proof.
  intros Hx Hu. destruct (last l) as [y|] eqn:E.
  - f_equal. apply Hu. by apply last_Some_elem_of.
  - apply last_None in E. subst. by apply elem_of_nil in Hx.
Qed.

(** The view a materialization builds holds what the store holds. *)
Lemma build_represents s snapshot :
  current_wf s -> exists recs, run s scan_current_entities = Ok recs
    /\ Represents (build snapshot recs [] None) s.
Proof.
  intros Hs. destruct (scan_current_ok s Hs) as (recs & E & Hin). exists recs. split; [done|].
  assert (Hk : forall c r, r ∈ filter (fun r => record_included None r = true /\ record_key r = c)
    recs <-> exists b, Key_wf (K_Current c)
      /\ kv_get s (Key_encode (K_Current c)) = Some b /\ stored_as c b r).
  { intros c r. rewrite list_elem_of_filter, Hin. split.
    - intros [[Hi Hc] (c' & b & Hc' & Hg & Hst)]. assert (c' = c) as ->
        by (destruct Hst as (_ & ? & _); congruence). eauto.
    - intros (b & Hc & Hg & Hst). split; [by destruct Hst as (_ & ? & ?)|eauto 10]. }
  intros c. rewrite build_at, app_nil_r. unfold wins. split.
  - intros Hc. apply last_None, elem_of_nil_inv. intros r. rewrite Hk. naive_solver.
  - intros Hc. destruct (kv_get s (Key_encode (K_Current c))) as [b|] eqn:Eg.
    + assert (Hst : exists r, stored_as c b r).
      { destruct (Hs _ _ Eg) as (c' & r & Ec & Hc' & Hst); [by apply subspace_prefix_iff|].
        apply Key_encode_inj in Ec as [= <-]; [eauto|done|done]. }
      destruct Hst as [r Hst]. exists r. split; [done|]. apply last_unique.
      * apply Hk. eauto.
      * intros r' (b' & _ & Eb & Hst')%Hk. rewrite Eg in Eb. injection Eb as <-.
        destruct Hst, Hst'. congruence.
    + apply last_None, elem_of_nil_inv. intros r. rewrite Hk. naive_solver.
Qed.

Lemma represents_agree v v' s : Represents v s -> Represents v' s -> forall c, view_at v c = view_at v' c.
Proof.
  intros Hv Hv' c. destruct (Hv c) as [Hn Hs], (Hv' c) as [Hn' Hs'].
  destruct (decide (Key_wf (K_Current c))) as [Hc|Hc]; [|by rewrite Hn, Hn'].
  specialize (Hs Hc). specialize (Hs' Hc).
  destruct (kv_get s (Key_encode (K_Current c))) as [b|]; [|congruence].
  destruct Hs as (r & [Hd _] & ->), Hs' as (r' & [Hd' _] & ->). congruence.
Qed.
End Refinement.

(** C11: folding a committed batch into the view a writer holds gives exactly the
    records a fresh scan of the store after the batch builds: if the view
    represents the store and every write of the batch is well-formed, [fold_batch]
    succeeds, the rescan succeeds, and the two views agree at every [current]
    key. *)
Theorem fold_equals_rescan {S} `{KVLaws S, SKL : StorekeyLaws, MSL : MessagesLaws}
    (view : CatalogSnapshot) (s : S) (ws : list StagedWrite) (snapshot : SnapshotValue) :
  current_wf s -> Represents view s -> Forall write_wf ws ->
  exists view' recs,
    fold_batch view ws = Ok view'
    /\ run (kv_apply s ws) scan_current_entities = Ok recs
    /\ forall c, view_at view' c = view_at (build snapshot recs [] None) c.
Proof.
  intros Hs Hv Hws. destruct (fold_batch_represents view s ws Hv Hws) as (v' & E & Hv').
  destruct (build_represents (kv_apply s ws) snapshot) as (recs & Er & Hb);
    [by apply current_wf_apply|].
  exists v', recs. split_and!; [done|done|]. by apply (represents_agree _ _ (kv_apply s ws)).
Qed.
