(* ===== verification/Diff.v ===== *)
(** The diff engine ([transaction/commit/diff.rs]): the store writes that turn a base
    snapshot into a staged one, with history mirrors for versioned kinds and
    in-place overwrites for the rest; what those writes do to the store, to a view
    folded over them, and to time travel. *)
From stdpp Require Import gmap strings list fin_maps.
From Stdlib Require Import NArith ZArith Lia.
From S2P Require Import Prelude Storekey KeyLayout Values Snapshot Catalog Store Fold.

Local Open Scope N_scope.

Section Diff.
  Context `{SK : Storekey, MS : Messages}.

(** [stage_transition]. *)
Definition stage_transition {M} `{Prost M, EqDecision M} (entity : EntityKey)
    (base state : option M) (new_snapshot : N) (set_end : M -> M) : list StagedWrite :=
  match base, state with
  | Some base, None =>
      [(Key_encode (Key_current entity), None);
       (Key_encode (Key_history entity new_snapshot), Some (encode_value (set_end base)))]
  | Some base, Some state =>
      if bool_decide (base = state) then []
      else [(Key_encode (Key_history entity new_snapshot), Some (encode_value (set_end base)));
            (Key_encode (Key_current entity), Some (encode_value state))]
  | None, Some state => [(Key_encode (Key_current entity), Some (encode_value state))]
  | None, None => []
  end.

(** [stage_overwrite]. *)
Definition stage_overwrite {M} `{Prost M, EqDecision M} (entity : EntityKey)
    (base state : option M) : list StagedWrite :=
  match base, state with
  | Some _, None => [(Key_encode (Key_current entity), None)]
  | base, Some state =>
      if bool_decide (base = Some state) then []
      else [(Key_encode (Key_current entity), Some (encode_value state))]
  | None, None => []
  end.

(** [stage_transition_with_internal]. *)
Definition stage_transition_with_internal {M} `{Prost M, EqDecision M} (entity : EntityKey)
    (base state : option M) (new_snapshot : N) (set_end internal_free : M -> M)
  : list StagedWrite :=
  match base, state with
  | Some prior, Some next =>
      if bool_decide (prior <> next) && bool_decide (internal_free prior = internal_free next)
      then [(Key_encode (Key_current entity), Some (encode_value next))]
      else stage_transition entity base state new_snapshot set_end
  | _, _ => stage_transition entity base state new_snapshot set_end
  end.

(** [diff_versioned_map]. *)
Definition diff_versioned_map {K} `{Countable K, !KeyOrder K} {M} `{Prost M, EqDecision M}
    (base state : gmap K M) (make_key : K -> EntityKey) (new_snapshot : N) (set_end : M -> M)
  : list StagedWrite :=
  flat_map (fun id => stage_transition (make_key id) (base !! id) (state !! id) new_snapshot set_end)
    (union_keys base state).

(** [diff_nested_versioned]. *)
Definition diff_nested_versioned {M} `{Prost M, EqDecision M}
    (base state : gmap N (gmap N M)) (make_key : N -> N -> EntityKey) (new_snapshot : N)
    (set_end : M -> M) : list StagedWrite :=
  flat_map (fun table_id =>
    diff_versioned_map (default ∅ (base !! table_id)) (default ∅ (state !! table_id))
      (make_key table_id) new_snapshot set_end) (union_keys base state).

(** [diff_overwrite_map]. *)
Definition diff_overwrite_map {K} `{Countable K, !KeyOrder K} {M} `{Prost M, EqDecision M}
    (base state : gmap K M) (make_key : K -> EntityKey) : list StagedWrite :=
  flat_map (fun id => stage_overwrite (make_key id) (base !! id) (state !! id))
    (union_keys base state).

Section PerKind.
  Variables (base state : CatalogSnapshot) (new_snapshot : N).

Definition diff_schemas : list StagedWrite :=
  diff_versioned_map (cs_schemas base) (cs_schemas state) EK_Schema new_snapshot
    (sv_set_end_snapshot (Some new_snapshot)).

Definition sans_counter : TableValue -> TableValue := tv_set_next_column_id 0.
Definition diff_tables : list StagedWrite :=
  flat_map (fun table_id =>
    stage_transition_with_internal (EK_Table table_id)
      (cs_tables base !! table_id) (cs_tables state !! table_id) new_snapshot
      (tv_set_end_snapshot (Some new_snapshot)) sans_counter)
    (union_keys (cs_tables base) (cs_tables state)).

Definition diff_views : list StagedWrite :=
  diff_versioned_map (cs_views base) (cs_views state) EK_View new_snapshot
    (vv_set_end_snapshot (Some new_snapshot)).

Definition diff_options : list StagedWrite :=
  diff_overwrite_map (cs_options base) (cs_options state) (fun '(k, i) => EK_Option k i).

Definition diff_tags : list StagedWrite :=
  diff_overwrite_map (cs_tags base) (cs_tags state) EK_Tag.

Definition diff_gc_files : list StagedWrite :=
  flat_map (fun data_file_id =>
    let key := Key_encode (K_Current (CK_GcFile data_file_id)) in
    match cs_gc_files base !! data_file_id, cs_gc_files state !! data_file_id with
    | Some _, None => [(key, None)]
    | prior, Some next =>
        if bool_decide (prior = Some next) then [] else [(key, Some (encode_value next))]
    | None, None => []
    end) (union_keys (cs_gc_files base) (cs_gc_files state)).

Definition diff_macros : list StagedWrite :=
  diff_versioned_map (cs_macros base) (cs_macros state) EK_Macro new_snapshot
    (mv_set_end_snapshot (Some new_snapshot)).

(** [diff_mappings] iterates [state] alone: mappings are never removed. *)
Definition diff_mappings : list StagedWrite :=
  flat_map (fun table_id =>
    flat_map (fun mapping_id =>
      match nlookup (cs_mappings state) table_id mapping_id with
      | Some value =>
          stage_overwrite (EK_Mapping table_id mapping_id)
            (nlookup (cs_mappings base) table_id mapping_id) (Some value)
      | None => []
      end) (btree_keys (default ∅ (cs_mappings state !! table_id))))
    (btree_keys (cs_mappings state)).

Definition sans_tags : ColumnValue -> ColumnValue := cv_set_tags [].
Definition diff_columns : list StagedWrite :=
  flat_map (fun table_id =>
    let base_cols := default ∅ (cs_columns base !! table_id) in
    let state_cols := default ∅ (cs_columns state !! table_id) in
    flat_map (fun column_id =>
      stage_transition_with_internal (EK_Column table_id column_id)
        (base_cols !! column_id) (state_cols !! column_id) new_snapshot
        (cv_set_end_snapshot (Some new_snapshot)) sans_tags)
      (union_keys base_cols state_cols))
    (union_keys (cs_columns base) (cs_columns state)).

Definition diff_data_files : list StagedWrite :=
  diff_nested_versioned (cs_data_files base) (cs_data_files state) EK_File new_snapshot
    (df_set_end_snapshot (Some new_snapshot)).
Definition diff_delete_files : list StagedWrite :=
  diff_nested_versioned (cs_delete_files base) (cs_delete_files state) EK_DeleteFile new_snapshot
    (dl_set_end_snapshot (Some new_snapshot)).
Definition diff_partitions : list StagedWrite :=
  diff_nested_versioned (cs_partitions base) (cs_partitions state) EK_Partition new_snapshot
    (pv_set_end_snapshot (Some new_snapshot)).
Definition diff_sorts : list StagedWrite :=
  diff_nested_versioned (cs_sorts base) (cs_sorts state) EK_Sort new_snapshot
    (ov_set_end_snapshot (Some new_snapshot)).
Definition diff_indexes : list StagedWrite :=
  diff_nested_versioned (cs_indexes base) (cs_indexes state) EK_Index new_snapshot
    (xv_set_end_snapshot (Some new_snapshot)).

Definition diff_table_stats : list StagedWrite :=
  diff_overwrite_map (cs_table_stats base) (cs_table_stats state) EK_TableStats.

Definition diff_table_column_stats : list StagedWrite :=
  flat_map (fun table_id =>
    diff_overwrite_map (default ∅ (cs_table_column_stats base !! table_id))
      (default ∅ (cs_table_column_stats state !! table_id)) (EK_TableColumnStats table_id))
    (union_keys (cs_table_column_stats base) (cs_table_column_stats state)).

(** [diff_file_column_stats]: the statistics of a file in neither side's
    [data_files] are skipped. *)
Definition diff_file_column_stats : list StagedWrite :=
  flat_map (fun table_id =>
    let base_cols := default ∅ (cs_file_column_stats base !! table_id) in
    let state_cols := default ∅ (cs_file_column_stats state !! table_id) in
    let base_files := default ∅ (cs_data_files base !! table_id) in
    let state_files := default ∅ (cs_data_files state !! table_id) in
    flat_map (fun '(data_file_id, column_id) =>
      if bool_decide (base_files !! data_file_id = None)
         && bool_decide (state_files !! data_file_id = None)
      then []
      else stage_overwrite (EK_FileColumnStats table_id data_file_id column_id)
             (base_cols !! (data_file_id, column_id)) (state_cols !! (data_file_id, column_id)))
      (union_keys base_cols state_cols))
    (union_keys (cs_file_column_stats base) (cs_file_column_stats state)).

(** [diff_writes]. *)
Definition diff_writes : list StagedWrite :=
  diff_schemas ++ diff_tables ++ diff_views ++ diff_columns ++ diff_data_files
  ++ diff_delete_files ++ diff_partitions ++ diff_sorts ++ diff_indexes ++ diff_macros
  ++ diff_mappings ++ diff_table_stats ++ diff_table_column_stats ++ diff_file_column_stats
  ++ diff_options ++ diff_tags ++ diff_gc_files.
End PerKind.
End Diff.

(** ** Which writes a diff holds, key by key *)

Ltac destruct_ex := repeat match goal with H : exists _, _ |- _ => destruct H end.

Section DiffSpec.
  Context `{SK : Storekey, MS : Messages}.

(** The chunk of the diff that concerns one key. *)
Definition stage_at (base state : CatalogSnapshot) (n : N) (c : CurrentKey) : list StagedWrite :=
  match c with
  | CK_Entity (EK_Schema i as e) =>
      stage_transition e (cs_schemas base !! i) (cs_schemas state !! i) n (sv_set_end_snapshot (Some n))
  | CK_Entity (EK_Table i as e) =>
      stage_transition_with_internal e (cs_tables base !! i) (cs_tables state !! i) n
        (tv_set_end_snapshot (Some n)) sans_counter
  | CK_Entity (EK_View i as e) =>
      stage_transition e (cs_views base !! i) (cs_views state !! i) n (vv_set_end_snapshot (Some n))
  | CK_Entity (EK_Column t i as e) =>
      stage_transition_with_internal e (nlookup (cs_columns base) t i)
        (nlookup (cs_columns state) t i) n (cv_set_end_snapshot (Some n)) sans_tags
  | CK_Entity (EK_Partition t i as e) =>
      stage_transition e (nlookup (cs_partitions base) t i) (nlookup (cs_partitions state) t i) n
        (pv_set_end_snapshot (Some n))
  | CK_Entity (EK_File t i as e) =>
      stage_transition e (nlookup (cs_data_files base) t i) (nlookup (cs_data_files state) t i) n
        (df_set_end_snapshot (Some n))
  | CK_Entity (EK_DeleteFile t i as e) =>
      stage_transition e (nlookup (cs_delete_files base) t i) (nlookup (cs_delete_files state) t i) n
        (dl_set_end_snapshot (Some n))
  | CK_Entity (EK_FileColumnStats t f i as e) =>
      if bool_decide (nlookup (cs_data_files base) t f = None)
         && bool_decide (nlookup (cs_data_files state) t f = None)
      then []
      else stage_overwrite e (nlookup (cs_file_column_stats base) t (f, i))
             (nlookup (cs_file_column_stats state) t (f, i))
  | CK_Entity (EK_TableStats t as e) =>
      stage_overwrite e (cs_table_stats base !! t) (cs_table_stats state !! t)
  | CK_Entity (EK_TableColumnStats t i as e) =>
      stage_overwrite e (nlookup (cs_table_column_stats base) t i)
        (nlookup (cs_table_column_stats state) t i)
  | CK_Entity (EK_Tag o as e) => stage_overwrite e (cs_tags base !! o) (cs_tags state !! o)
  | CK_Entity (EK_Option k i as e) =>
      stage_overwrite e (cs_options base !! (k, i)) (cs_options state !! (k, i))
  | CK_Entity (EK_Sort t i as e) =>
      stage_transition e (nlookup (cs_sorts base) t i) (nlookup (cs_sorts state) t i) n
        (ov_set_end_snapshot (Some n))
  | CK_Entity (EK_Macro i as e) =>
      stage_transition e (cs_macros base !! i) (cs_macros state !! i) n (mv_set_end_snapshot (Some n))
  | CK_Entity (EK_Mapping t i as e) =>
      match nlookup (cs_mappings state) t i with
      | Some v => stage_overwrite e (nlookup (cs_mappings base) t i) (Some v)
      | None => []
      end
  | CK_Entity (EK_Index t i as e) =>
      stage_transition e (nlookup (cs_indexes base) t i) (nlookup (cs_indexes state) t i) n
        (xv_set_end_snapshot (Some n))
  | CK_GcFile f =>
      match cs_gc_files base !! f, cs_gc_files state !! f with
      | Some _, None => [(Key_encode (K_Current c), None)]
      | prior, Some next =>
          if bool_decide (prior = Some next) then []
          else [(Key_encode (K_Current c), Some (encode_value next))]
      | None, None => []
      end
  end.

Lemma elem_of_flat_map {A B} (f : A -> list B) l y :
  y ∈ flat_map f l <-> exists x, x ∈ l /\ y ∈ f x.
Proof.
  rewrite list_elem_of_In, in_flat_map. setoid_rewrite list_elem_of_In. done.
Qed.

(** Iterating over the keys of either map reaches every key with a non-empty chunk. *)
Lemma elem_of_union_map {K V} `{Countable K, !KeyOrder K} (a b : gmap K V)
    (f : K -> list StagedWrite) w :
  (forall k, a !! k = None -> b !! k = None -> f k = []) ->
  w ∈ flat_map f (union_keys a b) <-> exists k, w ∈ f k.
Proof.
  intros Hf. rewrite elem_of_flat_map. split; [intros (k & _ & ?); eauto|].
  intros [k Hw]. exists k. split; [|done]. rewrite elem_of_union_keys.
  destruct (a !! k) eqn:Ea, (b !! k) eqn:Eb; eauto. rewrite Hf in Hw by done.
  by apply elem_of_nil in Hw.
Qed.

Lemma nlookup_default {K V} `{Countable K} (m : gmap N (gmap K V)) t k :
  default ∅ (m !! t) !! k = nlookup m t k.
Proof. unfold nlookup. by destruct (m !! t). Qed.

Lemma elem_of_union_nested {K V} `{Countable K, !KeyOrder K} (a b : gmap N (gmap K V))
    (f g : N -> K -> list StagedWrite) w :
  (forall t k, f t k = g t k) ->
  (forall t k, nlookup a t k = None -> nlookup b t k = None -> g t k = []) ->
  w ∈ flat_map (fun t => flat_map (f t)
        (union_keys (default ∅ (a !! t)) (default ∅ (b !! t)))) (union_keys a b)
  <-> exists t k, w ∈ g t k.
Proof.
  intros Hfg Hg. rewrite (elem_of_union_map a b).
  - split; intros (t & Hw).
    + apply elem_of_union_map in Hw as [k Hw]; [exists t, k; by rewrite <-Hfg|].
      intros k. rewrite !nlookup_default, Hfg. apply Hg.
    + destruct Hw as [k Hw]. exists t. apply elem_of_union_map; [|exists k; by rewrite Hfg].
      intros k'. rewrite !nlookup_default, Hfg. apply Hg.
  - intros t Ea Eb. rewrite Ea, Eb. done.
Qed.

Lemma elem_of_diff_schemas base state n w :
  w ∈ diff_schemas base state n <-> exists i, w ∈ stage_at base state n (CK_Entity (EK_Schema i)).
Proof.
  apply (elem_of_union_map (cs_schemas base) (cs_schemas state)
    (fun i => stage_at base state n (CK_Entity (EK_Schema i)))).
  intros i Ea Eb. cbn [stage_at]. by rewrite Ea, Eb.
Qed.

Lemma elem_of_diff_tables base state n w :
  w ∈ diff_tables base state n <-> exists i, w ∈ stage_at base state n (CK_Entity (EK_Table i)).
Proof.
  apply (elem_of_union_map (cs_tables base) (cs_tables state)
    (fun i => stage_at base state n (CK_Entity (EK_Table i)))).
  intros i Ea Eb. cbn [stage_at]. by rewrite Ea, Eb.
Qed.

Lemma elem_of_diff_views base state n w :
  w ∈ diff_views base state n <-> exists i, w ∈ stage_at base state n (CK_Entity (EK_View i)).
Proof.
  apply (elem_of_union_map (cs_views base) (cs_views state)
    (fun i => stage_at base state n (CK_Entity (EK_View i)))).
  intros i Ea Eb. cbn [stage_at]. by rewrite Ea, Eb.
Qed.

Lemma elem_of_diff_macros base state n w :
  w ∈ diff_macros base state n <-> exists i, w ∈ stage_at base state n (CK_Entity (EK_Macro i)).
Proof.
  apply (elem_of_union_map (cs_macros base) (cs_macros state)
    (fun i => stage_at base state n (CK_Entity (EK_Macro i)))).
  intros i Ea Eb. cbn [stage_at]. by rewrite Ea, Eb.
Qed.

Lemma elem_of_diff_table_stats base state n w :
  w ∈ diff_table_stats base state <-> exists i, w ∈ stage_at base state n (CK_Entity (EK_TableStats i)).
Proof.
  apply (elem_of_union_map (cs_table_stats base) (cs_table_stats state)
    (fun i => stage_at base state n (CK_Entity (EK_TableStats i)))).
  intros i Ea Eb. cbn [stage_at]. by rewrite Ea, Eb.
Qed.

Lemma elem_of_diff_tags base state n w :
  w ∈ diff_tags base state <-> exists i, w ∈ stage_at base state n (CK_Entity (EK_Tag i)).
Proof.
  apply (elem_of_union_map (cs_tags base) (cs_tags state)
    (fun i => stage_at base state n (CK_Entity (EK_Tag i)))).
  intros i Ea Eb. cbn [stage_at]. by rewrite Ea, Eb.
Qed.

Lemma elem_of_diff_columns base state n w :
  w ∈ diff_columns base state n <-> exists t i, w ∈ stage_at base state n (CK_Entity (EK_Column t i)).
Proof.
  apply (elem_of_union_nested (cs_columns base) (cs_columns state) _
    (fun t i => stage_at base state n (CK_Entity (EK_Column t i)))); intros t i; cbn [stage_at].
  - by rewrite <-!nlookup_default.
  - intros Ea Eb. by rewrite Ea, Eb.
Qed.

Lemma elem_of_diff_data_files base state n w :
  w ∈ diff_data_files base state n <-> exists t i, w ∈ stage_at base state n (CK_Entity (EK_File t i)).
Proof.
  apply (elem_of_union_nested (cs_data_files base) (cs_data_files state) _
    (fun t i => stage_at base state n (CK_Entity (EK_File t i)))); intros t i; cbn [stage_at].
  - by rewrite <-!nlookup_default.
  - intros Ea Eb. by rewrite Ea, Eb.
Qed.

Lemma elem_of_diff_delete_files base state n w :
  w ∈ diff_delete_files base state n <-> exists t i, w ∈ stage_at base state n (CK_Entity (EK_DeleteFile t i)).
Proof.
  apply (elem_of_union_nested (cs_delete_files base) (cs_delete_files state) _
    (fun t i => stage_at base state n (CK_Entity (EK_DeleteFile t i)))); intros t i; cbn [stage_at].
  - by rewrite <-!nlookup_default.
  - intros Ea Eb. by rewrite Ea, Eb.
Qed.

Lemma elem_of_diff_partitions base state n w :
  w ∈ diff_partitions base state n <-> exists t i, w ∈ stage_at base state n (CK_Entity (EK_Partition t i)).
Proof.
  apply (elem_of_union_nested (cs_partitions base) (cs_partitions state) _
    (fun t i => stage_at base state n (CK_Entity (EK_Partition t i)))); intros t i; cbn [stage_at].
  - by rewrite <-!nlookup_default.
  - intros Ea Eb. by rewrite Ea, Eb.
Qed.

Lemma elem_of_diff_sorts base state n w :
  w ∈ diff_sorts base state n <-> exists t i, w ∈ stage_at base state n (CK_Entity (EK_Sort t i)).
Proof.
  apply (elem_of_union_nested (cs_sorts base) (cs_sorts state) _
    (fun t i => stage_at base state n (CK_Entity (EK_Sort t i)))); intros t i; cbn [stage_at].
  - by rewrite <-!nlookup_default.
  - intros Ea Eb. by rewrite Ea, Eb.
Qed.

Lemma elem_of_diff_indexes base state n w :
  w ∈ diff_indexes base state n <-> exists t i, w ∈ stage_at base state n (CK_Entity (EK_Index t i)).
Proof.
  apply (elem_of_union_nested (cs_indexes base) (cs_indexes state) _
    (fun t i => stage_at base state n (CK_Entity (EK_Index t i)))); intros t i; cbn [stage_at].
  - by rewrite <-!nlookup_default.
  - intros Ea Eb. by rewrite Ea, Eb.
Qed.

Lemma elem_of_diff_table_column_stats base state n w :
  w ∈ diff_table_column_stats base state <-> exists t i, w ∈ stage_at base state n (CK_Entity (EK_TableColumnStats t i)).
Proof.
  apply (elem_of_union_nested (cs_table_column_stats base) (cs_table_column_stats state) _
    (fun t i => stage_at base state n (CK_Entity (EK_TableColumnStats t i)))); intros t i; cbn [stage_at].
  - by rewrite <-!nlookup_default.
  - intros Ea Eb. by rewrite Ea, Eb.
Qed.

Lemma elem_of_diff_options base state n w :
  w ∈ diff_options base state
  <-> exists k i, w ∈ stage_at base state n (CK_Entity (EK_Option k i)).
Proof.
  unfold diff_options, diff_overwrite_map. rewrite elem_of_union_map.
  - split; [intros [[k i] Hw]; eauto|intros (k & i & Hw); by exists (k, i)].
  - intros [k i] Ea Eb. by rewrite Ea, Eb.
Qed.

Lemma elem_of_diff_gc_files base state n w :
  w ∈ diff_gc_files base state <-> exists f, w ∈ stage_at base state n (CK_GcFile f).
Proof.
  apply (elem_of_union_map (cs_gc_files base) (cs_gc_files state)
    (fun f => stage_at base state n (CK_GcFile f))).
  intros i Ea Eb. cbn [stage_at]. by rewrite Ea, Eb.
Qed.

Lemma elem_of_diff_mappings base state n w :
  w ∈ diff_mappings base state
  <-> exists t i, w ∈ stage_at base state n (CK_Entity (EK_Mapping t i)).
Proof.
  unfold diff_mappings. rewrite elem_of_flat_map. setoid_rewrite elem_of_flat_map.
  setoid_rewrite elem_of_btree_keys. setoid_rewrite nlookup_default. cbn [stage_at]. split.
  - intros (t & _ & i & _ & Hw). eauto.
  - intros (t & i & Hw). destruct (nlookup (cs_mappings state) t i) as [v|] eqn:E;
      [|by apply elem_of_nil in Hw].
    exists t. split; [apply bind_Some in E as (per & -> & _); eauto|].
    exists i. rewrite E. eauto.
Qed.

Lemma elem_of_diff_file_column_stats base state n w :
  w ∈ diff_file_column_stats base state
  <-> exists t f i, w ∈ stage_at base state n (CK_Entity (EK_FileColumnStats t f i)).
Proof.
  transitivity (exists t p, w ∈ stage_at base state n (CK_Entity (EK_FileColumnStats t p.1 p.2))).
  - apply (elem_of_union_nested (cs_file_column_stats base) (cs_file_column_stats state) _
      (fun t p => stage_at base state n (CK_Entity (EK_FileColumnStats t p.1 p.2))));
      intros t [f i]; cbn [stage_at fst snd].
    + by rewrite <-!nlookup_default.
    + intros Ea Eb. rewrite Ea, Eb. by destruct (_ && _).
  - split; [intros (t & [f i] & Hw); eauto|intros (t & f & i & Hw); by exists t, (f, i)].
Qed.

(** A write of the diff is a write of some key's chunk, and conversely. *)
Lemma diff_writes_elem base state n w :
  w ∈ diff_writes base state n <-> exists c, w ∈ stage_at base state n c.
Proof.
  unfold diff_writes. rewrite !elem_of_app, elem_of_diff_schemas, elem_of_diff_tables,
    elem_of_diff_views, elem_of_diff_columns, elem_of_diff_data_files, elem_of_diff_delete_files,
    elem_of_diff_partitions, elem_of_diff_sorts, elem_of_diff_indexes, elem_of_diff_macros,
    (elem_of_diff_mappings base state n), (elem_of_diff_table_stats base state n),
    (elem_of_diff_table_column_stats base state n), (elem_of_diff_file_column_stats base state n),
    (elem_of_diff_options base state n), (elem_of_diff_tags base state n),
    (elem_of_diff_gc_files base state n).
  split.
  - intros Hw. repeat destruct Hw as [Hw|Hw]; destruct_ex; eauto.
  - intros [[[]|] Hw]; eauto 30.
Qed.

(** *** The same, in terms of records *)

(** The stored bytes of a record. *)
Definition encode_record (r : EntityRecord) : bytes :=
  match r with
  | ER_Schema v => encode_value v | ER_Table v => encode_value v | ER_View v => encode_value v
  | ER_Column v => encode_value v | ER_File v => encode_value v
  | ER_DeleteFile v => encode_value v | ER_Partition v => encode_value v
  | ER_Sort v => encode_value v | ER_Macro v => encode_value v | ER_Mapping v => encode_value v
  | ER_Index v => encode_value v | ER_FileColumnStats v => encode_value v
  | ER_TableStats v => encode_value v | ER_TableColumnStats v => encode_value v
  | ER_Option _ _ v => encode_value v | ER_Tag v => encode_value v | ER_GcFile v => encode_value v
  end.

(** A version ended at a snapshot; unversioned kinds have no end. *)
Definition end_record (n : N) (r : EntityRecord) : EntityRecord :=
  match r with
  | ER_Schema v => ER_Schema (sv_set_end_snapshot (Some n) v)
  | ER_Table v => ER_Table (tv_set_end_snapshot (Some n) v)
  | ER_View v => ER_View (vv_set_end_snapshot (Some n) v)
  | ER_Column v => ER_Column (cv_set_end_snapshot (Some n) v)
  | ER_File v => ER_File (df_set_end_snapshot (Some n) v)
  | ER_DeleteFile v => ER_DeleteFile (dl_set_end_snapshot (Some n) v)
  | ER_Partition v => ER_Partition (pv_set_end_snapshot (Some n) v)
  | ER_Sort v => ER_Sort (ov_set_end_snapshot (Some n) v)
  | ER_Macro v => ER_Macro (mv_set_end_snapshot (Some n) v)
  | ER_Index v => ER_Index (xv_set_end_snapshot (Some n) v)
  | r => r
  end.

(** A record without the bookkeeping whose change is not a version transition: a
    table's field-id counter, a column's embedded tags. *)
Definition strip (r : EntityRecord) : EntityRecord :=
  match r with
  | ER_Table v => ER_Table (sans_counter v)
  | ER_Column v => ER_Column (sans_tags v)
  | r => r
  end.

(** The writes that take one key from one record to another: the removal or the new
    record under the [current] key, and, when a versioned record is removed or
    changes in more than its bookkeeping, the old version, ended, in history. *)
Definition chunk (n : N) (c : CurrentKey) (b s : option EntityRecord) (w : StagedWrite) : Prop :=
  (is_Some b /\ s = None /\ w = (Key_encode (K_Current c), None))
  \/ (exists r, s = Some r /\ b <> Some r
        /\ w = (Key_encode (K_Current c), Some (encode_record r)))
  \/ (exists e r, c = CK_Entity e /\ is_versioned e = true /\ b = Some r
        /\ (forall r', s = Some r' -> strip r <> strip r')
        /\ w = (Key_encode (Key_history e n), Some (encode_record (end_record n r)))).

(** The states a diff is taken between: a mapping is never removed, and the
    statistics of a file on neither side do not change. *)
Definition diff_closed (base state : CatalogSnapshot) : Prop :=
  (forall t i, is_Some (nlookup (cs_mappings base) t i) ->
               is_Some (nlookup (cs_mappings state) t i))
  /\ (forall t f i, nlookup (cs_data_files base) t f = None ->
        nlookup (cs_data_files state) t f = None ->
        nlookup (cs_file_column_stats base) t (f, i) = nlookup (cs_file_column_stats state) t (f, i)).

Lemma transition_internal_id {M} `{Prost M, EqDecision M} e (b s : option M) n f :
  stage_transition e b s n f = stage_transition_with_internal e b s n f (fun m => m).
Proof.
  destruct b as [b|], s as [s|]; try done. unfold stage_transition_with_internal.
  destruct (decide (b = s)) as [->|Hne].
  - by rewrite (bool_decide_false (s <> s)) by congruence.
  - by rewrite (bool_decide_false (b = s)), andb_false_r by done.
Qed.

Lemma transition_elem {M} `{Prost M, EqDecision M} (f g : M -> M) e b s n w :
  w ∈ stage_transition_with_internal e b s n f g <->
  (is_Some b /\ s = None /\ w = (Key_encode (Key_current e), None))
  \/ (exists m, s = Some m /\ b <> Some m /\ w = (Key_encode (Key_current e), Some (encode_value m)))
  \/ (exists m, b = Some m /\ (forall m', s = Some m' -> g m <> g m')
        /\ w = (Key_encode (Key_history e n), Some (encode_value (f m)))).
Proof.
  unfold stage_transition_with_internal, stage_transition.
  destruct b as [b|], s as [s|].
  - destruct (decide (b = s)) as [->|Hne].
    + rewrite (bool_decide_false (s <> s)), (bool_decide_true (s = s)) by congruence.
      rewrite elem_of_nil. naive_solver.
    + rewrite (bool_decide_true (b <> s)), (bool_decide_false (b = s)) by done. cbn [andb].
      case_bool_decide as Eg; rewrite ?elem_of_cons, ?elem_of_nil; naive_solver.
  - rewrite !elem_of_cons, elem_of_nil. naive_solver.
  - rewrite elem_of_cons, elem_of_nil. naive_solver.
  - rewrite elem_of_nil. naive_solver.
Qed.

Lemma overwrite_elem {M} `{Prost M, EqDecision M} e (b s : option M) w :
  w ∈ stage_overwrite e b s <->
  (is_Some b /\ s = None /\ w = (Key_encode (Key_current e), None))
  \/ (exists m, s = Some m /\ b <> Some m /\ w = (Key_encode (Key_current e), Some (encode_value m))).
Proof.
  unfold stage_overwrite. destruct b as [b|], s as [s|]; try case_bool_decide;
    rewrite ?elem_of_cons, ?elem_of_nil; naive_solver.
Qed.

(** Lifting through the constructor of the kind. *)
Lemma fmap_record_change {M} (C : M -> EntityRecord) (enc : M -> bytes) (b s : option M)
    (kb : bytes) (w : StagedWrite) :
  Inj (=) (=) C -> (forall m, encode_record (C m) = enc m) ->
  (exists m, s = Some m /\ b <> Some m /\ w = (kb, Some (enc m)))
  <-> (exists r, C <$> s = Some r /\ C <$> b <> Some r /\ w = (kb, Some (encode_record r))).
Proof.
  intros Hinj Henc. split.
  - intros (m & -> & Hb & ->). exists (C m). rewrite Henc. split_and!; try done.
    intros (m' & -> & E)%fmap_Some. by apply Hinj in E as ->.
  - intros (r & (m & -> & ->)%fmap_Some & Hb & ->). exists m. rewrite Henc. split_and!; try done.
    intros ->. by apply Hb.
Qed.

Lemma transition_chunk {M} `{Prost M, EqDecision M} (C : M -> EntityRecord) f g e b s n w :
  Inj (=) (=) C -> is_versioned e = true ->
  (forall m, encode_record (C m) = encode_value m) ->
  (forall m, end_record n (C m) = C (f m)) -> (forall m, strip (C m) = C (g m)) ->
  w ∈ stage_transition_with_internal e b s n f g <-> chunk n (CK_Entity e) (C <$> b) (C <$> s) w.
Proof.
  intros Hinj He Henc Hend Hstrip. rewrite transition_elem, (fmap_record_change C) by done.
  unfold chunk, Key_current. rewrite fmap_is_Some, fmap_None. do 2 f_equiv. split.
  - intros (m & -> & Hg & ->). exists e, (C m). rewrite Hend, Henc. split_and!; try done.
    intros r' (m' & -> & ->)%fmap_Some. rewrite !Hstrip. intros E%Hinj. by eapply Hg.
  - intros (e' & r & [= <-] & _ & (m & -> & ->)%fmap_Some & Hr & ->). exists m.
    rewrite Hend, Henc. split_and!; try done.
    intros m' -> E. apply (Hr (C m')); [done|]. by rewrite !Hstrip, E.
Qed.

Lemma overwrite_chunk {M} `{Prost M, EqDecision M} (C : M -> EntityRecord) e b s n w :
  Inj (=) (=) C -> is_versioned e = false ->
  (forall m, encode_record (C m) = encode_value m) ->
  w ∈ stage_overwrite e b s <-> chunk n (CK_Entity e) (C <$> b) (C <$> s) w.
Proof.
  intros Hinj He Henc. rewrite overwrite_elem, (fmap_record_change C) by done.
  unfold chunk, Key_current. rewrite fmap_is_Some, fmap_None.
  split; [tauto|]. intros [?|[?|(e' & r & [= <-] & Hv & _)]]; [tauto..|congruence].
Qed.

Lemma stage_at_chunk base state n c w :
  diff_closed base state ->
  w ∈ stage_at base state n c <-> chunk n c (view_at base c) (view_at state c) w.
Proof.
  intros [Hmap Hfcs]. destruct c as [e|f]; [destruct e|]; cbn [stage_at view_at];
    rewrite ?transition_internal_id;
    try (apply transition_chunk; [by intros ? ? [=]|done..]);
    try (apply overwrite_chunk; [by intros ? ? [=]|done..]).
  - destruct (nlookup (cs_data_files base) table_id data_file_id) eqn:Eb;
      [apply overwrite_chunk; [by intros ? ? [=]|done..]|].
    destruct (nlookup (cs_data_files state) table_id data_file_id) eqn:Es;
      [apply overwrite_chunk; [by intros ? ? [=]|done..]|].
    rewrite !bool_decide_true by done. cbn [andb]. rewrite elem_of_nil.
    rewrite (Hfcs table_id data_file_id column_id Eb Es). split; [done|].
    unfold chunk. intros [(? & E & ?)|[(r & E & Hne & _)|(e & r & [= <-] & [=] & _)]].
    + rewrite E in *. by destruct H.
    + by rewrite E in Hne.
  - specialize (Hmap table_id mapping_id).
    destruct (nlookup (cs_mappings state) table_id mapping_id) as [v|] eqn:Es.
    + change (Some v) with (Some v). apply (overwrite_chunk ER_Mapping); [by intros ? ? [=]|done..].
    + rewrite elem_of_nil.
      destruct (nlookup (cs_mappings base) table_id mapping_id) eqn:Eb; [by destruct Hmap; eauto|].
      unfold chunk. cbn. naive_solver.
  - unfold chunk. destruct (cs_gc_files base !! f) as [b|], (cs_gc_files state !! f) as [v|]; cbn;
      try case_bool_decide; rewrite ?elem_of_cons, ?elem_of_nil; naive_solver.
Qed.
End DiffSpec.

(** ** What the diff does to the store *)

Section DiffStore.
  Context {S : Type} `{KVLaws S, SKL : StorekeyLaws, MSL : MessagesLaws}.

(** A catalog state: live records, each under a key of [u64] ids its own fields
    name. *)
Definition view_wf (v : CatalogSnapshot) : Prop :=
  forall c r, view_at v c = Some r ->
    Key_wf (K_Current c) /\ record_key r = c /\ record_included None r = true.

Lemma decode_encode_record r :
  decode_current (K_Current (record_key r)) (encode_record r) = Ok r.
Proof.
  destruct r; cbn -[decode_value encode_value]; by rewrite decode_encode_value.
Qed.

Lemma view_wf_stored v c r : view_wf v -> view_at v c = Some r -> stored_as c (encode_record r) r.
Proof.
  intros Hv Hr. destruct (Hv c r Hr) as (_ & <- & Hi). split_and!; [|done..].
  apply decode_encode_record.
Qed.

Lemma last_write_unique ws k v :
  (k, v) ∈ ws -> (forall v', (k, v') ∈ ws -> v' = v) -> last_write ws k = Some v.
Proof.
  intros Hin Hu. unfold last_write. rewrite (last_unique _ (k, v)); [done|..].
  - by apply list_elem_of_filter.
  - intros [k' v'] [Hk Hw]%list_elem_of_filter. simpl in Hk. subst k'. by rewrite (Hu v').
Qed.

Section Pair.
  Variables (base state : CatalogSnapshot) (n : N).
  Hypotheses (Hbase : view_wf base) (Hstate : view_wf state) (Hn : u64 n)
    (Hclosed : diff_closed base state).

Lemma chunk_key c w :
  chunk n c (view_at base c) (view_at state c) w -> Key_wf (K_Current c).
Proof.
  intros [([r Hr] & _)|[(r & Hr & _)|(e & r & -> & _ & Hr & _)]];
    [apply (Hbase _ _ Hr)|apply (Hstate _ _ Hr)|apply (Hbase _ _ Hr)].
Qed.

Lemma history_wf e : Key_wf (K_Current (CK_Entity e)) -> Key_wf (Key_history e n).
Proof. intros He. split; [exact He|exact Hn]. Qed.

(** The writes of the diff to one [current] key. *)
Lemma diff_current_elem c o :
  Key_wf (K_Current c) ->
  (Key_encode (K_Current c), o) ∈ diff_writes base state n <->
  (is_Some (view_at base c) /\ view_at state c = None /\ o = None)
  \/ (exists r, view_at state c = Some r /\ view_at base c <> Some r /\ o = Some (encode_record r)).
Proof.
  intros Hc. rewrite diff_writes_elem. setoid_rewrite stage_at_chunk; [|done]. split.
  - intros (c' & Hch). pose proof (chunk_key _ _ Hch) as Hc'.
    destruct Hch as [(Hb & Hs & [= Ek ->])|[(r & Hs & Hb & [= Ek ->])|(e & r & -> & _ & Hb & _ & [= Ek _])]].
    + apply Key_encode_inj in Ek as [= ->]; [|done|done]. by left.
    + apply Key_encode_inj in Ek as [= ->]; [|done|done]. right. eauto.
    + apply Key_encode_inj in Ek; [discriminate|done|]. by apply history_wf.
  - intros Ho. exists c. destruct Ho as [(? & ? & ->)|(r & ? & ? & ->)]; [by left|right; left; eauto].
Qed.

(** The writes of the diff to one history key. *)
Lemma diff_history_elem e x o :
  Key_wf (Key_history e x) ->
  (Key_encode (Key_history e x), o) ∈ diff_writes base state n <->
  x = n /\ exists r, is_versioned e = true /\ view_at base (CK_Entity e) = Some r
    /\ (forall r', view_at state (CK_Entity e) = Some r' -> strip r <> strip r')
    /\ o = Some (encode_record (end_record n r)).
Proof.
  intros Hx. rewrite diff_writes_elem. setoid_rewrite stage_at_chunk; [|done]. split.
  - intros (c' & Hch). pose proof (chunk_key _ _ Hch) as Hc'.
    destruct Hch as [(_ & _ & [= Ek _])|[(r & _ & _ & [= Ek _])|(e' & r & -> & Hv & Hb & Hs & [= Ek ->])]].
    + by apply Key_encode_inj in Ek.
    + by apply Key_encode_inj in Ek.
    + apply Key_encode_inj in Ek as [= -> ->]; [|done|by apply history_wf]. eauto 10.
  - intros (-> & r & Hv & Hb & Hs & ->). exists (CK_Entity e). right; right. exists e, r. done.
Qed.

Lemma diff_last_write c :
  Key_wf (K_Current c) ->
  last_write (diff_writes base state n) (Key_encode (K_Current c)) =
  match view_at base c, view_at state c with
  | Some _, None => Some None
  | b, Some r => if decide (b = Some r) then None else Some (Some (encode_record r))
  | None, None => None
  end.
Proof.
  intros Hc. pose proof (fun o => diff_current_elem c o Hc) as He.
  destruct (view_at state c) as [r|] eqn:Es.
  - destruct (decide (view_at base c = Some r)) as [Eb|Eb].
    + rewrite Eb. rewrite decide_True by done. apply last_write_none. intros o. rewrite He. naive_solver.
    + transitivity (Some (Some (encode_record r))).
      * apply last_write_unique; [rewrite He; eauto|]. intros o. rewrite He. naive_solver.
      * destruct (view_at base c); by rewrite decide_False.
  - destruct (view_at base c) as [b|] eqn:Eb.
    + apply last_write_unique; [rewrite He; left; eauto|]. intros o. rewrite He. naive_solver.
    + apply last_write_none. intros o. rewrite He. intros [([] & _)|(? & ? & _)]; done.
Qed.

Lemma diff_write_wf : Forall write_wf (diff_writes base state n).
Proof.
  apply Forall_forall. intros w. rewrite diff_writes_elem. setoid_rewrite stage_at_chunk; [|done].
  intros (c & Hch). pose proof (chunk_key _ _ Hch) as Hc.
  destruct Hch as [(Hb & Hs & ->)|[(r & Hs & Hb & ->)|(e & r & -> & Hv & Hb & Hs & ->)]].
  - exists (K_Current c). split_and!; [done..|]. simpl. intros t m ->. cbn in Hb, Hs.
    rewrite fmap_is_Some in Hb. rewrite fmap_None in Hs.
    apply (proj1 Hclosed) in Hb. rewrite Hs in Hb. by destruct Hb.
  - exists (K_Current c). split_and!; [done..|]. simpl. exists r. by apply (view_wf_stored state).
  - exists (Key_history e n). split_and!; [done|by apply history_wf|done].
Qed.

Lemma diff_represents s :
  Represents base s -> Represents state (kv_apply s (diff_writes base state n)).
Proof.
  intros Hr c. split.
  - intros Hc. destruct (view_at state c) as [r|] eqn:E; [|done].
    by destruct (Hstate c r E) as [? _].
  - intros Hc. rewrite kv_get_apply, diff_last_write by done.
    destruct (Hr c) as [_ Hb]. specialize (Hb Hc).
    destruct (view_at state c) as [r|] eqn:Es.
    + destruct (decide (view_at base c = Some r)) as [Eb|Eb].
      * rewrite Eb in *. rewrite decide_True by done.
        destruct (kv_get s (Key_encode (K_Current c))); [|done]. done.
      * destruct (view_at base c); rewrite decide_False by done;
          exists r; split; try done; by apply (view_wf_stored state).
    + destruct (view_at base c) as [b|] eqn:Eb; [done|].
      destruct (kv_get s (Key_encode (K_Current c))); [|done]. destruct Hb as (r & _ & [=]).
Qed.
End Pair.
End DiffStore.

(** ** Time travel across a commit *)

Section TimeTravel.
  Context {S : Type} `{KVLaws S, SKL : StorekeyLaws, MSL : MessagesLaws}.

(** A stored version of an entity, live or ended. *)
Definition version_of (s : S) (e : EntityKey) (r : EntityRecord) : Prop :=
  (exists b, kv_get s (Key_encode (Key_current e)) = Some b /\ decode_entity e b = Ok r)
  \/ (exists x b, u64 x /\ kv_get s (Key_encode (Key_history e x)) = Some b
        /\ decode_entity e b = Ok r).

(** What a version says, apart from when it ended and its bookkeeping. *)
Definition body (r : EntityRecord) : EntityRecord := strip (end_record 0 r).

(** The content a time-travel read at [t] finds for an entity. *)
Definition visible (s : S) (t : N) (e : EntityKey) (content : EntityRecord) : Prop :=
  exists r, version_of s e r /\ record_included (Some t) r = true /\ body r = content.

Definition record_begin (r : EntityRecord) : option N := fst <$> lifecycle r.

Lemma versioned_lifecycle v e r :
  view_wf v -> is_versioned e = true -> view_at v (CK_Entity e) = Some r ->
  exists b, lifecycle r = Some (b, None).
Proof.
  intros Hv He Hr. destruct (Hv _ _ Hr) as (_ & Hk & Hi).
  assert (Hl : exists b o, lifecycle r = Some (b, o)).
  { destruct e; try discriminate He; destruct r; try discriminate Hk; simpl; eauto. }
  destruct Hl as (b & [o|] & Hl); unfold record_included in Hi; rewrite Hl in Hi; [done|eauto].
Qed.

Lemma lifecycle_end n r b o : lifecycle r = Some (b, o) -> lifecycle (end_record n r) = Some (b, Some n).
Proof. destruct r; cbn; intros [= <- <-]; done. Qed.

Lemma record_key_end n r : record_key (end_record n r) = record_key r.
Proof. by destruct r. Qed.

Lemma body_end n r : body (end_record n r) = body r.
Proof. by destruct r. Qed.

Lemma strip_eq_begin_body r r' :
  strip r = strip r' -> record_begin r = record_begin r' /\ body r = body r'.
Proof.
  destruct r, r'; cbn; intros E; try discriminate E; injection E; intros; subst; try done;
    unfold body, record_begin; cbn; unfold sans_counter, sans_tags in *;
    destruct v, v0; cbn in *; simplify_eq; done.
Qed.

Lemma included_live t r b : lifecycle r = Some (b, None) -> record_included (Some t) r = (b <=? t).
Proof. unfold record_included, included. intros ->. by rewrite andb_true_r. Qed.

Lemma included_ended n t r b :
  t < n -> lifecycle r = Some (b, Some n) -> record_included (Some t) r = (b <=? t).
Proof.
  unfold record_included, included. intros Ht ->. by rewrite (proj2 (N.ltb_lt t n) Ht), andb_true_r.
Qed.

Section Pair.
  Variables (base state : CatalogSnapshot) (n : N) (s : S) (e : EntityKey).
  Hypotheses (Hbase : view_wf base) (Hstate : view_wf state) (Hn : u64 n)
    (Hclosed : diff_closed base state) (Hrep : Represents base s)
    (He : is_versioned e = true) (Hwf : EntityKey_wf e).

Let s' : S := kv_apply s (diff_writes base state n).

(** The live version in the store is the one the view holds. *)
Lemma live_version v (st : S) r :
  Represents v st ->
  (exists b, kv_get st (Key_encode (Key_current e)) = Some b /\ decode_entity e b = Ok r)
  <-> view_at v (CK_Entity e) = Some r.
Proof.
  intros Hv. destruct (Hv (CK_Entity e)) as [_ Hg]. specialize (Hg Hwf). unfold Key_current.
  destruct (kv_get st (Key_encode (K_Current (CK_Entity e)))) as [b|].
  - destruct Hg as (r' & [Hd _] & Hr'). cbn in Hd. split.
    + intros (b' & [= <-] & Hd'). congruence.
    + intros E. exists b. split; [done|congruence].
  - split; [by intros (b & [=] & _)|congruence].
Qed.

(** Ended versions after the commit: those before it, and the mirror it wrote. *)
Lemma ended_version r :
  (forall x, n <= x -> kv_get s (Key_encode (Key_history e x)) = None) ->
  (exists x b, u64 x /\ kv_get s' (Key_encode (Key_history e x)) = Some b /\ decode_entity e b = Ok r)
  <-> (exists x b, u64 x /\ kv_get s (Key_encode (Key_history e x)) = Some b
         /\ decode_entity e b = Ok r)
      \/ (exists r0, view_at base (CK_Entity e) = Some r0
            /\ (forall r', view_at state (CK_Entity e) = Some r' -> strip r0 <> strip r')
            /\ r = end_record n r0).
Proof.
  intros Hfresh. unfold s'.
  assert (Hd : forall r0, view_at base (CK_Entity e) = Some r0 ->
    decode_entity e (encode_record (end_record n r0)) = Ok (end_record n r0)).
  { intros r0 Hr0. pose proof (decode_encode_record (end_record n r0)) as E.
    rewrite record_key_end in E. destruct (Hbase _ _ Hr0) as (_ & Hk & _).
    rewrite Hk in E. exact E. }
  split.
  - intros (x & b & Hx & Hg & Hr). rewrite kv_get_apply in Hg.
    destruct (last_write _ _) as [o|] eqn:El; [|left; eauto].
    apply last_write_elem in El. subst o.
    apply diff_history_elem in El as (-> & r0 & _ & Hb & Hs & [= ->]); try done.
    right. exists r0. rewrite Hd in Hr by done. injection Hr as <-. done.
  - intros [(x & b & Hx & Hg & Hr)|(r0 & Hb & Hs & ->)].
    + exists x, b. split_and!; [done| |done]. rewrite kv_get_apply, last_write_none; [done|].
      intros o Ho. apply diff_history_elem in Ho as (-> & _); try done.
      by rewrite Hfresh in Hg.
    + exists n, (encode_record (end_record n r0)). split_and!; [done| |by apply Hd].
      rewrite kv_get_apply.
      rewrite (last_write_unique _ _ (Some (encode_record (end_record n r0)))); [done|..].
      * apply diff_history_elem; try done. split; [done|]. exists r0. done.
      * intros o Ho. apply diff_history_elem in Ho as (_ & r1 & _ & Hb1 & _ & ->); try done.
        congruence.
Qed.

(** A record the commit stages in place of another one, or of none, under the key,
    with a begin at or before [t]: a record registered with an old begin. *)
Definition backdated (t : N) (content : EntityRecord) : Prop :=
  exists r' b, view_at state (CK_Entity e) = Some r'
    /\ (forall r, view_at base (CK_Entity e) = Some r -> strip r <> strip r')
    /\ record_begin r' = Some b /\ b <= t /\ body r' = content.

Lemma backdated_included t content :
  backdated t content <->
  exists r', view_at state (CK_Entity e) = Some r'
    /\ (forall r, view_at base (CK_Entity e) = Some r -> strip r <> strip r')
    /\ record_included (Some t) r' = true /\ body r' = content.
Proof.
  split.
  - intros (r' & b & Hr' & Hne & Hb & Hle & Hc). exists r'. split_and!; try done.
    destruct (versioned_lifecycle _ _ _ Hstate He Hr') as [b' Hl]. rewrite (included_live t r' b' Hl).
    unfold record_begin in Hb. rewrite Hl in Hb. injection Hb as ->. by apply N.leb_le.
  - intros (r' & Hr' & Hne & Hi & Hc). destruct (versioned_lifecycle _ _ _ Hstate He Hr') as [b Hl].
    exists r', b. split_and!; try done; [unfold record_begin; by rewrite Hl|].
    rewrite (included_live t r' b Hl) in Hi. by apply N.leb_le.
Qed.

(** Two live versions under the key that differ in bookkeeping alone read alike. *)
Lemma same_included t r r' :
  view_at base (CK_Entity e) = Some r -> view_at state (CK_Entity e) = Some r' -> strip r = strip r' ->
  record_included (Some t) r = record_included (Some t) r' /\ body r = body r'.
Proof.
  intros Hr Hr' E. destruct (versioned_lifecycle _ _ _ Hbase He Hr) as [b Hl].
  destruct (versioned_lifecycle _ _ _ Hstate He Hr') as [b' Hl'].
  destruct (strip_eq_begin_body _ _ E) as [Eb Ec]. unfold record_begin in Eb.
  rewrite Hl, Hl' in Eb. injection Eb as <-.
  by rewrite (included_live _ _ _ Hl), (included_live _ _ _ Hl').
Qed.

(** Before the commit, its mirror of a version reads as the version did. *)
Lemma mirror_included t r :
  t < n -> view_at base (CK_Entity e) = Some r ->
  record_included (Some t) (end_record n r) = record_included (Some t) r.
Proof.
  intros Ht Hr. destruct (versioned_lifecycle _ _ _ Hbase He Hr) as [b Hl].
  rewrite (included_live t r b Hl). apply included_ended with n; [done|by eapply lifecycle_end].
Qed.

Lemma kept_or_mirrored r :
  (exists r', view_at state (CK_Entity e) = Some r' /\ strip r = strip r')
  \/ forall r', view_at state (CK_Entity e) = Some r' -> strip r <> strip r'.
Proof.
  destruct (view_at state (CK_Entity e)) as [r'|]; [|by right].
  destruct (decide (strip r = strip r')); [left; eauto|right]. by intros ? [= <-].
Qed.

(** What a read before the commit finds after it: what it found before, and the
    backdated records. *)
Lemma visible_after t content :
  t < n ->
  (forall x, n <= x -> kv_get s (Key_encode (Key_history e x)) = None) ->
  visible s' t e content <-> visible s t e content \/ backdated t content.
Proof.
  intros Ht Hfresh. rewrite backdated_included. unfold visible, version_of.
  pose proof (diff_represents base state n Hbase Hstate Hn Hclosed s Hrep) as Hrep'.
  setoid_rewrite (fun r => ended_version r Hfresh).
  setoid_rewrite (fun r => live_version base s r Hrep).
  setoid_rewrite (fun r => live_version state s' r Hrep').
  split.
  - intros (r & [Hr|[Hh|(r0 & Hr0 & Hs & ->)]] & Hi & Hb).
    + destruct (view_at base (CK_Entity e)) as [r0|] eqn:Eb; [|right; exists r; naive_solver].
      destruct (decide (strip r0 = strip r)) as [E|E]; [|right; exists r; naive_solver].
      left. destruct (same_included t r0 r Eb Hr E) as [Ei Ec]. exists r0. rewrite Ei, Ec. eauto.
    + left. exists r. eauto.
    + left. exists r0. rewrite mirror_included in Hi by done. rewrite body_end in Hb. eauto.
  - intros [(r & [Hr|Hh] & Hi & Hb)|(r' & Hr' & _ & Hi & Hb)]; [|exists r; eauto|exists r'; eauto].
    destruct (kept_or_mirrored r) as [(r' & Es & E)|Hm].
    + destruct (same_included t r r' Hr Es E) as [Ei Ec]. exists r'. rewrite <-Ei, <-Ec. eauto.
    + exists (end_record n r). rewrite mirror_included, body_end by done. eauto 10.
Qed.
End Pair.
End TimeTravel.

(** ** Properties *)


(** C2: committing takes nothing from the past.  Over a store with no history record at
    or after its snapshot [n], a time-travel read of any versioned entity at an earlier
    snapshot [t] finds after the commit exactly what it found before, and besides it
    only what the commit itself registers under that key with a begin at or before [t]
    (a data file flushed from inlined rows keeps the begin of its rows, an index
    poisoned keeps its own).  A record that begins at [n], or differs from the one it
    replaces in bookkeeping alone, adds nothing to any earlier read. *)
Theorem commit_preserves_the_past {S} `{KVLaws S, SKL : StorekeyLaws, MSL : MessagesLaws}
    (base state : CatalogSnapshot) (n t : N) (s : S) (e : EntityKey) (content : EntityRecord) :
  view_wf base -> view_wf state -> u64 n -> diff_closed base state -> Represents base s ->
  is_versioned e = true -> EntityKey_wf e -> t < n ->
  (forall x, n <= x -> kv_get s (Key_encode (Key_history e x)) = None) ->
  let s' := kv_apply s (diff_writes base state n) in
  (visible s' t e content <-> visible s t e content \/ backdated base state e t content)
  /\ ((forall r', view_at state (CK_Entity e) = Some r' ->
         record_begin r' = Some n
         \/ exists r, view_at base (CK_Entity e) = Some r /\ strip r = strip r') ->
      visible s' t e content <-> visible s t e content).
Proof.
  intros Hb Hs Hn Hc Hr He Hk Ht Hf s'.
  pose proof (visible_after base state n s e Hb Hs Hn Hc Hr He Hk t content Ht Hf) as Hv.
  split; [exact Hv|]. intros Hbg. fold s' in Hv. rewrite Hv. split; [|by left].
  intros [?|(r' & b & Hr' & Hne & Hb' & Hle & _)]; [done|]. exfalso.
  destruct (Hbg r' Hr') as [Hn'|(r & Hr0 & E)]; [|by eapply Hne].
  rewrite Hb' in Hn'. injection Hn' as ->. lia.
Qed.

(** *** Witnesses: table 1 created as "a" at snapshot 1, renamed "b" at snapshot 2 *)

Definition table_at (id : N) (name : string) (begin : N) : TableValue :=
  mkTableValue id "u" begin None 0 name "" true 0.
Definition view_of (ts : list TableValue) : CatalogSnapshot :=
  foldl (fun v t => put_table t v) CatalogSnapshot_default ts.

Lemma view_of_wf ts :
  Forall (fun t => u64 (tv_table_id t) /\ tv_end_snapshot t = None) ts -> view_wf (view_of ts).
Proof.
  unfold view_of. induction ts as [|t ts IH] using rev_ind; intros Hts c r.
  - cbn [foldl]. by rewrite view_at_default.
  - apply Forall_app in Hts as [Hts Ht]. apply (proj1 (Forall_singleton _ _)) in Ht as [Hu He].
    rewrite foldl_snoc. change (put_table t) with (put_record (ER_Table t)).
    rewrite put_record_at. case_decide as Hd; [|by apply IH].
    intros [= <-]. subst c. split_and!; [|done|].
    + constructor; [exact Hu|constructor].
    + unfold record_included. cbn. by rewrite He.
Qed.

Lemma view_of_closed ts ts' : diff_closed (view_of ts) (view_of ts').
Proof.
  assert (Hm : forall ts, cs_mappings (view_of ts) = ∅ /\ cs_file_column_stats (view_of ts) = ∅).
  { intros l. unfold view_of. induction l as [|t l IH] using rev_ind; [done|].
    rewrite foldl_snoc. unfold put_table at 1 3. destruct put_named. exact IH. }
  split.
  - intros t i. rewrite (proj1 (Hm ts)), nlookup_empty. by intros [].
  - intros t f i _ _. by rewrite (proj2 (Hm ts)), (proj2 (Hm ts')).
Qed.

Lemma default_represents `{SKL : StorekeyLaws, MSL : MessagesLaws} :
  Represents CatalogSnapshot_default (∅ : gmap bytes bytes).
Proof.
  intros c. split; intros _; [apply view_at_default|].
  cbn [kv_get gmap_kv]. rewrite lookup_empty. apply view_at_default.
Qed.

#[local] Existing Instances reference_storekey reference_storekey_laws reference_messages
  reference_messages_laws.

Definition store_v1 : gmap bytes bytes :=
  kv_apply ∅ (diff_writes CatalogSnapshot_default (view_of [table_at 1 "a" 1]) 1).

Lemma sample_wf name begin : view_wf (view_of [table_at 1 name begin]).
Proof. apply view_of_wf. by repeat constructor. Qed.
Lemma default_wf : view_wf CatalogSnapshot_default.
Proof. apply (view_of_wf []). constructor. Qed.

Lemma store_v1_represents : Represents (view_of [table_at 1 "a" 1]) store_v1.
Proof.
  apply diff_represents; [apply default_wf|apply sample_wf|done|apply (view_of_closed [])|].
  apply default_represents.
Qed.


Lemma store_v1_no_history x : kv_get store_v1 (Key_encode (Key_history (EK_Table 1) x)) = None.
Proof.
  unfold store_v1. rewrite kv_get_apply, last_write_none; [done|]. intros o Ho.
  apply diff_writes_elem in Ho as (c & Ho).
  apply stage_at_chunk in Ho; [|apply (view_of_closed [])].
  rewrite view_at_default in Ho. change (view_of [table_at 1 "a" 1]) with
    (put_record (ER_Table (table_at 1 "a" 1)) CatalogSnapshot_default) in Ho.
  rewrite put_record_at, view_at_default in Ho.
  by destruct Ho as [([? ?] & _)|[(r & Hr & _ & [= E _])|(e & r & _ & _ & [=] & _)]].
Qed.

(** A rename leaves the old name in the past; a record with an old begin shows there. *)
Lemma commit_preserves_the_past_witness :
  visible (kv_apply store_v1
    (diff_writes (view_of [table_at 1 "a" 1]) (view_of [table_at 1 "b" 2]) 2))
    1 (EK_Table 1) (body (ER_Table (table_at 1 "a" 1)))
  /\ visible (kv_apply store_v1
    (diff_writes (view_of [table_at 1 "a" 1]) (view_of [table_at 1 "b" 1]) 2))
    1 (EK_Table 1) (body (ER_Table (table_at 1 "b" 1))).
Proof.
  split.
  - refine (proj2 (proj1 (commit_preserves_the_past (view_of [table_at 1 "a" 1])
      (view_of [table_at 1 "b" 2]) 2 1 store_v1 (EK_Table 1) _ _ _ _ _ _ _ _ _ _)) _); [apply sample_wf|apply sample_wf|done|apply view_of_closed
      |apply store_v1_represents|done|by repeat constructor|done| |].
    { intros x _. apply store_v1_no_history. }
    left. exists (ER_Table (table_at 1 "a" 1)). split; [|split; vm_compute; reflexivity].
    left. exists (encode_record (ER_Table (table_at 1 "a" 1))).
    split; vm_compute; reflexivity.
  - refine (proj2 (proj1 (commit_preserves_the_past (view_of [table_at 1 "a" 1])
      (view_of [table_at 1 "b" 1]) 2 1 store_v1 (EK_Table 1) _ _ _ _ _ _ _ _ _ _)) _); [apply sample_wf|apply sample_wf|done|apply view_of_closed
      |apply store_v1_represents|done|by repeat constructor|done| |].
    { intros x _. apply store_v1_no_history. }
    right. exists (ER_Table (table_at 1 "b" 1)), 1. split_and!; [vm_compute; reflexivity| |done|done|done].
    intros r Hr. vm_compute in Hr. injection Hr as <-. by vm_compute.
Defined.

Lemma fold_equals_rescan_witness :
  exists view' recs,
    fold_batch CatalogSnapshot_default
      (diff_writes CatalogSnapshot_default (view_of [table_at 1 "a" 1]) 1) = Ok view'
    /\ run store_v1 scan_current_entities = Ok recs
    /\ forall c, view_at view' c = view_at (build SnapshotValue_default recs [] None) c.
Proof.
  apply (fold_equals_rescan CatalogSnapshot_default (∅ : gmap bytes bytes)).
  - intros kb b Hg. cbn in Hg. by rewrite lookup_empty in Hg.
  - apply default_represents.
  - apply diff_write_wf; [apply default_wf|apply sample_wf|done|apply (view_of_closed [])].
Defined.

(** Folding keeps the records but not always the name index: a transaction
    that drops table 2 named "b" and renames table 1 from "a" to "b" folds, in id
    order, the rename first and the drop second, and the drop unlinks the name by
    name only; the folded view holds table 1 as "b" yet no longer resolves "b",
    while the staged state and a fresh scan do. *)
Theorem fold_drops_reused_name :
  let base := view_of [table_at 1 "a" 1; table_at 2 "b" 1] in
  let state := put_table (table_at 1 "b" 2) (delete_table 2 base) in
  table_by_name state 0 "b" = Some (mkTableInfo 1 0 "b")
  /\ exists view', fold_batch base (diff_writes base state 2) = Ok view'
       /\ table_by_id view' 1 = Some (mkTableInfo 1 0 "b")
       /\ table_by_name view' 0 "b" = None.
Proof.
  intros base state. split; [vm_compute; reflexivity|].
  eexists. split; [vm_compute; reflexivity|]. split; vm_compute; reflexivity.
Qed.
