(* ===== verification/Materialize.v ===== *)
(** Opening and reading a catalog ([transaction/commit.rs], read side): the format
    gate, bootstrap, resolving a read point, materializing a view, and refreshing a
    held view from the changelog. *)
From stdpp Require Import gmap strings list fin_maps sorting.
From Stdlib Require Import NArith ZArith Lia.
From S2P Require Import Prelude Storekey KeyLayout Operations ChangesMade Values Snapshot Catalog.
From S2P Require Import Store Fold Diff.

Local Open Scope N_scope.

(** ** Formats *)

Definition FORMAT_VERSION : N := 1.
Definition FORMAT_WITH_INDEX : N := 2.
Definition FORMAT_WITH_STAGED_INDEX : N := 3.
Definition FORMAT_WITH_DEFERRED_INDEX : N := 4.
Definition MAX_FORMAT_VERSION : N := FORMAT_WITH_DEFERRED_INDEX.
Definition MIN_FORMAT_VERSION : N := FORMAT_VERSION.

Definition MAX_REFRESH_KEYS : nat := 256.
Definition REFRESH_CHURN_SHARE : nat := 2.
Definition CHANGELOG_WINDOW : N := 64.

#[local] Instance bytes_le_rel_dec : RelDecision bytes_le := bytes_le_dec.

Section Materialize.
  Context `{SK : Storekey, MS : Messages}.

(** [validate_format]. *)
Definition validate_format : Reader (option FormatValue) :=
  migration ← read_migration;
  _ ← lift (fail_if (match migration with Some _ => true | None => false end) Migration);
  format ← read_format;
  match format with
  | Some format =>
      if MAX_FORMAT_VERSION <? fm_format_version format then lift (Err Migration)
      else if fm_format_version format <? MIN_FORMAT_VERSION then lift (Err Migration)
      else mret (Some format)
  | None => mret None
  end.

(** [stage_bootstrap]: the writes of a fresh store.  The clock, the schema's uuid
    and the package version are the caller's. *)
Definition stage_bootstrap (now_micros : Z) (uuid version : string) (encrypted : bool)
    (data_path : option string) : list StagedWrite :=
  let options : gmap string string :=
    match data_path with
    | Some path => <["data_path" := path]> {["encrypted" := if encrypted then "true" else "false"]}
    | None => {["encrypted" := if encrypted then "true" else "false"]}
    end%string in
  [ (Key_encode (K_Sys SK_Format), Some (encode_value (mkFormatValue FORMAT_VERSION version)));
    (Key_encode (K_Snapshot 0), Some (encode_value
      (mkSnapshotValue 0 now_micros 0 1 0
        (to_changes_made (upd_created_schemas (ins "main"%string) ChangeSet_default))
        None None None [] [])));
    (Key_encode (Key_current (EK_Schema 0)), Some (encode_value
      (mkSchemaValue 0 uuid 0 None "main" "main/" true)));
    (Key_encode (Key_current (EK_Option 0 0)), Some (encode_value (mkOptionScopeValue options)));
    (Key_encode (K_Sys SK_Head), Some (encode_value (mkHeadValue 0 0))) ].

(** [refuse_mid_migration]. *)
Definition refuse_mid_migration : Reader unit :=
  migration ← read_migration;
  match migration with Some _ => lift (Err Migration) | None => mret tt end.

(** [read_head_value], [read_head_id]. *)
Definition read_head_value : Reader HeadValue :=
  head ← read_head; lift (ok_or Corruption head).
Definition read_head_id : Reader N := head ← read_head_value; mret (hd_snapshot_id head).

(** [resolve_below], [resolve_read_snapshot]. *)
Definition resolve_below (at_ : option N) (head : N) : Reader (N * SnapshotValue) :=
  target ← match at_ with
           | Some requested => if head <? requested then lift (Err NotFound) else mret requested
           | None => mret head
           end;
  snapshot ← read_snapshot target;
  snapshot ← lift (ok_or SnapshotExpired snapshot);
  mret (target, snapshot).
Definition resolve_read_snapshot (at_ : option N) : Reader (N * SnapshotValue) :=
  head ← read_head_id; resolve_below at_ head.

(** [materialize_capturing]: the pass itself, then under a stable cut. *)
Definition capture_head : Reader (CatalogSnapshot * list EntityRecord) :=
  _ ← refuse_mid_migration;
  head ← read_head_value;
  '(_, snapshot) ← resolve_below None (hd_snapshot_id head);
  current ← scan_current_entities;
  mret (set_batch_seq (fun _ => hd_batch_seq head) (build snapshot current [] None), current).
Definition materialize_capturing (isolated : bool)
  : Reader (CatalogSnapshot * list EntityRecord) := consistent isolated capture_head.

Definition materialize_at (at_ : option N) : Reader CatalogSnapshot :=
  _ ← refuse_mid_migration;
  head ← read_head_value;
  '(target, snapshot) ← resolve_below at_ (hd_snapshot_id head);
  current ← scan_current_entities;
  history ← scan_history_entities;
  mret (build snapshot current history (Some target)).

(** [materialize]. *)
Definition materialize (isolated : bool) (at_ : option N) : Reader CatalogSnapshot :=
  match at_ with
  | None => captured ← materialize_capturing isolated; mret captured.1
  | Some _ => consistent isolated (materialize_at at_)
  end.

(** [materialize_from]: from records scanned elsewhere, when the store still stands
    at the head they were scanned at. *)
Definition materialize_from (isolated : bool) (expected : HeadValue) (current : list EntityRecord)
  : Reader (option CatalogSnapshot) :=
  consistent isolated (
    _ ← refuse_mid_migration;
    head ← read_head_value;
    if negb (hd_snapshot_id head =? hd_snapshot_id expected)
       || negb (hd_batch_seq head =? hd_batch_seq expected)
    then mret None
    else
      '(_, snapshot) ← resolve_below None (hd_snapshot_id head);
      mret (Some (set_batch_seq (fun _ => hd_batch_seq head) (build snapshot current [] None)))).

(** *** The changelog *)

(** The loop of [refresh_keys_of]: [None] at a key that does not decode. *)
Fixpoint current_keys (writes : list StagedWrite) : option (list bytes) :=
  match writes with
  | [] => Some []
  | (encoded, _) :: writes =>
      match Key_decode encoded with
      | Ok (K_Current _) => cons encoded <$> current_keys writes
      | Ok _ => current_keys writes
      | Err _ => None
      end
  end.

(** [refresh_keys_of]: sorted and deduplicated, or the flag is false. *)
Definition refresh_keys_of (writes : list StagedWrite) : list bytes * bool :=
  match current_keys writes with
  | None => ([], false)
  | Some keys =>
      let keys := in_order bytes_le (list_to_set keys) in
      if (MAX_REFRESH_KEYS <? length keys)%nat then ([], false) else (keys, true)
  end.

(** [changelog_writes]. *)
Definition changelog_writes (snapshot_id : N) (writes : list StagedWrite) : list StagedWrite :=
  let '(keys, complete) := refresh_keys_of writes in
  (if complete then
     [(Key_encode (K_Changelog snapshot_id), Some (encode_value (mkChangelogValue keys)))]
   else [])
  ++ match checked_sub snapshot_id CHANGELOG_WINDOW with
     | Some expired => [(Key_encode (K_Changelog expired), None)]
     | None => []
     end.

(** The changelogs of [fuel] snapshots from [next] on, as one key set; [None] when
    one is absent or the churn passes the limit. *)
Fixpoint gap_keys (fuel : nat) (next : N) (churn_limit : nat) (keys : gset bytes)
  : Reader (option (gset bytes)) :=
  match fuel with
  | O => mret (Some keys)
  | S fuel =>
      changelog ← read_changelog next;
      match changelog with
      | None => mret None
      | Some changelog =>
          let keys := keys ∪ list_to_set (cl_keys changelog) in
          if (churn_limit <? size keys)%nat then mret None
          else gap_keys fuel (next + 1) churn_limit keys
      end
  end.

(** The current value of each key. *)
Fixpoint reread (keys : list bytes) : Reader (list StagedWrite) :=
  match keys with
  | [] => mret []
  | key :: keys => RGet key (fun value => ws ← reread keys; mret ((key, value) :: ws))
  end.

(** [replay]. *)
Definition replay (base : CatalogSnapshot) (head : HeadValue) (churn_limit : nat)
  : Reader (option CatalogSnapshot) :=
  let from := sn_snapshot_id (cs_snapshot base) in
  match checked_sub (hd_snapshot_id head) from with
  | Some minted =>
      if minted =? 0 then mret None
      else if negb (saturating_sub (hd_batch_seq head) (cs_batch_seq base) =? minted) then mret None
      else
        keys ← gap_keys (N.to_nat minted) (from + 1) churn_limit ∅;
        match keys with
        | None => mret None
        | Some keys =>
            latest ← read_snapshot (hd_snapshot_id head);
            match latest with
            | None => mret None
            | Some latest =>
                writes ← reread (in_order bytes_le keys);
                view ← lift (fold_batch base writes);
                mret (Some (set_batch_seq (fun _ => hd_batch_seq head)
                  (set_snapshot (fun _ => latest) view)))
            end
        end
  | None => mret None
  end.

(** [refresh]. *)
Definition refresh (isolated : bool) (base : CatalogSnapshot) : Reader (option CatalogSnapshot) :=
  consistent isolated (
    head ← read_head_value;
    replay base head (live_entity_count base / REFRESH_CHURN_SHARE)%nat).
End Materialize.

(** ** Reading the store's singletons *)

Section Singletons.
  Context {S : Type} `{KVLaws S, SKL : StorekeyLaws, MSL : MessagesLaws}.

Lemma run_head_value (s : S) h : run s read_head = Ok (Some h) -> run s read_head_value = Ok h.
Proof. unfold read_head_value. intros E. by rewrite (run_bind_Ok _ _ _ _ E). Qed.

Lemma put_record_snapshot r v :
  cs_snapshot (put_record r v) = cs_snapshot v /\ cs_batch_seq (put_record r v) = cs_batch_seq v.
Proof.
  destruct r; try done; cbn [put_record]; unfold put_table, put_view, put_macro;
    destruct put_named; done.
Qed.

Lemma build_snapshot sn current history at_ : cs_snapshot (build sn current history at_) = sn.
Proof.
  unfold build. generalize (current ++ history) as l. intros l.
  induction l as [|r l IH] using rev_ind; [done|].
  rewrite foldl_snoc. case_match; [|done]. by rewrite (proj1 (put_record_snapshot _ _)).
Qed.

Lemma view_at_set_batch_seq f v c : view_at (set_batch_seq f v) c = view_at v c.
Proof. by destruct c as [[]|]. Qed.

Lemma represents_ext v v' (s : S) :
  (forall c, view_at v c = view_at v' c) -> Represents v s -> Represents v' s.
Proof. intros E Hv c. rewrite <-(E c). apply Hv. Qed.

Lemma run_resolve_head (s : S) id sn :
  run s (read_snapshot id) = Ok (Some sn) -> run s (resolve_below None id) = Ok (id, sn).
Proof.
  intros E. unfold resolve_below. erewrite run_bind_Ok by reflexivity.
  by rewrite (run_bind_Ok _ _ _ _ E).
Qed.

Lemma run_capture_head (s : S) h sn :
  run s read_migration = Ok None -> run s read_head = Ok (Some h) ->
  run s (read_snapshot (hd_snapshot_id h)) = Ok (Some sn) -> current_wf s ->
  exists v recs, run s capture_head = Ok (v, recs) /\ Represents v s
    /\ cs_snapshot v = sn /\ cs_batch_seq v = hd_batch_seq h
    /\ (names_distinct recs -> names_coherent v).
Proof.
  intros Hm Hh Hsn Hc. destruct (build_represents s sn Hc) as (recs & Er & Hr).
  exists (set_batch_seq (fun _ => hd_batch_seq h) (build sn recs [] None)), recs.
  split_and!; [| |apply build_snapshot|done|].
  - unfold capture_head, refuse_mid_migration.
    erewrite run_bind_Ok by (by rewrite (run_bind_Ok _ _ _ _ Hm)).
    rewrite (run_bind_Ok _ _ _ _ (run_head_value _ _ Hh)).
    rewrite (run_bind_Ok _ _ _ _ (run_resolve_head _ _ _ Hsn)).
    by rewrite (run_bind_Ok _ _ _ _ Er).
  - eapply represents_ext; [|exact Hr]. intros c. by rewrite view_at_set_batch_seq.
  - intros Hd. change (names_coherent (build sn recs [] None)). apply build_coherent.
    rewrite app_nil_r. by apply names_distinct_filter.
Qed.

(** The records a capture hands back are those the store holds. *)
Lemma capture_records (s : S) v recs :
  current_wf s -> run s capture_head = Ok (v, recs) ->
  forall r, r ∈ recs -> exists c b, Key_wf (K_Current c)
    /\ kv_get s (Key_encode (K_Current c)) = Some b /\ stored_as c b r.
Proof.
  intros Hc Hr. unfold capture_head in Hr.
  apply run_bind_inv in Hr as (_ & _ & Hr). apply run_bind_inv in Hr as (h & _ & Hr).
  apply run_bind_inv in Hr as ([t sn] & _ & Hr). apply run_bind_inv in Hr as (current & Hs & Hr).
  injection Hr as _ <-. destruct (scan_current_ok s Hc) as (recs & E & Hin).
  rewrite E in Hs. injection Hs as <-. intros r. apply Hin.
Qed.
End Singletons.

(** ** How the store moves between two heads *)

Section Movement.
  Context {S : Type} `{KVLaws S, SKL : StorekeyLaws, MSL : MessagesLaws}.

(** The head record and the changelog subspace are written only by the batch
    protocol below, never by the catalog part of a batch. *)
Definition plain_write (w : StagedWrite) : Prop :=
  forall k, Key_wf k -> w.1 = Key_encode k ->
  match k with K_Sys SK_Head | K_Changelog _ => False | _ => True end.

(** The batch of a snapshot-minting commit over head [h]. *)
Definition mint_batch (h : HeadValue) (body : list StagedWrite) (sn : SnapshotValue)
  : list StagedWrite :=
  body ++ changelog_writes (hd_snapshot_id h + 1) body
  ++ [(Key_encode (K_Snapshot (hd_snapshot_id h + 1)), Some (encode_value sn));
      (Key_encode (K_Sys SK_Head), Some (encode_value
        (mkHeadValue (hd_snapshot_id h + 1) (saturating_add (hd_batch_seq h) 1))))].

(** The batch of a maintenance commit, which leaves the snapshot id standing. *)
Definition maintenance_batch (h : HeadValue) (body : list StagedWrite) : list StagedWrite :=
  body ++ [(Key_encode (K_Sys SK_Head), Some (encode_value
    (mkHeadValue (hd_snapshot_id h) (saturating_add (hd_batch_seq h) 1))))].

Inductive store_step : S -> S -> Prop :=
| step_mint s h body sn :
    run s read_head = Ok (Some h) -> u64 (hd_snapshot_id h + 1) -> u64 (hd_batch_seq h + 1) ->
    Forall write_wf body -> Forall plain_write body ->
    store_step s (kv_apply s (mint_batch h body sn))
| step_maintain s h body :
    run s read_head = Ok (Some h) -> u64 (hd_snapshot_id h) -> u64 (hd_batch_seq h + 1) ->
    Forall write_wf body -> Forall plain_write body ->
    store_step s (kv_apply s (maintenance_batch h body)).

Lemma plain_key w k :
  write_wf w -> plain_write w -> match k with K_Sys SK_Head | K_Changelog _ => True | _ => False end ->
  exists k', w.1 = Key_encode k' /\ Key_wf k' /\ k' <> k.
Proof.
  intros (k' & E & Hk' & _) Hp Hk. exists k'. split_and!; [done..|]. intros ->.
  specialize (Hp k Hk' E). by destruct k as [[]| | | | | | |].
Qed.

Lemma body_other body k :
  Forall write_wf body -> Forall plain_write body -> Key_wf k ->
  match k with K_Sys SK_Head | K_Changelog _ => True | _ => False end ->
  last_write body (Key_encode k) = None.
Proof.
  intros Hw Hp Hk Hc. apply last_write_other; [done|]. rewrite Forall_forall in *.
  intros w Hin. apply plain_key; auto.
Qed.

(** The changelog record a batch leaves. *)
Lemma changelog_last i body j :
  u64 i -> u64 j ->
  last_write (changelog_writes i body) (Key_encode (K_Changelog j)) =
  if decide (j = i) then
    if (refresh_keys_of body).2
    then Some (Some (encode_value (mkChangelogValue (refresh_keys_of body).1))) else None
  else if decide (CHANGELOG_WINDOW <= i /\ j = i - CHANGELOG_WINDOW) then Some None else None.
Proof.
  intros Hi Hj. unfold changelog_writes, checked_sub.
  destruct (refresh_keys_of body) as [keys complete]. cbn [fst snd].
  assert (Hw : CHANGELOG_WINDOW = 64) by done.
  rewrite last_write_app.
  assert (E1 : last_write (if complete then
     [(Key_encode (K_Changelog i), Some (encode_value (mkChangelogValue keys)))] else [])
     (Key_encode (K_Changelog j)) = if decide (j = i) then if complete
      then Some (Some (encode_value (mkChangelogValue keys))) else None else None).
  { destruct complete; rewrite ?last_write_cons, !last_write_nil; cbn [fst snd]; [|by case_decide].
    destruct (decide (j = i)) as [->|Hne]; [by rewrite decide_True|].
    rewrite decide_False; [done|]. rewrite Key_encode_eq by done. congruence. }
  rewrite E1. destruct (N.leb_spec CHANGELOG_WINDOW i) as [Hle|Hlt].
  - assert (Hx : u64 (i - CHANGELOG_WINDOW)) by (unfold u64 in *; lia).
    rewrite last_write_cons, last_write_nil. cbn [fst snd].
    destruct (decide (j = i)) as [->|Hne].
    + rewrite decide_False; [done|]. rewrite Key_encode_eq by done. intros [= E]. lia.
    + destruct (decide (CHANGELOG_WINDOW <= i /\ j = i - CHANGELOG_WINDOW)) as [[_ ->]|Hno].
      * by rewrite decide_True.
      * rewrite decide_False; [done|]. rewrite Key_encode_eq by done. intros [= <-]. auto.
  - rewrite last_write_nil. case_decide; [done|]. rewrite decide_False; [done|]. lia.
Qed.

Lemma changelog_keys_current i body w :
  u64 i -> w ∈ changelog_writes i body -> exists j, u64 j /\ w.1 = Key_encode (K_Changelog j).
Proof.
  intros Hi. unfold changelog_writes, checked_sub. destruct (refresh_keys_of body) as [keys []];
    destruct (CHANGELOG_WINDOW <=? i); rewrite ?elem_of_app, ?elem_of_cons, ?elem_of_nil; intros Hw; destruct_or? Hw;
    subst; try done; eexists; (split; [|reflexivity]); unfold u64 in *; lia.
Qed.

(** What a batch leaves at a [current] key is what its catalog part leaves there. *)
Lemma mint_current h body sn c :
  Key_wf (K_Current c) -> u64 (hd_snapshot_id h + 1) ->
  last_write (mint_batch h body sn) (Key_encode (K_Current c))
  = last_write body (Key_encode (K_Current c)).
Proof.
  intros Hc Hi. unfold mint_batch. rewrite last_write_app, last_write_other; [done|done|].
  apply Forall_app. split; [|repeat constructor; eexists; split_and!; (reflexivity || done)].
  apply Forall_forall. intros w (j & Hj & E)%changelog_keys_current; [|done].
  exists (K_Changelog j). done.
Qed.

Lemma mint_head h body sn (s : S) :
  u64 (hd_snapshot_id h + 1) -> u64 (hd_batch_seq h + 1) ->
  run (kv_apply s (mint_batch h body sn)) read_head
  = Ok (Some (mkHeadValue (hd_snapshot_id h + 1) (hd_batch_seq h + 1))).
Proof.
  intros Hi Hs. apply run_singleton. rewrite kv_get_apply. unfold mint_batch.
  rewrite app_assoc, last_write_app, !last_write_cons. cbn [fst snd].
  rewrite last_write_nil, decide_True by done. by rewrite saturating_add_exact.
Qed.

Lemma maintain_head h body (s : S) :
  u64 (hd_batch_seq h + 1) ->
  run (kv_apply s (maintenance_batch h body)) read_head
  = Ok (Some (mkHeadValue (hd_snapshot_id h) (hd_batch_seq h + 1))).
Proof.
  intros Hs. apply run_singleton. rewrite kv_get_apply. unfold maintenance_batch.
  rewrite last_write_app, !last_write_cons. cbn [fst snd].
  rewrite last_write_nil, decide_True by done. by rewrite saturating_add_exact.
Qed.

(** The changelog records a minting batch leaves. *)
Lemma mint_changelog h body sn (s : S) j :
  Forall write_wf body -> Forall plain_write body ->
  u64 (hd_snapshot_id h + 1) -> u64 j ->
  kv_get (kv_apply s (mint_batch h body sn)) (Key_encode (K_Changelog j)) =
  match last_write (changelog_writes (hd_snapshot_id h + 1) body) (Key_encode (K_Changelog j)) with
  | Some v => v
  | None => kv_get s (Key_encode (K_Changelog j))
  end.
Proof.
  intros Hw Hp Hi Hj. rewrite kv_get_apply. unfold mint_batch.
  rewrite !last_write_app, !last_write_cons, last_write_nil. cbn [fst snd].
  rewrite (decide_False (P := Key_encode (K_Sys SK_Head) = _)) by (rewrite Key_encode_eq; done).
  rewrite (decide_False (P := Key_encode (K_Snapshot _) = _)) by (rewrite Key_encode_eq; done).
  destruct (last_write (changelog_writes _ _) _); [done|].
  by rewrite (body_other body (K_Changelog j)).
Qed.

Lemma maintain_changelog h body (s : S) j :
  Forall write_wf body -> Forall plain_write body -> u64 j ->
  kv_get (kv_apply s (maintenance_batch h body)) (Key_encode (K_Changelog j))
  = kv_get s (Key_encode (K_Changelog j)).
Proof.
  intros Hw Hp Hj. rewrite kv_get_apply. unfold maintenance_batch.
  rewrite last_write_app, last_write_cons, last_write_nil. cbn [fst snd].
  rewrite decide_False by (rewrite Key_encode_eq; done).
  by rewrite (body_other body (K_Changelog j)).
Qed.

(** The keys a complete changelog names are the [current] keys of the batch. *)
Lemma current_keys_elem body keys :
  current_keys body = Some keys ->
  forall k, k ∈ keys <-> exists o c, (k, o) ∈ body /\ Key_decode k = Ok (K_Current c).
Proof.
  revert keys. induction body as [|[k0 o0] body IH]; intros keys; cbn.
  - intros [= <-] k. set_solver.
  - destruct (Key_decode k0) as [k1|] eqn:E; [|done].
    assert (Hother : (forall c, k1 <> K_Current c) -> current_keys body = Some keys -> forall k,
      k ∈ keys <-> exists o c, (k, o) ∈ (k0, o0) :: body /\ Key_decode k = Ok (K_Current c)).
    { intros Hk1 Hb k. rewrite (IH _ Hb). split.
      - intros (o & c & Hin & Hd). exists o, c. split; [by right|done].
      - intros (o & c & [Heq|Hin]%elem_of_cons & Hd); [|eauto].
        injection Heq as -> ->. rewrite E in Hd. injection Hd as ->. by destruct (Hk1 c). }
    destruct k1 as [| |c0| | | | |]; try (by apply Hother).
    intros (keys' & Hb & ->)%fmap_Some k. rewrite elem_of_cons, (IH _ Hb). split.
    + intros [->|(o & c & Hin & Hd)]; [exists o0, c0; split; [by left|done]|].
      exists o, c. split; [by right|done].
    + intros (o & c & [Heq|Hin]%elem_of_cons & Hd); [injection Heq as -> ->; by left|right; eauto].
Qed.

Lemma refresh_keys_elem body k :
  (refresh_keys_of body).2 = true ->
  k ∈ (refresh_keys_of body).1 <-> exists o c, (k, o) ∈ body /\ Key_decode k = Ok (K_Current c).
Proof.
  unfold refresh_keys_of. destruct (current_keys body) as [keys|] eqn:E; [|done].
  cbv zeta. case_match; [done|]. intros _. cbn [fst].
  by rewrite elem_of_in_order, elem_of_list_to_set, (current_keys_elem _ _ E).
Qed.

Lemma body_current_key body k o c :
  Forall write_wf body -> (k, o) ∈ body -> Key_decode k = Ok (K_Current c) ->
  Key_wf (K_Current c) /\ k = Key_encode (K_Current c).
Proof.
  intros Hw Hin Hd. rewrite Forall_forall in Hw. apply Hw in Hin as (k' & E & Hk' & _).
  cbn [fst] in E. subst k.
  rewrite Key_decode_encode in Hd by done. by injection Hd as ->.
Qed.

(** What the changelogs of a gap say, when every batch of the gap minted. *)
Record gap_tracked (s0 s : S) (id0 id : N) : Prop := {
  gap_named : forall i log k, id0 < i <= id -> u64 i ->
    run s (read_changelog i) = Ok (Some log) -> k ∈ cl_keys log ->
    exists c, Key_wf (K_Current c) /\ k = Key_encode (K_Current c);
  gap_covers : forall c, Key_wf (K_Current c) ->
    kv_get s (Key_encode (K_Current c)) <> kv_get s0 (Key_encode (K_Current c)) ->
    exists i, id0 < i <= id /\ forall log, run s (read_changelog i) = Ok (Some log) ->
      Key_encode (K_Current c) ∈ cl_keys log;
}.

(** A later batch keeps a changelog record or drops it. *)
Lemma mint_changelog_old h body sn (s : S) i log :
  Forall write_wf body -> Forall plain_write body -> u64 (hd_snapshot_id h + 1) ->
  i <= hd_snapshot_id h ->
  run (kv_apply s (mint_batch h body sn)) (read_changelog i) = Ok (Some log) ->
  run s (read_changelog i) = Ok (Some log).
Proof.
  intros Hw Hp Hu Hi Hr. assert (Hi' : u64 i) by (unfold u64 in *; lia).
  pose proof (mint_changelog h body sn s i Hw Hp Hu Hi') as E.
  rewrite changelog_last, decide_False in E by (done || lia).
  case_decide; [|by rewrite <-Hr; symmetry; apply run_singleton_same].
  apply run_singleton_some in Hr as (b & Hb & _). by rewrite E in Hb.
Qed.

Lemma mint_changelog_new h body sn (s : S) log :
  Forall write_wf body -> Forall plain_write body -> u64 (hd_snapshot_id h + 1) ->
  kv_get s (Key_encode (K_Changelog (hd_snapshot_id h + 1))) = None ->
  run (kv_apply s (mint_batch h body sn)) (read_changelog (hd_snapshot_id h + 1)) = Ok (Some log) ->
  (refresh_keys_of body).2 = true /\ cl_keys log = (refresh_keys_of body).1.
Proof.
  intros Hw Hp Hu Hno Hr.
  pose proof (mint_changelog h body sn s (hd_snapshot_id h + 1) Hw Hp Hu Hu) as E.
  rewrite changelog_last, decide_True in E by done.
  destruct (refresh_keys_of body).2.
  - split; [done|]. unfold read_changelog in Hr. rewrite (run_singleton _ _ _ E) in Hr.
    by injection Hr as <-.
  - apply run_singleton_some in Hr as (b & Hb & _). by rewrite E, Hno in Hb.
Qed.

(** No changelog beyond the head. *)
Definition changelog_bounded (s : S) (id : N) : Prop :=
  forall i, u64 i -> is_Some (kv_get s (Key_encode (K_Changelog i))) ->
    i <= id /\ id < i + CHANGELOG_WINDOW.

Lemma mint_bounded h body sn (s : S) :
  Forall write_wf body -> Forall plain_write body -> u64 (hd_snapshot_id h + 1) ->
  changelog_bounded s (hd_snapshot_id h) ->
  changelog_bounded (kv_apply s (mint_batch h body sn)) (hd_snapshot_id h + 1).
Proof.
  intros Hw Hp Hu Hb i Hi. assert (Hwin : CHANGELOG_WINDOW = 64) by done.
  rewrite mint_changelog, changelog_last by done.
  destruct (decide (i = hd_snapshot_id h + 1)) as [->|Hne]; [lia|].
  case_decide as Hd; [by intros []|]. intros Hs. destruct (Hb i Hi Hs). lia.
Qed.

Lemma maintain_bounded h body (s : S) :
  Forall write_wf body -> Forall plain_write body ->
  changelog_bounded s (hd_snapshot_id h) ->
  changelog_bounded (kv_apply s (maintenance_batch h body)) (hd_snapshot_id h).
Proof. intros Hw Hp Hb i Hi. rewrite maintain_changelog by done. by apply Hb. Qed.

Lemma mint_tracked (s0 s : S) id0 h body sn :
  Forall write_wf body -> Forall plain_write body -> u64 (hd_snapshot_id h + 1) ->
  id0 <= hd_snapshot_id h -> changelog_bounded s (hd_snapshot_id h) ->
  gap_tracked s0 s id0 (hd_snapshot_id h) ->
  gap_tracked s0 (kv_apply s (mint_batch h body sn)) id0 (hd_snapshot_id h + 1).
Proof.
  intros Hw Hp Hu Hid Hb [Hn Hc].
  assert (Hno : kv_get s (Key_encode (K_Changelog (hd_snapshot_id h + 1))) = None).
  { destruct (kv_get s _) eqn:E; [|done].
    destruct (Hb (hd_snapshot_id h + 1) Hu) as [? _]; [by rewrite E|lia]. }
  split.
  - intros i log k Hi Hui Hr Hk. destruct (decide (i = hd_snapshot_id h + 1)) as [->|Hne].
    + apply mint_changelog_new in Hr as [Hcomp E]; try done. rewrite E in Hk.
      apply refresh_keys_elem in Hk as (o & c & Hin & Hd); [|done].
      exists c. by eapply body_current_key.
    + apply mint_changelog_old in Hr; try done; [|lia]. apply (Hn i log); try done. lia.
  - intros c Hwf. rewrite kv_get_apply, mint_current by done.
    destruct (last_write body (Key_encode (K_Current c))) as [v|] eqn:El.
    + intros _. exists (hd_snapshot_id h + 1). split; [lia|]. intros log Hr.
      apply mint_changelog_new in Hr as [Hcomp ->]; try done.
      apply refresh_keys_elem; [done|]. exists v, c. split; [by apply last_write_elem|].
      by apply Key_decode_encode.
    + intros Hne. destruct (Hc c Hwf Hne) as (i & Hi & Hl). exists i. split; [lia|].
      intros log Hr. apply Hl. apply mint_changelog_old in Hr; try done. lia.
Qed.

Lemma mint_batch_wf h body sn :
  Forall write_wf body -> u64 (hd_snapshot_id h + 1) -> Forall write_wf (mint_batch h body sn).
Proof.
  intros Hw Hu. unfold mint_batch. rewrite !Forall_app. split_and!; [done| |].
  - apply Forall_forall. intros w (j & Hj & E)%changelog_keys_current; [|done].
    by exists (K_Changelog j).
  - repeat constructor; eexists; (split; [reflexivity|]); (split; [done|]); cbn [snd];
      eexists; apply decode_encode_value.
Qed.

Lemma maintenance_batch_wf h body : Forall write_wf body -> Forall write_wf (maintenance_batch h body).
Proof.
  intros Hw. unfold maintenance_batch. rewrite Forall_app. split; [done|].
  repeat constructor; eexists; (split; [reflexivity|]); (split; [done|]); cbn [snd];
    eexists; apply decode_encode_value.
Qed.

(** Along any run of batches: the head only moves forward, its batch count by one
    per batch and its snapshot id by at most one, and a gap where both moved alike is
    tracked by its changelogs. *)
Record moved (s0 s : S) (h0 h : HeadValue) : Prop := {
  moved_head : run s read_head = Ok (Some h);
  moved_u64 : u64 (hd_snapshot_id h);
  moved_id : hd_snapshot_id h0 <= hd_snapshot_id h;
  moved_seq : hd_snapshot_id h - hd_snapshot_id h0 <= hd_batch_seq h - hd_batch_seq h0;
  moved_seq_le : hd_batch_seq h0 <= hd_batch_seq h;
  moved_wf : current_wf s;
  moved_bounded : changelog_bounded s (hd_snapshot_id h);
  moved_tracked : hd_batch_seq h - hd_batch_seq h0 = hd_snapshot_id h - hd_snapshot_id h0 ->
    gap_tracked s0 s (hd_snapshot_id h0) (hd_snapshot_id h);
}.

Lemma moved_step s0 s s' h0 h :
  moved s0 s h0 h -> store_step s s' -> exists h', moved s0 s' h0 h'.
Proof.
  intros [Hh Hu Hi Hs Hsl Hw Hb Ht] Hst. destruct Hst as [s h1 body sn E Hu1 Hu2 Hbw Hbp|s h1 body E Hu1 Hu2 Hbw Hbp];
    rewrite Hh in E; injection E as <-.
  - exists (mkHeadValue (hd_snapshot_id h + 1) (hd_batch_seq h + 1)). split; cbn.
    + by apply mint_head.
    + done.
    + lia.
    + lia.
    + lia.
    + apply current_wf_apply; [done|by apply mint_batch_wf].
    + by apply mint_bounded.
    + intros E. apply mint_tracked; try done. apply Ht. lia.
  - exists (mkHeadValue (hd_snapshot_id h) (hd_batch_seq h + 1)). split; cbn.
    + by apply maintain_head.
    + done.
    + done.
    + lia.
    + lia.
    + apply current_wf_apply; [done|by apply maintenance_batch_wf].
    + by apply maintain_bounded.
    + intros E. lia.
Qed.

Lemma moved_refl s h :
  run s read_head = Ok (Some h) -> u64 (hd_snapshot_id h) -> current_wf s ->
  changelog_bounded s (hd_snapshot_id h) -> moved s s h h.
Proof.
  intros Hh Hu Hw Hb. split; try done; try lia. intros _. split; [intros; lia|done].
Qed.

Lemma moved_run s0 s h0 :
  run s0 read_head = Ok (Some h0) -> u64 (hd_snapshot_id h0) -> current_wf s0 ->
  changelog_bounded s0 (hd_snapshot_id h0) ->
  rtc store_step s0 s -> exists h, moved s0 s h0 h.
Proof.
  intros Hh Hu Hw Hb Hr. revert s Hr.
  apply (rtc_ind_r (fun s => exists h, moved s0 s h0 h)); [exists h0; by apply moved_refl|].
  intros s s' _ Hst [h Hm]. by eapply moved_step.
Qed.

(** *** The replay *)

Lemma run_reread (s : S) keys : run s (reread keys) = Ok (map (fun k => (k, kv_get s k)) keys).
Proof.
  induction keys as [|k keys IH]; [done|]. cbn [reread run map]. by rewrite (run_bind_Ok _ _ _ _ IH).
Qed.

Lemma run_gap_keys (s : S) fuel next limit acc keys :
  run s (gap_keys fuel next limit acc) = Ok (Some keys) ->
  (forall i, next <= i < next + N.of_nat fuel -> exists log, run s (read_changelog i) = Ok (Some log))
  /\ forall k, k ∈ keys <-> k ∈ acc \/ exists i log, next <= i < next + N.of_nat fuel
       /\ run s (read_changelog i) = Ok (Some log) /\ k ∈ cl_keys log.
Proof.
  revert next acc. induction fuel as [|fuel IH]; intros next acc Hr; cbn [gap_keys] in Hr.
  - injection Hr as <-. split; [intros; lia|]. intros k. split; [by left|].
    intros [?|(i & log & ? & _)]; [done|lia].
  - apply run_bind_inv in Hr as ([log|] & Hlog & Hr); [|done].
    cbv zeta in Hr. case_match; [done|]. apply IH in Hr as [Hall Hk]. split.
    + intros i Hi. destruct (decide (i = next)) as [->|Hne]; [eauto|]. apply Hall. lia.
    + intros k. rewrite Hk, elem_of_union, elem_of_list_to_set. split.
      * intros [[?|?]|(i & log' & Hi & Hr' & Hin)]; [by left|right|right].
        -- exists next, log. split_and!; try done; lia.
        -- exists i, log'. split_and!; try done; lia.
      * intros [?|(i & log' & Hi & Hr' & Hin)]; [by left; left|].
        destruct (decide (i = next)) as [->|Hne].
        -- rewrite Hlog in Hr'. injection Hr' as <-. left. by right.
        -- right. exists i, log'. split_and!; try done; lia.
Qed.

(** A fold that succeeded met only writes it can fold. *)
Lemma fold_writes_each st ws st' :
  foldl (fun acc w => st ← acc; fold_write st w) (Ok st) ws = Ok st' ->
  Forall (fun w => exists a b, fold_write a w = Ok b) ws.
Proof.
  revert st'. induction ws as [|w ws IH] using rev_ind; intros st' E; [constructor|].
  rewrite foldl_snoc in E. apply bind_Ok in E as (st1 & E1 & E2).
  apply Forall_app. split; [by eapply IH|]. repeat constructor. eauto.
Qed.

Lemma fold_batch_writes_wf v ws v' :
  (forall w, w ∈ ws -> exists c, Key_wf (K_Current c) /\ w.1 = Key_encode (K_Current c)
     /\ forall b, w.2 = Some b -> exists r, stored_as c b r) ->
  fold_batch v ws = Ok v' -> Forall write_wf ws.
Proof.
  intros Hws E. unfold fold_batch in E. apply bind_Ok in E as (st & E & _).
  apply fold_writes_each in E. rewrite Forall_forall in E |- *. intros [k o] Hin.
  destruct (Hws _ Hin) as (c & Hc & Hk & Hb), (E _ Hin) as ([[view h] m] & st' & Ef).
  cbn [fst snd] in *. subst k. exists (K_Current c). split_and!; [done..|]. cbn [snd].
  destruct o as [b|]; [by apply Hb|]. intros t i ->. cbn [fold_write] in Ef.
  rewrite Key_decode_encode in Ef by done. done.
Qed.

(** Folding the current value of a set of keys covering every change. *)
Lemma fold_reread_represents base (s0 s : S) keys view :
  Represents base s0 -> current_wf s ->
  (forall k, k ∈ keys -> exists c, Key_wf (K_Current c) /\ k = Key_encode (K_Current c)) ->
  (forall c, Key_wf (K_Current c) ->
     kv_get s (Key_encode (K_Current c)) <> kv_get s0 (Key_encode (K_Current c)) ->
     Key_encode (K_Current c) ∈ keys) ->
  fold_batch base (map (fun k => (k, kv_get s k)) keys) = Ok view -> Represents view s.
Proof.
  intros Hb Hs Hkeys Hcov Hf. set (ws := map (fun k => (k, kv_get s k)) keys) in *.
  assert (Hin : forall k o, (k, o) ∈ ws <-> k ∈ keys /\ o = kv_get s k).
  { intros k o. unfold ws. rewrite list_elem_of_fmap. naive_solver. }
  assert (Hlast : forall k, k ∈ keys -> last_write ws k = Some (kv_get s k)).
  { intros k Hk. apply last_write_unique; [by apply Hin|]. intros v' [_ ?]%Hin. done. }
  assert (Hws : Forall write_wf ws).
  { eapply fold_batch_writes_wf; [|exact Hf]. intros [k o] [Hk ->]%Hin.
    destruct (Hkeys k Hk) as (c & Hc & ->). exists c. split_and!; [done..|]. cbn [snd].
    intros b Hg. destruct (Hs _ _ Hg) as (c' & r & E & Hc' & Hst); [by apply subspace_prefix_iff|].
    apply Key_encode_inj in E as [= <-]; [eauto|done|done]. }
  destruct (fold_batch_at base ws Hws) as (v' & E & Hat & Hno).
  rewrite Hf in E. injection E as <-.
  intros c. split; [intros Hc; rewrite Hno by done; by apply Hb|]. intros Hc.
  rewrite Hat by done. unfold folded_at.
  destruct (decide (Key_encode (K_Current c) ∈ keys)) as [Hk|Hk].
  - rewrite Hlast by done. destruct (kv_get s (Key_encode (K_Current c))) as [b|] eqn:Eg; [|done].
    destruct (Hs _ _ Eg) as (c' & r & E & Hc' & Hst); [by apply subspace_prefix_iff|].
    apply Key_encode_inj in E as [= <-]; [|done|done]. exists r. split; [done|].
    by rewrite (proj1 Hst).
  - rewrite last_write_none; [|intros o [? _]%Hin; done].
    destruct (decide (kv_get s (Key_encode (K_Current c)) = kv_get s0 (Key_encode (K_Current c))))
      as [->|Hne]; [by apply Hb|]. by destruct Hk; apply Hcov.
Qed.

Lemma replay_represents base (s0 s : S) h0 h limit v :
  moved s0 s h0 h -> Represents base s0 ->
  sn_snapshot_id (cs_snapshot base) = hd_snapshot_id h0 -> cs_batch_seq base = hd_batch_seq h0 ->
  run s (replay base h limit) = Ok (Some v) ->
  Represents v s /\ cs_batch_seq v = hd_batch_seq h
  /\ run s (read_snapshot (hd_snapshot_id h)) = Ok (Some (cs_snapshot v)).
Proof.
  intros [Hh Hu Hi Hs Hsl Hw Hbd Ht] Hb Hsn Hsq. unfold replay, checked_sub, saturating_sub.
  rewrite Hsn, Hsq. rewrite (proj2 (N.leb_le _ _) Hi).
  destruct (N.eqb_spec (hd_snapshot_id h - hd_snapshot_id h0) 0) as [|Hpos]; [done|].
  destruct (N.eqb_spec (hd_batch_seq h - hd_batch_seq h0) (hd_snapshot_id h - hd_snapshot_id h0))
    as [Heq|]; [|done]. cbn [negb]. destruct (Ht Heq) as [Hn Hc].
  intros ([keys|] & Hk & Hr)%run_bind_inv; [|done].
  apply run_bind_inv in Hr as ([latest|] & Hl & Hr); [|done].
  apply run_bind_inv in Hr as (ws & Hws & Hr). rewrite run_reread in Hws. injection Hws as <-.
  apply run_bind_inv in Hr as (view & Hf & Hr). injection Hr as <-.
  apply run_gap_keys in Hk as [Hall Hk]. split_and!; [|done..].
  apply (represents_ext view);
    [intros c; by rewrite view_at_set_batch_seq, view_at_set_snapshot|].
  apply (fold_reread_represents base s0 s (in_order bytes_le keys)); try done.
  - intros k. rewrite elem_of_in_order, Hk. intros [?|(i & log & Hir & Hlog & Hin)]; [set_solver|].
    apply (Hn i log); try done; unfold u64 in *; lia.
  - intros c Hwf Hne. destruct (Hc c Hwf Hne) as (i & Hir & Hin). rewrite elem_of_in_order, Hk. right.
    destruct (Hall i) as [log Hlog]; [lia|]. exists i, log. split_and!; [lia|lia|done|by apply Hin].
Qed.
End Movement.

(** ** Properties *)

(** C7: a refreshed view is never stale: let a view hold what the store held at some
    head, and let the store then move by any sequence of snapshot-minting and
    maintenance batches.  Whenever [refresh] returns a view, that view holds exactly
    the records the store holds now, and carries the head's own snapshot metadata
    and batch count; a gap that a maintenance batch, a dropped or declined
    changelog, or too much churn leaves unreplayable is declined instead. *)
Theorem refresh_exact {S} `{KVLaws S, SKL : StorekeyLaws, MSL : MessagesLaws}
    (base view : CatalogSnapshot) (s0 s : S) (h0 : HeadValue) :
  run s0 read_head = Ok (Some h0) -> u64 (hd_snapshot_id h0) -> current_wf s0 ->
  changelog_bounded s0 (hd_snapshot_id h0) -> Represents base s0 ->
  sn_snapshot_id (cs_snapshot base) = hd_snapshot_id h0 -> cs_batch_seq base = hd_batch_seq h0 ->
  rtc store_step s0 s -> run s (refresh true base) = Ok (Some view) ->
  Represents view s
  /\ exists h, run s read_head = Ok (Some h) /\ cs_batch_seq view = hd_batch_seq h
       /\ run s (read_snapshot (hd_snapshot_id h)) = Ok (Some (cs_snapshot view)).
Proof.
  intros Hh Hu Hw Hb Hr Hsn Hsq Hst Hf. destruct (moved_run s0 s h0 Hh Hu Hw Hb Hst) as [h Hm].
  cbn [refresh consistent] in Hf. rewrite (run_bind_Ok _ _ _ _ (run_head_value _ _ (moved_head _ _ _ _ Hm))) in Hf.
  destruct (replay_represents base s0 s h0 h _ view Hm Hr Hsn Hsq Hf) as (? & ? & ?).
  split; [done|]. exists h. split_and!; try done. apply Hm.
Qed.

(** C28: the changelog subspace stays bounded and the batch count tells batches
    apart: along any sequence of batches the store keeps changelog records only for
    the last [CHANGELOG_WINDOW] snapshots up to the head, the head never moves back,
    and it never mints more snapshots than the batch count counts. *)
Theorem changelog_window {S} `{KVLaws S, SKL : StorekeyLaws, MSL : MessagesLaws}
    (s0 s : S) (h0 : HeadValue) :
  run s0 read_head = Ok (Some h0) -> u64 (hd_snapshot_id h0) -> current_wf s0 ->
  changelog_bounded s0 (hd_snapshot_id h0) -> rtc store_step s0 s ->
  exists h, run s read_head = Ok (Some h)
    /\ hd_snapshot_id h0 <= hd_snapshot_id h
    /\ hd_snapshot_id h - hd_snapshot_id h0 <= hd_batch_seq h - hd_batch_seq h0
    /\ forall i, u64 i -> is_Some (kv_get s (Key_encode (K_Changelog i))) ->
         i <= hd_snapshot_id h < i + CHANGELOG_WINDOW.
Proof.
  intros Hh Hu Hw Hb Hst. destruct (moved_run s0 s h0 Hh Hu Hw Hb Hst) as [h []].
  exists h. split_and!; done.
Qed.

(** C26: materializing at head is exact and gated: on a store with a head record, that
    head's snapshot record and well-formed live records, a store in mid-migration is
    refused, and otherwise the view holds exactly the store's live records and
    carries the head's metadata and batch count. *)
Theorem materialize_exact {S} `{KVLaws S, SKL : StorekeyLaws, MSL : MessagesLaws}
    (s : S) (h : HeadValue) (sn : SnapshotValue) :
  run s read_head = Ok (Some h) ->
  run s (read_snapshot (hd_snapshot_id h)) = Ok (Some sn) -> current_wf s ->
  (forall m, run s read_migration = Ok (Some m) -> run s (materialize true None) = Err Migration)
  /\ (run s read_migration = Ok None ->
      exists v, run s (materialize true None) = Ok v /\ Represents v s
        /\ cs_snapshot v = sn /\ cs_batch_seq v = hd_batch_seq h).
Proof.
  intros Hh Hsn Hc. split.
  - intros m Hm. apply run_bind_Err. cbn [materialize_capturing consistent]. unfold capture_head.
    apply run_bind_Err. unfold refuse_mid_migration. by rewrite (run_bind_Ok _ _ _ _ Hm).
  - intros Hm. destruct (run_capture_head s h sn Hm Hh Hsn Hc) as (v & recs & E & ? & ? & ? & _).
    exists v. split_and!; try done. cbn [materialize materialize_capturing consistent].
    by rewrite (run_bind_Ok _ _ _ _ E).
Qed.

Section Bootstrap.
  Context {S : Type} `{KVLaws S, SKL : StorekeyLaws, MSL : MessagesLaws}.
  Variables (now : Z) (uuid version : string) (encrypted : bool) (path : option string).

Let main_schema : SchemaValue := mkSchemaValue 0 uuid 0 None "main" "main/" true.

Lemma bootstrap_wf : Forall write_wf (stage_bootstrap now uuid version encrypted path).
Proof.
  repeat constructor.
  - by exists (K_Sys SK_Format).
  - exists (K_Snapshot 0). split_and!; [done..|]. cbn [snd]. eexists. apply decode_encode_value.
  - exists (Key_current (EK_Schema 0)). split_and!; [done|by repeat constructor|]. cbn [snd Key_current].
    exists (ER_Schema main_schema). split_and!; [|done|done].
    apply (decode_encode_record (ER_Schema main_schema)).
  - exists (Key_current (EK_Option 0 0)). split_and!; [done|by repeat constructor|].
    cbn [snd Key_current]. eexists (ER_Option 0 0 _). split_and!; [|done|done].
    apply (decode_encode_record (ER_Option 0 0 _)).
  - exists (K_Sys SK_Head). split_and!; [done..|]. cbn [snd]. eexists. apply decode_encode_value.
Qed.

(** What bootstrap leaves at each of its keys. *)
Lemma bootstrap_get (s : S) k v :
  Key_wf k -> (forall kb, kv_get s kb = None) ->
  (Key_encode k, v) ∈ stage_bootstrap now uuid version encrypted path ->
  kv_get (kv_apply s (stage_bootstrap now uuid version encrypted path)) (Key_encode k) = v.
Proof.
  intros Hk Hs Hin. rewrite kv_get_apply.
  rewrite (last_write_unique _ _ v Hin); [done|]. intros v' Hin'.
  unfold stage_bootstrap in Hin, Hin'. rewrite !elem_of_cons, elem_of_nil in Hin, Hin'.
  assert (Hw : forall k', Key_encode k = Key_encode k' -> Key_wf k' -> k = k')
    by (intros; by apply Key_encode_inj).
  assert (W1 : Key_wf (Key_current (EK_Schema 0))) by (by repeat constructor).
  assert (W2 : Key_wf (Key_current (EK_Option 0 0))) by (by repeat constructor).
  destruct_or! Hin; destruct_or! Hin'; try done;
    injection Hin as E1 ->; injection Hin' as E2 ->; try done;
    apply Hw in E1; try done; apply Hw in E2; try done; unfold Key_current in *; congruence.
Qed.

Lemma bootstrap_get_other (s : S) k :
  Key_wf k -> (forall kb, kv_get s kb = None) ->
  k ∉ [K_Sys SK_Format; K_Snapshot 0; Key_current (EK_Schema 0); Key_current (EK_Option 0 0);
       K_Sys SK_Head] ->
  kv_get (kv_apply s (stage_bootstrap now uuid version encrypted path)) (Key_encode k) = None.
Proof.
  intros Hk Hs Hin. rewrite kv_get_apply, last_write_other; [by rewrite Hs|done|].
  rewrite !not_elem_of_cons in Hin. destruct Hin as (? & ? & ? & ? & ? & _).
  repeat constructor; eexists; (split; [reflexivity|]); (split; [by repeat constructor|unfold Key_current in *; congruence]).
Qed.

Variable s : S.
Hypothesis Hs : forall kb, kv_get s kb = None.
Let s' : S := kv_apply s (stage_bootstrap now uuid version encrypted path).

Lemma bootstrap_current_wf : current_wf s'.
Proof.
  apply current_wf_apply; [|apply bootstrap_wf]. intros kb b Hg. by rewrite Hs in Hg.
Qed.

Lemma bootstrap_migration : run s' read_migration = Ok None.
Proof. apply run_singleton_none, bootstrap_get_other; [done|done|set_solver]. Qed.

Lemma bootstrap_head : run s' read_head = Ok (Some (mkHeadValue 0 0)).
Proof. apply run_singleton, bootstrap_get; [done..|]. unfold stage_bootstrap. set_solver. Qed.

Lemma bootstrap_format : run s' read_format = Ok (Some (mkFormatValue FORMAT_VERSION version)).
Proof. apply run_singleton, bootstrap_get; [done..|]. unfold stage_bootstrap. set_solver. Qed.

Lemma bootstrap_snapshot :
  exists sn, sn_snapshot_id sn = 0 /\ run s' (read_snapshot 0) = Ok (Some sn).
Proof.
  eexists. split; [|apply run_singleton, bootstrap_get; [done..|unfold stage_bootstrap;
    apply list_elem_of_further, list_elem_of_here]]. done.
Qed.

Lemma bootstrap_only c :
  Key_wf (K_Current c) -> is_Some (kv_get s' (Key_encode (K_Current c))) ->
  c = CK_Entity (EK_Schema 0) \/ c = CK_Entity (EK_Option 0 0).
Proof.
  intros Hcw Hg. destruct (decide (c = CK_Entity (EK_Schema 0))) as [|H1]; [by left|].
  destruct (decide (c = CK_Entity (EK_Option 0 0))) as [|H2]; [by right|]. exfalso.
  unfold s' in Hg. rewrite bootstrap_get_other in Hg; [by destruct Hg|done|done|].
  unfold Key_current. rewrite !not_elem_of_cons. split_and!; try congruence. apply not_elem_of_nil.
Qed.

Lemma bootstrap_named r c b :
  Key_wf (K_Current c) -> kv_get s' (Key_encode (K_Current c)) = Some b -> stored_as c b r ->
  is_Some (record_name r) -> record_key r = CK_Entity (EK_Schema 0).
Proof.
  intros Hcw Hg (_ & Hk & _) Hn. rewrite Hk.
  destruct (bootstrap_only c Hcw) as [->| ->]; [by rewrite Hg|done|].
  destruct r; try discriminate Hk. by destruct Hn.
Qed.

Lemma bootstrap_distinct v recs : run s' capture_head = Ok (v, recs) -> names_distinct recs.
Proof.
  intros E r r' Hin Hin' Hn Hnn.
  destruct (capture_records s' v recs bootstrap_current_wf E r Hin) as (c & b & Hcw & Hg & Hst).
  destruct (capture_records s' v recs bootstrap_current_wf E r' Hin') as (c' & b' & Hcw' & Hg' & Hst').
  rewrite (bootstrap_named r c b) by done. by rewrite (bootstrap_named r' c' b') by (congruence || done).
Qed.

(** The record a representing view holds where bootstrap wrote one. *)
Lemma bootstrap_view v c r :
  Represents v s' -> Key_wf (K_Current c) ->
  record_key r = c -> (Key_encode (K_Current c), Some (encode_record r))
    ∈ stage_bootstrap now uuid version encrypted path ->
  view_at v c = Some r.
Proof.
  intros Hr Hcw Hk Hin. destruct (Hr c) as [_ Hg]. specialize (Hg Hcw).
  unfold s' in Hg. erewrite bootstrap_get in Hg by done. destruct Hg as (r' & (Hd & _) & ->).
  pose proof (decode_encode_record r) as E. rewrite Hk, Hd in E. by injection E as ->.
Qed.

Definition bootstrap_options : gmap string string :=
  match path with
  | Some path => <["data_path" := path]> {["encrypted" := if encrypted then "true" else "false"]}
  | None => {["encrypted" := if encrypted then "true" else "false"]}
  end%string.

Lemma bootstrap_view_schema v :
  Represents v s' -> names_coherent v -> schema_by_name v "main" = Some (mkSchemaInfo 0 "main").
Proof.
  intros Hr ((_ & Hn) & _).
  assert (E : view_at v (CK_Entity (EK_Schema 0)) = Some (ER_Schema main_schema)).
  { apply bootstrap_view; [done|by repeat constructor|done|]. unfold stage_bootstrap.
    do 2 apply list_elem_of_further. apply list_elem_of_here. }
  cbn in E. apply fmap_Some in E as (w & Hw & [= <-]).
  unfold schema_by_name. assert (Hm : cs_schema_names v !! "main"%string = Some 0) by (apply Hn; eauto).
  rewrite Hm. cbn. by rewrite Hw.
Qed.

Lemma bootstrap_view_options v :
  Represents v s' ->
  option_value v ScopeGlobal "encrypted" = Some (if encrypted then "true" else "false")%string
  /\ data_path v = path.
Proof.
  intros Hr.
  assert (E : view_at v (CK_Entity (EK_Option 0 0))
    = Some (ER_Option 0 0 (mkOptionScopeValue bootstrap_options))).
  { apply bootstrap_view; [done|by repeat constructor|done|]. unfold stage_bootstrap, bootstrap_options.
    do 3 apply list_elem_of_further. destruct path; apply list_elem_of_here. }
  cbn in E. apply fmap_Some in E as (w & Hw & [= <-]).
  unfold data_path, option_value. cbn [option_candidates key_components find_map].
  unfold option_in. rewrite Hw. cbn [mbind option_bind os_options].
  unfold bootstrap_options. by destruct path, encrypted.
Qed.
End Bootstrap.

(** C27: bootstrap leaves an openable catalog: on an empty store, the batch
    [stage_bootstrap] stages passes the format gate at the base format and
    materializes, at snapshot 0 and batch 0, to a catalog with exactly the schema
    [main] and the global options it was given, and nothing else. *)
Theorem bootstrap_opens {S} `{KVLaws S, SKL : StorekeyLaws, MSL : MessagesLaws}
    (s : S) (now : Z) (uuid version : string) (encrypted : bool) (path : option string) :
  (forall kb, kv_get s kb = None) ->
  let s' := kv_apply s (stage_bootstrap now uuid version encrypted path) in
  run s' validate_format = Ok (Some (mkFormatValue FORMAT_VERSION version))
  /\ exists v, run s' (materialize true None) = Ok v
       /\ sn_snapshot_id (cs_snapshot v) = 0 /\ cs_batch_seq v = 0
       /\ schema_by_name v "main" = Some (mkSchemaInfo 0 "main")
       /\ option_value v ScopeGlobal "encrypted" = Some (if encrypted then "true" else "false")%string
       /\ data_path v = path
       /\ forall c, is_Some (view_at v c) ->
            c = CK_Entity (EK_Schema 0) \/ c = CK_Entity (EK_Option 0 0).
Proof.
  intros Hs s'. pose proof (bootstrap_migration now uuid version encrypted path s Hs) as Hm.
  pose proof (bootstrap_current_wf now uuid version encrypted path s Hs) as Hc.
  pose proof (bootstrap_format now uuid version encrypted path s Hs) as Hf.
  fold s' in Hm, Hc, Hf. split.
  { unfold validate_format. rewrite (run_bind_Ok _ _ _ _ Hm). erewrite run_bind_Ok by reflexivity.
    by rewrite (run_bind_Ok _ _ _ _ Hf). }
  destruct (bootstrap_snapshot now uuid version encrypted path s Hs) as (sn & Hid & Hsn).
  destruct (run_capture_head s' (mkHeadValue 0 0) sn Hm
    (bootstrap_head now uuid version encrypted path s Hs) Hsn Hc)
    as (v & recs & E & Hr & Hvs & Hsq & Hco).
  assert (Hcoh : names_coherent v).
  { apply Hco. by apply (bootstrap_distinct now uuid version encrypted path s Hs v). }
  destruct (bootstrap_view_options now uuid version encrypted path s Hs v Hr) as [He Hp].
  exists v. split_and!; try done.
  - cbn [materialize materialize_capturing consistent]. by rewrite (run_bind_Ok _ _ _ _ E).
  - by rewrite Hvs.
  - by apply (bootstrap_view_schema now uuid version encrypted path s Hs).
  - intros c [r Hv]. destruct (Hr c) as [Hn Hg].
    destruct (decide (Key_wf (K_Current c))) as [Hcw|Hcw]; [|by rewrite Hn in Hv].
    apply (bootstrap_only now uuid version encrypted path s Hs c Hcw). specialize (Hg Hcw).
    fold s'. destruct (kv_get s' (Key_encode (K_Current c))); [done|congruence].
Qed.

(** *** Witnesses: bootstrap, then one commit that creates table 1 *)

Lemma represents_view_wf {S} `{KVLaws S, SKL : StorekeyLaws, MSL : MessagesLaws} v (s : S) :
  Represents v s -> view_wf v.
Proof.
  intros Hv c r Hr. destruct (Hv c) as [Hn Hg].
  destruct (decide (Key_wf (K_Current c))) as [Hc|Hc]; [|by rewrite Hn in Hr].
  specialize (Hg Hc). destruct (kv_get s _) as [b|]; [|congruence].
  destruct Hg as (r' & (_ & Hk & Hi) & E). rewrite Hr in E. by injection E as <-.
Qed.

Lemma diff_plain `{SKL : StorekeyLaws, MSL : MessagesLaws} base state n :
  view_wf base -> view_wf state -> u64 n -> diff_closed base state ->
  Forall plain_write (diff_writes base state n).
Proof.
  intros Hb Hs Hn Hc. apply Forall_forall. intros w Hw k Hk E.
  apply diff_writes_elem in Hw as (c & Hch). apply stage_at_chunk in Hch; [|done].
  pose proof (chunk_key base state n Hb Hs c w Hch) as Hcw.
  destruct Hch as [(_ & _ & ->)|[(r & _ & _ & ->)|(e & r & -> & _ & _ & _ & ->)]]; cbn [fst] in E.
  - apply Key_encode_inj in E as <-; done.
  - apply Key_encode_inj in E as <-; done.
  - apply Key_encode_inj in E as <-; [done| |done]. by apply history_wf.
Qed.

#[local] Existing Instances reference_storekey reference_storekey_laws reference_messages
  reference_messages_laws.

Definition store0 : gmap bytes bytes := kv_apply ∅ (stage_bootstrap 0 "u" "v" false None).
Definition view0 : CatalogSnapshot :=
  match run store0 capture_head with Ok (v, _) => v | Err _ => CatalogSnapshot_default end.
Definition state1 : CatalogSnapshot := put_table (table_at 1 "t" 1) view0.
Definition store1 : gmap bytes bytes :=
  kv_apply store0 (mint_batch (mkHeadValue 0 0) (diff_writes view0 state1 1)
    (mkSnapshotValue 1 0 1 2 0 "" None None None [] [])).

Lemma empty_get kb : kv_get (∅ : gmap bytes bytes) kb = None.
Proof. apply lookup_empty. Qed.

Lemma view0_represents : Represents view0 store0.
Proof.
  destruct (bootstrap_snapshot 0 "u" "v" false None ∅ empty_get) as (sn & _ & Hsn).
  destruct (run_capture_head store0 (mkHeadValue 0 0) sn
    (bootstrap_migration 0 "u" "v" false None ∅ empty_get)
    (bootstrap_head 0 "u" "v" false None ∅ empty_get) Hsn
    (bootstrap_current_wf 0 "u" "v" false None ∅ empty_get)) as (v & recs & E & Hr & _).
  unfold view0. by rewrite E.
Qed.

Lemma view0_coherent : names_coherent view0.
Proof.
  destruct (bootstrap_snapshot 0 "u" "v" false None ∅ empty_get) as (sn & _ & Hsn).
  destruct (run_capture_head store0 (mkHeadValue 0 0) sn
    (bootstrap_migration 0 "u" "v" false None ∅ empty_get)
    (bootstrap_head 0 "u" "v" false None ∅ empty_get) Hsn
    (bootstrap_current_wf 0 "u" "v" false None ∅ empty_get)) as (v & recs & E & _ & _ & _ & Hco).
  unfold view0. rewrite E. apply Hco. by apply (bootstrap_distinct 0 "u" "v" false None ∅ empty_get v).
Qed.

Lemma store0_bounded : changelog_bounded store0 0.
Proof.
  intros i Hi. unfold store0. rewrite bootstrap_get_other; [by intros []|done|apply empty_get|].
  set_solver.
Qed.

Lemma store01_step : store_step store0 store1.
Proof.
  assert (Hw : view_wf view0) by apply (represents_view_wf _ _ view0_represents).
  assert (Hw1 : view_wf state1).
  { intros c r. unfold state1. change (put_table ?t) with (put_record (ER_Table t)).
    rewrite put_record_at. case_decide as Hd; [|by apply Hw]. intros [= <-]. subst c.
    by repeat constructor. }
  assert (Hc : diff_closed view0 state1).
  { unfold state1, put_table. destruct put_named. split; [done|]. done. }
  apply step_mint; [apply (bootstrap_head 0 "u" "v" false None ∅ empty_get)|done|done| |].
  - by apply diff_write_wf.
  - by apply diff_plain.
Qed.

Lemma refresh_exact_witness :
  exists v, run store1 (refresh true view0) = Ok (Some v) /\ Represents v store1.
Proof.
  destruct (run store1 (refresh true view0)) as [[v|]|] eqn:E;
    [|vm_compute in E; discriminate E|vm_compute in E; discriminate E].
  exists v. split; [reflexivity|].
  apply (refresh_exact view0 v store0 store1 (mkHeadValue 0 0)).
  - apply (bootstrap_head 0 "u" "v" false None ∅ empty_get).
  - reflexivity.
  - apply (bootstrap_current_wf 0 "u" "v" false None ∅ empty_get).
  - apply store0_bounded.
  - apply view0_represents.
  - vm_compute. reflexivity.
  - vm_compute. reflexivity.
  - apply rtc_once, store01_step.
  - exact E.
Defined.

Lemma changelog_window_witness :
  exists h, run store1 read_head = Ok (Some h) /\ 0 <= hd_snapshot_id h.
Proof.
  destruct (changelog_window store0 store1 (mkHeadValue 0 0)) as (h & Hh & Hle & _).
  - apply (bootstrap_head 0 "u" "v" false None ∅ empty_get).
  - done.
  - apply (bootstrap_current_wf 0 "u" "v" false None ∅ empty_get).
  - apply store0_bounded.
  - apply rtc_once, store01_step.
  - exists h. split; [exact Hh|exact Hle].
Defined.

Lemma materialize_exact_witness :
  exists v, run store0 (materialize true None) = Ok v /\ Represents v store0.
Proof.
  destruct (bootstrap_snapshot 0 "u" "v" false None ∅ empty_get) as (sn & _ & Hsn).
  destruct (materialize_exact store0 (mkHeadValue 0 0) sn
    (bootstrap_head 0 "u" "v" false None ∅ empty_get) Hsn
    (bootstrap_current_wf 0 "u" "v" false None ∅ empty_get)) as [_ H].
  destruct (H (bootstrap_migration 0 "u" "v" false None ∅ empty_get)) as (v & E & Hr & _).
  exists v. split; [exact E|exact Hr].
Defined.

Lemma bootstrap_opens_witness :
  exists v, run store0 (materialize true None) = Ok v
    /\ schema_by_name v "main" = Some (mkSchemaInfo 0 "main").
Proof.
  destruct (bootstrap_opens (∅ : gmap bytes bytes) 0 "u" "v" false None empty_get)
    as (_ & v & E & _ & _ & Hm & _).
  exists v. split; [exact E|exact Hm].
Defined.
