(* ===== verification/Projection.v ===== *)
(** Maintained projections ([catalog/projection.rs]): the decoded rows and the head
    view a read-write catalog serves without rescanning, folded forward from each
    committed batch and guarded by the head stamp they stand at. *)
From stdpp Require Import gmap strings list fin_maps sorting.
From Stdlib Require Import NArith ZArith Lia.
From S2P Require Import Prelude Storekey KeyLayout Values Snapshot Catalog Store Fold Materialize.

Local Open Scope N_scope.

(** ** One maintained projection *)

Record Maintained (K V : Type) `{Countable K} : Type := mkMaintained {
  mt_head : option HeadValue;
  mt_rows : gmap K V;
}.
Arguments mkMaintained {K V _ _} _ _.
Arguments mt_head {K V _ _} _.
Arguments mt_rows {K V _ _} _.

(** [same_head]. *)
Definition same_head (a b : HeadValue) : bool :=
  (hd_snapshot_id a =? hd_snapshot_id b) && (hd_batch_seq a =? hd_batch_seq b).

(** [view_head]. *)
Definition view_head (view : CatalogSnapshot) : HeadValue :=
  mkHeadValue (sn_snapshot_id (cs_snapshot view)) (cs_batch_seq view).

Section MaintainedOps.
  Context {K V : Type} `{Countable K}.

Definition Maintained_empty : Maintained K V := mkMaintained None ∅.

Definition install (head : HeadValue) (rows : gmap K V) (m : Maintained K V) : Maintained K V :=
  mkMaintained (Some head) rows.

Definition clear (m : Maintained K V) : Maintained K V := mkMaintained None ∅.

Definition advance (new_head : HeadValue) (m : Maintained K V) : Maintained K V :=
  match mt_head m with
  | Some _ => mkMaintained (Some new_head) (mt_rows m)
  | None => m
  end.

Definition serve `{!KeyOrder K} (expected : HeadValue) (m : Maintained K V) : option (list V) :=
  match mt_head m with
  | Some head => if same_head head expected then Some (btree_values (mt_rows m)) else None
  | None => None
  end.

(** [Maintained::fold]: an undecodable put clears. *)
Definition fold_row `{Prost V} (key : K) (b : option bytes) (m : Maintained K V) : Maintained K V :=
  match mt_head m with
  | None => m
  | Some head =>
      match b with
      | None => mkMaintained (Some head) (delete key (mt_rows m))
      | Some b =>
          match decode_value b with
          | Ok decoded => mkMaintained (Some head) (<[key := decoded]> (mt_rows m))
          | Err _ => clear m
          end
      end
  end.
End MaintainedOps.

(** ** The cache *)

Record ProjectionCache : Type := mkProjectionCache {
  pc_snapshots : Maintained N SnapshotValue;
  pc_table_stats : Maintained N TableStatsValue;
  pc_table_column_stats : Maintained (N * N) TableColumnStatsValue;
  pc_current_entities : option (HeadValue * list EntityRecord);
  pc_history_entities : option (HeadValue * list EntityRecord);
  pc_head_view : option CatalogSnapshot;
  pc_epoch : N;
}.

Definition ProjectionCache_empty : ProjectionCache :=
  mkProjectionCache Maintained_empty Maintained_empty Maintained_empty None None None 0.

Definition with_maintained (snapshots : Maintained N SnapshotValue) (stats : Maintained N TableStatsValue)
    (columns : Maintained (N * N) TableColumnStatsValue) (c : ProjectionCache) : ProjectionCache :=
  mkProjectionCache snapshots stats columns (pc_current_entities c) (pc_history_entities c)
    (pc_head_view c) (pc_epoch c).

Definition with_entities (current history : option (HeadValue * list EntityRecord))
    (c : ProjectionCache) : ProjectionCache :=
  mkProjectionCache (pc_snapshots c) (pc_table_stats c) (pc_table_column_stats c) current history
    (pc_head_view c) (pc_epoch c).

Definition with_head_view (view : option CatalogSnapshot) (epoch : N) (c : ProjectionCache)
  : ProjectionCache :=
  mkProjectionCache (pc_snapshots c) (pc_table_stats c) (pc_table_column_stats c)
    (pc_current_entities c) (pc_history_entities c) view epoch.

(** [u64::wrapping_add]. *)
Definition wrapping_succ (n : N) : N := (n + 1) mod u64_size.

(** [ProjectionCache::head_view]. *)
Definition head_view (expected : HeadValue) (c : ProjectionCache) : option CatalogSnapshot :=
  match pc_head_view c with
  | Some view =>
      if (sn_snapshot_id (cs_snapshot view) =? hd_snapshot_id expected)
         && (cs_batch_seq view =? hd_batch_seq expected)
      then Some view else None
  | None => None
  end.

Definition set_head_view (view : CatalogSnapshot) (c : ProjectionCache) : ProjectionCache :=
  with_head_view (Some view) (wrapping_succ (pc_epoch c)) c.

Definition set_head_view_at (epoch : N) (view : CatalogSnapshot) (c : ProjectionCache) : ProjectionCache :=
  if pc_epoch c =? epoch then with_head_view (Some view) (pc_epoch c) c else c.

Definition clear_head_view (c : ProjectionCache) : ProjectionCache :=
  with_head_view None (wrapping_succ (pc_epoch c)) c.

Definition install_current_entities (head : HeadValue) (records : list EntityRecord)
    (c : ProjectionCache) : ProjectionCache :=
  with_entities (Some (head, records)) (pc_history_entities c) c.
Definition install_history_entities (head : HeadValue) (records : list EntityRecord)
    (c : ProjectionCache) : ProjectionCache :=
  with_entities (pc_current_entities c) (Some (head, records)) c.

Definition entities_at (expected : HeadValue) (half : option (HeadValue * list EntityRecord))
  : option (list EntityRecord) :=
  match half with
  | Some (head, records) => if same_head head expected then Some records else None
  | None => None
  end.
Definition current_entities_at (expected : HeadValue) (c : ProjectionCache) : option (list EntityRecord) :=
  entities_at expected (pc_current_entities c).
Definition history_entities_at (expected : HeadValue) (c : ProjectionCache) : option (list EntityRecord) :=
  entities_at expected (pc_history_entities c).

(** A [BTreeMap] collected from rows: the last of a key stays. *)
Definition rows_by {K V} `{Countable K} (key : V -> K) (rows : list V) : gmap K V :=
  foldl (fun m v => <[key v := v]> m) ∅ rows.

Definition install_snapshots (head : HeadValue) (rows : list SnapshotValue) (c : ProjectionCache)
  : ProjectionCache :=
  with_maintained (install head (rows_by sn_snapshot_id rows) (pc_snapshots c)) (pc_table_stats c)
    (pc_table_column_stats c) c.
Definition install_table_stats (head : HeadValue) (rows : list TableStatsValue) (c : ProjectionCache)
  : ProjectionCache :=
  with_maintained (pc_snapshots c) (install head (rows_by ts_table_id rows) (pc_table_stats c))
    (pc_table_column_stats c) c.
Definition install_table_column_stats (head : HeadValue) (rows : list TableColumnStatsValue)
    (c : ProjectionCache) : ProjectionCache :=
  with_maintained (pc_snapshots c) (pc_table_stats c)
    (install head (rows_by (fun v => (tcs_table_id v, tcs_column_id v)) rows) (pc_table_column_stats c)) c.

Definition snapshots_at (expected : HeadValue) (c : ProjectionCache) : option (list SnapshotValue) :=
  serve expected (pc_snapshots c).
Definition table_stats_at (expected : HeadValue) (c : ProjectionCache) : option (list TableStatsValue) :=
  serve expected (pc_table_stats c).
Definition table_column_stats_at (expected : HeadValue) (c : ProjectionCache)
  : option (list TableColumnStatsValue) :=
  serve expected (pc_table_column_stats c).

Section Cache.
  Context `{SK : Storekey, MS : Messages}.

(** [head_stamp]: the last head record of a batch that decodes. *)
Fixpoint find_head (rev_writes : list StagedWrite) : option HeadValue :=
  match rev_writes with
  | [] => None
  | (key, b) :: writes =>
      if bool_decide (key = Key_encode (K_Sys SK_Head)) then
        match b with
        | Some b => match decode_value b with Ok head => Some head | Err _ => find_head writes end
        | None => find_head writes
        end
      else find_head writes
  end.
Definition head_stamp (writes : list StagedWrite) : option HeadValue := find_head (reverse writes).

(** One write of [apply_batch]; [None] at a key that does not decode. *)
Definition apply_write (write : StagedWrite) (c : ProjectionCache) : option ProjectionCache :=
  match Key_decode write.1 with
  | Ok (K_Snapshot snapshot_id) =>
      Some (with_maintained (fold_row snapshot_id write.2 (pc_snapshots c)) (pc_table_stats c)
        (pc_table_column_stats c) c)
  | Ok (K_Current (CK_Entity (EK_TableStats table_id))) =>
      Some (with_maintained (pc_snapshots c) (fold_row table_id write.2 (pc_table_stats c))
        (pc_table_column_stats c) c)
  | Ok (K_Current (CK_Entity (EK_TableColumnStats table_id column_id))) =>
      Some (with_maintained (pc_snapshots c) (pc_table_stats c)
        (fold_row (table_id, column_id) write.2 (pc_table_column_stats c)) c)
  | Ok _ => Some c
  | Err _ => None
  end.

Definition clear_all (c : ProjectionCache) : ProjectionCache :=
  with_maintained (clear (pc_snapshots c)) (clear (pc_table_stats c)) (clear (pc_table_column_stats c)) c.

(** The loop: the cache so far, and whether every key decoded. *)
Fixpoint apply_writes (writes : list StagedWrite) (c : ProjectionCache) : ProjectionCache * bool :=
  match writes with
  | [] => (c, true)
  | write :: writes =>
      match apply_write write c with
      | Some c => apply_writes writes c
      | None => (clear_all c, false)
      end
  end.

(** [ProjectionCache::apply_batch]. *)
Definition apply_batch (writes : list StagedWrite) (new_head : N) (c : ProjectionCache)
  : ProjectionCache :=
  match apply_writes writes (with_entities None None c) with
  | (c, false) => c
  | (c, true) =>
      match head_stamp writes with
      | Some stamp =>
          if hd_snapshot_id stamp =? new_head then
            with_maintained (advance stamp (pc_snapshots c)) (advance stamp (pc_table_stats c))
              (advance stamp (pc_table_column_stats c)) c
          else clear_all c
      | None => clear_all c
      end
  end.
End Cache.

(** ** What a serve requires *)

Lemma same_head_true a b :
  same_head a b = true -> hd_batch_seq a = hd_batch_seq b /\ a = b.
Proof.
  unfold same_head. intros [E1%N.eqb_eq E2%N.eqb_eq]%andb_prop. destruct a, b. cbn in *. by subst.
Qed.

Lemma serve_some {K V} `{Countable K, !KeyOrder K} expected (m : Maintained K V) rows :
  serve expected m = Some rows -> is_Some (mt_head m) /\ btree_values (mt_rows m) = rows.
Proof.
  unfold serve. destruct (mt_head m); [|done]. case_match; [|done]. intros [= <-]. eauto.
Qed.

Lemma entities_at_some expected half records :
  entities_at expected half = Some records ->
  exists head, half = Some (head, records) /\ same_head head expected = true.
Proof.
  unfold entities_at. destruct half as [[head recs]|]; [|done]. case_match; [|done].
  intros [= <-]. eauto.
Qed.

(** ** A projection against the store *)

Section Tracking.
  Context {S : Type} `{KVLaws S, SKL : StorekeyLaws, MSL : MessagesLaws}.

(** What a record's bytes decode to. *)
Definition stored {V} `{Prost V} (s : S) (k : Key) : option V :=
  kv_get s (Key_encode k) ≫= (fun b => match decode_value b with Ok v => Some v | Err _ => None end).

(** The keys of the batch are encodings of well-formed keys. *)
Definition keyed (w : StagedWrite) : Prop := exists k, w.1 = Key_encode k /\ Key_wf k.

Lemma write_wf_keyed ws : Forall write_wf ws -> Forall keyed ws.
Proof. intros Hw. eapply Forall_impl; [exact Hw|]. intros w (k & ? & ? & _). by exists k. Qed.

(** Each installed row is the record the store holds under the row's key. *)
Definition tracks {I V} `{Countable I} `{Prost V} (emb : I -> Key) (m : Maintained I V) (s : S) : Prop :=
  is_Some (mt_head m) -> forall k, mt_rows m !! k = if decide (Key_wf (emb k)) then stored s (emb k) else None.

Section One.
  Context {I V : Type} `{Countable I} `{Prost V} (emb : I -> Key).
  Context `{emb_inj : !Inj (=) (=) emb}.

#[export] Instance tracks_proper m : Proper ((≡@{S}) ==> iff) (tracks (V := V) emb m).
Proof.
  assert (Himp : forall s s', s ≡ s' -> tracks emb m s -> tracks emb m s').
  { intros s s' E Ht Hm k. rewrite (Ht Hm). by unfold stored; rewrite (E (Key_encode (emb k))). }
  intros s s' E. split; apply Himp; [done|by symmetry].
Qed.

Lemma stored_apply (s : S) w k :
  stored (V := V) (kv_apply s [w]) k
  = if decide (w.1 = Key_encode k)
    then w.2 ≫= (fun b => match decode_value b with Ok v => Some v | Err _ => None end)
    else stored s k.
Proof.
  unfold stored. rewrite kv_get_apply, last_write_cons, last_write_nil. by case_decide.
Qed.

(** Folding a write of the projection's own kind follows the store. *)
Lemma tracks_fold (m : Maintained I V) s k b :
  Key_wf (emb k) -> tracks emb m s ->
  tracks emb (fold_row k b m) (kv_apply s [(Key_encode (emb k), b)]).
Proof.
  intros Hk Ht Hm j. rewrite stored_apply. cbn [fst snd].
  unfold fold_row in *. destruct (mt_head m) as [h|] eqn:Eh; [|by rewrite Eh in Hm; destruct Hm].
  specialize (Ht (mk_is_Some _ _ Eh)).
  assert (Hj : emb k = emb j \/ Key_encode (emb k) <> Key_encode (emb j) \/ ~ Key_wf (emb j)).
  { destruct (decide (Key_wf (emb j))); [|auto].
    destruct (decide (Key_encode (emb k) = Key_encode (emb j))) as [E|]; [|auto].
    left. by apply Key_encode_inj in E. }
  destruct Hj as [->%emb_inj|Hne].
  - rewrite !decide_True by done. destruct b as [b|]; cbn.
    + destruct (decode_value b); cbn; [by rewrite lookup_insert_eq|by destruct Hm].
    + by rewrite lookup_delete_eq.
  - assert (Hkj : k <> j) by (intros ->; by destruct Hne).
    destruct b as [b|]; cbn.
    + destruct (decode_value b); cbn; [|by destruct Hm]. rewrite lookup_insert_ne, Ht by done.
      repeat case_decide; try done. by destruct Hne.
    + rewrite lookup_delete_ne, Ht by done. repeat case_decide; try done. by destruct Hne.
Qed.

(** A write of another kind leaves it standing. *)
Lemma tracks_other (m : Maintained I V) s k' b :
  Key_wf k' -> (forall k, emb k <> k') -> tracks emb m s ->
  tracks emb m (kv_apply s [(Key_encode k', b)]).
Proof.
  intros Hk' Hne Ht Hm j. rewrite stored_apply. cbn [fst snd]. rewrite (Ht Hm).
  destruct (decide (Key_wf (emb j))); [|done]. rewrite decide_False; [done|].
  intros E%Key_encode_inj; try done. by apply (Hne j).
Qed.

Lemma tracks_clear (m : Maintained I V) s : tracks emb (clear m) s.
Proof. by intros [? [=]]. Qed.

Lemma tracks_advance (m : Maintained I V) s h : tracks emb m s -> tracks emb (advance h m) s.
Proof.
  intros Ht. unfold advance. destruct (mt_head m) eqn:E; [|done]. intros _. apply Ht. by rewrite E.
Qed.
End One.

Definition emb_snapshot (id : N) : Key := K_Snapshot id.
Definition emb_table_stats (id : N) : Key := K_Current (CK_Entity (EK_TableStats id)).
Definition emb_column_stats (id : N * N) : Key := K_Current (CK_Entity (EK_TableColumnStats id.1 id.2)).

#[export] Instance emb_snapshot_inj : Inj (=) (=) emb_snapshot.
Proof. by intros ?? [=]. Qed.
#[export] Instance emb_table_stats_inj : Inj (=) (=) emb_table_stats.
Proof. by intros ?? [=]. Qed.
#[export] Instance emb_column_stats_inj : Inj (=) (=) emb_column_stats.
Proof. by intros [] [] [= ??]; simplify_eq/=. Qed.

Definition tracking (c : ProjectionCache) (s : S) : Prop :=
  tracks emb_snapshot (pc_snapshots c) s /\ tracks emb_table_stats (pc_table_stats c) s
  /\ tracks emb_column_stats (pc_table_column_stats c) s.

#[export] Instance tracking_proper c : Proper ((≡@{S}) ==> iff) (tracking c).
Proof. intros s s' E. unfold tracking. by rewrite E. Qed.

Lemma tracking_clear_all c s : tracking (clear_all c) s.
Proof. split_and!; apply tracks_clear. Qed.

Lemma apply_write_tracking w c c' s :
  keyed w -> tracking c s -> apply_write w c = Some c' -> tracking c' (kv_apply s [w]).
Proof.
  destruct w as [kb b]. intros (k & E & Hk) (H1 & H2 & H3) Hw. cbn in E. subst kb.
  unfold apply_write in Hw. cbn [fst snd] in Hw. rewrite Key_decode_encode in Hw by done.
  destruct k as [|id|[e|]| | | | |].
  all: try (injection Hw as <-; split_and!; apply tracks_other; done).
  - injection Hw as <-. split_and!; cbn;
      [by apply (tracks_fold emb_snapshot)|by apply tracks_other..].
  - destruct e; injection Hw as <-; split_and!; cbn;
      first [by apply (tracks_fold emb_table_stats)
            |by apply (tracks_fold emb_column_stats _ _ (_, _))
            |apply tracks_other; [done|by intros; unfold emb_column_stats; intros [=]|done]].
Qed.

Lemma apply_writes_tracking ws : forall c s,
  Forall keyed ws -> tracking c s ->
  exists c', apply_writes ws c = (c', true) /\ tracking c' (kv_apply s ws).
Proof.
  induction ws as [|w ws IH]; intros c s Hk Ht; cbn [apply_writes].
  - exists c. split; [done|]. by rewrite kv_apply_nil.
  - apply Forall_cons in Hk as [Hw Hk].
    assert (exists c', apply_write w c = Some c') as [c' E].
    { destruct Hw as (k & E & Hwf). unfold apply_write. rewrite E, Key_decode_encode by done.
      repeat case_match; eauto. }
    rewrite E. destruct (IH c' (kv_apply s [w]) Hk) as (c2 & E2 & Ht2).
    { by eapply apply_write_tracking. }
    exists c2. split; [done|]. by rewrite kv_apply_app in Ht2.
Qed.

(** What the loop leaves alone. *)
Lemma apply_writes_rest ws : forall c,
  let c' := (apply_writes ws c).1 in
  pc_current_entities c' = pc_current_entities c /\ pc_history_entities c' = pc_history_entities c
  /\ pc_head_view c' = pc_head_view c /\ pc_epoch c' = pc_epoch c.
Proof.
  induction ws as [|w ws IH]; intros c; cbn [apply_writes]; [done|].
  destruct (apply_write w c) as [c1|] eqn:E; [|done]. specialize (IH c1). cbn in IH |- *.
  destruct IH as (-> & -> & -> & ->). unfold apply_write in E. repeat case_match; simplify_eq; done.
Qed.
End Tracking.

(** ** A served projection against a scan *)

(** One fold of a scan into one result list. *)
Lemma collect_omap {A B} (f : A -> result B) l ys :
  collect f l = Ok ys -> ys = omap (fun x => match f x with Ok y => Some y | Err _ => None end) l.
Proof.
  revert ys. induction l as [|x l IH]; intros ys; cbn; [by intros [= <-]|].
  destruct (f x) as [y|e]; cbn; [|done]. destruct (collect f l) as [zs|] eqn:E; [|done].
  intros [= <-]. f_equal. by apply IH.
Qed.

Class KeyOrderLaws (K : Type) `{!KeyOrder K} : Prop := {
  key_le_trans :: Transitive (key_le (K := K));
  key_le_antisym :: AntiSymm (=) (key_le (K := K));
  key_le_total :: Total (key_le (K := K));
}.
#[export] Instance N_key_order_laws : KeyOrderLaws N.
Proof. split; unfold key_le; cbn; hnf; intros; lia. Qed.
#[export] Instance pair_key_order_laws : KeyOrderLaws (N * N).
Proof.
  split; unfold key_le; cbn; unfold pair_N_le; hnf; [intros [] [] []|intros [] []|intros [] []];
    cbn; intros; [lia| |lia]. f_equal; lia.
Qed.

(** The values of a map against any listing of its entries in key order. *)
Lemma btree_values_listing {I V} `{Countable I, !KeyOrder I, !KeyOrderLaws I} (m : gmap I V)
    (l : list (I * V)) :
  StronglySorted (fun a b => key_le a.1 b.1 /\ a.1 <> b.1) l ->
  (forall i v, (i, v) ∈ l <-> m !! i = Some v) -> btree_values m = l.*2.
Proof.
  intros Hs Hl.
  assert (Hk : btree_keys m = l.*1).
  { apply (StronglySorted_unique key_le).
    - apply StronglySorted_merge_sort; apply _.
    - clear Hl. induction Hs as [|[i v] l Hs IH Hf]; cbn; constructor; [done|].
      rewrite Forall_fmap. eapply Forall_impl; [exact Hf|]. by intros ? [].
    - apply NoDup_Permutation.
      + apply NoDup_in_order.
      + clear Hl. induction Hs as [|[i v] l Hs IH Hf]; cbn; constructor; [|done].
        intros ([j w] & -> & Hj)%list_elem_of_fmap. rewrite Forall_forall in Hf.
        by destruct (Hf _ Hj).
      + intros i. rewrite elem_of_btree_keys, list_elem_of_fmap. split.
        * intros [v Hv%Hl]. by exists (i, v).
        * intros ([j v] & -> & Hv%Hl). eauto. }
  unfold btree_values. rewrite Hk. clear Hk Hs.
  assert (Hsub : forall i v, (i, v) ∈ l -> m !! i = Some v) by (intros; by apply Hl). clear Hl.
  induction l as [|[i v] l IH]; cbn; [done|].
  rewrite (Hsub i v) by set_solver. f_equal. apply IH. set_solver.
Qed.

Lemma rows_by_listing {I V} `{Countable I, !KeyOrder I} (key : V -> I) (l : list (I * V)) :
  StronglySorted (fun a b => key_le a.1 b.1 /\ a.1 <> b.1) l ->
  Forall (fun e => key e.2 = e.1) l ->
  forall i v, rows_by key l.*2 !! i = Some v <-> (i, v) ∈ l.
Proof.
  intros Hs Hk i v. assert (E : rows_by key l.*2 = list_to_map (reverse l)).
  { clear Hs. unfold rows_by. induction l as [|[j w] l IH] using rev_ind; [done|].
    apply Forall_app in Hk as [Hk [Ej _]%Forall_cons]. cbn in Ej.
    rewrite fmap_app, foldl_app, IH, reverse_snoc by done. cbn. by rewrite Ej. }
  rewrite E. rewrite <-elem_of_list_to_map.
  - by rewrite elem_of_reverse.
  - rewrite fmap_reverse, reverse_Permutation. clear Hk E.
    induction Hs as [|[j w] l Hs IH Hf]; cbn; constructor; [|done].
    intros ([j' w'] & -> & Hj)%list_elem_of_fmap. rewrite Forall_forall in Hf. by destruct (Hf _ Hj).
Qed.

Section Serving.
  Context {S : Type} `{KVLaws S, SKL : StorekeyLaws, MSL : MessagesLaws}.

(** What ties a projection to the keys it keeps: [pick] names the row of a record,
    the rows' order is the order of their keys. *)
Class Projected {I V : Type} `{Prost V, !KeyOrder I} (emb : I -> Key) (space : Subspace)
    (pick : Key -> bytes -> option (I * V)) : Prop := {
  pick_iff : forall k b i v, pick k b = Some (i, v) <-> k = emb i /\ decode_value b = Ok v;
  emb_space : forall i, Key_subspace (emb i) = space;
  emb_order : forall i j, Key_compare (emb i) (emb j) = Lt -> key_le i j /\ i <> j;
}.

(** The rows of a scan, under their keys. *)
Definition rows_of {I V} (pick : Key -> bytes -> option (I * V)) (space : Subspace) (s : S)
  : list (I * V) :=
  omap (fun e => match Key_decode e.1 with Ok k => pick k e.2 | Err _ => None end)
    (kv_scan s (subspace_prefix space)).

(** Every key of a subspace is the encoding of a well-formed key. *)
Definition space_keyed (space : Subspace) (s : S) : Prop :=
  forall kb b, kv_get s kb = Some b -> subspace_prefix space `prefix_of` kb ->
  exists k, kb = Key_encode k /\ Key_wf k.

Section OneProjection.
  Context {I V : Type} `{Countable I, !KeyOrder I, !KeyOrderLaws I, Prost V}.
  Context (emb : I -> Key) (space : Subspace) (pick : Key -> bytes -> option (I * V)).
  Context `{HP : !Projected emb space pick}.

Lemma rows_of_elem s i v :
  space_keyed space s -> (i, v) ∈ rows_of pick space s <-> Key_wf (emb i) /\ stored s (emb i) = Some v.
Proof.
  intros Hs. unfold rows_of. rewrite list_elem_of_omap. split.
  - intros ([kb b] & [Hg Hp]%kv_scan_elem & Hk). cbn [fst snd] in Hk.
    destruct (Hs kb b Hg Hp) as (k & -> & Hwf). rewrite Key_decode_encode in Hk by done.
    apply pick_iff in Hk as [-> Hd]. split; [done|]. unfold stored. rewrite Hg. cbn. by rewrite Hd.
  - intros [Hwf Hst]. unfold stored in Hst. destruct (kv_get s (Key_encode (emb i))) as [b|] eqn:Eg; [|done].
    exists (Key_encode (emb i), b). rewrite kv_scan_elem, subspace_prefix_iff. cbn [fst snd].
    rewrite Key_decode_encode, emb_space by done. split; [done|]. apply pick_iff. split; [done|].
    cbn in Hst. by destruct (decode_value b); simplify_eq.
Qed.

Lemma rows_of_sorted s :
  space_keyed space s ->
  StronglySorted (fun a b => key_le a.1 b.1 /\ a.1 <> b.1) (rows_of pick space s).
Proof.
  intros Hs. unfold rows_of.
  assert (Hw : forall e, e ∈ kv_scan s (subspace_prefix space) -> exists k, e.1 = Key_encode k /\ Key_wf k).
  { intros [kb b] [Hg Hp]%kv_scan_elem. by apply (Hs kb b). }
  pose proof (kv_scan_sorted s (subspace_prefix space)) as Hsort. revert Hw Hsort.
  induction (kv_scan s (subspace_prefix space)) as [|[kb b] l IH]; intros Hw Hsort; cbn; [constructor|].
  apply StronglySorted_inv in Hsort as [Hsort Hf].
  destruct (Hw (kb, b)) as (k & Ek & Hk); [set_solver|]. cbn in Ek. subst kb.
  rewrite Key_decode_encode by done. specialize (IH ltac:(set_solver) Hsort).
  destruct (pick k b) as [[i v]|] eqn:Ep; [|done]. apply pick_iff in Ep as [-> _].
  constructor; [done|]. apply Forall_forall. intros [j w] ([kb c] & Hin & Hj)%list_elem_of_omap.
  rewrite Forall_forall in Hf. specialize (Hf _ Hin).
  destruct (Hw (kb, c)) as (k & Ek & Hkj); [set_solver|]. cbn in Ek, Hj, Hf. subst kb.
  rewrite Key_decode_encode in Hj by done. apply pick_iff in Hj as [-> _].
  apply emb_order. by rewrite <-(oc_order_nil Key_wf Key_compare Key_encode Key_read).
Qed.

Lemma serve_rows (m : Maintained I V) s :
  space_keyed space s -> is_Some (mt_head m) -> tracks emb m s ->
  btree_values (mt_rows m) = (rows_of pick space s).*2.
Proof.
  intros Hs Hm Ht. apply btree_values_listing; [by apply rows_of_sorted|].
  intros i v. rewrite rows_of_elem by done. rewrite (Ht Hm). case_decide; naive_solver.
Qed.

Lemma install_rows (key : V -> I) head (m : Maintained I V) s :
  space_keyed space s -> (forall i v, (i, v) ∈ rows_of pick space s -> key v = i) ->
  tracks emb (install head (rows_by key (rows_of pick space s).*2) m) s.
Proof.
  intros Hs Hkey _ i. cbn. apply option_eq. intros v.
  rewrite (rows_by_listing key) by (try apply Forall_forall; try intros [??]; auto using rows_of_sorted).
  rewrite rows_of_elem by done. case_decide; naive_solver.
Qed.
End OneProjection.

(** A projection of a scan's results is the projection's rows, in the same order. *)
Lemma scan_project {T I V} s space (extract : Key -> bytes -> result T) (project : T -> option V)
    (pick : Key -> bytes -> option (I * V)) l :
  run s (scan_decode (subspace_prefix space) extract) = Ok l ->
  (forall kb b k t, kv_get s kb = Some b -> subspace_prefix space `prefix_of` kb ->
     Key_decode kb = Ok k -> extract k b = Ok t -> project t = snd <$> pick k b) ->
  omap project l = (rows_of pick space s).*2.
Proof.
  unfold scan_decode, rows_of. cbn [run]. intros Hr Hp.
  assert (Hin : forall e, e ∈ kv_scan s (subspace_prefix space) ->
    kv_get s e.1 = Some e.2 /\ subspace_prefix space `prefix_of` e.1).
  { intros [kb b]. apply kv_scan_elem. }
  revert l Hr Hin. induction (kv_scan s (subspace_prefix space)) as [|[kb b] es IH];
    intros l Hr Hin; cbn in Hr |- *; [by injection Hr as <-|].
  destruct (Key_decode kb) as [k|] eqn:Ek; cbn in Hr; [|done].
  destruct (extract k b) as [t|] eqn:Et; cbn in Hr; [|done].
  destruct (collect _ es) as [ts|] eqn:Ec; [|done]. injection Hr as <-. cbn.
  destruct (Hin (kb, b)) as [Hg Hpre]; [set_solver|].
  rewrite (Hp kb b k t), (IH ts) by (try done; set_solver). by destruct (pick k b) as [[??]|].
Qed.

Definition pick_snapshot (k : Key) (b : bytes) : option (N * SnapshotValue) :=
  match k, decode_value b with K_Snapshot id, Ok v => Some (id, v) | _, _ => None end.
Definition pick_table_stats (k : Key) (b : bytes) : option (N * TableStatsValue) :=
  match k, decode_value b with
  | K_Current (CK_Entity (EK_TableStats id)), Ok v => Some (id, v)
  | _, _ => None
  end.
Definition pick_column_stats (k : Key) (b : bytes) : option (N * N * TableColumnStatsValue) :=
  match k, decode_value b with
  | K_Current (CK_Entity (EK_TableColumnStats t c)), Ok v => Some (t, c, v)
  | _, _ => None
  end.

#[export] Instance snapshot_projected : Projected emb_snapshot SnapshotSpace pick_snapshot.
Proof.
  split; [|done|].
  - intros k b i v. unfold pick_snapshot, emb_snapshot. destruct k, (decode_value b); split; intros;
      destruct_and?; simplify_eq/=; done.
  - intros i j Hc. change (i < j) in Hc. unfold key_le. cbn. lia.
Qed.
#[export] Instance table_stats_projected : Projected emb_table_stats CurrentSpace pick_table_stats.
Proof.
  split; [|done|].
  - intros k b i v. unfold pick_table_stats, emb_table_stats.
    destruct k as [| |[[]|]| | | | |], (decode_value b); split; intros; destruct_and?; simplify_eq/=; done.
  - intros i j Hc. cbn in Hc. unfold EntityKey_compare in Hc. cbn in Hc.
    unfold key_le. cbn.
    destruct (N.compare_spec i j); cbn in Hc; try done. lia.
Qed.
#[export] Instance column_stats_projected : Projected emb_column_stats CurrentSpace pick_column_stats.
Proof.
  split; [|done|].
  - intros k b [t c] v. unfold pick_column_stats, emb_column_stats.
    destruct k as [| |[[]|]| | | | |], (decode_value b); split; intros; destruct_and?; simplify_eq/=; done.
  - intros [t c] [t' c'] Hc. cbn in Hc. unfold EntityKey_compare in Hc. cbn in Hc.
    unfold key_le. cbn. unfold pair_N_le. cbn.
    destruct (N.compare_spec t t'); cbn in Hc; [|split; [lia|intros [=]; lia]|done].
    destruct (N.compare_spec c c'); cbn in Hc; [done| |done]. split; [lia|intros [=]; lia].
Qed.

(** The snapshot subspace holds one record per id, under that id. *)
Definition snapshots_wf (s : S) : Prop :=
  forall kb b, kv_get s kb = Some b -> subspace_prefix SnapshotSpace `prefix_of` kb ->
  exists v : SnapshotValue, decode_value b = Ok v /\ u64 (sn_snapshot_id v)
    /\ kb = Key_encode (K_Snapshot (sn_snapshot_id v)).

Lemma snapshots_wf_keyed s : snapshots_wf s -> space_keyed SnapshotSpace s.
Proof. intros Hs kb b Hg Hp. destruct (Hs kb b Hg Hp) as (v & _ & ? & ->). by eexists. Qed.
Lemma current_wf_keyed s : current_wf s -> space_keyed CurrentSpace s.
Proof. intros Hs kb b Hg Hp. destruct (Hs kb b Hg Hp) as (c & r & -> & ? & _). by eexists. Qed.

Lemma scan_snapshots_rows s :
  snapshots_wf s -> run s scan_snapshots = Ok (rows_of pick_snapshot SnapshotSpace s).*2.
Proof.
  intros Hs. destruct (scan_decode_ok s (subspace_prefix SnapshotSpace)
    (fun key b => match key with
      K_Snapshot _ => decode_value b : result SnapshotValue | _ => Err Corruption end))
    as (l & E & _).
  { intros kb b Hg Hp. destruct (Hs kb b Hg Hp) as (v & Hd & Hu & ->).
    by exists (K_Snapshot (sn_snapshot_id v)), v. }
  unfold scan_snapshots. rewrite E. f_equal.
  erewrite <-(scan_project s SnapshotSpace _ Some pick_snapshot l E).
  - clear E. induction l as [|x l IH]; [done|]. cbn. by f_equal.
  - intros kb b k t _ _ _ Ht. destruct k; try done. cbn in Ht |- *. by rewrite Ht.
Qed.

(** The extractors the two statistics dumps project the [current] scan with. *)
Definition is_table_stats (r : EntityRecord) : option TableStatsValue :=
  match r with ER_TableStats v => Some v | _ => None end.
Definition is_column_stats (r : EntityRecord) : option TableColumnStatsValue :=
  match r with ER_TableColumnStats v => Some v | _ => None end.

Lemma scan_stats_rows s recs :
  run s scan_current_entities = Ok recs ->
  omap is_table_stats recs = (rows_of pick_table_stats CurrentSpace s).*2
  /\ omap is_column_stats recs = (rows_of pick_column_stats CurrentSpace s).*2.
Proof.
  intros E. split; apply (scan_project s CurrentSpace _ _ _ recs E);
    intros kb b k t _ _ _ Ht; unfold decode_current in Ht;
    destruct k as [| |[e|]| | | | |]; try done; cbn in Ht |- *.
  all: try (destruct e; cbn in Ht |- *).
  all: destruct (decode_value b); cbn in Ht; simplify_eq; done.
Qed.

Lemma stored_decodes {V} `{Prost V} s k (v : V) :
  stored s k = Some v -> exists b, kv_get s (Key_encode k) = Some b /\ decode_value b = Ok v.
Proof.
  unfold stored. destruct (kv_get s (Key_encode k)) as [b|]; [|done]. cbn.
  destruct (decode_value b) eqn:E; [|done]. intros [= ->]. eauto.
Qed.

Lemma snapshot_rows_named s i v :
  snapshots_wf s -> (i, v) ∈ rows_of pick_snapshot SnapshotSpace s -> sn_snapshot_id v = i.
Proof.
  intros Hs. rewrite (rows_of_elem emb_snapshot SnapshotSpace pick_snapshot s i v (snapshots_wf_keyed s Hs)).
  intros [Hk (b & Hg & Hd)%stored_decodes].
  destruct (Hs _ _ Hg) as (v' & Hd' & Hu & E); [by apply subspace_prefix_iff|].
  rewrite Hd in Hd'. injection Hd' as <-. by apply Key_encode_inj in E as [= ->].
Qed.

Lemma stats_stored_named s c b r :
  current_wf s -> Key_wf (K_Current c) -> kv_get s (Key_encode (K_Current c)) = Some b ->
  decode_current (K_Current c) b = Ok r -> record_key r = c.
Proof.
  intros Hs Hc Hg Hd. destruct (Hs _ _ Hg) as (c' & r' & E & Hc' & Hd' & Hk & _);
    [by apply subspace_prefix_iff|].
  apply Key_encode_inj in E as [= <-]; [|done..]. congruence.
Qed.

Lemma table_stats_rows_named s i v :
  current_wf s -> (i, v) ∈ rows_of pick_table_stats CurrentSpace s -> ts_table_id v = i.
Proof.
  intros Hs. rewrite (rows_of_elem emb_table_stats CurrentSpace pick_table_stats s i v (current_wf_keyed s Hs)).
  intros [Hk (b & Hg & Hd)%stored_decodes].
  assert (E : record_key (ER_TableStats v) = CK_Entity (EK_TableStats i)).
  { eapply stats_stored_named; [done..|]. cbn. by rewrite Hd. }
  by injection E.
Qed.

Lemma column_stats_rows_named s i v :
  current_wf s -> (i, v) ∈ rows_of pick_column_stats CurrentSpace s ->
  (tcs_table_id v, tcs_column_id v) = i.
Proof.
  intros Hs. rewrite (rows_of_elem emb_column_stats CurrentSpace pick_column_stats s i v (current_wf_keyed s Hs)).
  intros [Hk (b & Hg & Hd)%stored_decodes]. destruct i as [t c].
  assert (E : record_key (ER_TableColumnStats v) = CK_Entity (EK_TableColumnStats t c)).
  { eapply stats_stored_named; [done..|]. cbn. by rewrite Hd. }
  by injection E as -> ->.
Qed.

(** A batch's snapshot records carry the id they are stored under. *)
Definition snapshot_named (w : StagedWrite) : Prop :=
  forall id b, u64 id -> w = (Key_encode (K_Snapshot id), Some b) ->
  exists v : SnapshotValue, decode_value b = Ok v /\ sn_snapshot_id v = id.

Lemma other_named k o :
  Key_wf k -> match k with K_Snapshot _ => False | _ => True end -> snapshot_named (Key_encode k, o).
Proof. intros Hk Hn id b Hid [= E _]. apply Key_encode_inj in E as ->; done. Qed.

Lemma record_named (v : SnapshotValue) :
  u64 (sn_snapshot_id v) ->
  snapshot_named (Key_encode (K_Snapshot (sn_snapshot_id v)), Some (encode_value v)).
Proof.
  intros Hv id b Hid [= E <-]. exists v. split; [apply decode_encode_value|].
  by apply Key_encode_inj in E as [= <-].
Qed.

Lemma snapshots_wf_apply s ws :
  snapshots_wf s -> Forall write_wf ws -> Forall snapshot_named ws -> snapshots_wf (kv_apply s ws).
Proof.
  intros Hs Hw Hn kb b. rewrite kv_get_apply. destruct (last_write ws kb) as [o|] eqn:E; [|apply Hs].
  intros -> Hp. apply last_write_elem in E. rewrite Forall_forall in Hw, Hn.
  destruct (Hw _ E) as (k & Ek & Hk & _). cbn in Ek. subst kb.
  apply subspace_prefix_iff in Hp. destruct k as [|id|[]| | | | |]; try done.
  destruct (Hn _ E id b Hk eq_refl) as (v & Hd & <-). by exists v.
Qed.
End Serving.
