(* ===== verification/Landing.v ===== *)
(** Landing a batch ([transaction/commit.rs]): the staged transaction, the durable
    write with its head race, and what a landed batch does to the maintained
    projections and the cached head view. *)
From stdpp Require Import gmap strings list fin_maps sorting.
From Stdlib Require Import NArith ZArith Lia.
From S2P Require Import Prelude Storekey KeyLayout Values Snapshot Catalog Store Fold Materialize IndexMaintenance Projection.

Local Open Scope N_scope.

(** ** The database *)

(** An open transaction: the sequence it began at, what its reads see (the snapshot
    under its own writes), and its writes. *)
Record DbTransaction (S : Type) : Type := mkDbTransaction {
  dt_start : nat;
  dt_view : S;
  dt_writes : list StagedWrite;
}.
Arguments mkDbTransaction {S} _ _ _.
Arguments dt_start {S} _.
Arguments dt_view {S} _.
Arguments dt_writes {S} _.

#[export] Instance tx_kv {S} `{KV S} : KV (DbTransaction S) := {|
  kv_get tx k := kv_get (dt_view tx) k;
  kv_scan tx p := kv_scan (dt_view tx) p;
  kv_apply tx ws := mkDbTransaction (dt_start tx) (kv_apply (dt_view tx) ws) (dt_writes tx ++ ws);
|}.

#[export] Instance tx_kv_laws {S} `{KVLaws S} : KVLaws (DbTransaction S).
Proof.
  split; intros; cbn; [apply kv_get_apply|apply kv_scan_elem|apply kv_scan_sorted].
Qed.

(** What the committer asks of the database: the committed state, a sequence that
    moves with every commit, and a commit that is refused when a key it writes was
    written by a commit later than the transaction's start. *)
Class Database (D S : Type) `{KV S} : Type := {
  db_state : D -> S;
  db_seq : D -> nat;
  db_written : D -> nat -> bytes -> bool;
  db_apply : D -> list StagedWrite -> D;
}.

Class DatabaseLaws (D S : Type) `{DB : Database D S} : Prop := {
  db_state_apply : forall (d : D) ws, db_state (db_apply d ws) ≡ kv_apply (db_state d) ws;
  db_seq_apply : forall (d : D) ws, db_seq (db_apply d ws) = Datatypes.S (db_seq d);
  db_written_now : forall (d : D) k, db_written d (db_seq d) k = false;
  db_written_apply : forall (d : D) ws n k, (n <= db_seq d)%nat ->
    db_written (db_apply d ws) n k
    = db_written d n k || bool_decide (is_Some (last_write ws k));
}.

(** The outcome of the write itself beyond a conflict: it reports success, or an
    error, in which case the batch may have reached the store or not. *)
Inductive WriteFault : Type := NoFault | Failed (error : Error) (landed : bool).

Inductive Landed : Type := LandedCommitted | LandedLostRace.

Section Database.
  Context {D S : Type} `{DB : Database D S}.

Definition db_begin (d : D) : DbTransaction S := mkDbTransaction (db_seq d) (db_state d) [].

Definition db_conflict (d : D) (tx : DbTransaction S) : bool :=
  existsb (fun w => db_written d (dt_start tx) w.1) (dt_writes tx).

(** [commit_durable]: [None] for a lost race. *)
Definition commit_durable (fault : WriteFault) (tx : DbTransaction S) (d : D)
  : option (result unit) * D :=
  if db_conflict d tx then (None, d)
  else match fault with
       | NoFault => (Some (Ok tt), db_apply d (dt_writes tx))
       | Failed error true => (Some (Err error), db_apply d (dt_writes tx))
       | Failed error false => (Some (Err error), d)
       end.
End Database.

(** ** Committing a batch *)

Section Commit.
  Context {D S : Type} `{DB : Database D S} `{SK : Storekey, MS : Messages}.

(** [head_write]. *)
Definition head_write (snapshot_id : N) : Reader StagedWrite :=
  standing ← read_head_value;
  mret (Key_encode (K_Sys SK_Head),
    Some (encode_value (mkHeadValue snapshot_id (saturating_add (hd_batch_seq standing) 1)))).

(** [stage_writes]: what the batch weighs, with the writes on the transaction. *)
Fixpoint stage_writes {T} `{KV T} (writes : list StagedWrite) (staged : N) : Tx T N :=
  match writes with
  | [] => mret staged
  | (key, write) :: writes =>
      let staged := staged_add staged (length key)
        (match write with Some b => length b | None => 0%nat end) in
      _ ← match write with Some b => tx_put key b | None => tx_delete key end;
      stage_writes writes staged
  end.

(** [cached_head_view], [held_head_view]: the view at the expected head, and
    whatever view is held. *)
Definition cached_head_view (expected : HeadValue) (c : ProjectionCache) : option CatalogSnapshot :=
  head_view expected c.
Definition held_head_view (c : ProjectionCache) : option CatalogSnapshot := pc_head_view c.

(** The view of [head_view_for], and whether it is to be installed. *)
Definition head_view_read (cached : HeadValue -> option CatalogSnapshot) (held : option CatalogSnapshot)
  : Reader (CatalogSnapshot * bool) :=
  _ ← refuse_mid_migration;
  head ← read_head_value;
  match cached head with
  | Some view => mret (view, false)
  | None =>
      refreshed ← match held with Some behind => refresh true behind | None => mret None end;
      view ← match refreshed with Some view => mret view | None => materialize true None end;
      mret (view, true)
  end.

(** [head_view_for]: the premise of a commit attempt, read through its
    transaction and installed unless the epoch has moved. *)
Definition head_view_for {T} `{KV T} (tx : T) (c : ProjectionCache)
  : result (CatalogSnapshot * ProjectionCache) :=
  '(view, fresh) ← run tx (head_view_read (fun head => cached_head_view head c) (held_head_view c));
  Ok (view, if fresh : bool then set_head_view_at (pc_epoch c) view c else c).

(** [refresh_head_view]. *)
Definition refresh_head_view (base : CatalogSnapshot) (writes : list StagedWrite) (c : ProjectionCache)
  : ProjectionCache :=
  match fold_batch base writes with
  | Ok view => set_head_view view c
  | Err _ => clear_head_view c
  end.

(** [commit_batch]. *)
Definition commit_batch (fault : WriteFault) (tx : DbTransaction S) (head_before head : N)
    (writes : list StagedWrite) (base : CatalogSnapshot) (d : D) (c : ProjectionCache)
  : result Landed * D * ProjectionCache :=
  let head_advanced := head_before <? head in
  let c := if head_advanced then c else clear_head_view c in
  match commit_durable fault tx d with
  | (Some (Ok _), d) =>
      let c := apply_batch writes head c in
      (Ok LandedCommitted, d, if head_advanced then refresh_head_view base writes c else c)
  | (None, d) => (Ok LandedLostRace, d, c)
  | (Some (Err err), d) => (Err err, d, clear_head_view c)
  end.

(** How far the task of [commit_batch_off_task] got before it was lost, if it was. *)
Inductive TaskFate : Type := TaskReports | LostBeforeWrite | LostAfterWrite | LostAfterFold.

(** [commit_batch_off_task]. *)
Definition commit_batch_off_task (fate : TaskFate) (fault : WriteFault) (tx : DbTransaction S)
    (head_before head : N) (writes : list StagedWrite) (base : CatalogSnapshot) (d : D)
    (c : ProjectionCache) : result Landed * D * ProjectionCache :=
  let '(landed, d', c') := commit_batch fault tx head_before head writes base d c in
  match fate with
  | TaskReports => (landed, d', c')
  | LostBeforeWrite => (Err Interrupted, d, clear_head_view c)
  | LostAfterWrite => (Err Interrupted, d', clear_head_view c)
  | LostAfterFold => (Err Interrupted, d', clear_head_view c')
  end.
End Commit.

(** ** The shape of a batch *)

Section Shape.
  Context {S : Type} `{KVLaws S, SKL : StorekeyLaws, MSL : MessagesLaws}.

(** A write that neither mints a snapshot nor moves the head. *)
Definition quiet (w : StagedWrite) : Prop :=
  exists k, w.1 = Key_encode k /\ Key_wf k
    /\ match k, w.2 with K_Sys SK_Head, _ | K_Snapshot _, Some _ => False | _, _ => True end.

(** One member's writes over head [h]: a minting commit, or one that leaves the
    snapshot id standing. *)
Inductive member_batch : HeadValue -> list StagedWrite -> HeadValue -> Prop :=
| member_mint h body sn :
    u64 (hd_snapshot_id h + 1) -> u64 (hd_batch_seq h + 1) -> sn_snapshot_id sn = hd_snapshot_id h + 1 ->
    Forall write_wf body -> Forall quiet body -> Forall plain_write body ->
    member_batch h (mint_batch h body sn) (mkHeadValue (hd_snapshot_id h + 1) (hd_batch_seq h + 1))
| member_maintain h body :
    u64 (hd_batch_seq h + 1) -> Forall write_wf body -> Forall quiet body -> Forall plain_write body ->
    member_batch h (maintenance_batch h body) (mkHeadValue (hd_snapshot_id h) (hd_batch_seq h + 1)).

(** A batch carries its members in the order they staged, each over the head its
    predecessor left. *)
Inductive group_batch : HeadValue -> list StagedWrite -> HeadValue -> Prop :=
| group_one h ws h' : member_batch h ws h' -> group_batch h ws h'
| group_more h ws h' ws' h'' :
    member_batch h ws h' -> group_batch h' ws' h'' -> group_batch h (ws ++ ws') h''.

Lemma changelog_quiet id ws : u64 id -> Forall quiet (changelog_writes id ws).
Proof.
  intros Hi. apply Forall_forall. intros w (j & Hj & E)%changelog_keys_current; [|done].
  by exists (K_Changelog j).
Qed.

(** Every member ends in its head write, over writes that move no head. *)
Lemma member_shape h ws h' :
  member_batch h ws h' -> exists pre,
    ws = pre ++ [(Key_encode (K_Sys SK_Head), Some (encode_value h'))]
    /\ (Forall quiet pre /\ hd_snapshot_id h' = hd_snapshot_id h
        \/ exists pre' sn, pre = pre' ++ [(Key_encode (K_Snapshot (sn_snapshot_id sn)), Some (encode_value sn))]
             /\ Forall quiet pre' /\ u64 (sn_snapshot_id sn) /\ sn_snapshot_id sn = hd_snapshot_id h').
Proof.
  destruct 1 as [h body sn Hi Hs En Hw Hq Hp|h body Hs Hw Hq Hp].
  - exists (body ++ changelog_writes (hd_snapshot_id h + 1) body
      ++ [(Key_encode (K_Snapshot (hd_snapshot_id h + 1)), Some (encode_value sn))]).
    split; [unfold mint_batch; rewrite <-!app_assoc; by rewrite saturating_add_exact|].
    right. exists (body ++ changelog_writes (hd_snapshot_id h + 1) body), sn.
    rewrite En, <-app_assoc. split_and!; [done| |done..].
    apply Forall_app. split; [done|by apply changelog_quiet].
  - exists body. unfold maintenance_batch. rewrite saturating_add_exact by done. split; [done|]. by left.
Qed.

Lemma quiet_named w : quiet w -> snapshot_named w.
Proof.
  intros (k & E & Hk & Hc) id b Hid ->. cbn in E, Hc.
  apply Key_encode_inj in E as <-; [|done..]. done.
Qed.

Lemma member_wf h ws h' :
  member_batch h ws h' -> Forall write_wf ws /\ Forall snapshot_named ws
    /\ hd_batch_seq h' = hd_batch_seq h + 1 /\ hd_snapshot_id h <= hd_snapshot_id h'.
Proof.
  intros Hm. split_and!.
  - destruct Hm; [by apply mint_batch_wf|by apply maintenance_batch_wf].
  - destruct (member_shape _ _ _ Hm) as (pre & -> & Hpre).
    assert (Hq : forall ws, Forall quiet ws -> Forall snapshot_named ws).
    { intros l Hl. eapply Forall_impl; [exact Hl|apply quiet_named]. }
    assert (Hh : snapshot_named (Key_encode (K_Sys SK_Head), Some (encode_value h'))).
    { by apply other_named. }
    apply Forall_app. split; [|by constructor].
    destruct Hpre as [[Hpre _]|(pre' & sn & -> & Hpre & Hu & Es)]; [by apply Hq|].
    apply Forall_app. split; [by apply Hq|]. constructor; [|constructor].
    by apply record_named.
  - by destruct Hm.
  - destruct Hm; cbn; lia.
Qed.

Lemma group_wf h ws h' :
  group_batch h ws h' -> Forall write_wf ws /\ Forall snapshot_named ws
    /\ hd_batch_seq h < hd_batch_seq h' /\ hd_snapshot_id h <= hd_snapshot_id h'.
Proof.
  induction 1 as [h ws h' Hm|h ws h' ws' h'' Hm Hg IH].
  - destruct (member_wf _ _ _ Hm) as (? & ? & -> & ?). split_and!; [done..|lia|lia].
  - destruct (member_wf _ _ _ Hm) as (? & ? & ? & ?), IH as (? & ? & ? & ?).
    rewrite !Forall_app. split_and!; [done..|lia|lia].
Qed.

(** The batch's last write is the head it leaves. *)
Lemma group_last h ws h' :
  group_batch h ws h' -> exists pre, ws = pre ++ [(Key_encode (K_Sys SK_Head), Some (encode_value h'))].
Proof.
  induction 1 as [h ws h' Hm|h ws h' ws' h'' Hm Hg [pre ->]].
  - destruct (member_shape _ _ _ Hm) as (pre & ? & _). eauto.
  - exists (ws ++ pre). by rewrite app_assoc.
Qed.

Lemma group_head_stamp h ws h' : group_batch h ws h' -> head_stamp ws = Some h'.
Proof.
  intros [pre ->]%group_last. unfold head_stamp. rewrite reverse_snoc. cbn [find_head].
  by rewrite bool_decide_eq_true_2, decode_encode_value by done.
Qed.

Lemma group_head h ws h' (s : S) : group_batch h ws h' -> run (kv_apply s ws) read_head = Ok (Some h').
Proof.
  intros [pre ->]%group_last. apply run_singleton.
  by rewrite kv_get_apply, last_write_snoc, decide_True by done.
Qed.

(** *** What folding it does to the view's stamp *)

Definition fold_writes (st : FoldState) (ws : list StagedWrite) : result FoldState :=
  foldl (fun acc w => st ← acc; fold_write st w) (Ok st) ws.

Lemma fold_writes_app st ws ws' :
  fold_writes st (ws ++ ws') = st' ← fold_writes st ws; fold_writes st' ws'.
Proof.
  unfold fold_writes. rewrite foldl_app. destruct (foldl _ _ ws) as [st'|e]; [done|]. cbn.
  induction ws' as [|w ws' IH]; [done|]. cbn. exact IH.
Qed.

Lemma fold_quiet ws v nh mi st' :
  Forall quiet ws -> fold_writes (v, nh, mi) ws = Ok st' ->
  exists v', st' = (v', nh, mi) /\ cs_snapshot v' = cs_snapshot v /\ cs_batch_seq v' = cs_batch_seq v.
Proof.
  revert v. induction ws as [|w ws IH]; intros v Hq Hf; [injection Hf as <-; eauto|].
  apply Forall_cons in Hq as [Hw Hq]. change (w :: ws) with ([w] ++ ws) in Hf.
  rewrite fold_writes_app in Hf. apply bind_Ok in Hf as (st1 & H1 & Hf).
  assert (exists v1, st1 = (v1, nh, mi) /\ cs_snapshot v1 = cs_snapshot v
    /\ cs_batch_seq v1 = cs_batch_seq v) as (v1 & -> & E1 & E2).
  { destruct w as [kb o], Hw as (k & Ek & Hk & Hc). cbn in Ek. subst kb. cbn in H1.
    rewrite Key_decode_encode in H1 by done. cbn -[decode_value decode_entity remove_entity] in H1, Hc.
    destruct k as [[]|id|[e|f]| | | | |]; try (by destruct o; simplify_eq; eauto); destruct o as [b|].
    - result_inv. subst st1. eexists. split; [reflexivity|]. apply put_record_snapshot.
    - result_inv. subst st1. eexists. split; [reflexivity|]. by eapply remove_entity_snapshot.
    - result_inv. subst st1. eexists. split; [reflexivity|]. done.
    - result_inv. subst st1. eexists. split; [reflexivity|]. done. }
  destruct (IH v1 Hq Hf) as (v' & -> & ? & ?). exists v'. split_and!; congruence.
Qed.

Lemma fold_head v nh mi h :
  fold_writes (v, nh, mi) [(Key_encode (K_Sys SK_Head), Some (encode_value h))]
  = Ok (set_batch_seq (fun _ => hd_batch_seq h) v, Some (hd_snapshot_id h), mi).
Proof.
  cbn -[decode_value encode_value]. rewrite Key_decode_encode by done.
  cbn -[decode_value encode_value]. by rewrite decode_encode_value.
Qed.

Lemma fold_snapshot v nh mi sn :
  u64 (sn_snapshot_id sn) ->
  fold_writes (v, nh, mi) [(Key_encode (K_Snapshot (sn_snapshot_id sn)), Some (encode_value sn))]
  = Ok (v, nh, Some sn).
Proof.
  intros Hu. cbn -[decode_value encode_value]. rewrite Key_decode_encode by done.
  cbn -[decode_value encode_value]. by rewrite decode_encode_value.
Qed.

(** A view folded across a batch stands at the head the batch leaves. *)
Lemma group_fold h ws h' : forall v nh mi st',
  group_batch h ws h' -> fold_writes (v, nh, mi) ws = Ok st' ->
  exists v' mi', st' = (v', Some (hd_snapshot_id h'), mi') /\ cs_batch_seq v' = hd_batch_seq h'
    /\ cs_snapshot v' = cs_snapshot v
    /\ (hd_snapshot_id h' = hd_snapshot_id h /\ mi' = mi
        \/ exists sn, mi' = Some sn /\ sn_snapshot_id sn = hd_snapshot_id h').
Proof.
  intros v nh mi st' Hg. revert v nh mi st'.
  assert (Hone : forall h ws h', member_batch h ws h' -> forall v nh mi st',
    fold_writes (v, nh, mi) ws = Ok st' ->
    exists v' mi', st' = (v', Some (hd_snapshot_id h'), mi') /\ cs_batch_seq v' = hd_batch_seq h'
    /\ cs_snapshot v' = cs_snapshot v
    /\ (hd_snapshot_id h' = hd_snapshot_id h /\ mi' = mi
        \/ exists sn, mi' = Some sn /\ sn_snapshot_id sn = hd_snapshot_id h')).
  { intros h1 ws1 h2 Hm v nh mi st'. destruct (member_shape _ _ _ Hm) as (pre & -> & Hpre).
    rewrite fold_writes_app. intros (st & Hst & Hf)%bind_Ok.
    destruct Hpre as [[Hq Eid]|(pre' & sn & -> & Hq & Hu & Es)].
    - destruct (fold_quiet _ _ _ _ _ Hq Hst) as (v1 & -> & E1 & E2).
      rewrite fold_head in Hf. injection Hf as <-. do 2 eexists. split_and!; [done|done|done|]. auto.
    - rewrite fold_writes_app in Hst. apply bind_Ok in Hst as (st0 & Hst0 & Hst).
      destruct (fold_quiet _ _ _ _ _ Hq Hst0) as (v1 & -> & E1 & E2).
      rewrite fold_snapshot in Hst by done. injection Hst as <-. rewrite fold_head in Hf. injection Hf as <-. do 2 eexists. split_and!; [done|done|done|]. eauto. }
  induction Hg as [h ws h' Hm|h ws h' ws' h'' Hm Hg IH]; intros v nh mi st' Hf; [by eapply Hone|].
  rewrite fold_writes_app in Hf. apply bind_Ok in Hf as (st & Hst & Hf).
  destruct (Hone _ _ _ Hm _ _ _ _ Hst) as (v1 & mi1 & -> & Es1 & En1 & Hd1).
  destruct (IH _ _ _ _ Hf) as (v2 & mi2 & -> & Es2 & En2 & Hd2).
  exists v2, mi2. split_and!; [done|done|congruence|].
  destruct Hd2 as [[Ei ->]|?]; [|auto]. destruct Hd1 as [[Ei' ->]|(sn & -> & Es)]; [left; split; congruence|].
  right. exists sn. split; congruence.
Qed.

Lemma group_fold_view h ws h' v v' :
  group_batch h ws h' -> view_head v = h -> fold_batch v ws = Ok v' -> view_head v' = h'.
Proof.
  intros Hg Hv Hf. unfold fold_batch in Hf. apply bind_Ok in Hf as (st & Hst & Hf).
  destruct (group_fold _ _ _ _ _ _ _ Hg Hst) as (v1 & mi & -> & Es & En & Hd).
  destruct h as [hi hs], h' as [hi' hs']. unfold view_head in *. injection Hv as Ev Eb. cbn in *.
  destruct Hd as [[-> ->]|(sn & -> & Ei)].
  - injection Hf as <-. by rewrite En, Ev, Es.
  - rewrite (proj2 (N.eqb_eq _ _) Ei) in Hf. injection Hf as <-. cbn. by rewrite Ei, Es.
Qed.
End Shape.

(** ** Index entries are invisible to the projections *)

(** Index entries are staged on the transaction and left out of the writes the
    projections fold. *)
Definition not_index `{SK : Storekey} (w : StagedWrite) : bool :=
  match Key_decode w.1 with Ok (K_Index _) => false | _ => true end.

Section Invisible.
  Context `{SKL : StorekeyLaws, MSL : MessagesLaws}.

Lemma apply_writes_index ws : forall c, apply_writes (filter not_index ws) c = apply_writes ws c.
Proof.
  induction ws as [|w ws IH]; intros c; [done|]. rewrite filter_cons. case_decide as E.
  - cbn [apply_writes]. destruct (apply_write w c); [apply IH|done].
  - rewrite IH. cbn [apply_writes]. unfold apply_write. unfold not_index in E.
    destruct (Key_decode w.1) as [[]|]; try done; by destruct E.
Qed.

Lemma fold_writes_index ws : forall st, fold_writes st (filter not_index ws) = fold_writes st ws.
Proof.
  induction ws as [|w ws IH]; intros st; [done|]. rewrite filter_cons.
  change (w :: ws) with ([w] ++ ws). rewrite fold_writes_app. case_decide as E.
  - change (w :: filter not_index ws) with ([w] ++ filter not_index ws).
    rewrite fold_writes_app. destruct (fold_writes st [w]); [apply IH|done].
  - rewrite IH. destruct st as [[v nh] mi], w as [kb o]. cbn. unfold not_index in E. cbn in E.
    destruct (Key_decode kb) as [[]|]; try done; by destruct E.
Qed.

Lemma fold_batch_index v ws : fold_batch v (filter not_index ws) = fold_batch v ws.
Proof.
  unfold fold_batch. f_equal. exact (fold_writes_index ws (v, None, None)).
Qed.

Lemma head_stamp_index ws : head_stamp (filter not_index ws) = head_stamp ws.
Proof.
  unfold head_stamp. rewrite <-filter_reverse. induction (reverse ws) as [|[kb o] l IH]; [done|].
  rewrite filter_cons. case_decide as E; [cbn [find_head]; by rewrite IH|].
  cbn [find_head]. rewrite bool_decide_eq_false_2; [done|]. intros ->. apply E.
  unfold not_index. cbn. by rewrite Key_decode_encode.
Qed.

Lemma apply_batch_index ws n c : apply_batch (filter not_index ws) n c = apply_batch ws n c.
Proof. unfold apply_batch. by rewrite apply_writes_index, head_stamp_index. Qed.
End Invisible.

(** ** Readers, committers and the cache, interleaved *)

Inductive Capture : Type :=
| CapSnapshots (rows : list SnapshotValue)
| CapTableStats (rows : list TableStatsValue)
| CapColumnStats (rows : list TableColumnStatsValue)
| CapCurrent (records : list EntityRecord)
| CapHistory (records : list EntityRecord)
| CapView (epoch : N) (view : CatalogSnapshot).

(** The install a reader makes of what it captured. *)
Definition install_capture (head : HeadValue) (x : Capture) (c : ProjectionCache) : ProjectionCache :=
  match x with
  | CapSnapshots rows => install_snapshots head rows c
  | CapTableStats rows => install_table_stats head rows c
  | CapColumnStats rows => install_table_column_stats head rows c
  | CapCurrent records => install_current_entities head records c
  | CapHistory records => install_history_entities head records c
  | CapView epoch view => set_head_view_at epoch view c
  end.

(** The captures whose install stays folded forward. *)
Definition maintained (x : Capture) : bool :=
  match x with CapSnapshots _ | CapTableStats _ | CapColumnStats _ => true | _ => false end.

Section System.
  Context {D S : Type} `{DL : DatabaseLaws D S} `{KL : !KVLaws S, SKL : StorekeyLaws, MSL : MessagesLaws}.

(** What one consistent read of the store captures. *)
Definition captured (s : S) (head : HeadValue) (x : Capture) : Prop :=
  match x with
  | CapSnapshots rows => run s scan_snapshots = Ok rows
  | CapTableStats rows =>
      exists records, run s scan_current_entities = Ok records /\ rows = omap is_table_stats records
  | CapColumnStats rows =>
      exists records, run s scan_current_entities = Ok records /\ rows = omap is_column_stats records
  | CapCurrent records => run s scan_current_entities = Ok records
  | CapHistory records => run s scan_history_entities = Ok records
  | CapView _ view => view_head view = head /\ Represents view s
  end.

(** An open batch: its transaction and the head view it stages against. *)
Record OpenBatch : Type := mkOpenBatch {
  ob_tx : DbTransaction S;
  ob_base : CatalogSnapshot;
}.

Record System : Type := mkSystem {
  sy_db : D;
  sy_cache : ProjectionCache;
  sy_reads : list (HeadValue * Capture);
  sy_open : list OpenBatch;
}.

(** A reader captures at one state and installs at a later one; a maintained
    projection is installed only while the head it was read at still stands.  A
    batch opens at one state and commits at a later one, its write reporting
    success, a lost race, or a failure that left the store alone. *)
Inductive sys_step : System -> System -> Prop :=
| sys_read d c reads opened head x :
    run (db_state d) read_head = Ok (Some head) -> captured (db_state d) head x ->
    (forall epoch view, x = CapView epoch view -> epoch = pc_epoch c) ->
    sys_step (mkSystem d c reads opened) (mkSystem d c ((head, x) :: reads) opened)
| sys_install d c reads opened head x :
    (head, x) ∈ reads ->
    (maintained x = true -> run (db_state d) read_head = Ok (Some head)) ->
    sys_step (mkSystem d c reads opened) (mkSystem d (install_capture head x c) reads opened)
| sys_open_batch d c reads opened base :
    run (db_state d) read_head = Ok (Some (view_head base)) -> Represents base (db_state d) ->
    sys_step (mkSystem d c reads opened)
      (mkSystem d c reads (mkOpenBatch (db_begin d) base :: opened))
| sys_commit d c reads opened batch tx head fault landed d' c' :
    batch ∈ opened -> dt_start tx = dt_start (ob_tx batch) ->
    group_batch (view_head (ob_base batch)) (dt_writes tx) head ->
    (forall error, fault <> Failed error true) -> u64 (pc_epoch c + 2) ->
    commit_batch fault tx (hd_snapshot_id (view_head (ob_base batch))) (hd_snapshot_id head)
      (filter not_index (dt_writes tx)) (ob_base batch) d c = (landed, d', c') ->
    sys_step (mkSystem d c reads opened) (mkSystem d' c' reads opened).

#[export] Instance represents_proper v : Proper ((≡@{S}) ==> iff) (Represents v).
Proof.
  assert (Himp : forall s s', s ≡ s' -> Represents v s -> Represents v s').
  { intros s s' E Hr c. destruct (Hr c) as [H1 H2]. split; [done|].
    rewrite <-(E (Key_encode (K_Current c))). done. }
  intros s s' E. split; apply Himp; [done|by symmetry].
Qed.
#[export] Instance current_wf_proper : Proper ((≡@{S}) ==> iff) current_wf.
Proof.
  assert (Himp : forall s s', s ≡ s' -> current_wf s -> current_wf s').
  { intros s s' E Hr kb b. rewrite <-(E kb). apply Hr. }
  intros s s' E. split; apply Himp; [done|by symmetry].
Qed.
#[export] Instance snapshots_wf_proper : Proper ((≡@{S}) ==> iff) snapshots_wf.
Proof.
  assert (Himp : forall s s', s ≡ s' -> snapshots_wf s -> snapshots_wf s').
  { intros s s' E Hr kb b. rewrite <-(E kb). apply Hr. }
  intros s s' E. split; apply Himp; [done|by symmetry].
Qed.

(** *** The invariant *)

Definition stamped {K V} `{Countable K} (m : Maintained K V) (head : HeadValue) : Prop :=
  forall h, mt_head m = Some h -> h = head.

(** Read at this head, or at an older one that never comes back. *)
Definition dated (h head : HeadValue) (P : Prop) : Prop :=
  hd_batch_seq h <= hd_batch_seq head /\ (hd_batch_seq h = hd_batch_seq head -> h = head /\ P).

Definition half_ok (half : option (HeadValue * list EntityRecord)) (head : HeadValue)
    (read : Reader (list EntityRecord)) (s : S) : Prop :=
  forall h records, half = Some (h, records) -> dated h head (run s read = Ok records).

Definition read_ok (s : S) (head : HeadValue) (epoch : N) (r : HeadValue * Capture) : Prop :=
  match r.2 with
  | CapView e view => e <= epoch /\ (e = epoch -> view_head view = head /\ Represents view s)
  | x => dated r.1 head (captured s r.1 x)
  end.

Definition open_ok (d : D) (head : HeadValue) (b : OpenBatch) : Prop :=
  (dt_start (ob_tx b) <= db_seq d)%nat
  /\ (dt_start (ob_tx b) = db_seq d -> Represents (ob_base b) (db_state d) /\ view_head (ob_base b) = head)
  /\ (dt_start (ob_tx b) < db_seq d -> db_written d (dt_start (ob_tx b)) (Key_encode (K_Sys SK_Head)) = true)%nat.

Record cache_ok (s : S) (head : HeadValue) (c : ProjectionCache) : Prop := {
  co_tracking : tracking c s;
  co_snapshots : stamped (pc_snapshots c) head;
  co_table_stats : stamped (pc_table_stats c) head;
  co_column_stats : stamped (pc_table_column_stats c) head;
  co_current : half_ok (pc_current_entities c) head scan_current_entities s;
  co_history : half_ok (pc_history_entities c) head scan_history_entities s;
  co_view : forall v, pc_head_view c = Some v -> view_head v = head /\ Represents v s;
}.

Record coherent (y : System) (head : HeadValue) : Prop := {
  ch_head : run (db_state (sy_db y)) read_head = Ok (Some head);
  ch_current : current_wf (db_state (sy_db y));
  ch_snapshots : snapshots_wf (db_state (sy_db y));
  ch_cache : cache_ok (db_state (sy_db y)) head (sy_cache y);
  ch_reads : Forall (read_ok (db_state (sy_db y)) head (pc_epoch (sy_cache y))) (sy_reads y);
  ch_open : Forall (open_ok (sy_db y) head) (sy_open y);
}.

Lemma wrapping_succ_exact n : u64 (n + 1) -> wrapping_succ n = n + 1.
Proof. unfold wrapping_succ. intros H1. by apply N.mod_small. Qed.

(** The parts of a cache, under a change of its head view alone. *)
Lemma cache_ok_view s head c view epoch :
  cache_ok s head c -> (forall v, view = Some v -> view_head v = head /\ Represents v s) ->
  cache_ok s head (with_head_view view epoch c).
Proof. intros [] Hv. by split. Qed.

Lemma cache_ok_clear s head c : cache_ok s head c -> cache_ok s head (clear_head_view c).
Proof. intros Hc. by apply cache_ok_view. Qed.

Lemma install_ok s head c h x :
  current_wf s -> snapshots_wf s -> cache_ok s head c -> read_ok s head (pc_epoch c) (h, x) ->
  (maintained x = true -> h = head) -> cache_ok s head (install_capture h x c).
Proof.
  intros Hcw Hsw [Ht Hs1 Hs2 Hs3 Hcur Hhis Hv] Hr Hm. unfold read_ok in Hr. cbn [fst snd] in Hr.
  destruct Ht as (T1 & T2 & T3).
  destruct x as [rows|rows|rows|recs|recs|e view]; cbn [install_capture]; cbn [captured] in Hr.
  - rewrite (Hm eq_refl) in *. destruct Hr as [_ Hr]. destruct (Hr eq_refl) as [_ E].
    rewrite scan_snapshots_rows in E by done. injection E as <-. split; try done.
    + split_and!; try done. cbn. apply (install_rows emb_snapshot SnapshotSpace pick_snapshot);
        [by apply snapshots_wf_keyed|]. intros i v. by apply snapshot_rows_named.
    + by intros ? [= <-].
  - rewrite (Hm eq_refl) in *. destruct Hr as [_ Hr]. destruct (Hr eq_refl) as [_ (recs & E & ->)].
    rewrite (proj1 (scan_stats_rows s recs E)). split; try done.
    + split_and!; try done. cbn. apply (install_rows emb_table_stats CurrentSpace pick_table_stats);
        [by apply current_wf_keyed|]. intros i v. by apply table_stats_rows_named.
    + by intros ? [= <-].
  - rewrite (Hm eq_refl) in *. destruct Hr as [_ Hr]. destruct (Hr eq_refl) as [_ (recs & E & ->)].
    rewrite (proj2 (scan_stats_rows s recs E)). split; try done.
    + split_and!; try done. cbn. apply (install_rows emb_column_stats CurrentSpace pick_column_stats);
        [by apply current_wf_keyed|]. intros i v. by apply column_stats_rows_named.
    + by intros ? [= <-].
  - split; try done. by intros ?? [= <- <-].
  - split; try done. by intros ?? [= <- <-].
  - unfold set_head_view_at. destruct (N.eqb_spec (pc_epoch c) e) as [<-|]; [|by split].
    apply cache_ok_view; [by split|]. intros ? [= <-]. by apply Hr.
Qed.

Lemma install_epoch h x c : pc_epoch (install_capture h x c) = pc_epoch c.
Proof. destruct x; try done. cbn. unfold set_head_view_at. by case_match. Qed.

Lemma advance_stamped {K V} `{Countable K} (m : Maintained K V) head : stamped (advance head m) head.
Proof. intros h. unfold advance. destruct (mt_head m) eqn:E; cbn; congruence. Qed.

Lemma apply_batch_ok s c ws head head' :
  tracking c s -> group_batch head ws head' ->
  let c' := apply_batch ws (hd_snapshot_id head') c in
  tracking c' (kv_apply s ws) /\ stamped (pc_snapshots c') head' /\ stamped (pc_table_stats c') head'
  /\ stamped (pc_table_column_stats c') head' /\ pc_current_entities c' = None
  /\ pc_history_entities c' = None /\ pc_head_view c' = pc_head_view c /\ pc_epoch c' = pc_epoch c.
Proof.
  intros Ht Hg. destruct (group_wf _ _ _ Hg) as (Hw & _ & _ & _).
  destruct (apply_writes_tracking ws (with_entities None None c) s) as (c1 & E & T1 & T2 & T3);
    [by apply write_wf_keyed|done|].
  pose proof (apply_writes_rest ws (with_entities None None c)) as Hr. rewrite E in Hr. cbn in Hr.
  destruct Hr as (R1 & R2 & R3 & R4). unfold apply_batch.
  rewrite E, (group_head_stamp _ _ _ Hg), N.eqb_refl. cbn.
  split_and!; try apply advance_stamped; try done. split_and!; by apply tracks_advance.
Qed.

(** A batch that landed carries the cache to the state it left. *)
Lemma commit_cache_ok s s' c base head ws head' :
  cache_ok s head c -> Represents base s -> view_head base = head -> group_batch head ws head' ->
  s' ≡ kv_apply s ws -> u64 (pc_epoch c + 1) ->
  let c' := if hd_snapshot_id head <? hd_snapshot_id head'
    then refresh_head_view base ws (apply_batch ws (hd_snapshot_id head') c)
    else apply_batch ws (hd_snapshot_id head') (clear_head_view c) in
  cache_ok s' head' c' /\ pc_epoch c' = pc_epoch c + 1.
Proof.
  intros Hc Hb Hbh Hg Es Hu. destruct (group_wf _ _ _ Hg) as (Hw & _ & _ & _).
  assert (Hcache : forall c, cache_ok s head c -> (forall v, pc_head_view c = Some v -> False) ->
    cache_ok s' head' (apply_batch ws (hd_snapshot_id head') c)).
  { intros c0 [Ht _ _ _ _ _ _] Hnv.
    destruct (apply_batch_ok s c0 ws head head' Ht Hg) as (T & ? & ? & ? & E1 & E2 & E3 & _).
    split; try done; [by rewrite Es|by rewrite E1; intros ?? [=]|by rewrite E2; intros ?? [=]|].
    rewrite E3. intros v Hv. by destruct (Hnv v Hv). }
  destruct (apply_batch_ok s (clear_head_view c) ws head head') as (_ & _ & _ & _ & _ & _ & _ & Ee);
    [apply Hc|done|].
  destruct (hd_snapshot_id head <? hd_snapshot_id head').
  - destruct (fold_batch_represents base s ws Hb Hw) as (v & Ef & Hv).
    unfold refresh_head_view. rewrite Ef.
    destruct (apply_batch_ok s c ws head head') as (T & S1 & S2 & S3 & E1 & E2 & _ & Ee');
      [apply Hc|done|].
    split.
    + split; try done; [by rewrite Es|by cbn; rewrite E1; intros ?? [=]|by cbn; rewrite E2; intros ?? [=]|].
      cbn. intros ? [= <-]. split; [by eapply group_fold_view|]. by rewrite Es.
    + cbn. by rewrite Ee', wrapping_succ_exact.
  - split; [|rewrite Ee; cbn; by rewrite wrapping_succ_exact].
    apply Hcache; [by apply cache_ok_clear|done].
Qed.

Lemma reads_older s s' head head' epoch epoch' reads :
  hd_batch_seq head < hd_batch_seq head' -> epoch < epoch' ->
  Forall (read_ok s head epoch) reads -> Forall (read_ok s' head' epoch') reads.
Proof.
  intros Hh He Hr. eapply Forall_impl; [exact Hr|]. intros [h x]. unfold read_ok. cbn.
  destruct x; unfold dated; intros [??]; split; lia.
Qed.

Lemma reads_epoch s head epoch epoch' reads :
  epoch <= epoch' -> Forall (read_ok s head epoch) reads -> Forall (read_ok s head epoch') reads.
Proof.
  intros He Hr. eapply Forall_impl; [exact Hr|]. intros [h x]. unfold read_ok. cbn.
  destruct x; try done. intros [? Hx]. split; [lia|]. intros ->. apply Hx. lia.
Qed.

(** A transaction that commits without a conflict committed onto the state it began
    at: every batch since would have written the head. *)
Lemma no_conflict_current d head b tx h ws h' :
  open_ok d head b -> dt_start tx = dt_start (ob_tx b) -> group_batch h ws h' -> dt_writes tx = ws ->
  db_conflict d tx = false -> dt_start (ob_tx b) = db_seq d.
Proof.
  intros (Hle & _ & Hw) Es Hg Ew Hc. destruct (decide (dt_start (ob_tx b) = db_seq d)) as [|Hne]; [done|].
  exfalso. destruct (group_last _ _ _ Hg) as [pre Ep]. apply not_true_iff_false in Hc. apply Hc.
  unfold db_conflict. apply existsb_exists. exists (Key_encode (K_Sys SK_Head), Some (encode_value h')).
  rewrite Ew, Ep, Es. split; [|apply Hw; cbn; lia].
  apply in_or_app. right. by left.
Qed.

Lemma open_older d head head' h ws h' opened :
  group_batch h ws h' -> Forall (open_ok d head) opened ->
  Forall (open_ok (db_apply d ws) head') opened.
Proof.
  intros [pre ->]%group_last Ho. eapply Forall_impl; [exact Ho|]. intros b (Hle & _ & Hw).
  unfold open_ok. rewrite db_seq_apply. split_and!; [lia|lia|]. intros _.
  rewrite db_written_apply by done. apply orb_true_iff. right. apply bool_decide_eq_true.
  rewrite last_write_snoc, decide_True by done. eauto.
Qed.

(** A commit attempt, whatever its outcome. *)
Lemma commit_coherent d c reads opened head b tx head' fault landed d' c' :
  coherent (mkSystem d c reads opened) head -> b ∈ opened -> dt_start tx = dt_start (ob_tx b) ->
  group_batch (view_head (ob_base b)) (dt_writes tx) head' ->
  (forall error, fault <> Failed error true) -> u64 (pc_epoch c + 2) ->
  commit_batch fault tx (hd_snapshot_id (view_head (ob_base b))) (hd_snapshot_id head')
    (filter not_index (dt_writes tx)) (ob_base b) d c = (landed, d', c') ->
  exists head'', coherent (mkSystem d' c' reads opened) head''.
Proof.
  intros [Hh Hcw Hsw Hc Hr Ho] Hb Es Hg Hf Hu E. cbn [sy_db sy_cache sy_reads sy_open] in *. unfold commit_batch, commit_durable in E.
  assert (Hb' : open_ok d head b) by (rewrite Forall_forall in Ho; by apply Ho).
  assert (Hu1 : u64 (pc_epoch c + 1)) by (unfold u64 in *; lia).
  set (adv := hd_snapshot_id (view_head (ob_base b)) <? hd_snapshot_id head') in *.
  assert (Hkeep : forall c1, cache_ok (db_state d) head c1 -> pc_epoch c <= pc_epoch c1 ->
    coherent (mkSystem d c1 reads opened) head).
  { intros c1 Hc1 He. split; try done. cbn. by eapply reads_epoch. }
  assert (Hclr : cache_ok (db_state d) head (if adv then c else clear_head_view c)
    /\ pc_epoch c <= pc_epoch (if adv then c else clear_head_view c) <= pc_epoch c + 1).
  { destruct adv; [split; [done|lia]|]. split; [by apply cache_ok_clear|].
    cbn. rewrite wrapping_succ_exact by done. lia. }
  destruct Hclr as [Hclr He].
  destruct (db_conflict d tx) eqn:Ec; [injection E as <- <- <-; exists head; apply Hkeep; [done|lia]|].
  pose proof (no_conflict_current _ _ _ _ _ _ _ Hb' Es Hg eq_refl Ec) as Hnow.
  destruct Hb' as (_ & Hbase & _). destruct (Hbase Hnow) as [Hrep Hbh].
  destruct fault as [|error []]; [|by destruct (Hf error)|].
  - injection E as <- <- <-. exists head'. rewrite Hbh in Hg.
    destruct (group_wf _ _ _ Hg) as (Hw & Hn & Hseq & _).
    destruct (commit_cache_ok (db_state d) (db_state (db_apply d (dt_writes tx))) c (ob_base b) head
      (dt_writes tx) head') as [Hc' Hep]; try done; [apply db_state_apply|].
    assert (Ecache : (if adv then refresh_head_view (ob_base b) (filter not_index (dt_writes tx))
        (apply_batch (filter not_index (dt_writes tx)) (hd_snapshot_id head') (if adv then c else clear_head_view c))
      else apply_batch (filter not_index (dt_writes tx)) (hd_snapshot_id head') (if adv then c else clear_head_view c))
      = if hd_snapshot_id head <? hd_snapshot_id head'
        then refresh_head_view (ob_base b) (dt_writes tx) (apply_batch (dt_writes tx) (hd_snapshot_id head') c)
        else apply_batch (dt_writes tx) (hd_snapshot_id head') (clear_head_view c)).
    { unfold adv. rewrite Hbh, apply_batch_index. unfold refresh_head_view.
      rewrite fold_batch_index. by destruct (hd_snapshot_id head <? hd_snapshot_id head'). }
    rewrite Ecache. split; cbn.
    + rewrite db_state_apply. by eapply group_head.
    + rewrite db_state_apply. by apply current_wf_apply.
    + rewrite db_state_apply. by apply snapshots_wf_apply.
    + done.
    + eapply reads_older; [exact Hseq| |exact Hr]. rewrite Hep. lia.
    + by eapply open_older.
  - injection E as <- <- <-. exists head. apply Hkeep; [by apply cache_ok_clear|].
    cbn. rewrite wrapping_succ_exact; [lia|]. unfold u64 in *. lia.
Qed.

Lemma step_coherent y y' head :
  coherent y head -> sys_step y y' -> exists head', coherent y' head'.
Proof.
  intros Hy Hst. destruct Hst as [d c reads opened h x Hh Hx He|d c reads opened h x Hx Hm|
    d c reads opened base Hh Hb|d c reads opened b tx h fault landed d' c' Hb Es Hg Hf Hu E].
  - exists head. destruct Hy as [Hh' Hcw Hsw Hc Hr Ho]. cbn in *.
    rewrite Hh in Hh'. injection Hh' as ->. split; try done. cbn. constructor; [|done].
    unfold read_ok. cbn [fst snd]. destruct x as [| | | | |e v]; try done.
    rewrite (He e v eq_refl). split; [lia|done].
  - exists head. destruct Hy as [Hh' Hcw Hsw Hc Hr Ho]. cbn in *. split; try done.
    + apply install_ok; try done; [by rewrite Forall_forall in Hr; apply Hr|].
      intros Hx'. specialize (Hm Hx'). congruence.
    + cbn. by rewrite install_epoch.
  - exists head. destruct Hy as [Hh' Hcw Hsw Hc Hr Ho]. cbn in *.
    rewrite Hh in Hh'. injection Hh' as <-. split; try done. cbn. constructor; [|done].
    unfold open_ok. cbn. split_and!; [lia|done|lia].
  - by eapply commit_coherent.
Qed.

Lemma run_coherent y y' head :
  coherent y head -> rtc sys_step y y' -> exists head', coherent y' head'.
Proof.
  intros Hy Hr. revert head Hy. induction Hr as [|y1 y2 y3 Hst _ IH]; intros head Hy; [eauto|].
  destruct (step_coherent _ _ _ Hy Hst) as [head2 Hy2]. by eapply IH.
Qed.
End System.


(** *** A database kept as its log *)

Record LogDb : Type := mkLogDb { ld_state : gmap bytes bytes; ld_log : list (list StagedWrite) }.

#[export] Instance log_database : Database LogDb (gmap bytes bytes) := {|
  db_state := ld_state;
  db_seq d := length (ld_log d);
  db_written d n k := existsb (fun ws => bool_decide (is_Some (last_write ws k))) (drop n (ld_log d));
  db_apply d ws := mkLogDb (kv_apply (ld_state d) ws) (ld_log d ++ [ws]);
|}.

#[export] Instance log_database_laws : DatabaseLaws LogDb (gmap bytes bytes).
Proof.
  split.
  - done.
  - intros d ws. cbn. rewrite length_app. cbn. lia.
  - intros d k. cbn. by rewrite drop_all.
  - intros d ws n k Hn. cbn. rewrite drop_app_le by done. rewrite existsb_app. cbn.
    by rewrite orb_false_r.
Qed.

#[local] Existing Instances reference_storekey reference_storekey_laws reference_messages
  reference_messages_laws.

Definition db0 : LogDb := mkLogDb store0 [].
Definition mint_at (id : N) : list StagedWrite :=
  mint_batch (mkHeadValue id id) [] (mkSnapshotValue (id + 1) 0 1 2 0 "" None None None [] []).
Definition rows0 : list SnapshotValue :=
  match run store0 scan_snapshots with Ok rows => rows | Err _ => [] end.
Definition open0 : OpenBatch := mkOpenBatch (db_begin db0) view0.
Definition tx0 : DbTransaction (gmap bytes bytes) := kv_apply (db_begin db0) (mint_at 0).
Definition cache1 : ProjectionCache :=
  refresh_head_view view0 (mint_at 0)
    (apply_batch (mint_at 0) 1 (install_snapshots (mkHeadValue 0 0) rows0 ProjectionCache_empty)).

Lemma store0_snapshots_wf : snapshots_wf store0.
Proof.
  apply snapshots_wf_apply; [by intros kb b|by apply bootstrap_wf|].
  unfold stage_bootstrap. repeat apply Forall_cons_2; try apply Forall_nil_2.
  - by apply other_named.
  - match goal with |- snapshot_named (_, Some (encode_value ?v)) => pose proof (record_named v) as Hv end.
    by apply Hv.
  - apply (other_named (Key_current _)); by repeat constructor.
  - apply (other_named (Key_current _)); by repeat constructor.
  - by apply other_named.
Qed.


(** *** An install that lands after a commit *)

Definition store_after (n : nat) : gmap bytes bytes :=
  match n with O => store0 | 1%nat => kv_apply store0 (mint_at 0)
  | _ => kv_apply (kv_apply store0 (mint_at 0)) (mint_at 1) end.

(** A reader scans the snapshots at head 0, snapshot 1 commits while no projection is
    installed to fold it into, the reader installs its rows at head 0, and the commit
    of snapshot 2 folds its record in and stamps the projection with head 2: served at
    the head the store stands at, it lacks snapshot 1. *)
Theorem stale_install_served :
  let rows1 := mkSnapshotValue 1 0 1 2 0 "" None None None [] [] in
  let rows2 := mkSnapshotValue 2 0 1 2 0 "" None None None [] [] in
  let c := apply_batch (mint_at 1) 2
    (install_snapshots (mkHeadValue 0 0) rows0 (apply_batch (mint_at 0) 1 ProjectionCache_empty)) in
  run store0 scan_snapshots = Ok rows0 /\ run (store_after 2) read_head = Ok (Some (mkHeadValue 2 2))
  /\ snapshots_at (mkHeadValue 2 2) c = Some (rows0 ++ [rows2])
  /\ run (store_after 2) scan_snapshots = Ok (rows0 ++ [rows1; rows2]).
Proof. vm_compute. split_and!; reflexivity. Qed.
