(* ===== verification/Verbs.v ===== *)
(** The mutation handle of a commit closure ([transaction/verbs.rs]), with the type
    policies it enforces ([catalog/index_policy.rs], [catalog/inline_policy.rs]).

    A verb is a program over the transaction that keeps what it staged when it
    fails: an error a closure swallows leaves that staging in place, so the state is
    threaded through both outcomes.  Fresh uuids are arguments. *)
From stdpp Require Import gmap strings list fin_maps sorting.
From Stdlib Require Import NArith ZArith Lia.
From S2P Require Import Prelude Storekey KeyLayout IndexEncoding Operations Values Snapshot Catalog Store Inline IndexMaintenance.

Local Open Scope N_scope.

(** ** Public arguments ([catalog/types.rs]) *)

Inductive ColumnDef : Type := mkColumnDef {
  cd_name : string;
  cd_column_type : string;
  cd_nulls_allowed : bool;
  cd_default_value : option string;
  cd_children : list ColumnDef;
}.
Record ColumnAlteration : Type := mkColumnAlteration {
  ca_column_type : option string;
  ca_nulls_allowed : option bool;
  ca_default_value : option (option string);
}.
Record ColumnOrder : Type := mkColumnOrder { co_direction : Direction; co_nulls : NullOrder }.
Record IndexDef : Type := mkIndexDef {
  id_name : string; id_columns : list N; id_unique : bool }.
Record IndexEntry : Type := mkIndexEntry {
  ie_row_id : N; ie_values : list (option IndexKeyValue) }.
Record FileIndexEntry : Type := mkFileIndexEntry {
  fie_index : N; fie_ordinal : N; fie_values : list (option IndexKeyValue) }.
Record FileIndexRemoval : Type := mkFileIndexRemoval {
  fir_index : N; fir_row_id : N; fir_values : list (option IndexKeyValue) }.
Record FileColumnStats : Type := mkFileColumnStats {
  fs_column_id : N; fs_column_size_bytes : N; fs_value_count : N; fs_null_count : N;
  fs_min_value : option string; fs_max_value : option string; fs_contains_nan : option bool;
  fs_extra_stats : option string }.
Record DataFile : Type := mkDataFile {
  fl_path : string; fl_path_is_relative : bool; fl_file_format : string; fl_record_count : N;
  fl_file_size_bytes : N; fl_footer_size : N; fl_encryption_key : option string;
  fl_column_stats : list FileColumnStats; fl_partition_values : list string }.
Record DeleteFile : Type := mkDeleteFile {
  dx_data_file_id : N; dx_path : string; dx_path_is_relative : bool; dx_format : string;
  dx_delete_count : N; dx_file_size_bytes : N; dx_footer_size : N;
  dx_encryption_key : option string }.
Record InlineChunk : Type := mkInlineChunk {
  ic_schema_version : N; ic_arrow_schema : bytes; ic_arrow_body : bytes; ic_row_count : N }.
Record FlushedDataFile : Type := mkFlushedDataFile {
  ff_file : DataFile; ff_row_id_start : N; ff_begin_snapshot : N; ff_partial_max : option N }.
Inductive TagTarget : Type := TagSchema (id : N) | TagTable (id : N) | TagView (id : N).

(** [TagTarget::object_id]. *)
Definition object_id (t : TagTarget) : N :=
  match t with TagSchema id | TagTable id | TagView id => id end.

(** ** Type policies *)

(** The UTF-8 encodings of the Unicode [White_Space] characters. *)
Definition WHITE_SPACE : list (list N) :=
  map (fun n => [n]) [9; 10; 11; 12; 13; 32]
  ++ [[194; 133]; [194; 160]; [225; 154; 128]; [226; 128; 168]; [226; 128; 169]; [226; 128; 175];
      [226; 129; 159]; [227; 128; 128]]
  ++ map (fun n => [226; 128; n]) [128; 129; 130; 131; 132; 133; 134; 135; 136; 137; 138].

Definition codes (s : string) : list N := map Ascii.N_of_ascii (String.list_ascii_of_string s).
Definition of_codes (l : list N) : string := String.string_of_list_ascii (map Ascii.ascii_of_N l).

(** The length of the white space a string opens with, if any. *)
Definition opening_space (l : list N) : option nat :=
  length <$> List.find (fun ws => bool_decide (take (length ws) l = ws)) WHITE_SPACE.

Fixpoint trim_start (fuel : nat) (l : list N) : list N :=
  match fuel with
  | O => l
  | S fuel => match opening_space l with Some n => trim_start fuel (drop n l) | None => l end
  end.
Fixpoint trim_end (fuel : nat) (l : list N) : list N :=
  match fuel with
  | O => l
  | S fuel =>
      match List.find (fun ws => bool_decide (drop (length l - length ws) l = ws)) WHITE_SPACE with
      | Some ws => trim_end fuel (take (length l - length ws) l)
      | None => l
      end
  end.

(** [str::trim]: each round drops at least one byte. *)
Definition trim (l : list N) : list N :=
  let l := trim_start (length l) l in trim_end (length l) l.

Definition to_ascii_uppercase (c : N) : N := if (97 <=? c) && (c <=? 122) then c - 32 else c.

Fixpoint before_paren (l : list N) : list N :=
  match l with [] => [] | c :: l => if c =? 40 then [] else c :: before_paren l end.

(** [ducklake_base_type]. *)
Definition ducklake_base_type (column_type : string) : string :=
  of_codes (map to_ascii_uppercase (trim (before_paren (codes column_type)))).

Definition ensure_inlinable (column_name column_type : string) : result unit :=
  fail_if (bool_decide (ducklake_base_type column_type = "VARIANT")) Unsupported.
Definition ensure_indexable (column_name column_type : string) : result unit :=
  fail_if (bool_decide (ducklake_base_type column_type
    ∈ ["HUGEINT"; "UHUGEINT"; "INT128"; "UINT128"]%string)) Constraint.

(** ** The transaction *)

Record Transaction : Type := mkTransaction {
  tx_state : CatalogSnapshot;
  tx_ops : list Operation;
  tx_index_entries : list StagedIndexEntry;
  tx_inline_ops : list InlineStage;
  tx_chunk_seqs : gmap (N * N) N;
  tx_inherited_row_ids : gmap N N;
  tx_next_catalog_id : N;
  tx_next_file_id : N;
  tx_new_snapshot_id : N;
}.

Record TransactionParts : Type := mkTransactionParts {
  tp_operations : list Operation;
  tp_index_entries : list StagedIndexEntry;
  tp_inline_ops : list InlineStage;
  tp_state : CatalogSnapshot;
  tp_next_catalog_id : N;
  tp_next_file_id : N;
}.

(** [Transaction::new], [Transaction::into_parts]. *)
Definition Transaction_new (state : CatalogSnapshot) (new_snapshot_id : N) : Transaction :=
  mkTransaction state [] [] [] ∅ ∅ (sn_next_catalog_id (cs_snapshot state))
    (sn_next_file_id (cs_snapshot state)) new_snapshot_id.
Definition into_parts (t : Transaction) : TransactionParts :=
  mkTransactionParts (tx_ops t) (tx_index_entries t) (tx_inline_ops t) (tx_state t)
    (tx_next_catalog_id t) (tx_next_file_id t).

Definition on_state (f : CatalogSnapshot -> CatalogSnapshot) (t : Transaction) : Transaction :=
  mkTransaction (f (tx_state t)) (tx_ops t) (tx_index_entries t) (tx_inline_ops t) (tx_chunk_seqs t)
    (tx_inherited_row_ids t) (tx_next_catalog_id t) (tx_next_file_id t) (tx_new_snapshot_id t).
Definition push_op (op : Operation) (t : Transaction) : Transaction :=
  mkTransaction (tx_state t) (tx_ops t ++ [op]) (tx_index_entries t) (tx_inline_ops t) (tx_chunk_seqs t)
    (tx_inherited_row_ids t) (tx_next_catalog_id t) (tx_next_file_id t) (tx_new_snapshot_id t).
Definition push_entry (entry : StagedIndexEntry) (t : Transaction) : Transaction :=
  mkTransaction (tx_state t) (tx_ops t) (tx_index_entries t ++ [entry]) (tx_inline_ops t)
    (tx_chunk_seqs t) (tx_inherited_row_ids t) (tx_next_catalog_id t) (tx_next_file_id t)
    (tx_new_snapshot_id t).
Definition push_inline (op : InlineStage) (t : Transaction) : Transaction :=
  mkTransaction (tx_state t) (tx_ops t) (tx_index_entries t) (tx_inline_ops t ++ [op])
    (tx_chunk_seqs t) (tx_inherited_row_ids t) (tx_next_catalog_id t) (tx_next_file_id t)
    (tx_new_snapshot_id t).
Definition with_chunk_seqs (seqs : gmap (N * N) N) (t : Transaction) : Transaction :=
  mkTransaction (tx_state t) (tx_ops t) (tx_index_entries t) (tx_inline_ops t) seqs
    (tx_inherited_row_ids t) (tx_next_catalog_id t) (tx_next_file_id t) (tx_new_snapshot_id t).
Definition with_inherited (rows : gmap N N) (t : Transaction) : Transaction :=
  mkTransaction (tx_state t) (tx_ops t) (tx_index_entries t) (tx_inline_ops t) (tx_chunk_seqs t)
    rows (tx_next_catalog_id t) (tx_next_file_id t) (tx_new_snapshot_id t).
Definition with_ids (next_catalog_id next_file_id : N) (t : Transaction) : Transaction :=
  mkTransaction (tx_state t) (tx_ops t) (tx_index_entries t) (tx_inline_ops t) (tx_chunk_seqs t)
    (tx_inherited_row_ids t) next_catalog_id next_file_id (tx_new_snapshot_id t).

(** *** The verb monad *)

Definition Verb (A : Type) : Type := Transaction -> result A * Transaction.

#[export] Instance verb_ret : MRet Verb := fun A a t => (Ok a, t).
#[export] Instance verb_bind : MBind Verb := fun A B f m t =>
  match m t with (Ok a, t) => f a t | (Err e, t) => (Err e, t) end.

Definition v_get {A} (f : Transaction -> A) : Verb A := fun t => (Ok (f t), t).
Definition v_check (f : Transaction -> result unit) : Verb unit := fun t => (f t, t).
Definition v_read {A} (f : Transaction -> result A) : Verb A := fun t => (f t, t).
Definition v_do (f : Transaction -> Transaction) : Verb unit := fun t => (Ok tt, f t).
Definition v_state (f : CatalogSnapshot -> CatalogSnapshot) : Verb unit := v_do (on_state f).
Definition v_op (op : Operation) : Verb unit := v_do (push_op op).
Definition v_guard (c : bool) (e : Error) : Verb unit := fun t => (fail_if c e, t).

Fixpoint v_for {A} (l : list A) (f : A -> Verb unit) : Verb unit :=
  match l with [] => mret tt | x :: l => _ ← f x; v_for l f end.

Definition alloc_catalog_id : Verb N := fun t =>
  let id := tx_next_catalog_id t in
  (Ok id, with_ids (wrapping_add id 1) (tx_next_file_id t) t).
Definition alloc_file_id : Verb N := fun t =>
  let id := tx_next_file_id t in
  (Ok id, with_ids (tx_next_catalog_id t) (wrapping_add id 1) t).

(** ** Names *)

Definition nonempty_name (name : string) : result unit :=
  fail_if (bool_decide (name = ""%string)) Constraint.
Definition path_safe_name (name : string) : result unit :=
  _ ← nonempty_name name;
  fail_if (existsb (fun c => (c =? 47) || (c =? 92)) (codes name)
    || bool_decide (name = ".") || bool_decide (name = "..")) Constraint.

Definition live_table (table : N) (t : Transaction) : result TableValue :=
  ok_or NotFound (cs_tables (tx_state t) !! table).

(** Tables and views share one name namespace per schema. *)
Definition relation_name_free (schema_id : N) (name : string) (t : Transaction) : result unit :=
  fail_if (bool_decide (is_Some (scoped_name (cs_table_names (tx_state t)) schema_id name))
    || bool_decide (is_Some (scoped_name (cs_view_names (tx_state t)) schema_id name))) AlreadyExists.

Definition schema_live (schema : N) (t : Transaction) : bool :=
  bool_decide (is_Some (cs_schemas (tx_state t) !! schema)).

Definition mark_altered (table_id : N) : Verb unit := v_op (AlterTable table_id).

(** ** Schemas *)

Definition create_schema (uuid name : string) : Verb N :=
  _ ← v_check (fun _ => path_safe_name name);
  _ ← v_check (fun t => fail_if (bool_decide (is_Some (cs_schema_names (tx_state t) !! name))) AlreadyExists);
  schema_id ← alloc_catalog_id;
  begin ← v_get tx_new_snapshot_id;
  _ ← v_state (put_schema (mkSchemaValue schema_id uuid begin None name (name ++ "/") true));
  _ ← v_op (CreateSchema schema_id name);
  mret schema_id.

Definition drop_schema (schema : N) : Verb unit :=
  _ ← v_guard (schema =? 0) Constraint;
  _ ← v_check (fun t => fail_if (negb (schema_live schema t)) NotFound);
  _ ← v_check (fun t => fail_if
        (existsb (fun v => tv_schema_id v =? schema) (btree_values (cs_tables (tx_state t)))
         || existsb (fun v => vv_schema_id v =? schema) (btree_values (cs_views (tx_state t)))
         || existsb (fun v => mv_schema_id v =? schema) (btree_values (cs_macros (tx_state t)))) Constraint);
  _ ← v_state (delete_schema schema);
  v_op (DropSchema schema).

(** ** Tables and columns *)

Definition new_column (table_id column_id column_order begin_snapshot : N) (parent_column : option N)
    (def : ColumnDef) : ColumnValue :=
  mkColumnValue column_id begin_snapshot None table_id column_order (cd_name def) (cd_column_type def)
    None (cd_default_value def) (cd_nulls_allowed def) parent_column None None [].

(** [validate_column_defs]: [seen] collects the names of one level. *)
Definition validate_level (validate_children : ColumnDef -> result unit)
  : list ColumnDef -> gset string -> result unit :=
  fix validate (defs : list ColumnDef) (seen : gset string) : result unit :=
    match defs with
    | [] => Ok tt
    | def :: defs =>
        _ ← nonempty_name (cd_name def);
        _ ← ensure_inlinable (cd_name def) (cd_column_type def);
        _ ← fail_if (bool_decide (cd_name def ∈ seen)) Constraint;
        _ ← validate_children def;
        validate defs ({[cd_name def]} ∪ seen)
    end.
Fixpoint validate_children (def : ColumnDef) : result unit :=
  validate_level validate_children (cd_children def) ∅.
Definition validate_column_defs (defs : list ColumnDef) : result unit :=
  validate_level validate_children defs ∅.

(** [column_node_count]. *)
Fixpoint column_nodes (def : ColumnDef) : N :=
  wrapping_add 1 (foldr wrapping_add 0 (map column_nodes (cd_children def))).
Definition column_node_count (defs : list ColumnDef) : N :=
  foldr wrapping_add 0 (map column_nodes defs).

(** [stage_column_tree], over the state and the two counters; the id it returns is
    the first counter's value. *)
Fixpoint stage_column_tree (table_id begin : N) (def : ColumnDef) (parent_column : option N)
    (st : CatalogSnapshot * N * N) : CatalogSnapshot * N * N :=
  let '(state, next_id, next_order) := st in
  fold_left (fun st child => stage_column_tree table_id begin child (Some next_id) st) (cd_children def)
    (put_column (new_column table_id next_id next_order begin parent_column def) state,
     wrapping_add next_id 1, wrapping_add next_order 1).

Definition create_table (uuid : string) (schema : N) (name : string) (columns : list ColumnDef) : Verb N :=
  _ ← v_check (fun t => fail_if (negb (schema_live schema t)) NotFound);
  _ ← v_check (fun _ => path_safe_name name);
  _ ← v_check (relation_name_free schema name);
  _ ← v_guard (bool_decide (columns = [])) Constraint;
  _ ← v_check (fun _ => validate_column_defs columns);
  table_id ← alloc_catalog_id;
  begin ← v_get tx_new_snapshot_id;
  _ ← v_state (put_table (mkTableValue table_id uuid begin None schema name (name ++ "/") true
        (wrapping_add (column_node_count columns) 1)));
  _ ← v_state (fun state => (fold_left (fun st def => stage_column_tree table_id begin def None st)
        columns (state, 1, 1)).1.1);
  _ ← v_state (put_table_stats (mkTableStatsValue table_id 0 0 0));
  schema_name ← v_get (fun t => match cs_schemas (tx_state t) !! schema with
                               | Some v => sv_schema_name v | None => ""%string end);
  _ ← v_op (CreateTable schema table_id schema_name name);
  mret table_id.

Definition rename_table (table : N) (new_name : string) : Verb unit :=
  _ ← v_check (fun _ => path_safe_name new_name);
  value ← v_read (live_table table);
  _ ← v_check (relation_name_free (tv_schema_id value) new_name);
  begin ← v_get tx_new_snapshot_id;
  _ ← v_state (put_table (mkTableValue (tv_table_id value) (tv_table_uuid value) begin
        (tv_end_snapshot value) (tv_schema_id value) new_name (tv_path value) (tv_path_is_relative value)
        (tv_next_column_id value)));
  mark_altered table.

Definition set_table_schema (table new_schema : N) : Verb unit :=
  _ ← v_check (fun t => fail_if (negb (schema_live new_schema t)) NotFound);
  value ← v_read (live_table table);
  _ ← v_check (relation_name_free new_schema (tv_table_name value));
  begin ← v_get tx_new_snapshot_id;
  _ ← v_state (put_table (mkTableValue (tv_table_id value) (tv_table_uuid value) begin
        (tv_end_snapshot value) new_schema (tv_table_name value) (tv_path value)
        (tv_path_is_relative value) (tv_next_column_id value)));
  mark_altered table.

Definition drop_table (table : N) : Verb unit :=
  _ ← v_read (live_table table);
  _ ← v_state (delete_table table);
  v_op (DropTable table).

Definition table_columns (table : N) (t : Transaction) : gmap N ColumnValue :=
  default ∅ (cs_columns (tx_state t) !! table).

Definition live_column (table column : N) (t : Transaction) : result ColumnValue :=
  ok_or NotFound (table_columns table t !! column).

Definition column_is_indexed (table column : N) (t : Transaction) : bool :=
  existsb (fun index => bool_decide (column ∈ xv_column_ids index))
    (btree_values (default ∅ (cs_indexes (tx_state t) !! table))).

Definition sibling_name_free (table : N) (parent : option N) (name : string) (t : Transaction)
  : result unit :=
  fail_if (existsb (fun c => bool_decide (cv_parent_column c = parent)
                             && bool_decide (cv_column_name c = name))
             (btree_values (table_columns table t))) AlreadyExists.

(** The greatest of a list, if it has any. *)
Definition max_of (l : list N) : option N :=
  match l with [] => None | n :: l => Some (foldl N.max n l) end.

Definition add_column (table : N) (def : ColumnDef) : Verb N :=
  _ ← v_check (fun _ => validate_column_defs [def]);
  value ← v_read (live_table table);
  _ ← v_check (sibling_name_free table None (cd_name def));
  live_max_id ← v_get (fun t => default 0 (max_of (btree_keys (table_columns table t))));
  let next_id := N.max (tv_next_column_id value) (wrapping_add live_max_id 1) in
  next_order ← v_get (fun t =>
    match max_of (map cv_column_order (btree_values (table_columns table t))) with
    | Some max => wrapping_add max 1 | None => 1 end);
  begin ← v_get tx_new_snapshot_id;
  staged ← v_get (fun t => stage_column_tree table begin def None (tx_state t, next_id, next_order));
  _ ← v_state (fun _ => staged.1.1);
  _ ← v_state (put_table (mkTableValue (tv_table_id value) (tv_table_uuid value) begin
        (tv_end_snapshot value) (tv_schema_id value) (tv_table_name value) (tv_path value)
        (tv_path_is_relative value) staged.1.2));
  _ ← mark_altered table;
  mret next_id.

Definition rename_column (table column : N) (new_name : string) : Verb unit :=
  _ ← v_check (fun _ => nonempty_name new_name);
  current ← v_read (live_column table column);
  _ ← v_check (sibling_name_free table (cv_parent_column current) new_name);
  begin ← v_get tx_new_snapshot_id;
  _ ← v_state (put_column (mkColumnValue (cv_column_id current) begin (cv_end_snapshot current)
        (cv_table_id current) (cv_column_order current) new_name (cv_column_type current)
        (cv_initial_default current) (cv_default_value current) (cv_nulls_allowed current)
        (cv_parent_column current) (cv_default_value_type current)
        (cv_default_value_dialect current) (cv_tags current)));
  mark_altered table.

Definition alter_column (table column : N) (alteration : ColumnAlteration) : Verb unit :=
  value ← v_read (live_column table column);
  _ ← v_check (fun _ => match ca_column_type alteration with
                        | Some new_type => ensure_inlinable (cv_column_name value) new_type
                        | None => Ok tt end);
  _ ← v_check (fun t => fail_if (bool_decide (is_Some (ca_column_type alteration))
                                 && column_is_indexed table column t) Constraint);
  begin ← v_get tx_new_snapshot_id;
  _ ← v_state (put_column (mkColumnValue (cv_column_id value) begin (cv_end_snapshot value)
        (cv_table_id value) (cv_column_order value) (cv_column_name value)
        (default (cv_column_type value) (ca_column_type alteration)) (cv_initial_default value)
        (default (cv_default_value value) (ca_default_value alteration))
        (default (cv_nulls_allowed value) (ca_nulls_allowed alteration))
        (cv_parent_column value) (cv_default_value_type value)
        (cv_default_value_dialect value) (cv_tags value)));
  mark_altered table.

(** The worklist of [column_subtree]; [None] when the fuel runs out. *)
Fixpoint subtree_loop (fuel : nat) (columns : gmap N ColumnValue) (subtree : list N) (at_ : nat)
  : option (list N) :=
  match subtree !! at_ with
  | None => Some subtree
  | Some parent =>
      match fuel with
      | O => None
      | S fuel =>
          subtree_loop fuel columns
            (subtree ++ map cv_column_id
               (List.filter (fun c => bool_decide (cv_parent_column c = Some parent)) (btree_values columns)))
            (S at_)
      end
  end.

(** [column_subtree]; one round per live column and one for the root. *)
Definition column_subtree (table column : N) (t : Transaction) : option (list N) :=
  match cs_columns (tx_state t) !! table with
  | None => Some []
  | Some columns => subtree_loop (Datatypes.S (size columns)) columns [column] 0
  end.

Definition drop_column (table column : N) : Verb unit :=
  value ← v_read (live_column table column);
  doomed ← v_read (fun t => ok_or Corruption (column_subtree table column t));
  _ ← v_check (fun t => fail_if (existsb (fun id => column_is_indexed table id t) doomed) Constraint);
  _ ← v_check (fun t => fail_if (bool_decide (cv_parent_column value = None)
        && (length (List.filter (fun c => bool_decide (cv_parent_column c = None))
              (btree_values (table_columns table t))) <=? 1)%nat) Constraint);
  _ ← v_for doomed (fun id => v_state (delete_column table id));
  mark_altered table.

(** ** Partitioning and sorting *)

Definition live_partition_id (table : N) (t : Transaction) : option N :=
  head (btree_keys (default ∅ (cs_partitions (tx_state t) !! table))).

(** The keys of a partition spec: each a live column, none twice. *)
Fixpoint check_partition_keys (table : N) (keys : list PartitionColumnDef) (seen : gset N)
    (t : Transaction) : result unit :=
  match keys with
  | [] => Ok tt
  | key :: keys =>
      _ ← live_column table (pcd_column key) t;
      _ ← fail_if (bool_decide (pcd_column key ∈ seen)) Constraint;
      check_partition_keys table keys ({[pcd_column key]} ∪ seen) t
  end.

Definition set_partitioning (table : N) (columns : list PartitionColumnDef) : Verb N :=
  _ ← v_read (live_table table);
  _ ← v_guard (bool_decide (columns = [])) Constraint;
  _ ← v_check (check_partition_keys table columns ∅);
  standing ← v_get (live_partition_id table);
  _ ← match standing with
      | Some partition_id => v_state (delete_partition table partition_id)
      | None => mret tt
      end;
  partition_id ← alloc_catalog_id;
  begin ← v_get tx_new_snapshot_id;
  _ ← v_state (put_partition (mkPartitionValue partition_id table begin None
        (imap (fun index key => mkPartitionColumn (N.of_nat index) (pcd_column key) (pcd_transform key))
           columns)));
  _ ← mark_altered table;
  mret partition_id.

Definition clear_partitioning (table : N) : Verb unit :=
  _ ← v_read (live_table table);
  partition_id ← v_read (fun t => ok_or NotFound (live_partition_id table t));
  _ ← v_state (delete_partition table partition_id);
  mark_altered table.

Definition live_sort_id (table : N) (t : Transaction) : option N :=
  head (btree_keys (default ∅ (cs_sorts (tx_state t) !! table))).

Definition set_sorting (table : N) (keys : list SortKeyDef) : Verb N :=
  _ ← v_read (live_table table);
  _ ← v_guard (bool_decide (keys = [])) Constraint;
  standing ← v_get (live_sort_id table);
  _ ← match standing with
      | Some sort_id => v_state (delete_sort table sort_id)
      | None => mret tt
      end;
  sort_id ← alloc_catalog_id;
  begin ← v_get tx_new_snapshot_id;
  _ ← v_state (put_sort (mkSortValue sort_id table begin None
        (imap (fun index key => mkSortExpression (N.of_nat index) (skd_expression key) (skd_dialect key)
                 (skd_sort_direction key) (skd_null_order key)) keys)));
  _ ← v_op (AlterTableSorting table);
  mret sort_id.

Definition clear_sorting (table : N) : Verb unit :=
  _ ← v_read (live_table table);
  sort_id ← v_read (fun t => ok_or NotFound (live_sort_id table t));
  _ ← v_state (delete_sort table sort_id);
  v_op (AlterTableSorting table).

(** ** Indexes *)

Section StorekeyVerbs.
  Context `{SK : Storekey}.

Definition table_indexes (table : N) (t : Transaction) : gmap N IndexValue :=
  default ∅ (cs_indexes (tx_state t) !! table).

Definition index_name_free (table : N) (name : string) (t : Transaction) : result unit :=
  fail_if (existsb (fun i => bool_decide (xv_index_name i = name)) (btree_values (table_indexes table t)))
    AlreadyExists.

(** [stage_index_entry]: a NULL in any column makes the entry multi-shaped. *)
Definition stage_index_entry (index_id : N) (unique : bool) (column_count : nat)
    (orders : list ColumnOrder) (entry : IndexEntry) (delete building : bool) : Verb unit :=
  _ ← v_guard (negb (length (ie_values entry) =? column_count)%nat) Constraint;
  let has_null := existsb (fun v => bool_decide (v = None)) (ie_values entry) in
  key ← v_read (fun _ => encode_ordered_values (ie_values entry) (map co_direction orders)
                           (map co_nulls orders));
  v_do (push_entry (mkStagedIndexEntry index_id (unique && negb has_null) key (ie_row_id entry)
    delete building)).

(** [column_orders]: a missing flag is ascending, NULLS LAST. *)
Definition column_orders (value : IndexValue) : list ColumnOrder :=
  imap (fun i _ => mkColumnOrder
          (if default false (xv_column_descending value !! i) then Descending else Ascending)
          (if default false (xv_column_nulls_first value !! i) then NullsFirst else NullsLast))
    (xv_column_ids value).

Definition is_descending (o : ColumnOrder) : bool := bool_decide (co_direction o = Descending).
Definition is_nulls_first (o : ColumnOrder) : bool := bool_decide (co_nulls o = NullsFirst).

Fixpoint check_index_columns (table : N) (columns : list N) (t : Transaction) : result unit :=
  match columns with
  | [] => Ok tt
  | column :: columns =>
      live ← live_column table column t;
      _ ← ensure_indexable (cv_column_name live) (cv_column_type live);
      check_index_columns table columns t
  end.

Definition insert_index_definition (table : N) (def : IndexDef) (maintenance : IndexMaintenance)
    (build_state : option string) (orders : list ColumnOrder) : Verb N :=
  _ ← v_check (fun _ => nonempty_name (id_name def));
  _ ← v_read (live_table table);
  _ ← v_guard (bool_decide (id_columns def = [])) Constraint;
  _ ← v_check (check_index_columns table (id_columns def));
  _ ← v_check (index_name_free table (id_name def));
  _ ← v_guard (match maintenance with Deferred => id_unique def | Synchronous => false end) Constraint;
  _ ← v_guard (negb (bool_decide (orders = []))
               && negb (length orders =? length (id_columns def))%nat) Constraint;
  let column_descending :=
    if forallb (fun o => negb (is_descending o)) orders then [] else map is_descending orders in
  let column_nulls_first :=
    if forallb (fun o => negb (is_nulls_first o)) orders then [] else map is_nulls_first orders in
  index_id ← alloc_catalog_id;
  begin ← v_get tx_new_snapshot_id;
  _ ← v_state (put_index (mkIndexValue index_id table begin None (id_name def) (id_columns def)
        (id_unique def) column_descending column_nulls_first build_state None None None None None None
        (match maintenance with Deferred => Some true | Synchronous => None end)));
  mret index_id.

Definition create_index_ordered_with_maintenance (table : N) (def : IndexDef) (orders : list ColumnOrder)
    (maintenance : IndexMaintenance) (backfill : list IndexEntry) : Verb N :=
  index_id ← insert_index_definition table def maintenance None orders;
  _ ← v_for backfill (fun entry => stage_index_entry index_id (id_unique def)
        (length (id_columns def)) orders entry false false);
  _ ← mark_altered table;
  mret index_id.
Definition create_index_ordered (table : N) (def : IndexDef) (orders : list ColumnOrder)
    (backfill : list IndexEntry) : Verb N :=
  create_index_ordered_with_maintenance table def orders Synchronous backfill.
Definition create_index (table : N) (def : IndexDef) (backfill : list IndexEntry) : Verb N :=
  index_id ← insert_index_definition table def Synchronous None [];
  _ ← v_for backfill (fun entry => stage_index_entry index_id (id_unique def)
        (length (id_columns def)) [] entry false false);
  _ ← mark_altered table;
  mret index_id.

(** [live_index]: the first table, in id order, that holds the index. *)
Fixpoint find_index (tables : list N) (index : N) (indexes : gmap N (gmap N IndexValue))
  : option (N * IndexValue) :=
  match tables with
  | [] => None
  | table :: tables =>
      match nlookup indexes table index with
      | Some value => Some (table, value)
      | None => find_index tables index indexes
      end
  end.
Definition live_index (index : N) (t : Transaction) : result (N * IndexValue) :=
  ok_or NotFound (find_index (btree_keys (cs_indexes (tx_state t))) index (cs_indexes (tx_state t))).

Definition drop_index (index : N) : Verb unit :=
  '(table_id, _) ← v_read (live_index index);
  _ ← v_state (delete_index table_id index);
  mark_altered table_id.

Definition create_index_staged_ordered_with_maintenance (table : N) (def : IndexDef)
    (orders : list ColumnOrder) (maintenance : IndexMaintenance) : Verb N :=
  index_id ← insert_index_definition table def maintenance (Some "building"%string) orders;
  _ ← mark_altered table;
  mret index_id.
Definition create_index_staged_ordered (table : N) (def : IndexDef) (orders : list ColumnOrder) : Verb N :=
  create_index_staged_ordered_with_maintenance table def orders Synchronous.
Definition create_index_staged (table : N) (def : IndexDef) : Verb N :=
  create_index_staged_ordered table def [].

Definition in_state (name : string) (value : IndexValue) : bool :=
  bool_decide (xv_build_state value = Some name).

(** The definition a build step leaves. *)
Definition advance_build (begin : N) (cursor_row_id : option N) (source : option (N * N))
    (is_final : bool) (value : IndexValue) : IndexValue :=
  let covered := match xv_build_cursor_file value, xv_build_cursor_position value with
                 | Some f, Some p => Some (f, p) | _, _ => None end in
  let moved := match source, covered with
               | Some (f, p), Some (cf, cp) =>
                   if (cf <? f) || ((cf =? f) && (cp <? p)) then Some (f, p) else None
               | Some s, None => Some s
               | None, _ => None
               end in
  mkIndexValue (xv_index_id value) (xv_table_id value) begin (xv_end_snapshot value)
    (xv_index_name value) (xv_column_ids value) (xv_unique value) (xv_column_descending value)
    (xv_column_nulls_first value) (if is_final then None else xv_build_state value)
    (match moved with Some (f, _) => Some f | None => xv_build_cursor_file value end)
    cursor_row_id
    (match moved with Some (_, p) => Some p | None => xv_build_cursor_position value end)
    (xv_build_deletes_scanned value) (xv_poisoned value) (xv_ducklake_index_id value)
    (xv_deferred_maintenance value).

(** [build_index_step_at], behind [build_index_step] and [build_index_source_step]. *)
Definition build_index_step_at (index : N) (batch : list IndexEntry) (is_final : bool)
    (source : option (N * N)) : Verb IndexState :=
  '(table_id, value) ← v_read (live_index index);
  _ ← v_guard (negb (in_state "building" value || in_state "maintaining" value)) Constraint;
  let cursor := foldl N.max (default 0 (xv_build_cursor_row_id value)) (map ie_row_id batch) in
  _ ← v_for batch (fun entry => stage_index_entry index (xv_unique value)
        (length (xv_column_ids value)) (column_orders value) entry false true);
  begin ← v_get tx_new_snapshot_id;
  let cursor_row_id := if bool_decide (batch = []) then xv_build_cursor_row_id value else Some cursor in
  _ ← v_state (put_index (advance_build begin cursor_row_id source is_final value));
  _ ← v_op (if is_final then
              if in_state "maintaining" value then FinishIndexMaintenance table_id else AlterTable table_id
            else AdvanceIndexBuild table_id);
  mret (if is_final then IS_Ready
        else if in_state "maintaining" value then IS_Maintaining else IS_Building).
Definition build_index_step (index : N) (batch : list IndexEntry) (is_final : bool) : Verb IndexState :=
  build_index_step_at index batch is_final None.
Definition build_index_source_step (index : N) (batch : list IndexEntry) (is_final : bool)
    (source : option (N * N)) : Verb IndexState :=
  build_index_step_at index batch is_final source.

(** ** Data files and delete files *)

Record IndexShape : Type := mkIndexShape {
  ish_unique : bool; ish_column_count : nat; ish_orders : list ColumnOrder; ish_building : bool }.

Definition live_index_shape (table index : N) (t : Transaction) : result IndexShape :=
  value ← ok_or NotFound (table_indexes table t !! index);
  Ok (mkIndexShape (xv_unique value) (length (xv_column_ids value)) (column_orders value)
        (bool_decide (is_Some (xv_build_state value)))).

Definition live_table_stats (table : N) (t : Transaction) : result TableStatsValue :=
  ok_or Corruption (cs_table_stats (tx_state t) !! table).

(** [allocate_row_ids]: the first allocation of a table records what it inherited. *)
Definition allocate_row_ids (table : N) (tstat : TableStatsValue) : Verb N := fun t =>
  (Ok (ts_next_row_id tstat),
   match tx_inherited_row_ids t !! table with
   | Some _ => t
   | None => with_inherited (<[table := ts_next_row_id tstat]> (tx_inherited_row_ids t)) t
   end).
Definition inherited_row_ids (table : N) (tstat : TableStatsValue) (t : Transaction) : N :=
  default (ts_next_row_id tstat) (tx_inherited_row_ids t !! table).

Definition resolve_file_partition (table : N) (values : list string) (t : Transaction)
  : result (option N) :=
  match head (btree_values (default ∅ (cs_partitions (tx_state t) !! table))) with
  | None => _ ← fail_if (negb (bool_decide (values = []))) Constraint; Ok None
  | Some spec =>
      _ ← fail_if (negb (length values =? length (pv_columns spec))%nat) Constraint;
      Ok (Some (pv_partition_id spec))
  end.

Definition file_partition_values (values : list string) : list FilePartitionValue :=
  imap (fun index value => mkFilePartitionValue (N.of_nat index) value) values.

Fixpoint check_stats_columns (table : N) (stats : list FileColumnStats) (t : Transaction) : result unit :=
  match stats with
  | [] => Ok tt
  | entry :: stats => _ ← live_column table (fs_column_id entry) t; check_stats_columns table stats t
  end.

Definition file_column_stats (table data_file_id : N) (entry : FileColumnStats) : FileColumnStatsValue :=
  mkFileColumnStatsValue data_file_id table (fs_column_id entry) (fs_column_size_bytes entry)
    (fs_value_count entry) (fs_null_count entry) (fs_min_value entry) (fs_max_value entry)
    (fs_contains_nan entry) (fs_extra_stats entry) [].

(** Index entries are owed by any write to a table that has an index. *)
Definition entries_owed (table : N) (rows : bool) {A} (entries : list A) (t : Transaction) : result unit :=
  fail_if (negb (bool_decide (table_indexes table t = ∅)) && rows && bool_decide (length entries = 0%nat))
    Constraint.

(** [stage_file_index_entry]. *)
Definition stage_file_index_entry (table row_id_start : N) (file_entry : FileIndexEntry) : Verb unit :=
  shape ← v_read (live_index_shape table (fie_index file_entry));
  row_id ← v_read (fun _ => ok_or Constraint (checked_add row_id_start (fie_ordinal file_entry)));
  stage_index_entry (fie_index file_entry) (ish_unique shape) (ish_column_count shape)
    (ish_orders shape) (mkIndexEntry row_id (fie_values file_entry)) false (ish_building shape).

Definition register_data_file (table : N) (file : DataFile) (index_entries : list FileIndexEntry) : Verb N :=
  _ ← v_read (live_table table);
  _ ← v_check (check_stats_columns table (fl_column_stats file));
  _ ← v_check (entries_owed table (0 <? fl_record_count file) index_entries);
  _ ← v_guard (existsb (fun entry => fl_record_count file <=? fie_ordinal entry) index_entries) Constraint;
  partition_id ← v_read (resolve_file_partition table (fl_partition_values file));
  data_file_id ← alloc_file_id;
  tstat ← v_read (live_table_stats table);
  row_id_start ← allocate_row_ids table tstat;
  _ ← v_state (put_table_stats (mkTableStatsValue (ts_table_id tstat)
        (saturating_add (ts_record_count tstat) (fl_record_count file))
        (saturating_add (ts_next_row_id tstat) (fl_record_count file))
        (saturating_add (ts_file_size_bytes tstat) (fl_file_size_bytes file))));
  begin ← v_get tx_new_snapshot_id;
  _ ← v_state (put_data_file (mkDataFileValue data_file_id table begin None None (fl_path file)
        (fl_path_is_relative file) (fl_file_format file) (fl_record_count file)
        (fl_file_size_bytes file) (fl_footer_size file) (Some row_id_start) partition_id
        (fl_encryption_key file) None None (file_partition_values (fl_partition_values file))));
  _ ← v_for (fl_column_stats file) (fun entry =>
        v_state (put_file_column_stats (file_column_stats table data_file_id entry)));
  _ ← v_for index_entries (stage_file_index_entry table row_id_start);
  _ ← v_op (RegisterDataFile table);
  mret data_file_id.

Definition live_data_file (table file : N) (t : Transaction) : result DataFileValue :=
  ok_or NotFound (nlookup (cs_data_files (tx_state t)) table file).

Definition expire_data_file (table file : N) : Verb unit :=
  data_file ← v_read (live_data_file table file);
  cascaded ← v_get (fun t => map dl_delete_file_id (List.filter (fun d => dl_data_file_id d =? file)
        (btree_values (default ∅ (cs_delete_files (tx_state t) !! table)))));
  _ ← v_for cascaded (fun id => v_state (delete_delete_file table id));
  _ ← v_state (delete_data_file table file);
  tstat ← v_read (live_table_stats table);
  _ ← v_state (put_table_stats (mkTableStatsValue (ts_table_id tstat)
        (saturating_sub (ts_record_count tstat) (df_record_count data_file)) (ts_next_row_id tstat)
        (saturating_sub (ts_file_size_bytes tstat) (df_file_size_bytes data_file))));
  v_op (ExpireDataFile table).

(** [stage_delete_file_index_entries]. *)
Definition stage_delete_file_index_entries (table : N) (index_entries : list FileIndexRemoval) : Verb unit :=
  v_for index_entries (fun entry =>
    shape ← v_read (live_index_shape table (fir_index entry));
    stage_index_entry (fir_index entry) (ish_unique shape) (ish_column_count shape) (ish_orders shape)
      (mkIndexEntry (fir_row_id entry) (fir_values entry)) true (ish_building shape)).

Definition register_delete_file (table : N) (file : DeleteFile) (index_entries : list FileIndexRemoval)
  : Verb N :=
  _ ← v_read (live_table table);
  data_file ← v_read (live_data_file table (dx_data_file_id file));
  _ ← v_check (fun t => fail_if (existsb (fun d => dl_data_file_id d =? dx_data_file_id file)
        (btree_values (default ∅ (cs_delete_files (tx_state t) !! table)))) Constraint);
  _ ← v_check (entries_owed table (0 <? dx_delete_count file) index_entries);
  _ ← v_guard ((dx_delete_count file =? 0) && negb (length index_entries =? 0)%nat) Constraint;
  _ ← match df_row_id_start data_file with
      | Some start =>
          end_ ← v_read (fun _ => ok_or Constraint (checked_add start (df_record_count data_file)));
          v_guard (existsb (fun e => (fir_row_id e <? start) || (end_ <=? fir_row_id e)) index_entries)
            Constraint
      | None => mret tt
      end;
  delete_file_id ← alloc_file_id;
  begin ← v_get tx_new_snapshot_id;
  _ ← v_state (put_delete_file (mkDeleteFileValue delete_file_id table begin None (dx_data_file_id file)
        (dx_path file) (dx_path_is_relative file) (dx_format file) (dx_delete_count file)
        (dx_file_size_bytes file) (dx_footer_size file) (dx_encryption_key file) None));
  _ ← stage_delete_file_index_entries table index_entries;
  _ ← v_op (RegisterDeleteFile table (dx_data_file_id file));
  mret delete_file_id.

Definition expire_delete_file (table file : N) : Verb unit :=
  _ ← v_check (fun t => fail_if (bool_decide (nlookup (cs_delete_files (tx_state t)) table file = None))
        NotFound);
  _ ← v_state (delete_delete_file table file);
  v_op (ExpireDeleteFile table).

(** ** Statistics *)

Definition update_table_stats (table record_count file_size_bytes : N) : Verb unit :=
  _ ← v_read (live_table table);
  tstat ← v_read (live_table_stats table);
  _ ← v_state (put_table_stats (mkTableStatsValue (ts_table_id tstat) record_count
        (ts_next_row_id tstat) file_size_bytes));
  v_op (UpdateStats table).

Definition update_column_stats (table column : N) (stats : ColumnStats) : Verb unit :=
  _ ← v_read (live_column table column);
  _ ← v_state (put_table_column_stats (mkTableColumnStatsValue table column (cst_contains_null stats)
        (cst_contains_nan stats) (cst_min_value stats) (cst_max_value stats) (cst_extra_stats stats)));
  v_op (UpdateStats table).

(** ** Views and macros *)

Definition create_view (uuid : string) (schema : N) (name dialect sql : string) : Verb N :=
  _ ← v_check (fun _ => path_safe_name name);
  schema_rec ← v_read (fun t => ok_or NotFound (cs_schemas (tx_state t) !! schema));
  _ ← v_check (relation_name_free schema name);
  view_id ← alloc_catalog_id;
  begin ← v_get tx_new_snapshot_id;
  _ ← v_state (put_view (mkViewValue view_id uuid begin None schema name dialect sql None));
  _ ← v_op (CreateView schema view_id (sv_schema_name schema_rec) name);
  mret view_id.

Definition alter_view (view : N) (dialect sql : string) : Verb unit :=
  value ← v_read (fun t => ok_or NotFound (cs_views (tx_state t) !! view));
  begin ← v_get tx_new_snapshot_id;
  _ ← v_state (put_view (mkViewValue (vv_view_id value) (vv_view_uuid value) begin
        (vv_end_snapshot value) (vv_schema_id value) (vv_view_name value) dialect sql
        (vv_column_aliases value)));
  v_op (AlterView view).

Definition drop_view (view : N) : Verb unit :=
  _ ← v_check (fun t => fail_if (bool_decide (cs_views (tx_state t) !! view = None)) NotFound);
  _ ← v_state (delete_view view);
  v_op (DropView view).

(** The type of a macro, that of its first implementation. *)
Definition macro_type_of (m : MacroValue) : option string := mi_macro_type <$> head (mv_implementations m).

Definition macro_implementation (impl_id : nat) (def : MacroImplementationDef) : MacroImplementation :=
  mkMacroImplementation (N.of_nat impl_id) (mid_dialect def) (mid_sql def) (mid_macro_type def)
    (imap (fun column_id p => mkMacroParameter (N.of_nat column_id) (mpd_name p) (mpd_parameter_type p)
             (mpd_default_value p) (mpd_default_value_type p)) (mid_parameters def)).

Definition create_macro (schema : N) (name : string) (implementations : list MacroImplementationDef)
  : Verb N :=
  schema_rec ← v_read (fun t => ok_or NotFound (cs_schemas (tx_state t) !! schema));
  first_ ← v_read (fun _ => ok_or Constraint (head implementations));
  _ ← v_guard (existsb (fun i => negb (bool_decide (mid_macro_type i = mid_macro_type first_)))
        implementations) Constraint;
  _ ← v_check (fun t => fail_if (existsb (fun m => (mv_schema_id m =? schema)
          && bool_decide (mv_macro_name m = name)
          && bool_decide (macro_type_of m = Some (mid_macro_type first_)))
        (btree_values (cs_macros (tx_state t)))) AlreadyExists);
  macro_id ← alloc_catalog_id;
  begin ← v_get tx_new_snapshot_id;
  _ ← v_state (put_macro (mkMacroValue macro_id begin None schema name
        (imap macro_implementation implementations)));
  _ ← v_op (CreateMacro schema macro_id (sv_schema_name schema_rec) name (mid_macro_type first_));
  mret macro_id.

Definition drop_macro (macro_id : N) : Verb unit :=
  record ← v_read (fun t => ok_or NotFound (cs_macros (tx_state t) !! macro_id));
  _ ← v_state (delete_macro macro_id);
  v_op (DropMacro macro_id (default ""%string (macro_type_of record))).

(** ** Options and tags *)

Definition reserved_option (scope : OptionScope) (key : string) : result unit :=
  fail_if (match scope with ScopeGlobal => bool_decide (key = "encrypted"%string) | _ => false end) Constraint.

Definition live_scope (scope : OptionScope) (t : Transaction) : result unit :=
  match scope with
  | ScopeGlobal => Ok tt
  | ScopeSchema s => fail_if (negb (schema_live s t)) NotFound
  | ScopeTable s => fail_if (bool_decide (cs_tables (tx_state t) !! s = None)) NotFound
  end.

Definition set_option (scope : OptionScope) (key value : string) : Verb unit :=
  _ ← v_check (fun _ => nonempty_name key);
  _ ← v_check (live_scope scope);
  _ ← v_check (fun _ => reserved_option scope key);
  v_state (fun s =>
    let record := default (mkOptionScopeValue ∅) (cs_options s !! key_components scope) in
    set_option_record (key_components scope) (mkOptionScopeValue (<[key := value]> (os_options record))) s).

Definition unset_option (scope : OptionScope) (key : string) : Verb unit :=
  _ ← v_check (live_scope scope);
  _ ← v_check (fun _ => reserved_option scope key);
  v_state (fun s =>
    match cs_options s !! key_components scope with
    | None => s
    | Some record =>
        match os_options record !! key with
        | None => s
        | Some _ =>
            let options := delete key (os_options record) in
            if decide (options = ∅) then remove_option_record (key_components scope) s
            else set_option_record (key_components scope) (mkOptionScopeValue options) s
        end
    end).

Definition mark_tagged (target : TagTarget) : Verb unit :=
  match target with
  | TagSchema schema =>
      _ ← v_check (fun t => fail_if (negb (schema_live schema t)) NotFound);
      v_op (AlterSchema schema)
  | TagTable table => _ ← v_read (live_table table); v_op (AlterTable table)
  | TagView view =>
      _ ← v_check (fun t => fail_if (bool_decide (cs_views (tx_state t) !! view = None)) NotFound);
      v_op (AlterView view)
  end.

(** The live entry of a key, ended; [None] when no entry is live. *)
Fixpoint end_entry (end_ : N) (key : string) (entries : list TagEntry) : option (list TagEntry) :=
  match entries with
  | [] => None
  | e :: entries =>
      if bool_decide (te_key e = key) && bool_decide (te_end_snapshot e = None)
      then Some (mkTagEntry (te_begin_snapshot e) (Some end_) (te_key e) (te_value e) :: entries)
      else cons e <$> end_entry end_ key entries
  end.

Definition end_live_tag (object : N) (key : string) : Verb bool := fun t =>
  match cs_tags (tx_state t) !! object with
  | None => (Ok false, t)
  | Some container =>
      match end_entry (tx_new_snapshot_id t) key (tg_entries container) with
      | None => (Ok false, t)
      | Some entries =>
          (Ok true, on_state (set_tags (<[object := mkTagValue (tg_object_id container) entries]>)) t)
      end
  end.

Definition set_tag (target : TagTarget) (key value : string) : Verb unit :=
  _ ← v_check (fun _ => nonempty_name key);
  _ ← mark_tagged target;
  _ ← end_live_tag (object_id target) key;
  begin ← v_get tx_new_snapshot_id;
  v_state (set_tags (fun tags =>
    let container := default (mkTagValue (object_id target) []) (tags !! object_id target) in
    <[object_id target := mkTagValue (tg_object_id container)
        (tg_entries container ++ [mkTagEntry begin None key value])]> tags)).

Definition remove_tag_verb (target : TagTarget) (key : string) : Verb unit :=
  _ ← mark_tagged target;
  ended ← end_live_tag (object_id target) key;
  v_guard (negb ended) NotFound.

(** ** Inlined data *)

Definition inline_insert (table : N) (chunk : InlineChunk) (index_entries : list FileIndexEntry) : Verb N :=
  _ ← v_read (live_table table);
  _ ← v_guard (ic_row_count chunk =? 0) Constraint;
  _ ← v_check (entries_owed table true index_entries);
  _ ← v_guard (existsb (fun entry => ic_row_count chunk <=? fie_ordinal entry) index_entries) Constraint;
  tstat ← v_read (live_table_stats table);
  row_id_start ← allocate_row_ids table tstat;
  _ ← v_state (put_table_stats (mkTableStatsValue (ts_table_id tstat)
        (saturating_add (ts_record_count tstat) (ic_row_count chunk))
        (saturating_add (ts_next_row_id tstat) (ic_row_count chunk)) (ts_file_size_bytes tstat)));
  allocated_seq ← v_get (fun t => default 0 (tx_chunk_seqs t !! (table, ic_schema_version chunk)));
  _ ← v_do (fun t => with_chunk_seqs
        (<[(table, ic_schema_version chunk) := wrapping_add allocated_seq 1]> (tx_chunk_seqs t)) t);
  begin ← v_get tx_new_snapshot_id;
  _ ← v_do (push_inline (IS_Schema table (ic_schema_version chunk) (ic_arrow_schema chunk)));
  _ ← v_do (push_inline (IS_Insert table (ic_schema_version chunk) begin allocated_seq row_id_start
        (ic_row_count chunk) (ic_arrow_body chunk)));
  _ ← v_for index_entries (stage_file_index_entry table row_id_start);
  _ ← v_op (InlineInsert table);
  mret row_id_start.

Definition inline_delete (table row_id : N) (index_entries : list FileIndexRemoval) : Verb unit :=
  _ ← v_read (live_table table);
  _ ← v_check (entries_owed table true index_entries);
  _ ← v_guard (existsb (fun e => negb (fir_row_id e =? row_id)) index_entries) Constraint;
  end_ ← v_get tx_new_snapshot_id;
  _ ← v_do (push_inline (IS_Tombstone table row_id end_));
  _ ← stage_delete_file_index_entries table index_entries;
  v_op (InlineDelete table).

Definition register_flushed_file (table : N) (flush : FlushedDataFile) (inherited : N) : Verb N :=
  let file := ff_file flush in
  new ← v_get tx_new_snapshot_id;
  _ ← v_guard (new <=? ff_begin_snapshot flush) Constraint;
  _ ← v_guard (match ff_partial_max flush with
               | Some m => negb ((ff_begin_snapshot flush <=? m) && (m <? new)) | None => false end) Constraint;
  end_ ← v_read (fun _ => ok_or Constraint (checked_add (ff_row_id_start flush) (fl_record_count file)));
  _ ← v_guard (inherited <? end_) Constraint;
  _ ← v_check (check_stats_columns table (fl_column_stats file));
  partition_id ← v_read (resolve_file_partition table (fl_partition_values file));
  data_file_id ← alloc_file_id;
  tstat ← v_read (live_table_stats table);
  _ ← v_state (put_table_stats (mkTableStatsValue (ts_table_id tstat) (ts_record_count tstat)
        (ts_next_row_id tstat) (saturating_add (ts_file_size_bytes tstat) (fl_file_size_bytes file))));
  _ ← v_state (put_data_file (mkDataFileValue data_file_id table (ff_begin_snapshot flush) None None
        (fl_path file) (fl_path_is_relative file) (fl_file_format file) (fl_record_count file)
        (fl_file_size_bytes file) (fl_footer_size file) (Some (ff_row_id_start flush)) partition_id
        (fl_encryption_key file) None (ff_partial_max flush)
        (file_partition_values (fl_partition_values file))));
  _ ← v_for (fl_column_stats file) (fun entry =>
        v_state (put_file_column_stats (file_column_stats table data_file_id entry)));
  mret data_file_id.

Fixpoint register_flushed (table : N) (flushed : list FlushedDataFile) (ceiling : N) : Verb (list N) :=
  match flushed with
  | [] => mret []
  | flush :: flushed =>
      id ← register_flushed_file table flush ceiling;
      ids ← register_flushed table flushed ceiling;
      mret (id :: ids)
  end.

Definition flush_inlined_data (table schema_version : N) (flushed : list FlushedDataFile) : Verb (list N) :=
  _ ← v_read (live_table table);
  tstat ← v_read (live_table_stats table);
  ceiling ← v_get (inherited_row_ids table tstat);
  ids ← register_flushed table flushed ceiling;
  new ← v_get tx_new_snapshot_id;
  _ ← v_do (push_inline (IS_Flush table schema_version new));
  _ ← v_op (FlushInlinedData table);
  mret ids.
End StorekeyVerbs.
