(* ===== verification/VerbLaws.v ===== *)
(** What the verbs of [transaction/verbs.rs] preserve: a weakest-precondition
    calculus for the verb monad, the invariant of a transaction's state and of its
    row ids, and the proof that every verb keeps them. *)
From stdpp Require Import gmap strings list fin_maps sorting.
From Stdlib Require Import NArith ZArith Lia.
From S2P Require Import Prelude Storekey KeyLayout IndexEncoding Operations Values Snapshot Catalog Store Inline IndexMaintenance Diff Verbs.

Local Open Scope N_scope.

Create HintDb verbs.

(** ** Weakest preconditions

    [vwp I v Q t]: run from [t], [v] succeeds into [Q] or fails into [I]. *)

Definition vwp {A} (I : Transaction -> Prop) (v : Verb A) (Q : A -> Transaction -> Prop)
    (t : Transaction) : Prop :=
  match v t with (Ok a, t') => Q a t' | (Err _, t') => I t' end.

Section Wp.
  Context (I : Transaction -> Prop).

Lemma vwp_ret {A} (a : A) Q t : Q a t -> vwp I (mret a) Q t.
Proof. done. Qed.
Lemma vwp_bind {A B} (m : Verb A) (f : A -> Verb B) Q t :
  vwp I m (fun a => vwp I (f a) Q) t -> vwp I (m ≫= f) Q t.
Proof. unfold vwp, mbind, verb_bind. by destruct (m t) as [[a|e] t']. Qed.
Lemma vwp_check f Q t : I t -> (f t = Ok tt -> Q tt t) -> vwp I (v_check f) Q t.
Proof. unfold vwp, v_check. intros Ht HQ. destruct (f t) as [[]|e]; auto. Qed.
Lemma vwp_read {A} (f : Transaction -> result A) Q t :
  I t -> (forall a, f t = Ok a -> Q a t) -> vwp I (v_read f) Q t.
Proof. unfold vwp, v_read. intros Ht HQ. destruct (f t) as [a|e]; auto. Qed.
Lemma vwp_get {A} (f : Transaction -> A) Q t : Q (f t) t -> vwp I (v_get f) Q t.
Proof. done. Qed.
Lemma vwp_do f Q t : Q tt (f t) -> vwp I (v_do f) Q t.
Proof. done. Qed.
Lemma vwp_guard c e Q t : I t -> (c = false -> Q tt t) -> vwp I (v_guard c e) Q t.
Proof. unfold vwp, v_guard. intros Ht HQ. destruct c; cbn; auto. Qed.
Lemma vwp_catalog_id Q t :
  Q (tx_next_catalog_id t) (with_ids (wrapping_add (tx_next_catalog_id t) 1) (tx_next_file_id t) t) ->
  vwp I alloc_catalog_id Q t.
Proof. done. Qed.
Lemma vwp_file_id Q t :
  Q (tx_next_file_id t) (with_ids (tx_next_catalog_id t) (wrapping_add (tx_next_file_id t) 1) t) ->
  vwp I alloc_file_id Q t.
Proof. done. Qed.
Lemma vwp_for {A} (l : list A) (f : A -> Verb unit) (J : Transaction -> Prop) Q t :
  J t -> (forall x t, x ∈ l -> J t -> vwp I (f x) (fun _ => J) t) ->
  (forall t, J t -> Q tt t) -> vwp I (v_for l f) Q t.
Proof.
  intros HJ Hf HQ. revert t HJ. induction l as [|x l IH]; intros t HJ; [by apply vwp_ret, HQ|].
  apply vwp_bind. specialize (Hf x t ltac:(set_solver) HJ) as Hx. unfold vwp in Hx |- *.
  destruct (f x t) as [[[]|e] t']; [|done]. apply IH; [|done]. intros. apply Hf; [set_solver|done].
Qed.
Lemma vwp_mono {A} (v : Verb A) (Q Q' : A -> Transaction -> Prop) t :
  vwp I v Q t -> (forall a t, Q a t -> Q' a t) -> vwp I v Q' t.
Proof. unfold vwp. destruct (v t) as [[a|e] t']; auto. Qed.
End Wp.

(** Run the calculus over a verb's body. *)
Ltac vstep :=
  lazymatch goal with
  | |- vwp _ (mbind _ _) _ _ => apply vwp_bind
  | |- vwp _ (mret _) _ _ => apply vwp_ret
  | |- vwp _ (v_check _) _ _ => apply vwp_check; [|intros ?]
  | |- vwp _ (v_read _) _ _ => apply vwp_read; [|intros ? ?]
  | |- vwp _ (v_get _) _ _ => apply vwp_get
  | |- vwp _ (v_guard _ _) _ _ => apply vwp_guard; [|intros ?]
  | |- vwp _ (v_do _) _ _ => apply vwp_do
  | |- vwp _ (v_state _) _ _ => apply vwp_do
  | |- vwp _ (v_op _) _ _ => apply vwp_do
  | |- vwp _ (mark_altered _) _ _ => apply vwp_do
  | |- vwp _ alloc_catalog_id _ _ => apply vwp_catalog_id
  | |- vwp _ alloc_file_id _ _ => apply vwp_file_id
  end; cbv beta.
Ltac vsteps := repeat vstep.

(** ** The state's invariant *)

(** A name of a schema is a table's or a view's, never both. *)
Definition relations_disjoint (s : CatalogSnapshot) : Prop :=
  forall schema name, is_Some (scoped_name (cs_table_names s) schema name) ->
    scoped_name (cs_view_names s) schema name = None.

Record state_ok (base s : CatalogSnapshot) : Prop := {
  so_wf : view_wf s;
  so_names : names_coherent s;
  so_relations : relations_disjoint s;
  so_mappings : cs_mappings s = cs_mappings base;
  so_snapshot : cs_snapshot s = cs_snapshot base;
  so_counters : forall i v, view_at s (CK_Entity (EK_Table i)) = Some (ER_Table v) -> u64 (tv_next_column_id v);
}.

Lemma view_wf_put r s :
  Key_wf (K_Current (record_key r)) -> record_included None r = true -> view_wf s ->
  view_wf (put_record r s).
Proof.
  intros Hk Hi Hs c r'. rewrite put_record_at. case_decide as E; [|apply Hs].
  intros [= <-]. by subst c.
Qed.

Lemma view_wf_shrink s s' :
  (forall c r, view_at s' c = Some r -> view_at s c = Some r) -> view_wf s -> view_wf s'.
Proof. intros Hsub Hs c r Hr. by apply Hs, Hsub. Qed.

(** The side conditions of a put, by kind. *)
Definition put_free (r : EntityRecord) (s : CatalogSnapshot) : Prop :=
  record_name_free r s
  /\ match r with
     | ER_Table v => scoped_name (cs_view_names s) (tv_schema_id v) (tv_table_name v) = None
                     /\ u64 (tv_next_column_id v)
     | ER_View v => scoped_name (cs_table_names s) (vv_schema_id v) (vv_view_name v) = None
     | ER_Mapping _ => False
     | _ => True
     end.

Lemma put_named_names {V} (identity : V -> N * N * string) v values names scope name :
  let '(_, sc, nm) := identity v in
  is_Some (scoped_name (put_named identity v values names).2 scope name) ->
  (scope = sc /\ name = nm) \/ is_Some (scoped_name names scope name).
Proof.
  unfold put_named. destruct (identity v) as [[id sc] nm]. cbn. rewrite scoped_name_insert.
  case_decide as E; [auto|]. destruct (values !! id) as [old|]; [|auto].
  destruct (identity old) as [[? ?] ?]. rewrite scoped_name_remove. case_decide; [by intros []|auto].
Qed.

Lemma relations_put r s : relations_disjoint s -> put_free r s -> relations_disjoint (put_record r s).
Proof.
  intros Hd [_ Hf] schema name.
  destruct r as [v|v|v|v|v|v|v|v|v|v|v|v|v|v|k0 i v|v|v]; try apply Hd; cbn [put_record].
  - pose proof (put_named_names table_identity v (cs_tables s) (cs_table_names s) schema name) as Hn.
    unfold put_table. destruct (put_named table_identity v (cs_tables s) (cs_table_names s)) as [vs ns].
    cbn in Hn |- *. intros [[-> ->]|Hs]%Hn; [apply Hf|by apply Hd].
  - pose proof (put_named_names view_identity v (cs_views s) (cs_view_names s) schema name) as Hn.
    unfold put_view. destruct (put_named view_identity v (cs_views s) (cs_view_names s)) as [vs ns].
    cbn in Hn |- *. intros Ht. destruct (scoped_name ns schema name) eqn:E; [|done].
    destruct Hn as [[-> ->]|[? Hs]]; [eauto| |].
    + rewrite Hf in Ht. by destruct Ht.
    + by rewrite Hd in Hs.
Qed.

Lemma put_record_mappings r s :
  match r with ER_Mapping _ => False | _ => True end -> cs_mappings (put_record r s) = cs_mappings s.
Proof.
  destruct r; try done; intros _; cbn [put_record]; unfold put_table, put_view, put_macro;
    by destruct put_named.
Qed.

Lemma put_record_snapshot_only r s : cs_snapshot (put_record r s) = cs_snapshot s.
Proof.
  destruct r; try done; cbn [put_record]; unfold put_table, put_view, put_macro; by destruct put_named.
Qed.

Lemma state_ok_put base r s :
  Key_wf (K_Current (record_key r)) -> record_included None r = true -> put_free r s ->
  state_ok base s -> state_ok base (put_record r s).
Proof.
  intros Hk Hi Hf [Hw Hn Hr Hm Hs Hc]. split.
  - by apply view_wf_put.
  - by apply put_record_coherent; [|apply Hf].
  - by apply relations_put.
  - rewrite put_record_mappings; [done|]. destruct Hf as [_ Hf]. by destruct r.
  - by rewrite put_record_snapshot_only.
  - intros i v. rewrite put_record_at. case_decide; [|apply Hc]. intros [= ->]. apply Hf.
Qed.

(** Removals: the records left are the old ones, the names left are live. *)
Lemma state_ok_shrink base s s' :
  (forall c r, view_at s' c = Some r -> view_at s c = Some r) -> names_coherent s' ->
  (forall schema name, is_Some (scoped_name (cs_table_names s') schema name) ->
     is_Some (scoped_name (cs_table_names s) schema name)) ->
  (forall schema name, scoped_name (cs_view_names s) schema name = None ->
     scoped_name (cs_view_names s') schema name = None) ->
  cs_mappings s' = cs_mappings s -> cs_snapshot s' = cs_snapshot s ->
  state_ok base s -> state_ok base s'.
Proof.
  intros Hv Hn Ht Hw Em Es [? ? Hr ? ? Hc]. split; [by eapply view_wf_shrink|done| |congruence|congruence|].
  - intros schema name Hs. by apply Hw, Hr, Ht.
  - intros i v Hi. by eapply Hc, Hv.
Qed.

(** A removal that leaves every name index alone. *)
Lemma state_ok_shrink_same base s s' :
  (forall c r, view_at s' c = Some r -> view_at s c = Some r) ->
  cs_schemas s' = cs_schemas s -> cs_tables s' = cs_tables s -> cs_views s' = cs_views s ->
  cs_macros s' = cs_macros s -> cs_indexes s' = cs_indexes s ->
  cs_schema_names s' = cs_schema_names s -> cs_table_names s' = cs_table_names s ->
  cs_view_names s' = cs_view_names s -> cs_macro_names s' = cs_macro_names s ->
  cs_index_names s' = cs_index_names s ->
  cs_mappings s' = cs_mappings s -> cs_snapshot s' = cs_snapshot s ->
  state_ok base s -> state_ok base s'.
Proof.
  intros Hv E1 E2 E3 E4 E5 E6 E7 E8 E9 E10 E11 E12 Hs.
  eapply state_ok_shrink; try done; [|by rewrite E7|by rewrite E8].
  unfold names_coherent. rewrite E1, E2, E3, E4, E5, E6, E7, E8, E9, E10. apply Hs.
Qed.

Lemma nlookup_remove_sub {K} `{Countable K} {V} t k (m : gmap N (gmap K V)) t' k' v :
  nlookup (remove_nested t k m) t' k' = Some v -> nlookup m t' k' = Some v.
Proof. rewrite nlookup_remove_nested. by case_decide. Qed.

Lemma nlookup_delete_sub {K} `{Countable K} {V} t (m : gmap N (gmap K V)) t' (k' : K) v :
  nlookup (delete t m) t' k' = Some v -> nlookup m t' k' = Some v.
Proof. unfold nlookup. rewrite lookup_delete. by case_decide. Qed.

Lemma lookup_delete_sub {K} `{Countable K} {V} k (m : gmap K V) k' v :
  delete k m !! k' = Some v -> m !! k' = Some v.
Proof. rewrite lookup_delete. by case_decide. Qed.

Lemma fmap_Some_sub {A B} (f : A -> B) (x y : option A) b :
  (forall a, x = Some a -> y = Some a) -> f <$> x = Some b -> f <$> y = Some b.
Proof. intros Hsub. destruct x as [a|]; [|done]. by rewrite (Hsub a). Qed.

Ltac shrink_at :=
  let c := fresh "c" in let r := fresh "r" in
  intros c r; destruct c as [[]|]; cbn; try done;
  apply fmap_Some_sub; intros ?;
  first [apply nlookup_remove_sub | apply nlookup_delete_sub | apply lookup_delete_sub].

Section Removals.
  Context (base s : CatalogSnapshot) (Hs : state_ok base s).

Lemma so_remove_option c : state_ok base (remove_option_record c s).
Proof. eapply state_ok_shrink_same; try exact Hs; try done. shrink_at. Qed.
Lemma so_delete_column t c : state_ok base (delete_column t c s).
Proof. eapply state_ok_shrink_same; try exact Hs; try done. shrink_at. Qed.
Lemma so_delete_data_file t f : state_ok base (delete_data_file t f s).
Proof. eapply state_ok_shrink_same; try exact Hs; try done. shrink_at. Qed.
Lemma so_delete_delete_file t f : state_ok base (delete_delete_file t f s).
Proof. eapply state_ok_shrink_same; try exact Hs; try done. shrink_at. Qed.
Lemma so_delete_partition t p : state_ok base (delete_partition t p s).
Proof. eapply state_ok_shrink_same; try exact Hs; try done. shrink_at. Qed.
Lemma so_delete_sort t p : state_ok base (delete_sort t p s).
Proof. eapply state_ok_shrink_same; try exact Hs; try done. shrink_at. Qed.

Lemma so_remove_schema i : state_ok base (remove_schema_only i s).
Proof.
  eapply state_ok_shrink; try exact Hs.
  - intros c r. rewrite remove_schema_only_at. by case_decide.
  - apply remove_schema_only_coherent, Hs.
  - unfold remove_schema_only. by case_match.
  - unfold remove_schema_only. by case_match.
  - unfold remove_schema_only. by case_match.
  - unfold remove_schema_only. by case_match.
Qed.

Lemma delete_named_names {V} (identity : V -> N * N * string) id values names scope name :
  is_Some (scoped_name (delete_named identity id values names).2 scope name) ->
  is_Some (scoped_name names scope name).
Proof.
  unfold delete_named. destruct (values !! id) as [old|]; [|done].
  destruct (identity old) as [[? ?] ?]. cbn. rewrite scoped_name_remove. by case_decide; [intros []|].
Qed.

Lemma so_remove_table i : state_ok base (remove_table_only i s).
Proof.
  eapply state_ok_shrink; try exact Hs.
  - intros c r. rewrite remove_table_only_at. by case_decide.
  - apply remove_table_only_coherent, Hs.
  - intros schema name. pose proof (delete_named_names table_identity i (cs_tables s) (cs_table_names s)
      schema name) as Hn. unfold remove_table_only. by destruct delete_named.
  - unfold remove_table_only. by destruct delete_named.
  - unfold remove_table_only. by destruct delete_named.
  - unfold remove_table_only. by destruct delete_named.
Qed.

Lemma so_delete_view i : state_ok base (delete_view i s).
Proof.
  eapply state_ok_shrink; try exact Hs.
  - intros c r. rewrite delete_view_at. by case_decide.
  - apply delete_view_coherent, Hs.
  - unfold delete_view. by destruct delete_named.
  - intros schema name. pose proof (delete_named_names view_identity i (cs_views s) (cs_view_names s)
      schema name) as Hn. unfold delete_view. destruct delete_named as [vs ns]. cbn in Hn |- *.
    intros E. rewrite E in Hn. destruct (scoped_name ns schema name) as [?|]; [|done].
    destruct Hn; [eauto|done].
  - unfold delete_view. by destruct delete_named.
  - unfold delete_view. by destruct delete_named.
Qed.

Lemma so_delete_macro i : state_ok base (delete_macro i s).
Proof.
  eapply state_ok_shrink; try exact Hs.
  - intros c r. rewrite delete_macro_at. by case_decide.
  - apply delete_macro_coherent, Hs.
  - unfold delete_macro. by destruct delete_named.
  - unfold delete_macro. by destruct delete_named.
  - unfold delete_macro. by destruct delete_named.
  - unfold delete_macro. by destruct delete_named.
Qed.

Lemma so_delete_index t i : state_ok base (delete_index t i s).
Proof.
  eapply state_ok_shrink; try exact Hs.
  - intros c r. rewrite delete_index_at. by case_decide.
  - apply delete_index_coherent, Hs.
  - unfold delete_index. by repeat case_match.
  - unfold delete_index. by repeat case_match.
  - unfold delete_index. by repeat case_match.
  - unfold delete_index. by repeat case_match.
Qed.
End Removals.

Lemma so_delete_schema base s i : state_ok base s -> state_ok base (delete_schema i s).
Proof. intros Hs. by apply so_remove_option, so_remove_schema. Qed.

Lemma so_delete_table base s i : state_ok base s -> state_ok base (delete_table i s).
Proof.
  intros Hs. pose proof (so_remove_table _ _ Hs i) as Hr. pose proof (delete_table_coherent i _ (so_names _ _ Hs)) as Hc.
  eapply state_ok_shrink; [|exact Hc| | | | |exact Hr]; try done.
  intros c r. destruct c as [[]|]; cbn; try done; apply fmap_Some_sub; intros ?;
    first [apply nlookup_delete_sub | apply lookup_delete_sub].
Qed.

#[export] Hint Resolve so_remove_option so_delete_column so_delete_data_file so_delete_delete_file
  so_delete_partition so_delete_sort so_delete_schema so_delete_table so_delete_view so_delete_macro
  so_delete_index : verbs.

(** ** Puts *)

#[export] Hint Resolve wrapping_add_u64 : verbs.

Section Puts.
  Context (base s : CatalogSnapshot) (Hs : state_ok base s).

(** What a live record's key says of it. *)
Lemma so_record c r :
  view_at s c = Some r ->
  Key_wf (K_Current c) /\ record_key r = c /\ forall b e, lifecycle r = Some (b, e) -> e = None.
Proof.
  intros E. destruct (so_wf _ _ Hs c r E) as (Hk & Hr & Hi). split_and!; [done..|].
  intros b e El. unfold record_included, included in Hi. rewrite El in Hi. by destruct e.
Qed.

Lemma wf_one i : Forall u64 [i] -> u64 i.
Proof. by intros [? _]%Forall_cons. Qed.
Lemma wf_two i j : Forall u64 [i; j] -> u64 i /\ u64 j.
Proof. by intros [? [? _]%Forall_cons]%Forall_cons. Qed.

Lemma so_table i v :
  cs_tables s !! i = Some v ->
  tv_table_id v = i /\ u64 i /\ tv_end_snapshot v = None /\ u64 (tv_next_column_id v).
Proof.
  intros E. destruct (so_record (CK_Entity (EK_Table i)) (ER_Table v)) as (Hk & [= Ek] & Hi);
    [cbn; by rewrite E|]. split_and!; [done|by apply wf_one|by eapply Hi|].
  eapply (so_counters _ _ Hs i). cbn. by rewrite E.
Qed.
Lemma so_view i v : cs_views s !! i = Some v -> vv_view_id v = i /\ u64 i /\ vv_end_snapshot v = None.
Proof.
  intros E. destruct (so_record (CK_Entity (EK_View i)) (ER_View v)) as (Hk & [= Ek] & Hi);
    [cbn; by rewrite E|]. split_and!; [done|by apply wf_one|by eapply Hi].
Qed.
Lemma so_schema i v : cs_schemas s !! i = Some v -> u64 i.
Proof.
  intros E. destruct (so_record (CK_Entity (EK_Schema i)) (ER_Schema v)) as (Hk & _ & _);
    [cbn; by rewrite E|]. by apply wf_one.
Qed.
Lemma so_column t i v :
  nlookup (cs_columns s) t i = Some v ->
  cv_table_id v = t /\ cv_column_id v = i /\ u64 t /\ u64 i /\ cv_end_snapshot v = None.
Proof.
  intros E. destruct (so_record (CK_Entity (EK_Column t i)) (ER_Column v)) as (Hk & [= Et Ei] & Hi);
    [cbn; by rewrite E|]. destruct (wf_two _ _ Hk). split_and!; try done. by eapply Hi.
Qed.
Lemma so_index t i v :
  nlookup (cs_indexes s) t i = Some v ->
  xv_table_id v = t /\ xv_index_id v = i /\ u64 t /\ u64 i /\ xv_end_snapshot v = None.
Proof.
  intros E. destruct (so_record (CK_Entity (EK_Index t i)) (ER_Index v)) as (Hk & [= Et Ei] & Hi);
    [cbn; by rewrite E|]. destruct (wf_two _ _ Hk). split_and!; try done. by eapply Hi.
Qed.
Lemma so_table_stats i v : cs_table_stats s !! i = Some v -> ts_table_id v = i /\ u64 i.
Proof.
  intros E. destruct (so_record (CK_Entity (EK_TableStats i)) (ER_TableStats v)) as (Hk & [= Ek] & _);
    [cbn; by rewrite E|]. split; [done|by apply wf_one].
Qed.
Lemma so_tag i v : cs_tags s !! i = Some v -> tg_object_id v = i /\ u64 i.
Proof.
  intros E. destruct (so_record (CK_Entity (EK_Tag i)) (ER_Tag v)) as (Hk & [= Ek] & _);
    [cbn; by rewrite E|]. split; [done|by apply wf_one].
Qed.

(** Puts of the kinds that carry no name. *)
Definition plain_kind (r : EntityRecord) : bool :=
  match r with
  | ER_Schema _ | ER_Table _ | ER_View _ | ER_Macro _ | ER_Index _ | ER_Mapping _ => false
  | _ => true
  end.
Lemma so_put_plain r :
  plain_kind r = true -> Key_wf (K_Current (record_key r)) -> record_included None r = true ->
  state_ok base (put_record r s).
Proof. intros Hp Hk Hi. apply state_ok_put; try done. by destruct r. Qed.

Lemma so_put_schema v :
  u64 (sv_schema_id v) -> sv_end_snapshot v = None ->
  (forall id, cs_schema_names s !! sv_schema_name v = Some id -> id = sv_schema_id v) ->
  state_ok base (put_schema v s).
Proof.
  intros Hu He Hn. apply (state_ok_put base (ER_Schema v)); try done; [by repeat constructor|].
  unfold record_included, included. cbn. by rewrite He.
Qed.
Lemma so_put_table v :
  u64 (tv_table_id v) -> tv_end_snapshot v = None ->
  (forall id, scoped_name (cs_table_names s) (tv_schema_id v) (tv_table_name v) = Some id -> id = tv_table_id v) ->
  scoped_name (cs_view_names s) (tv_schema_id v) (tv_table_name v) = None ->
  u64 (tv_next_column_id v) -> state_ok base (put_table v s).
Proof.
  intros Hu He Hn Hw Hx. apply (state_ok_put base (ER_Table v)); try done; [by repeat constructor|].
  unfold record_included, included. cbn. by rewrite He.
Qed.
Lemma so_put_view v :
  u64 (vv_view_id v) -> vv_end_snapshot v = None ->
  (forall id, scoped_name (cs_view_names s) (vv_schema_id v) (vv_view_name v) = Some id -> id = vv_view_id v) ->
  scoped_name (cs_table_names s) (vv_schema_id v) (vv_view_name v) = None ->
  state_ok base (put_view v s).
Proof.
  intros Hu He Hn Hw. apply (state_ok_put base (ER_View v)); try done; [by repeat constructor|].
  unfold record_included, included. cbn. by rewrite He.
Qed.
Lemma so_put_macro v :
  u64 (mv_macro_id v) -> mv_end_snapshot v = None ->
  (forall id, scoped_name (cs_macro_names s) (mv_schema_id v) (mv_macro_name v) = Some id -> id = mv_macro_id v) ->
  state_ok base (put_macro v s).
Proof.
  intros Hu He Hn. apply (state_ok_put base (ER_Macro v)); try done; [by repeat constructor|].
  unfold record_included, included. cbn. by rewrite He.
Qed.
Lemma so_put_index v :
  u64 (xv_table_id v) -> u64 (xv_index_id v) -> xv_end_snapshot v = None ->
  (forall id, scoped_name (cs_index_names s) (xv_table_id v) (xv_index_name v) = Some id -> id = xv_index_id v) ->
  state_ok base (put_index v s).
Proof.
  intros Hu Hi He Hn. apply (state_ok_put base (ER_Index v)); try done; [by repeat constructor|].
  unfold record_included, included. cbn. by rewrite He.
Qed.

(** A live table's name is its own, and no view's. *)
Lemma so_table_named i v :
  cs_tables s !! i = Some v ->
  scoped_name (cs_table_names s) (tv_schema_id v) (tv_table_name v) = Some i
  /\ scoped_name (cs_view_names s) (tv_schema_id v) (tv_table_name v) = None.
Proof.
  intros E. destruct (so_table _ _ E) as (Ei & _). destruct (so_names _ _ Hs) as (_ & [_ Hn] & _).
  assert (Hi : scoped_name (cs_table_names s) (tv_schema_id v) (tv_table_name v) = Some i).
  { apply Hn. exists v. split; [done|]. unfold table_identity. by rewrite Ei. }
  split; [done|]. apply (so_relations _ _ Hs). eauto.
Qed.
Lemma so_view_named i v :
  cs_views s !! i = Some v ->
  scoped_name (cs_view_names s) (vv_schema_id v) (vv_view_name v) = Some i
  /\ scoped_name (cs_table_names s) (vv_schema_id v) (vv_view_name v) = None.
Proof.
  intros E. destruct (so_view _ _ E) as (Ei & _). destruct (so_names _ _ Hs) as (_ & _ & [_ Hn] & _).
  assert (Hi : scoped_name (cs_view_names s) (vv_schema_id v) (vv_view_name v) = Some i).
  { apply Hn. exists v. split; [done|]. unfold view_identity. by rewrite Ei. }
  split; [done|]. destruct (scoped_name (cs_table_names s) _ _) as [j|] eqn:Ej; [|done].
  rewrite (so_relations _ _ Hs) in Hi; [done|eauto].
Qed.
Lemma so_index_named t i v :
  nlookup (cs_indexes s) t i = Some v -> scoped_name (cs_index_names s) t (xv_index_name v) = Some i.
Proof.
  intros E. destruct (so_names _ _ Hs) as (_ & _ & _ & _ & [_ Hn]). apply Hn. eauto.
Qed.
End Puts.

(** ** The transaction's invariant, verb by verb *)

Record tx_ok (base : CatalogSnapshot) (t : Transaction) : Prop := {
  to_state : state_ok base (tx_state t);
  to_catalog_id : u64 (tx_next_catalog_id t);
  to_file_id : u64 (tx_next_file_id t);
}.

(** A verb preserves the invariant, whether it succeeds or not. *)
Definition keeps {A} (base : CatalogSnapshot) (v : Verb A) : Prop :=
  forall t, tx_ok base t -> vwp (tx_ok base) v (fun _ => tx_ok base) t.

Ltac vfacts :=
  repeat match goal with
  | H : fail_if _ _ = Ok _ |- _ => apply fail_if_Ok in H
  | H : ok_or _ _ = Ok _ |- _ => apply ok_or_Ok in H
  | H : live_table _ _ = Ok _ |- _ => unfold live_table in H
  | H : live_table_stats _ _ = Ok _ |- _ => unfold live_table_stats in H
  | H : orb _ _ = false |- _ => apply orb_false_iff in H as [? ?]
  | H : bool_decide _ = false |- _ => apply bool_decide_eq_false in H
  | H : negb _ = false |- _ => apply negb_false_iff in H
  | H : bool_decide _ = true |- _ => apply bool_decide_eq_true in H
  end.

Ltac tx_simpl :=
  cbn [tx_state tx_ops tx_index_entries tx_inline_ops tx_chunk_seqs tx_inherited_row_ids
    tx_next_catalog_id tx_next_file_id tx_new_snapshot_id on_state push_op push_entry push_inline
    with_ids with_chunk_seqs with_inherited fst snd] in *.

(** Close the failure branches and set up the final state. *)
Ltac vrun :=
  let t := fresh "t" in let Ht := fresh "Ht" in
  intros t Ht; vsteps; try exact Ht; tx_simpl; vfacts.

Section Keeps.
  Context (base : CatalogSnapshot).

Lemma tx_ok_with_ids t a b s :
  tx_ok base t -> state_ok base s -> u64 a -> u64 b ->
  forall ops entries inline seqs rows new,
  tx_ok base (mkTransaction s ops entries inline seqs rows a b new).
Proof. by split. Qed.

Lemma keeps_create_schema uuid name : keeps base (create_schema uuid name).
Proof.
  unfold create_schema. vrun. destruct Ht as [Hs Hc Hf]. split; tx_simpl; [|apply wrapping_add_u64|done].
  apply so_put_schema; try done. intros id E. destruct H0. eauto.
Qed.

Lemma keeps_drop_schema schema : keeps base (drop_schema schema).
Proof. unfold drop_schema. vrun. destruct Ht. split; tx_simpl; auto with verbs. Qed.

Lemma name_free_none (names : ScopedNames) sc nm (x : N) :
  ~ is_Some (scoped_name names sc nm) -> forall id, scoped_name names sc nm = Some id -> id = x.
Proof. intros Hn id E. destruct Hn. eauto. Qed.

Lemma none_of (names : ScopedNames) sc nm :
  ~ is_Some (scoped_name names sc nm) -> scoped_name names sc nm = None.
Proof. intros Hn. destruct (scoped_name names sc nm); [destruct Hn; eauto|done]. Qed.

Lemma keeps_rename_table table name : keeps base (rename_table table name).
Proof.
  unfold rename_table, relation_name_free. vrun. destruct Ht as [Hs Hc Hf]. split; tx_simpl; [|done..].
  destruct (so_table _ _ Hs _ _ H0) as (Ei & Hu & He & Hx). rewrite <-Ei in Hu.
  apply so_put_table; cbn; try done; [by apply name_free_none|by apply none_of].
Qed.

Lemma keeps_set_table_schema table schema : keeps base (set_table_schema table schema).
Proof.
  unfold set_table_schema, relation_name_free. vrun. destruct Ht as [Hs Hc Hf]. split; tx_simpl; [|done..].
  destruct (so_table _ _ Hs _ _ H0) as (Ei & Hu & He & Hx). rewrite <-Ei in Hu.
  apply so_put_table; cbn; try done; [by apply name_free_none|by apply none_of].
Qed.

Lemma keeps_drop_table table : keeps base (drop_table table).
Proof. unfold drop_table. vrun. destruct Ht. split; tx_simpl; auto with verbs. Qed.

(** *** Column trees *)

Lemma so_put_column s v :
  state_ok base s -> u64 (cv_table_id v) -> u64 (cv_column_id v) -> cv_end_snapshot v = None ->
  state_ok base (put_column v s).
Proof.
  intros Hs Ht Hc He. apply (so_put_plain base s Hs (ER_Column v)); [done|by repeat constructor|].
  unfold record_included, included. cbn. by rewrite He.
Qed.

(** Staging a tree touches the columns alone. *)
Definition columns_only (s s' : CatalogSnapshot) : Prop := s' = set_columns (fun _ => cs_columns s') s.

Lemma columns_only_refl s : columns_only s s.
Proof. by destruct s. Qed.
Lemma columns_only_trans s1 s2 s3 : columns_only s1 s2 -> columns_only s2 s3 -> columns_only s1 s3.
Proof. unfold columns_only. intros E1 E2. rewrite E2, E1. by destruct s1. Qed.

Fixpoint ColumnDef_rect' (P : ColumnDef -> Prop)
    (H : forall n ty nu d children, Forall P children -> P (mkColumnDef n ty nu d children))
    (def : ColumnDef) : P def :=
  match def with
  | mkColumnDef n ty nu d children =>
      H n ty nu d children
        ((fix go (l : list ColumnDef) : Forall P l :=
            match l with
            | [] => Forall_nil_2 P
            | x :: l => Forall_cons_2 P x l (ColumnDef_rect' P H x) (go l)
            end) children)
  end.

Definition tree_ok (table : N) (st st' : CatalogSnapshot * N * N) : Prop :=
  u64 table -> state_ok base st.1.1 -> u64 st.1.2 ->
  state_ok base st'.1.1 /\ u64 st'.1.2 /\ columns_only st.1.1 st'.1.1.

Lemma tree_fold_ok {A} table (l : list A) (f : CatalogSnapshot * N * N -> A -> CatalogSnapshot * N * N) :
  (forall x st, x ∈ l -> tree_ok table st (f st x)) -> forall st, tree_ok table st (fold_left f l st).
Proof.
  induction l as [|x l IH]; intros Hf st Ht Hs Hu; cbn; [by split_and!; [..|apply columns_only_refl]|].
  destruct (Hf x st ltac:(set_solver) Ht Hs Hu) as (Hs1 & Hu1 & Hc1).
  destruct (IH (fun y st Hy => Hf y st ltac:(set_solver)) (f st x) Ht Hs1 Hu1) as (? & ? & ?).
  split_and!; [done..|]. by eapply columns_only_trans.
Qed.

Lemma stage_column_tree_ok table begin def : forall parent st,
  tree_ok table st (stage_column_tree table begin def parent st).
Proof.
  induction def as [n ty nu d children IH] using ColumnDef_rect'. intros parent [[s i] o] Ht Hs Hu.
  cbn [stage_column_tree cd_children fst snd] in *.
  set (v := new_column table i o begin parent _).
  assert (Hs1 : state_ok base (put_column v s)) by by apply so_put_column.
  destruct (tree_fold_ok table children
    (fun st child => stage_column_tree table begin child (Some i) st)) with
    (st := (put_column v s, wrapping_add i 1, wrapping_add o 1)) as (H1 & H2 & H3); try done.
  - intros x st Hx. rewrite Forall_forall in IH. by apply IH.
  - cbn. apply wrapping_add_u64.
Qed.

Lemma keeps_create_table uuid schema name columns : keeps base (create_table uuid schema name columns).
Proof.
  unfold create_table, relation_name_free. vrun. destruct Ht as [Hs Hc Hf].
  split; tx_simpl; [|apply wrapping_add_u64|done].
  set (v := mkTableValue _ _ _ _ _ _ _ _ _). assert (Hs1 : state_ok base (put_table v (tx_state t))).
  { apply so_put_table; cbn; try done; [by apply name_free_none|by apply none_of|apply wrapping_add_u64]. }
  destruct (tree_fold_ok (tx_next_catalog_id t) columns (fun st def => stage_column_tree
    (tx_next_catalog_id t) (tx_new_snapshot_id t) def None st)) with
    (st := (put_table v (tx_state t), 1, 1)) as (H5 & _ & _); try done.
  { intros x st _. apply stage_column_tree_ok. }
  apply (so_put_plain base _ H5 (ER_TableStats _)); [done|by repeat constructor|done].
Qed.

Lemma columns_only_put_table v s s' : columns_only s s' ->
  state_ok base s' -> (forall id, scoped_name (cs_table_names s) (tv_schema_id v) (tv_table_name v) = Some id -> id = tv_table_id v) ->
  scoped_name (cs_view_names s) (tv_schema_id v) (tv_table_name v) = None ->
  u64 (tv_table_id v) -> tv_end_snapshot v = None -> u64 (tv_next_column_id v) ->
  state_ok base (put_table v s').
Proof. intros E Hs Hn Hv Hu He Hx. rewrite E in Hs |- *. by apply so_put_table. Qed.

Lemma keeps_add_column table def : keeps base (add_column table def).
Proof.
  unfold add_column. vrun. destruct Ht as [Hs Hc Hf]. split; tx_simpl; [|done..].
  destruct (so_table _ _ Hs _ _ H0) as (Ei & Hu & He & Hx). destruct (so_table_named _ _ Hs _ _ H0) as [Hn Hv].
  set (st := (tx_state t, _, _)).
  destruct (stage_column_tree_ok table (tx_new_snapshot_id t) def None st) as (H2 & H3 & H4); try done.
  { cbn. pose proof (wrapping_add_u64 (default 0 (max_of (btree_keys (table_columns table t)))) 1).
    unfold u64 in *. lia. }
  eapply columns_only_put_table; [exact H4|done| |done|by rewrite Ei|done|done]; cbn.
  intros id E. congruence.
Qed.

Lemma live_column_Ok table column t v :
  live_column table column t = Ok v -> nlookup (cs_columns (tx_state t)) table column = Some v.
Proof.
  unfold live_column, table_columns. intros E%ok_or_Ok. unfold nlookup.
  destruct (cs_columns (tx_state t) !! table); [done|]. cbn in E. by rewrite lookup_empty in E.
Qed.

Lemma keeps_rename_column table column name : keeps base (rename_column table column name).
Proof.
  unfold rename_column. vrun. destruct Ht as [Hs Hc Hf]. split; tx_simpl; [|done..].
  apply live_column_Ok in H0. destruct (so_column _ _ Hs _ _ _ H0) as (E1 & E2 & ? & ? & ?).
  apply so_put_column; cbn; congruence.
Qed.

Lemma keeps_alter_column table column alteration : keeps base (alter_column table column alteration).
Proof.
  unfold alter_column. vrun. destruct Ht as [Hs Hc Hf]. split; tx_simpl; [|done..].
  apply live_column_Ok in H. destruct (so_column _ _ Hs _ _ _ H) as (E1 & E2 & ? & ? & ?).
  apply so_put_column; cbn; congruence.
Qed.

(** A loop whose body keeps the invariant. *)
Lemma keeps_for {A} (l : list A) (f : A -> Verb unit) :
  (forall x, x ∈ l -> keeps base (f x)) -> keeps base (v_for l f).
Proof. intros Hf t Ht. apply (vwp_for _ _ _ (tx_ok base)); [done| |done]. intros x t' Hx. by apply Hf. Qed.

Lemma keeps_state f : (forall s, state_ok base s -> state_ok base (f s)) -> keeps base (v_state f).
Proof. intros Hf t [Hs ? ?]. split; tx_simpl; auto. Qed.

(** A verb that keeps the invariant, then another. *)
Lemma vwp_keeps {A} (v : Verb A) Q t :
  keeps base v -> tx_ok base t -> (forall a t, tx_ok base t -> Q a t) -> vwp (tx_ok base) v Q t.
Proof. intros Hv Ht HQ. eapply vwp_mono; [by apply Hv|]. auto. Qed.

Lemma keeps_drop_column table column : keeps base (drop_column table column).
Proof.
  unfold drop_column. vrun. apply vwp_keeps; [|done|intros _ t' Ht'].
  - apply keeps_for. intros id _. apply keeps_state. auto with verbs.
  - vsteps. destruct Ht'. by split.
Qed.

Lemma tx_ok_state t s : tx_ok base t -> state_ok base s -> tx_ok base (on_state (fun _ => s) t).
Proof. intros [] ?. by split. Qed.

Lemma keeps_set_partitioning table columns : keeps base (set_partitioning table columns).
Proof.
  unfold set_partitioning. vrun. destruct (so_table _ _ (to_state _ _ Ht) _ _ H) as (_ & Hu & _).
  apply vwp_keeps; [|done|intros _ t' Ht'].
  - destruct (live_partition_id table t); [apply keeps_state; auto with verbs|by intros ??].
  - vsteps. destruct Ht' as [Hs Hc Hf]. split; tx_simpl; [|apply wrapping_add_u64|done].
    apply (so_put_plain base _ Hs (ER_Partition _)); [done|by repeat constructor|done].
Qed.

Lemma keeps_clear_partitioning table : keeps base (clear_partitioning table).
Proof. unfold clear_partitioning. vrun. destruct Ht. split; tx_simpl; auto with verbs. Qed.

Lemma keeps_set_sorting table keys : keeps base (set_sorting table keys).
Proof.
  unfold set_sorting. vrun. destruct (so_table _ _ (to_state _ _ Ht) _ _ H) as (_ & Hu & _).
  apply vwp_keeps; [|done|intros _ t' Ht'].
  - destruct (live_sort_id table t); [apply keeps_state; auto with verbs|by intros ??].
  - vsteps. destruct Ht' as [Hs Hc Hf]. split; tx_simpl; [|apply wrapping_add_u64|done].
    apply (so_put_plain base _ Hs (ER_Sort _)); [done|by repeat constructor|done].
Qed.

Lemma keeps_clear_sorting table : keeps base (clear_sorting table).
Proof. unfold clear_sorting. vrun. destruct Ht. split; tx_simpl; auto with verbs. Qed.

(** *** Indexes *)

Section Storekey.
  Context `{SK : Storekey}.

Lemma keeps_stage_index_entry index unique count orders entry del building :
  keeps base (stage_index_entry index unique count orders entry del building).
Proof. unfold stage_index_entry. vrun. destruct Ht. by split. Qed.

Lemma index_name_free_none table name t :
  state_ok base (tx_state t) -> index_name_free table name t = Ok tt ->
  scoped_name (cs_index_names (tx_state t)) table name = None.
Proof.
  unfold index_name_free, table_indexes. intros Hs E%fail_if_Ok.
  destruct (scoped_name (cs_index_names (tx_state t)) table name) as [id|] eqn:Ei; [|done].
  destruct (so_names _ _ Hs) as (_ & _ & _ & _ & [_ Hn]). apply Hn in Ei as (v & Hv & En).
  apply not_true_iff_false in E. destruct E. apply existsb_exists. exists v.
  split; [|by apply bool_decide_eq_true]. apply list_elem_of_In, elem_of_btree_values.
  unfold nlookup in Hv. destruct (cs_indexes (tx_state t) !! table); [|done]. eauto.
Qed.

Lemma keeps_insert_index_definition table def maintenance build orders :
  keeps base (insert_index_definition table def maintenance build orders).
Proof.
  unfold insert_index_definition. vrun. destruct Ht as [Hs Hc Hf].
  split; tx_simpl; [|apply wrapping_add_u64|done].
  destruct (so_table _ _ Hs _ _ H0) as (_ & Hu & _).
  apply so_put_index; cbn; try done. intros id E. by rewrite (index_name_free_none _ _ _ Hs H3) in E.
Qed.

Ltac vkeeps lem := apply vwp_keeps; [apply lem|done|].

Lemma keeps_create_index_with table def orders maintenance backfill :
  keeps base (create_index_ordered_with_maintenance table def orders maintenance backfill).
Proof.
  unfold create_index_ordered_with_maintenance. vrun.
  vkeeps keeps_insert_index_definition. intros id t1 Ht1. vsteps.
  apply vwp_keeps; [apply keeps_for; intros; apply keeps_stage_index_entry|done|].
  intros _ t2 [? ? ?]. vsteps. by split.
Qed.

Lemma keeps_create_index table def backfill : keeps base (create_index table def backfill).
Proof.
  unfold create_index. vrun. vkeeps keeps_insert_index_definition. intros id t1 Ht1. vsteps.
  apply vwp_keeps; [apply keeps_for; intros; apply keeps_stage_index_entry|done|].
  intros _ t2 [? ? ?]. vsteps. by split.
Qed.

Lemma keeps_create_index_staged table def orders maintenance :
  keeps base (create_index_staged_ordered_with_maintenance table def orders maintenance).
Proof.
  unfold create_index_staged_ordered_with_maintenance. vrun.
  vkeeps keeps_insert_index_definition. intros id t1 [? ? ?]. vsteps. by split.
Qed.

Lemma find_index_Some tables index indexes t v :
  find_index tables index indexes = Some (t, v) -> nlookup indexes t index = Some v.
Proof.
  induction tables as [|x l IH]; cbn; [done|]. destruct (nlookup indexes x index) eqn:E; [|auto].
  by intros [= <- <-].
Qed.

Lemma keeps_drop_index index : keeps base (drop_index index).
Proof.
  unfold drop_index. vrun. destruct a as [table v]. vsteps. destruct Ht.
  split; tx_simpl; auto with verbs.
Qed.

Lemma keeps_build_index_step index batch is_final source :
  keeps base (build_index_step_at index batch is_final source).
Proof.
  unfold build_index_step_at. vrun. destruct a as [table v]. vsteps; [done|]. tx_simpl.
  apply (vwp_for _ _ _ (fun t' => tx_ok base t' /\ tx_state t' = tx_state t)); [done| |].
  - intros x t' _ [Ht' E]. unfold stage_index_entry. vsteps; try exact Ht'. destruct Ht'. by split.
  - intros t' [[Hs Hc Hf] E]. vsteps. split; tx_simpl; [|done..].
    unfold live_index in H. apply ok_or_Ok, find_index_Some in H. rewrite <-E in H.
    destruct (so_index _ _ Hs _ _ _ H) as (E1 & E2 & ? & ? & ?).
    apply so_put_index; cbn; try congruence. intros id Ei.
    rewrite E1, (so_index_named _ _ Hs _ _ _ H) in Ei. congruence.
Qed.

(** *** Files, statistics, inlined data *)

Lemma keeps_file_entries table start entries :
  keeps base (v_for entries (stage_file_index_entry table start)).
Proof.
  apply keeps_for. intros x _. unfold stage_file_index_entry. vrun. by apply keeps_stage_index_entry.
Qed.
Lemma keeps_removals table entries : keeps base (stage_delete_file_index_entries table entries).
Proof.
  apply keeps_for. intros x _. vrun. by apply keeps_stage_index_entry.
Qed.

Lemma keeps_allocate_row_ids table tstat : keeps base (allocate_row_ids table tstat).
Proof.
  intros t [? ? ?]. unfold vwp, allocate_row_ids. destruct (tx_inherited_row_ids t !! table); by split.
Qed.

Lemma so_put_table_stats s v : state_ok base s -> u64 (ts_table_id v) -> state_ok base (put_table_stats v s).
Proof. intros Hs Hu. apply (so_put_plain base s Hs (ER_TableStats v)); [done|by repeat constructor|done]. Qed.
Lemma so_put_data_file s v :
  state_ok base s -> u64 (df_table_id v) -> u64 (df_data_file_id v) -> df_end_snapshot v = None ->
  state_ok base (put_data_file v s).
Proof.
  intros Hs Ht Hc He. apply (so_put_plain base s Hs (ER_File v)); [done|by repeat constructor|].
  unfold record_included, included. cbn. by rewrite He.
Qed.
Lemma so_put_file_column_stats s v :
  state_ok base s -> u64 (fcs_table_id v) -> u64 (fcs_data_file_id v) -> u64 (fcs_column_id v) ->
  state_ok base (put_file_column_stats v s).
Proof.
  intros Hs ? ? ?. apply (so_put_plain base s Hs (ER_FileColumnStats v)); [done|by repeat constructor|done].
Qed.

Lemma check_stats_columns_Ok table stats t :
  state_ok base (tx_state t) -> check_stats_columns table stats t = Ok tt ->
  Forall (fun e => u64 (fs_column_id e)) stats.
Proof.
  intros Hs. induction stats as [|e stats IH]; cbn; [constructor|].
  destruct (live_column table (fs_column_id e) t) as [v|] eqn:E; cbn; [|done].
  intros Hr. constructor; [|by apply IH]. apply live_column_Ok in E.
  by destruct (so_column _ _ Hs _ _ _ E) as (_ & _ & _ & ? & _).
Qed.

Lemma keeps_file_stats table file stats :
  u64 table -> u64 file -> Forall (fun e => u64 (fs_column_id e)) stats ->
  keeps base (v_for stats (fun entry => v_state (put_file_column_stats (file_column_stats table file entry)))).
Proof.
  intros Ht Hf Hs. apply keeps_for. intros x Hx. apply keeps_state. intros s Hok.
  rewrite Forall_forall in Hs. by apply so_put_file_column_stats; [|..|apply Hs].
Qed.

Lemma keeps_register_data_file table file entries : keeps base (register_data_file table file entries).
Proof.
  unfold register_data_file. vrun; [by destruct Ht; split; tx_simpl; [|..|apply wrapping_add_u64]|].
  pose proof (check_stats_columns_Ok _ _ _ (to_state _ _ Ht) H0) as Hcols.
  destruct (so_table _ _ (to_state _ _ Ht) _ _ H) as (_ & Hu & _).
  destruct (so_table_stats _ _ (to_state _ _ Ht) _ _ H4) as (Ets & _).
  pose proof (to_file_id _ _ Ht) as Hfile.
  apply vwp_keeps; [apply keeps_allocate_row_ids| |].
  { destruct Ht. split; tx_simpl; [done..|apply wrapping_add_u64]. }
  intros start t1 [Hs1 Hc1 Hf1]. vsteps. tx_simpl.
  apply vwp_keeps; [by apply keeps_file_stats| |].
  { split; tx_simpl; [|done..]. apply so_put_data_file; try done.
    apply so_put_table_stats; [done|]. cbn. by rewrite Ets. }
  intros _ t2 Ht2. vsteps. apply vwp_keeps; [apply keeps_file_entries|done|].
  intros _ t3 [? ? ?]. vsteps. by split.
Qed.

Lemma keeps_expire_data_file table file : keeps base (expire_data_file table file).
Proof.
  unfold expire_data_file. vrun. apply vwp_keeps; [|done|intros _ t1 [Hs Hc Hf]].
  - apply keeps_for. intros x _. apply keeps_state. auto with verbs.
  - vsteps; [by split; tx_simpl; auto with verbs|]. tx_simpl. vfacts.
    assert (Hs1 : state_ok base (delete_data_file table file (tx_state t1))) by auto with verbs.
    destruct (so_table_stats _ _ Hs1 _ _ H0) as (E & Hu). split; tx_simpl; [|done..].
    apply so_put_table_stats; [done|]. cbn. by rewrite E.
Qed.

Lemma keeps_register_delete_file table file entries : keeps base (register_delete_file table file entries).
Proof.
  unfold register_delete_file. vrun. destruct (so_table _ _ (to_state _ _ Ht) _ _ H) as (_ & Hu & _).
  apply vwp_keeps; [|done|intros _ t1 Ht1].
  - destruct (df_row_id_start a0); [vrun; done|by intros ??].
  - vsteps. tx_simpl. destruct Ht1 as [Hs Hc Hf]. apply vwp_keeps; [apply keeps_removals| |].
    + split; tx_simpl; [|done|apply wrapping_add_u64].
      apply (so_put_plain base _ Hs (ER_DeleteFile _)); [done|by repeat constructor|done].
    + intros _ t2 [? ? ?]. vsteps. by split.
Qed.

Lemma keeps_expire_delete_file table file : keeps base (expire_delete_file table file).
Proof. unfold expire_delete_file. vrun. destruct Ht. split; tx_simpl; auto with verbs. Qed.

Lemma keeps_update_table_stats table rows size_ : keeps base (update_table_stats table rows size_).
Proof.
  unfold update_table_stats. vrun. destruct Ht as [Hs ? ?]. split; tx_simpl; [|done..].
  destruct (so_table_stats _ _ Hs _ _ H0) as (E & Hu). apply so_put_table_stats; [done|]. cbn. by rewrite E.
Qed.

Lemma keeps_update_column_stats table column stats : keeps base (update_column_stats table column stats).
Proof.
  unfold update_column_stats. vrun. destruct Ht as [Hs ? ?]. split; tx_simpl; [|done..].
  apply live_column_Ok in H. destruct (so_column _ _ Hs _ _ _ H) as (_ & _ & ? & ? & _).
  apply (so_put_plain base _ Hs (ER_TableColumnStats _)); [done|by repeat constructor|done].
Qed.

Lemma keeps_inline_insert table chunk entries : keeps base (inline_insert table chunk entries).
Proof.
  unfold inline_insert. vrun. destruct (so_table _ _ (to_state _ _ Ht) _ _ H) as (_ & Hu & _).
  destruct (so_table_stats _ _ (to_state _ _ Ht) _ _ H3) as (Ets & _).
  apply vwp_keeps; [apply keeps_allocate_row_ids|done|]. intros start t1 [Hs1 Hc1 Hf1]. vsteps. tx_simpl.
  apply vwp_keeps; [apply keeps_file_entries| |intros _ t2 [? ? ?]; vsteps; by split].
  split; tx_simpl; [|done..]. apply so_put_table_stats; [done|]. cbn. by rewrite Ets.
Qed.

Lemma keeps_inline_delete table row entries : keeps base (inline_delete table row entries).
Proof.
  unfold inline_delete. vrun. apply vwp_keeps; [apply keeps_removals|by destruct Ht; split|].
  intros _ t1 [? ? ?]. vsteps. by split.
Qed.

Lemma keeps_register_flushed_file table flush inherited :
  u64 table -> keeps base (register_flushed_file table flush inherited).
Proof.
  intros Hu. unfold register_flushed_file. vrun;
    [by destruct Ht; split; tx_simpl; [|..|apply wrapping_add_u64]|].
  pose proof (check_stats_columns_Ok _ _ _ (to_state _ _ Ht) H3) as Hcols.
  destruct (so_table_stats _ _ (to_state _ _ Ht) _ _ H5) as (Ets & _). destruct Ht as [Hs Hc Hf].
  apply vwp_keeps; [by apply keeps_file_stats| |by intros _ t1 Ht1].
  split; tx_simpl; [|done|apply wrapping_add_u64]. apply so_put_data_file; try done.
  apply so_put_table_stats; [done|]. cbn. by rewrite Ets.
Qed.

Lemma keeps_register_flushed table flushed ceiling :
  u64 table -> keeps base (register_flushed table flushed ceiling).
Proof.
  intros Hu. induction flushed as [|f l IH]; cbn [register_flushed]; [by intros ??|].
  vrun. apply vwp_keeps; [by apply keeps_register_flushed_file|done|]. intros id t1 Ht1. vsteps.
  apply vwp_keeps; [apply IH|done|]. intros ids t2 Ht2. by vsteps.
Qed.

Lemma keeps_flush_inlined_data table version flushed : keeps base (flush_inlined_data table version flushed).
Proof.
  unfold flush_inlined_data. vrun. destruct (so_table _ _ (to_state _ _ Ht) _ _ H) as (_ & Hu & _).
  apply vwp_keeps; [by apply keeps_register_flushed|done|]. intros ids t1 [? ? ?]. vsteps. by split.
Qed.
End Storekey.

(** *** Views, macros, options, tags *)

Lemma keeps_create_view uuid schema name dialect sql : keeps base (create_view uuid schema name dialect sql).
Proof.
  unfold create_view, relation_name_free. vrun. destruct Ht as [Hs Hc Hf].
  split; tx_simpl; [|apply wrapping_add_u64|done].
  apply so_put_view; cbn; try done; [by apply name_free_none|by apply none_of].
Qed.

Lemma keeps_alter_view view dialect sql : keeps base (alter_view view dialect sql).
Proof.
  unfold alter_view. vrun. destruct Ht as [Hs Hc Hf]. split; tx_simpl; [|done..].
  destruct (so_view _ _ Hs _ _ H) as (Ei & Hu & He). destruct (so_view_named _ _ Hs _ _ H) as [Hn Ht].
  apply so_put_view; cbn; try congruence.
Qed.

Lemma keeps_drop_view view : keeps base (drop_view view).
Proof. unfold drop_view. vrun. destruct Ht. split; tx_simpl; auto with verbs. Qed.

(** A macro whose name no other macro of the schema bears. *)
Lemma vwp_create_macro schema name impls t :
  scoped_name (cs_macro_names (tx_state t)) schema name = None -> tx_ok base t ->
  vwp (tx_ok base) (create_macro schema name impls) (fun _ => tx_ok base) t.
Proof.
  intros Hn Ht. unfold create_macro. vsteps; try exact Ht. tx_simpl. destruct Ht as [Hs Hc Hf].
  split; tx_simpl; [|apply wrapping_add_u64|done]. apply so_put_macro; cbn; try done.
  intros id E. congruence.
Qed.

Lemma keeps_drop_macro id : keeps base (drop_macro id).
Proof. unfold drop_macro. vrun. destruct Ht. split; tx_simpl; auto with verbs. Qed.

Lemma live_scope_u64 scope t :
  state_ok base (tx_state t) -> live_scope scope t = Ok tt ->
  u64 (key_components scope).1 /\ u64 (key_components scope).2.
Proof.
  intros Hs. destruct scope as [|id|id]; cbn; [done| |]; intros E%fail_if_Ok; split; try done.
  - unfold schema_live in E. vfacts. destruct E as [v E]. by eapply so_schema.
  - vfacts. destruct (cs_tables (tx_state t) !! id) as [v|] eqn:Ev; [|done].
    by destruct (so_table _ _ Hs _ _ Ev) as (_ & ? & _).
Qed.

Lemma so_set_option s c v :
  state_ok base s -> u64 c.1 -> u64 c.2 -> state_ok base (set_option_record c v s).
Proof.
  intros Hs H1 H2. destruct c as [k i].
  apply (so_put_plain base s Hs (ER_Option k i v)); [done|by repeat constructor|done].
Qed.

Lemma keeps_set_option scope key value : keeps base (set_option scope key value).
Proof.
  unfold set_option. vrun. destruct Ht as [Hs ? ?]. split; tx_simpl; [|done..].
  destruct (live_scope_u64 _ _ Hs H0). by apply so_set_option.
Qed.

Lemma keeps_unset_option scope key : keeps base (unset_option scope key).
Proof.
  unfold unset_option. vrun. destruct Ht as [Hs ? ?]. split; tx_simpl; [|done..].
  destruct (live_scope_u64 _ _ Hs H). repeat case_match; auto using so_set_option with verbs.
Qed.

Lemma so_put_tag s v : state_ok base s -> u64 (tg_object_id v) -> state_ok base (put_tag v s).
Proof. intros Hs Hu. apply (so_put_plain base s Hs (ER_Tag v)); [done|by repeat constructor|done]. Qed.

Lemma keeps_end_live_tag object key : keeps base (end_live_tag object key).
Proof.
  intros t [Hs Hc Hf]. unfold vwp, end_live_tag.
  destruct (cs_tags (tx_state t) !! object) as [v|] eqn:Ev; [|by split].
  destruct (end_entry _ _ _) as [entries|]; [|by split]. split; tx_simpl; [|done..].
  destruct (so_tag _ _ Hs _ _ Ev) as [E Hu]. rewrite <-E.
  by apply (so_put_tag _ (mkTagValue (tg_object_id v) entries)); [|cbn; rewrite E].
Qed.

(** A target that is live names an object by its id. *)
Lemma vwp_mark_tagged target t :
  tx_ok base t ->
  vwp (tx_ok base) (mark_tagged target) (fun _ t' => tx_ok base t' /\ u64 (object_id target)) t.
Proof.
  intros Ht. pose proof (to_state _ _ Ht) as Hs. destruct target as [id|id|id]; cbn [mark_tagged];
    vsteps; try exact Ht; tx_simpl; vfacts; (split; [by destruct Ht; split|]); cbn.
  - unfold schema_live in H. vfacts. destruct H as [v Hv]. by eapply so_schema.
  - by destruct (so_table _ _ Hs _ _ H) as (_ & ? & _).
  - destruct (cs_views (tx_state t) !! id) as [v|] eqn:Ev; [|done].
    by destruct (so_view _ _ Hs _ _ Ev) as (_ & ? & _).
Qed.

Lemma keeps_set_tag target key value : keeps base (set_tag target key value).
Proof.
  unfold set_tag. vrun. eapply vwp_mono; [by apply vwp_mark_tagged|]. intros _ t1 [Ht1 Hu]. vsteps.
  apply vwp_keeps; [apply keeps_end_live_tag|done|]. intros _ t2 [Hs Hc Hf]. vsteps.
  split; tx_simpl; [|done..].
  set (c := default (mkTagValue (object_id target) []) (cs_tags (tx_state t2) !! object_id target)).
  set (v := mkTagValue (tg_object_id c)
    (tg_entries c ++ [mkTagEntry (tx_new_snapshot_id t2) None key value])).
  assert (E : tg_object_id v = object_id target).
  { unfold v, c. cbn. destruct (cs_tags (tx_state t2) !! object_id target) as [w|] eqn:Ew; [|done]. cbn.
    by destruct (so_tag _ _ Hs _ _ Ew). }
  pose proof (so_put_tag (tx_state t2) v Hs ltac:(by rewrite E)) as Hp. unfold put_tag in Hp.
  by rewrite E in Hp.
Qed.

Lemma keeps_remove_tag target key : keeps base (remove_tag_verb target key).
Proof.
  unfold remove_tag_verb. vrun. eapply vwp_mono; [by apply vwp_mark_tagged|]. intros _ t1 [Ht1 _]. vsteps.
  apply vwp_keeps; [apply keeps_end_live_tag|done|]. intros b t2 Ht2. by vsteps.
Qed.
End Keeps.

(** ** Row ids *)

(** What the row-id discipline depends on: a table's statistics, its data files and
    what the transaction inherited, all of them below the next catalog id; every file
    within the row ids its table has allocated. *)
Record rows_inv (stats : gmap N TableStatsValue) (files : gmap N (gmap N DataFileValue))
    (inherited : gmap N N) (next : N) : Prop := {
  ri_stats : forall i, next <= i -> stats !! i = None;
  ri_files : forall i f, next <= i -> nlookup files i f = None;
  ri_inherited : forall i, next <= i -> inherited !! i = None;
  ri_covered : forall i st f v start, stats !! i = Some st -> nlookup files i f = Some v ->
    df_row_id_start v = Some start -> saturating_add start (df_record_count v) <= ts_next_row_id st;
  ri_floor : forall i st x, stats !! i = Some st -> inherited !! i = Some x -> x <= ts_next_row_id st;
  ri_width : forall i st, stats !! i = Some st -> u64 (ts_next_row_id st);
}.

Definition tx_rows (t : Transaction) : Prop :=
  rows_inv (cs_table_stats (tx_state t)) (cs_data_files (tx_state t)) (tx_inherited_row_ids t)
    (tx_next_catalog_id t).

Lemma rows_inv_next stats files inherited next next' :
  next <= next' -> rows_inv stats files inherited next -> rows_inv stats files inherited next'.
Proof.
  intros Hn [H1 H2 H3 H4 H5 H6]. split; try done; intros; [apply H1|apply H2|apply H3]; lia.
Qed.

(** A verb that leaves those parts alone, allocating at most one catalog id. *)
Definition same_rows (t t' : Transaction) : Prop :=
  cs_table_stats (tx_state t') = cs_table_stats (tx_state t)
  /\ cs_data_files (tx_state t') = cs_data_files (tx_state t)
  /\ tx_inherited_row_ids t' = tx_inherited_row_ids t
  /\ (tx_next_catalog_id t' = tx_next_catalog_id t
      \/ tx_next_catalog_id t' = wrapping_add (tx_next_catalog_id t) 1).

Lemma same_rows_refl t : same_rows t t.
Proof. by split_and!; auto. Qed.

Lemma same_rows_inv t t' : u64 (tx_next_catalog_id t + 1) -> same_rows t t' -> tx_rows t -> tx_rows t'.
Proof.
  intros Hu (E1 & E2 & E3 & En) Hr. unfold tx_rows. rewrite E1, E2, E3.
  eapply rows_inv_next; [|exact Hr]. destruct En as [->| ->]; [lia|]. rewrite wrapping_add_exact by done. lia.
Qed.

Definition framed {A} (v : Verb A) : Prop := forall t, vwp (same_rows t) v (fun _ => same_rows t) t.

(** A step that changes neither the parts nor the counter. *)
Definition inert {A} (v : Verb A) : Prop :=
  forall t0 t, same_rows t0 t -> vwp (same_rows t0) v (fun _ => same_rows t0) t.

Lemma inert_for {A} (l : list A) (f : A -> Verb unit) : (forall x, inert (f x)) -> inert (v_for l f).
Proof.
  intros Hf t0 t Ht. apply (vwp_for _ _ _ (same_rows t0)); [done| |done]. intros x t' _. apply Hf.
Qed.
Lemma inert_state f :
  (forall s, cs_table_stats (f s) = cs_table_stats s /\ cs_data_files (f s) = cs_data_files s) ->
  inert (v_state f).
Proof.
  intros Hf t0 t (E1 & E2 & E3 & En). destruct (Hf (tx_state t)) as [F1 F2].
  split_and!; tx_simpl; congruence || done.
Qed.

Ltac named_parts :=
  unfold put_table, put_view, put_macro, put_index, put_schema, delete_view, delete_macro, delete_index,
    delete_schema, remove_schema_only, remove_option_record, set_option_record;
  repeat case_match; try done.
Ltac same_done :=
  apply same_rows_refl || (split_and!; tx_simpl; [by named_parts|by named_parts|done|by auto]).
Ltac vframe := intros ?; vsteps; try same_done.

Lemma framed_create_schema uuid name : framed (create_schema uuid name).
Proof. unfold create_schema. vframe. Qed.
Lemma framed_drop_schema schema : framed (drop_schema schema).
Proof. unfold drop_schema. vframe. Qed.
Lemma framed_rename_table table name : framed (rename_table table name).
Proof. unfold rename_table. vframe. Qed.
Lemma framed_set_table_schema table name : framed (set_table_schema table name).
Proof. unfold set_table_schema. vframe. Qed.
Lemma framed_rename_column table column name : framed (rename_column table column name).
Proof. unfold rename_column. vframe. Qed.
Lemma framed_alter_column table column a : framed (alter_column table column a).
Proof. unfold alter_column. vframe. Qed.
Lemma framed_clear_partitioning table : framed (clear_partitioning table).
Proof. unfold clear_partitioning. vframe. Qed.
Lemma framed_clear_sorting table : framed (clear_sorting table).
Proof. unfold clear_sorting. vframe. Qed.
Lemma framed_expire_delete_file table file : framed (expire_delete_file table file).
Proof. unfold expire_delete_file. vframe. Qed.
Lemma framed_update_column_stats table column st : framed (update_column_stats table column st).
Proof. unfold update_column_stats. vframe. Qed.
Lemma framed_create_view uuid schema name dialect sql : framed (create_view uuid schema name dialect sql).
Proof. unfold create_view. vframe. Qed.
Lemma framed_alter_view view dialect sql : framed (alter_view view dialect sql).
Proof. unfold alter_view. vframe. Qed.
Lemma framed_drop_view view : framed (drop_view view).
Proof. unfold drop_view. vframe. Qed.
Lemma framed_create_macro schema name impls : framed (create_macro schema name impls).
Proof. unfold create_macro. vframe. Qed.
Lemma framed_drop_macro m : framed (drop_macro m).
Proof. unfold drop_macro. vframe. Qed.
Lemma framed_set_option scope key value : framed (set_option scope key value).
Proof. unfold set_option. vframe. Qed.
Lemma framed_unset_option scope key : framed (unset_option scope key).
Proof. unfold unset_option. vframe. Qed.

Lemma inert_end_live_tag object key : inert (end_live_tag object key).
Proof.
  intros t0 t (E1 & E2 & E3 & En). unfold vwp, end_live_tag. repeat case_match; simplify_eq; done.
Qed.
Lemma framed_mark_tagged target : framed (mark_tagged target).
Proof. destruct target; cbn [mark_tagged]; vframe. Qed.
Lemma framed_set_tag target key value : framed (set_tag target key value).
Proof.
  unfold set_tag. vframe. eapply vwp_mono; [apply framed_mark_tagged|]. intros ? t1 H1. vsteps.
  eapply vwp_mono; [by apply inert_end_live_tag|]. intros ? t2 (? & ? & ? & ?). by vsteps.
Qed.
Lemma framed_remove_tag target key : framed (remove_tag_verb target key).
Proof.
  unfold remove_tag_verb. vframe. eapply vwp_mono; [apply framed_mark_tagged|]. intros ? t1 H1. vsteps.
  eapply vwp_mono; [by apply inert_end_live_tag|]. intros b t2 H2. by vsteps.
Qed.
Lemma framed_drop_column table column : framed (drop_column table column).
Proof.
  unfold drop_column. vframe. eapply vwp_mono; [apply inert_for|intros ? t1 (? & ? & ? & ?); by vsteps].
  - intros x. by apply inert_state.
  - same_done.
Qed.
Lemma framed_set_partitioning table columns : framed (set_partitioning table columns).
Proof.
  unfold set_partitioning. vframe. destruct (live_partition_id _ _); vsteps; same_done.
Qed.
Lemma framed_set_sorting table keys : framed (set_sorting table keys).
Proof. unfold set_sorting. vframe. destruct (live_sort_id _ _); vsteps; same_done. Qed.

Lemma stage_tree_parts table begin def : forall parent st,
  columns_only st.1.1 (stage_column_tree table begin def parent st).1.1.
Proof.
  induction def as [n ty nu d children IH] using ColumnDef_rect'. intros parent [[s i] o].
  cbn [stage_column_tree cd_children fst snd].
  assert (Hf : forall l st, Forall (fun x => forall parent st,
      columns_only st.1.1 (stage_column_tree table begin x parent st).1.1) l ->
    columns_only st.1.1 (fold_left (fun st child => stage_column_tree table begin child (Some i) st) l st).1.1).
  { induction l as [|x l IHl]; intros st Hl; cbn; [apply columns_only_refl|].
    apply Forall_cons in Hl as [Hx Hl]. eapply columns_only_trans; [apply Hx|by apply IHl]. }
  specialize (Hf children (put_column (new_column table i o begin parent (mkColumnDef n ty nu d children)) s,
    wrapping_add i 1, wrapping_add o 1) IH). eapply columns_only_trans; [|exact Hf]. done.
Qed.

Lemma stage_trees_parts table begin defs : forall st,
  columns_only st.1.1 (fold_left (fun st def => stage_column_tree table begin def None st) defs st).1.1.
Proof.
  induction defs as [|x l IH]; intros st; cbn; [apply columns_only_refl|].
  eapply columns_only_trans; [apply stage_tree_parts|apply IH].
Qed.

Lemma framed_add_column table def : framed (add_column table def).
Proof.
  unfold add_column. vframe. unfold same_rows. tx_simpl. unfold put_table.
  destruct put_named. cbn. rewrite (stage_tree_parts _ _ _ _ _). cbn. auto.
Qed.

Section StorekeyRows.
  Context `{SK : Storekey}.

Lemma inert_stage_index_entry index unique count orders entry del building :
  inert (stage_index_entry index unique count orders entry del building).
Proof. intros t0 t Ht. unfold stage_index_entry. vsteps; try exact Ht. Qed.
Lemma inert_file_entries table start entries : inert (v_for entries (stage_file_index_entry table start)).
Proof.
  apply inert_for. intros x t0 t Ht. unfold stage_file_index_entry. vsteps; try exact Ht.
  by apply inert_stage_index_entry.
Qed.
Lemma inert_removals table entries : inert (stage_delete_file_index_entries table entries).
Proof.
  apply inert_for. intros x t0 t Ht. vsteps; try exact Ht. by apply inert_stage_index_entry.
Qed.

Lemma framed_insert_index table def maintenance build orders :
  framed (insert_index_definition table def maintenance build orders).
Proof. unfold insert_index_definition. vframe. Qed.

Ltac after_index :=
  eapply vwp_mono; [apply framed_insert_index|]; intros ? ? ?; vsteps;
  try (eapply vwp_mono; [apply inert_for; [intros; apply inert_stage_index_entry|done]|];
       intros ? ? ?; vsteps); done.

Lemma framed_create_index_with table def orders maintenance backfill :
  framed (create_index_ordered_with_maintenance table def orders maintenance backfill).
Proof. unfold create_index_ordered_with_maintenance. vframe. after_index. Qed.
Lemma framed_create_index table def backfill : framed (create_index table def backfill).
Proof. unfold create_index. vframe. after_index. Qed.
Lemma framed_create_index_staged table def orders maintenance :
  framed (create_index_staged_ordered_with_maintenance table def orders maintenance).
Proof. unfold create_index_staged_ordered_with_maintenance. vframe. after_index. Qed.
Lemma framed_drop_index index : framed (drop_index index).
Proof. unfold drop_index. vframe. destruct a. vsteps. same_done. Qed.
Lemma framed_build_index_step index batch is_final source :
  framed (build_index_step_at index batch is_final source).
Proof.
  unfold build_index_step_at. vframe. destruct a. vsteps; try same_done.
  eapply vwp_mono; [apply inert_for; [intros; apply inert_stage_index_entry|same_done]|].
  intros ? t1 (? & ? & ? & ?). by vsteps.
Qed.
Lemma framed_register_delete_file table file entries : framed (register_delete_file table file entries).
Proof.
  unfold register_delete_file. vframe. destruct (df_row_id_start _); vsteps; try same_done;
    (eapply vwp_mono; [apply inert_removals; same_done|]; intros ? t1 (? & ? & ? & ?); by vsteps).
Qed.
Lemma framed_inline_delete table row entries : framed (inline_delete table row entries).
Proof.
  unfold inline_delete. vframe. eapply vwp_mono; [apply inert_removals; same_done|].
  intros ? t1 (? & ? & ? & ?). by vsteps.
Qed.
End StorekeyRows.

(** *** The verbs that move row ids *)

Lemma rows_put_stats stats files inherited next i st st' :
  rows_inv stats files inherited next -> stats !! i = Some st ->
  ts_next_row_id st <= ts_next_row_id st' -> u64 (ts_next_row_id st') ->
  rows_inv (<[i := st']> stats) files inherited next.
Proof.
  intros [H1 H2 H3 H4 H5 H6] Hi Hle Hu. split; try done.
  - intros j Hj. rewrite lookup_insert_ne; [by apply H1|]. intros ->. by rewrite H1 in Hi.
  - intros j s f v start. rewrite lookup_insert. case_decide as E; [|by apply H4].
    subst j. intros [= <-] Hv Hs. specialize (H4 _ _ _ _ _ Hi Hv Hs). lia.
  - intros j s x. rewrite lookup_insert. case_decide as E; [|by apply H5].
    subst j. intros [= <-] Hx. specialize (H5 _ _ _ Hi Hx). lia.
  - intros j s. rewrite lookup_insert. case_decide; [by intros [= <-]|apply H6].
Qed.

Lemma rows_put_file stats files inherited next i f v st start :
  rows_inv stats files inherited next -> stats !! i = Some st -> df_row_id_start v = Some start ->
  saturating_add start (df_record_count v) <= ts_next_row_id st ->
  rows_inv stats (put_nested i f v files) inherited next.
Proof.
  intros [H1 H2 H3 H4 H5 H6] Hi Hv Hle. split; try done.
  - intros j g Hj. rewrite nlookup_put_nested. case_decide as E; [|by apply H2].
    destruct E as [-> _]. by rewrite H1 in Hi.
  - intros j s g w start' Hs. rewrite nlookup_put_nested. case_decide as E; [|by apply H4].
    destruct E as [-> _]. intros [= <-]. congruence.
Qed.

Lemma rows_inherit stats files inherited next i x st :
  rows_inv stats files inherited next -> stats !! i = Some st -> x <= ts_next_row_id st ->
  rows_inv stats files (<[i := x]> inherited) next.
Proof.
  intros [H1 H2 H3 H4 H5 H6] Hi Hle. split; try done.
  - intros j Hj. rewrite lookup_insert_ne; [by apply H3|]. intros ->. by rewrite H1 in Hi.
  - intros j s y Hs. rewrite lookup_insert. case_decide; [|by apply H5]. intros [= <-]. by simplify_eq.
Qed.

Lemma rows_sub stats stats' files files' inherited next :
  (forall i v, stats' !! i = Some v -> stats !! i = Some v) ->
  (forall i f v, nlookup files' i f = Some v -> nlookup files i f = Some v) ->
  rows_inv stats files inherited next -> rows_inv stats' files' inherited next.
Proof.
  intros Hs Hf [H1 H2 H3 H4 H5 H6]. split; try done.
  - intros i Hi. destruct (stats' !! i) eqn:E; [|done]. apply Hs in E. by rewrite H1 in E.
  - intros i f Hi. destruct (nlookup files' i f) eqn:E; [|done]. apply Hf in E. by rewrite H2 in E.
  - intros i st f v start E1%Hs E2%Hf. by eapply H4.
  - intros i st x E1%Hs. by eapply H5.
  - intros i st E1%Hs. by eapply H6.
Qed.

Definition keeps_rows {A} (v : Verb A) : Prop :=
  forall base t, u64 (tx_next_catalog_id t + 1) -> tx_ok base t -> tx_rows t ->
    vwp tx_rows v (fun _ => tx_rows) t.

Lemma framed_rows {A} (v : Verb A) : framed v -> keeps_rows v.
Proof.
  intros Hv base t Hu _ Ht. specialize (Hv t). unfold vwp in *. destruct (v t) as [[a|e] t'];
    by eapply same_rows_inv.
Qed.

Lemma inert_framed {A} (v : Verb A) : inert v -> framed v.
Proof. intros Hv t. apply Hv, same_rows_refl. Qed.

Lemma keeps_rows_create_table uuid schema name columns : keeps_rows (create_table uuid schema name columns).
Proof.
  intros base t Hu _ Ht. unfold create_table. vsteps; try exact Ht. unfold tx_rows. tx_simpl.
  rewrite (wrapping_add_exact (tx_next_catalog_id t) 1) by done.
  set (v := mkTableValue _ _ _ _ _ _ _ _ _).
  pose proof (stage_trees_parts (tx_next_catalog_id t) (tx_new_snapshot_id t) columns
    (put_table v (tx_state t), 1, 1)) as E. rewrite E. clear E. generalize (cs_columns
    (fold_left (fun st def => stage_column_tree (tx_next_catalog_id t) (tx_new_snapshot_id t) def None st)
       columns (put_table v (tx_state t), 1, 1)).1.1).
  intros cols. unfold put_table. destruct put_named. cbn. unfold tx_rows in Ht.
  destruct Ht as [R1 R2 R3 R4 R5 R6]. split.
  - intros i Hi. rewrite lookup_insert_ne by lia. apply R1. lia.
  - intros i f Hi. apply R2. lia.
  - intros i Hi. apply R3. lia.
  - intros i st f w start. rewrite lookup_insert. case_decide as E; [|by apply R4].
    subst i. intros _ Hv. rewrite R2 in Hv; [done|lia].
  - intros i st x. rewrite lookup_insert. case_decide as E; [|by apply R5].
    subst i. intros _ Hx. rewrite R3 in Hx; [done|lia].
  - intros i st. rewrite lookup_insert. case_decide; [by intros [= <-]|apply R6].
Qed.

Lemma keeps_rows_drop_table table : keeps_rows (drop_table table).
Proof.
  intros base t Hu _ Ht. unfold drop_table. vsteps; try exact Ht. unfold tx_rows. tx_simpl.
  unfold delete_table, remove_table_only. destruct delete_named. cbn. eapply rows_sub; [| |exact Ht].
  - intros i v. apply lookup_delete_sub.
  - intros i f v. apply nlookup_delete_sub.
Qed.

Lemma saturating_add_le a b : u64 a -> a <= saturating_add a b.
Proof. unfold saturating_add, u64, u64_max. lia. Qed.

Lemma keeps_rows_update_table_stats table rows size_ : keeps_rows (update_table_stats table rows size_).
Proof.
  intros base t Hu [Hs _ _] Ht. unfold update_table_stats. vsteps; try exact Ht. vfacts.
  destruct (so_table_stats _ _ Hs _ _ H0) as [E _]. unfold tx_rows. tx_simpl. cbn. rewrite E.
  eapply rows_put_stats; [done..|]. cbn. by eapply (ri_width _ _ _ _ Ht).
Qed.

Lemma keeps_rows_expire_data_file table file : keeps_rows (expire_data_file table file).
Proof.
  intros base t Hu Hok Ht. unfold expire_data_file. vsteps; try exact Ht.
  eapply (vwp_for _ _ _ (fun t' => tx_ok base t' /\ tx_rows t')); [done| |].
  - intros x t' _ [[Hs' ? ?] Ht']. vsteps. split; [split; tx_simpl; auto with verbs|done].
  - intros t1 [[Hs Hc Hf] Ht1]. assert (Hd : rows_inv (cs_table_stats (tx_state t1))
      (remove_nested table file (cs_data_files (tx_state t1))) (tx_inherited_row_ids t1)
      (tx_next_catalog_id t1)).
    { eapply rows_sub; [done| |exact Ht1]. intros i f v. apply nlookup_remove_sub. }
    vsteps; [done|]. tx_simpl. vfacts. cbn in H0.
    destruct (so_table_stats _ _ Hs _ _ H0) as [E _]. unfold tx_rows. tx_simpl. cbn. rewrite E.
    eapply rows_put_stats; [done..|]. cbn. by eapply (ri_width _ _ _ _ Ht1).
Qed.

(** Row ids handed out start where the table's counter stood. *)
Lemma vwp_allocate_row_ids table tstat t Q :
  tx_rows t -> cs_table_stats (tx_state t) !! table = Some tstat ->
  (forall t', tx_rows t' -> tx_state t' = tx_state t -> tx_next_catalog_id t' = tx_next_catalog_id t ->
     Q (ts_next_row_id tstat) t') ->
  vwp tx_rows (allocate_row_ids table tstat) Q t.
Proof.
  intros Ht Hs HQ. unfold vwp, allocate_row_ids. apply HQ; [|by case_match..].
  destruct (tx_inherited_row_ids t !! table) eqn:E; [done|]. by eapply rows_inherit.
Qed.

Section StorekeyMoves.
  Context `{SK : Storekey}.

(** The loops over column statistics and index entries touch none of it. *)
Lemma rows_file_stats table file stats t Q :
  tx_rows t -> (forall t', tx_rows t' -> Q tt t') ->
  vwp tx_rows (v_for stats (fun e => v_state (put_file_column_stats (file_column_stats table file e)))) Q t.
Proof. intros Ht HQ. apply (vwp_for _ _ _ tx_rows); [done| |done]. intros x t' _ Ht'. by vsteps. Qed.

Lemma rows_file_entries table start entries t Q :
  tx_rows t -> (forall t', tx_rows t' -> Q tt t') ->
  vwp tx_rows (v_for entries (stage_file_index_entry table start)) Q t.
Proof.
  intros Ht HQ. apply (vwp_for _ _ _ tx_rows); [done| |done]. intros x t' _ Ht'.
  unfold stage_file_index_entry, stage_index_entry. by vsteps.
Qed.

Lemma keeps_rows_register_data_file table file entries : keeps_rows (register_data_file table file entries).
Proof.
  intros base t Hu Hok Ht. unfold register_data_file. vsteps; try exact Ht. vfacts. tx_simpl.
  destruct (so_table_stats _ _ (to_state _ _ Hok) _ _ H4) as [E _].
  pose proof (ri_width _ _ _ _ Ht _ _ H4) as Hw.
  apply (vwp_allocate_row_ids table a1); [done|done|]. intros t1 Ht1 Es En. vsteps. tx_simpl.
  assert (Hr : tx_rows (on_state (put_data_file (mkDataFileValue (tx_next_file_id t) table
      (tx_new_snapshot_id t1) None None (fl_path file) (fl_path_is_relative file) (fl_file_format file)
      (fl_record_count file) (fl_file_size_bytes file) (fl_footer_size file) (Some (ts_next_row_id a1)) a0
      (fl_encryption_key file) None None (file_partition_values (fl_partition_values file))))
    (on_state (put_table_stats (mkTableStatsValue (ts_table_id a1)
       (saturating_add (ts_record_count a1) (fl_record_count file))
       (saturating_add (ts_next_row_id a1) (fl_record_count file))
       (saturating_add (ts_file_size_bytes a1) (fl_file_size_bytes file)))) t1))).
  { unfold tx_rows. tx_simpl. cbn. rewrite E. eapply rows_put_file; [|by rewrite lookup_insert_eq|done|done].
    eapply rows_put_stats; [exact Ht1|by rewrite Es|by apply saturating_add_le|apply saturating_add_u64]. }
  apply rows_file_stats; [exact Hr|]. intros t2 Ht2. vsteps.
  apply rows_file_entries; [done|]. intros t3 Ht3. by vsteps.
Qed.

Lemma keeps_rows_inline_insert table chunk entries : keeps_rows (inline_insert table chunk entries).
Proof.
  intros base t Hu Hok Ht. unfold inline_insert. vsteps; try exact Ht. vfacts. tx_simpl.
  destruct (so_table_stats _ _ (to_state _ _ Hok) _ _ H3) as [E _].
  pose proof (ri_width _ _ _ _ Ht _ _ H3) as Hw.
  apply (vwp_allocate_row_ids table a0); [done|done|]. intros t1 Ht1 Es En. vsteps. tx_simpl.
  apply rows_file_entries; [|intros t3 Ht3; by vsteps].
  unfold tx_rows. tx_simpl. cbn. rewrite E.
  eapply rows_put_stats; [exact Ht1|by rewrite Es|by apply saturating_add_le|apply saturating_add_u64].
Qed.

Lemma rows_register_flushed_file base table flush inherited t Q :
  tx_ok base t -> tx_rows t -> u64 table ->
  (forall st, cs_table_stats (tx_state t) !! table = Some st -> inherited <= ts_next_row_id st) ->
  (forall id t', tx_ok base t' -> tx_rows t' ->
     (forall st, cs_table_stats (tx_state t') !! table = Some st -> inherited <= ts_next_row_id st) -> Q id t') ->
  vwp tx_rows (register_flushed_file table flush inherited) Q t.
Proof.
  intros Hok Ht Hu Hi HQ.
  pose proof (keeps_register_flushed_file base table flush inherited Hu t Hok) as Hk.
  assert (Hv : vwp tx_rows (register_flushed_file table flush inherited) (fun _ t' => tx_rows t'
    /\ forall st, cs_table_stats (tx_state t') !! table = Some st -> inherited <= ts_next_row_id st) t).
  { unfold register_flushed_file. vsteps; try exact Ht. vfacts. tx_simpl.
    destruct (so_table_stats _ _ (to_state _ _ Hok) _ _ H5) as [E _].
    pose proof (ri_width _ _ _ _ Ht _ _ H5) as Hw. specialize (Hi _ H5).
    apply N.ltb_ge in H2. unfold checked_add in H1. case_match eqn:Ec; [|done]. injection H1 as <-.
    apply (vwp_for _ _ _ (fun t' => tx_rows t' /\ cs_table_stats (tx_state t') = <[table :=
      mkTableStatsValue (ts_table_id a1) (ts_record_count a1) (ts_next_row_id a1)
        (saturating_add (ts_file_size_bytes a1) (fl_file_size_bytes (ff_file flush)))]>
      (cs_table_stats (tx_state t)))).
    - split; [|tx_simpl; cbn; by rewrite E]. unfold tx_rows. tx_simpl. cbn. rewrite E.
      eapply rows_put_file; [|by rewrite lookup_insert_eq|done|].
      + by eapply rows_put_stats; [exact Ht|done|..].
      + cbn. unfold saturating_add. lia.
    - intros x t' _ [Ht' E']. vsteps. by split.
    - intros t' [Ht' E']. vsteps. split; [done|]. rewrite E'. intros st. rewrite lookup_insert_eq.
      by intros [= <-]. }
  unfold vwp in *. destruct (register_flushed_file table flush inherited t) as [[id|e] t']; [|done].
  destruct Hv as [? ?]. by apply HQ.
Qed.

Lemma rows_register_flushed base table flushed ceiling : forall t,
  u64 table -> tx_ok base t -> tx_rows t ->
  (forall st, cs_table_stats (tx_state t) !! table = Some st -> ceiling <= ts_next_row_id st) ->
  vwp tx_rows (register_flushed table flushed ceiling) (fun _ => tx_rows) t.
Proof.
  induction flushed as [|f l IH]; intros t Hut Hok Ht Hi; cbn [register_flushed]; [done|].
  apply vwp_bind. eapply rows_register_flushed_file; [done..|]. intros id t1 Hok1 Ht1 Hi1.
  apply vwp_bind. eapply vwp_mono; [by apply IH|]. intros ids t2 Ht2. by vsteps.
Qed.

Lemma keeps_rows_flush_inlined_data table version flushed : keeps_rows (flush_inlined_data table version flushed).
Proof.
  intros base t Hu Hok Ht. unfold flush_inlined_data. vsteps; try exact Ht. vfacts. tx_simpl.
  destruct (so_table _ _ (to_state _ _ Hok) _ _ H) as (_ & Hut & _).
  assert (Hi : forall st, cs_table_stats (tx_state t) !! table = Some st ->
    inherited_row_ids table a0 t <= ts_next_row_id st).
  { intros st Hst. rewrite H0 in Hst. injection Hst as <-. unfold inherited_row_ids.
    destruct (tx_inherited_row_ids t !! table) as [x|] eqn:Ex; [|done]. by eapply (ri_floor _ _ _ _ Ht). }
  eapply vwp_mono; [by eapply rows_register_flushed|]. intros ids t1 Ht1. by vsteps.
Qed.
End StorekeyMoves.
