(* ===== verification/VerbCalls.v ===== *)
(** Sequences of the typed verbs (transaction/verbs.rs): what any closure a commit runs
    leaves staged, the row-id space of a table across calls, and the column subtree a
    drop walks. *)
From stdpp Require Import gmap strings list fin_maps sorting.
From Stdlib Require Import NArith ZArith Lia.
From S2P Require Import Prelude Storekey KeyLayout IndexEncoding Operations Values Snapshot Catalog Store Inline IndexMaintenance Diff Verbs.
From S2P Require Import VerbLaws.

Local Open Scope N_scope.

(** ** Any sequence of calls *)

(** One call of a commit closure. *)
Inductive VerbCall : Type :=
| CallCreateSchema (uuid name : string)
| CallDropSchema (schema : N)
| CallCreateTable (uuid : string) (schema : N) (name : string) (columns : list ColumnDef)
| CallRenameTable (table : N) (name : string)
| CallSetTableSchema (table schema : N)
| CallDropTable (table : N)
| CallAddColumn (table : N) (def : ColumnDef)
| CallRenameColumn (table column : N) (name : string)
| CallAlterColumn (table column : N) (alteration : ColumnAlteration)
| CallDropColumn (table column : N)
| CallSetPartitioning (table : N) (columns : list PartitionColumnDef)
| CallClearPartitioning (table : N)
| CallSetSorting (table : N) (keys : list SortKeyDef)
| CallClearSorting (table : N)
| CallCreateIndex (table : N) (def : IndexDef) (backfill : list IndexEntry)
| CallCreateIndexOrdered (table : N) (def : IndexDef) (orders : list ColumnOrder)
    (maintenance : IndexMaintenance) (backfill : list IndexEntry)
| CallCreateIndexStaged (table : N) (def : IndexDef) (orders : list ColumnOrder)
    (maintenance : IndexMaintenance)
| CallBuildIndexStep (index : N) (batch : list IndexEntry) (is_final : bool) (source : option (N * N))
| CallDropIndex (index : N)
| CallRegisterDataFile (table : N) (file : DataFile) (entries : list FileIndexEntry)
| CallExpireDataFile (table file : N)
| CallRegisterDeleteFile (table : N) (file : DeleteFile) (entries : list FileIndexRemoval)
| CallExpireDeleteFile (table file : N)
| CallUpdateTableStats (table record_count file_size_bytes : N)
| CallUpdateColumnStats (table column : N) (stats : ColumnStats)
| CallCreateView (uuid : string) (schema : N) (name dialect sql : string)
| CallAlterView (view : N) (dialect sql : string)
| CallDropView (view : N)
| CallCreateMacro (schema : N) (name : string) (implementations : list MacroImplementationDef)
| CallDropMacro (id : N)
| CallSetOption (scope : OptionScope) (key value : string)
| CallUnsetOption (scope : OptionScope) (key : string)
| CallSetTag (target : TagTarget) (key value : string)
| CallRemoveTag (target : TagTarget) (key : string)
| CallInlineInsert (table : N) (chunk : InlineChunk) (entries : list FileIndexEntry)
| CallInlineDelete (table row : N) (entries : list FileIndexRemoval)
| CallFlushInlinedData (table version : N) (flushed : list FlushedDataFile).

Section Calls.
  Context `{SK : Storekey}.

(** The transaction a call leaves, whether it succeeds or fails. *)
Definition after {A} (v : Verb A) (t : Transaction) : Transaction := (v t).2.

(** A closure's call of a verb for its effect. *)
Definition discard {A} (v : Verb A) : Verb unit := _ ← v; mret tt.

Definition call (c : VerbCall) : Verb unit :=
  match c with
  | CallCreateSchema uuid name => discard (create_schema uuid name)
  | CallDropSchema schema => discard (drop_schema schema)
  | CallCreateTable uuid schema name columns => discard (create_table uuid schema name columns)
  | CallRenameTable table name => discard (rename_table table name)
  | CallSetTableSchema table schema => discard (set_table_schema table schema)
  | CallDropTable table => discard (drop_table table)
  | CallAddColumn table def => discard (add_column table def)
  | CallRenameColumn table column name => discard (rename_column table column name)
  | CallAlterColumn table column alteration => discard (alter_column table column alteration)
  | CallDropColumn table column => discard (drop_column table column)
  | CallSetPartitioning table columns => discard (set_partitioning table columns)
  | CallClearPartitioning table => discard (clear_partitioning table)
  | CallSetSorting table keys => discard (set_sorting table keys)
  | CallClearSorting table => discard (clear_sorting table)
  | CallCreateIndex table def backfill => discard (create_index table def backfill)
  | CallCreateIndexOrdered table def orders maintenance backfill =>
      discard (create_index_ordered_with_maintenance table def orders maintenance backfill)
  | CallCreateIndexStaged table def orders maintenance =>
      discard (create_index_staged_ordered_with_maintenance table def orders maintenance)
  | CallBuildIndexStep index batch is_final source =>
      discard (build_index_step_at index batch is_final source)
  | CallDropIndex index => discard (drop_index index)
  | CallRegisterDataFile table file entries => discard (register_data_file table file entries)
  | CallExpireDataFile table file => discard (expire_data_file table file)
  | CallRegisterDeleteFile table file entries => discard (register_delete_file table file entries)
  | CallExpireDeleteFile table file => discard (expire_delete_file table file)
  | CallUpdateTableStats table rows bytes => discard (update_table_stats table rows bytes)
  | CallUpdateColumnStats table column stats => discard (update_column_stats table column stats)
  | CallCreateView uuid schema name dialect sql => discard (create_view uuid schema name dialect sql)
  | CallAlterView view dialect sql => discard (alter_view view dialect sql)
  | CallDropView view => discard (drop_view view)
  | CallCreateMacro schema name impls => discard (create_macro schema name impls)
  | CallDropMacro id => discard (drop_macro id)
  | CallSetOption scope key value => discard (set_option scope key value)
  | CallUnsetOption scope key => discard (unset_option scope key)
  | CallSetTag target key value => discard (set_tag target key value)
  | CallRemoveTag target key => discard (remove_tag_verb target key)
  | CallInlineInsert table chunk entries => discard (inline_insert table chunk entries)
  | CallInlineDelete table row entries => discard (inline_delete table row entries)
  | CallFlushInlinedData table version flushed => discard (flush_inlined_data table version flushed)
  end.
Definition perform (c : VerbCall) (t : Transaction) : Transaction := after (call c) t.

(** A call made with catalog ids to spare, a macro under a name no other macro of
    the schema bears. *)
Inductive verb_step : Transaction -> Transaction -> Prop :=
| verb_call c t :
    u64 (tx_next_catalog_id t + 1) ->
    (forall schema name impls, c = CallCreateMacro schema name impls ->
       scoped_name (cs_macro_names (tx_state t)) schema name = None) ->
    verb_step t (perform c t).

Lemma vwp_after {A} (I : Transaction -> Prop) (v : Verb A) t :
  vwp I v (fun _ => I) t -> I (after v t).
Proof. unfold vwp, after. by destruct (v t) as [[a|e] t']. Qed.

Lemma vwp_discard {A} (I : Transaction -> Prop) (v : Verb A) Q t :
  vwp I v (fun _ => Q) t -> vwp I (discard v) (fun _ => Q) t.
Proof. intros Hv. unfold discard. by apply vwp_bind. Qed.

Lemma keeps_perform base c t :
  (forall schema name impls, c = CallCreateMacro schema name impls ->
     scoped_name (cs_macro_names (tx_state t)) schema name = None) ->
  tx_ok base t -> tx_ok base (perform c t).
Proof.
  intros Hm Ht.
  unfold perform. destruct c; cbn [call]; apply vwp_after, vwp_discard;
    [ apply keeps_create_schema | apply keeps_drop_schema | apply keeps_create_table
    | apply keeps_rename_table | apply keeps_set_table_schema | apply keeps_drop_table
    | apply keeps_add_column | apply keeps_rename_column | apply keeps_alter_column
    | apply keeps_drop_column | apply keeps_set_partitioning | apply keeps_clear_partitioning
    | apply keeps_set_sorting | apply keeps_clear_sorting | apply keeps_create_index
    | apply keeps_create_index_with | apply keeps_create_index_staged
    | apply keeps_build_index_step | apply keeps_drop_index | apply keeps_register_data_file
    | apply keeps_expire_data_file | apply keeps_register_delete_file
    | apply keeps_expire_delete_file | apply keeps_update_table_stats
    | apply keeps_update_column_stats | apply keeps_create_view | apply keeps_alter_view
    | apply keeps_drop_view | apply vwp_create_macro; [by eapply Hm|]
    | apply keeps_drop_macro | apply keeps_set_option
    | apply keeps_unset_option | apply keeps_set_tag | apply keeps_remove_tag
    | apply keeps_inline_insert | apply keeps_inline_delete | apply keeps_flush_inlined_data ]; exact Ht.
Qed.

Lemma rows_after {A} base (v : Verb A) t :
  keeps_rows v -> u64 (tx_next_catalog_id t + 1) -> tx_ok base t -> tx_rows t -> tx_rows (after (discard v) t).
Proof. intros Hv Hu Hok Ht. by apply vwp_after, vwp_discard, (Hv base). Qed.

Lemma rows_perform base c t :
  u64 (tx_next_catalog_id t + 1) -> tx_ok base t -> tx_rows t -> tx_rows (perform c t).
Proof.
  intros Hu Hok Ht.
  unfold perform. destruct c; cbn [call]; (eapply rows_after; [|exact Hu|exact Hok|exact Ht]);
    [ apply framed_rows, framed_create_schema | apply framed_rows, framed_drop_schema
    | apply keeps_rows_create_table | apply framed_rows, framed_rename_table
    | apply framed_rows, framed_set_table_schema | apply keeps_rows_drop_table
    | apply framed_rows, framed_add_column | apply framed_rows, framed_rename_column
    | apply framed_rows, framed_alter_column | apply framed_rows, framed_drop_column
    | apply framed_rows, framed_set_partitioning | apply framed_rows, framed_clear_partitioning
    | apply framed_rows, framed_set_sorting | apply framed_rows, framed_clear_sorting
    | apply framed_rows, framed_create_index | apply framed_rows, framed_create_index_with
    | apply framed_rows, framed_create_index_staged | apply framed_rows, framed_build_index_step
    | apply framed_rows, framed_drop_index | apply keeps_rows_register_data_file
    | apply keeps_rows_expire_data_file | apply framed_rows, framed_register_delete_file
    | apply framed_rows, framed_expire_delete_file | apply keeps_rows_update_table_stats
    | apply framed_rows, framed_update_column_stats | apply framed_rows, framed_create_view
    | apply framed_rows, framed_alter_view | apply framed_rows, framed_drop_view
    | apply framed_rows, framed_create_macro | apply framed_rows, framed_drop_macro
    | apply framed_rows, framed_set_option | apply framed_rows, framed_unset_option
    | apply framed_rows, framed_set_tag | apply framed_rows, framed_remove_tag | apply keeps_rows_inline_insert
    | apply framed_rows, framed_inline_delete | apply keeps_rows_flush_inlined_data ].
Qed.

Lemma calls_ok base t t' : rtc verb_step t t' -> tx_ok base t -> tx_rows t -> tx_ok base t' /\ tx_rows t'.
Proof.
  induction 1 as [|t1 t2 t3 [c t Hu Hm] _ IH]; intros Hok Ht; [done|].
  apply IH; [by apply keeps_perform|by eapply rows_perform].
Qed.
(** *** What a closure records *)

(** A closure: calls in order, the first failure ending it. *)
Definition closure (calls : list VerbCall) : Verb unit := v_for calls call.

(** A verb that, when it succeeds, leaves an operation on record. *)
Definition noted {A} (v : Verb A) : Prop :=
  forall t, vwp (fun _ => True) v (fun _ t' => tx_ops t' <> []) t.

Lemma noted_bind {A B} (m : Verb A) (k : A -> Verb B) : (forall a, noted (k a)) -> noted (m ≫= k).
Proof. intros Hk t. apply vwp_bind. unfold vwp at 1. destruct (m t) as [[a|e] t']; [apply Hk|done]. Qed.

Lemma noted_op op : noted (v_op op).
Proof. intros t. unfold v_op. apply vwp_do. cbn. by destruct (tx_ops t). Qed.

Lemma noted_op_ret {A} op (a : A) : noted (_ ← v_op op; mret a).
Proof. intros t. apply vwp_bind. unfold v_op. apply vwp_do. apply vwp_ret. cbn. by destruct (tx_ops t). Qed.

(** Operations, once recorded, stay. *)
Definition recorded (t : Transaction) : Prop := tx_ops t <> [].
Lemma noted_then {A B} (m : Verb A) (k : A -> Verb B) :
  noted m -> (forall a t, recorded t -> vwp (fun _ => True) (k a) (fun _ => recorded) t) -> noted (m ≫= k).
Proof.
  intros Hm Hk t. apply vwp_bind. eapply vwp_mono; [apply Hm|]. intros a t'. apply Hk.
Qed.

Lemma recorded_end_live_tag object key t Q :
  recorded t -> (forall a t', recorded t' -> Q a t') -> vwp (fun _ => True) (end_live_tag object key) Q t.
Proof. intros Ht HQ. unfold vwp, end_live_tag.
  destruct (_ !! _); [|by apply HQ]. destruct (end_entry _ _ _); by apply HQ.
Qed.

Ltac noted :=
  repeat first [ apply noted_op | apply noted_op_ret | apply noted_bind; intros ? | case_match ].

Lemma noted_mark_tagged target : noted (mark_tagged target).
Proof. destruct target; noted. Qed.

Definition only_options (c : VerbCall) : bool :=
  match c with CallSetOption _ _ _ | CallUnsetOption _ _ => true | _ => false end.

Lemma noted_discard {A} (v : Verb A) : noted v -> noted (discard v).
Proof. intros Hv. apply noted_then; [done|]. intros a t Ht. by apply vwp_ret. Qed.

Lemma noted_set_tag target key value : noted (set_tag target key value).
Proof.
  unfold set_tag. apply noted_bind. intros _. apply noted_then; [apply noted_mark_tagged|].
  intros _ t Ht. apply vwp_bind, recorded_end_live_tag; [done|]. intros a t' Ht'. by vsteps.
Qed.

Lemma noted_remove_tag target key : noted (remove_tag_verb target key).
Proof.
  unfold remove_tag_verb. apply noted_then; [apply noted_mark_tagged|].
  intros _ t Ht. apply vwp_bind, recorded_end_live_tag; [done|]. intros a t' Ht'. by vsteps.
Qed.

(** Every call but the option ones records an operation. *)
Lemma noted_call c : only_options c = false -> noted (call c).
Proof.
  destruct c; intros [=]; cbn [call]; apply noted_discard;
    first [apply noted_set_tag | apply noted_remove_tag | hnf; noted].
Qed.

Definition options_only (s s' : CatalogSnapshot) : Prop := s' = set_options (fun _ => cs_options s') s.

Lemma options_only_refl s : options_only s s.
Proof. by destruct s. Qed.

Lemma options_only_trans s1 s2 s3 : options_only s1 s2 -> options_only s2 s3 -> options_only s1 s3.
Proof. unfold options_only. intros E1 E2. rewrite E2 at 1. by rewrite E1. Qed.

(** What an option call leaves alone. *)
Definition unrecorded (t t' : Transaction) : Prop :=
  tx_ops t' = tx_ops t /\ options_only (tx_state t) (tx_state t').

Lemma option_call c t :
  only_options c = true -> vwp (fun _ => True) (call c) (fun _ => unrecorded t) t.
Proof.
  destruct c; intros [=]; cbn [call]; apply vwp_discard.
  - unfold set_option. by vsteps.
  - unfold unset_option. vsteps; [done..|]. split; [done|]. cbn.
    repeat case_match; try apply options_only_refl; by destruct (tx_state t).
Qed.

Lemma closure_cons c l t t' :
  closure (c :: l) t = (Ok tt, t') -> exists t1, call c t = (Ok tt, t1) /\ closure l t1 = (Ok tt, t').
Proof.
  change (closure (c :: l) t) with
    (match call c t with (Ok _, t1) => closure l t1 | (Err e, t1) => (Err e, t1) end).
  destruct (call c t) as [[[]|e] t1]; [by eauto|done].
Qed.

Lemma closure_recorded l : forall t t', closure l t = (Ok tt, t') -> recorded t -> recorded t'.
Proof.
  induction l as [|c l IH]; intros t t' E Ht; [by injection E as <-|].
  apply closure_cons in E as (t1 & E1 & E). apply (IH _ _ E). destruct (only_options c) eqn:Ec.
  - pose proof (option_call c t Ec) as H. unfold vwp in H. rewrite E1 in H. destruct H as [Eo _].
    unfold recorded. by rewrite Eo.
  - pose proof (noted_call c Ec t) as H. unfold vwp in H. by rewrite E1 in H.
Qed.

(** A closure that records no operation changes nothing but options. *)
Lemma closure_unrecorded l : forall t t',
  closure l t = (Ok tt, t') -> tx_ops t' = [] -> options_only (tx_state t) (tx_state t').
Proof.
  induction l as [|c l IH]; intros t t' E Ht; [injection E as <-; apply options_only_refl|].
  apply closure_cons in E as (t1 & E1 & E). pose proof (IH _ _ E Ht) as Hl.
  destruct (only_options c) eqn:Ec.
  - pose proof (option_call c t Ec) as H. unfold vwp in H. rewrite E1 in H. destruct H as [_ H].
    by eapply options_only_trans.
  - pose proof (noted_call c Ec t) as H. unfold vwp in H. rewrite E1 in H.
    by apply (closure_recorded _ _ _ E) in H.
Qed.

Definition creates_macro (c : VerbCall) : bool := match c with CallCreateMacro _ _ _ => true | _ => false end.

(** What a commit asks of the closure it runs over a view. *)
Class SoundClosure (base : CatalogSnapshot) (f : Verb unit) : Prop := {
  sc_wf : forall n t, f (Transaction_new base n) = (Ok tt, t) -> view_wf (tx_state t);
  sc_mappings : forall n t, f (Transaction_new base n) = (Ok tt, t) ->
    cs_mappings (tx_state t) = cs_mappings base;
  sc_recorded : forall n t, f (Transaction_new base n) = (Ok tt, t) -> tx_ops t = [] ->
    options_only base (tx_state t);
}.

Lemma closure_ok base l : forall t t',
  Forall (fun c => creates_macro c = false) l ->
  closure l t = (Ok tt, t') -> tx_ok base t -> tx_ok base t'.
Proof.
  intros t t' Hl. revert t. induction Hl as [|c l Hc _ IH]; intros t E Ht; [by injection E as <-|].
  apply closure_cons in E as (t1 & E1 & E). apply (IH _ E).
  assert (Ep : perform c t = t1) by (unfold perform, after; by rewrite E1). rewrite <-Ep.
  apply keeps_perform; [|done]. intros ? ? ? ->. done.
Qed.

End Calls.

(** What a closure may rely on when it starts: the view a commit attempt stages
    against. *)
Record premise_ok (base : CatalogSnapshot) : Prop := {
  pm_state : state_ok base base;
  pm_catalog_id : u64 (sn_next_catalog_id (cs_snapshot base));
  pm_file_id : u64 (sn_next_file_id (cs_snapshot base));
  pm_rows : rows_inv (cs_table_stats base) (cs_data_files base) ∅ (sn_next_catalog_id (cs_snapshot base));
}.

Lemma premise_new base n : premise_ok base -> tx_ok base (Transaction_new base n) /\ tx_rows (Transaction_new base n).
Proof. intros []. by split. Qed.

(** The verbs, macros aside, make sound closures. *)
Lemma closure_sound `{SK : Storekey} base l :
  premise_ok base -> Forall (fun c => creates_macro c = false) l -> SoundClosure base (closure l).
Proof.
  intros Hp Hl. assert (Hok : forall n t, closure l (Transaction_new base n) = (Ok tt, t) -> tx_ok base t).
  { intros n t E. eapply closure_ok; [done|exact E|]. by apply premise_new. }
  split; intros n t E.
  - apply (Hok n t E).
  - apply (Hok n t E).
  - by apply (closure_unrecorded _ _ _ E).
Qed.

(** ** The columns a drop takes with it *)

(** Columns as the verbs keep them: keyed by id, every field allocated after the
    column it belongs to. *)
Definition columns_forest (columns : gmap N ColumnValue) : Prop :=
  forall i v, columns !! i = Some v ->
    cv_column_id v = i /\ forall p, cv_parent_column v = Some p -> p < i.

Definition child_of (columns : gmap N ColumnValue) (parent child : N) : Prop :=
  exists v, columns !! child = Some v /\ cv_parent_column v = Some parent.

Definition children (columns : gmap N ColumnValue) (parent : N) : list N :=
  map cv_column_id
    (List.filter (fun c => bool_decide (cv_parent_column c = Some parent)) (btree_values columns)).

Lemma NoDup_map_filter {A B} (f : A -> B) (p : A -> bool) l :
  NoDup (map f l) -> NoDup (map f (List.filter p l)).
Proof.
  induction l as [|v l IH]; cbn; [done|]. intros [Hn H]%NoDup_cons. case_match; [|auto].
  cbn. apply NoDup_cons. split; [|auto]. intros Hin. apply Hn.
  apply list_elem_of_fmap in Hin as (w & E & Hw). apply list_elem_of_fmap.
  exists w. split; [done|]. rewrite list_elem_of_In, filter_In in Hw. apply list_elem_of_In, Hw.
Qed.

Section Subtree.
  Context (columns : gmap N ColumnValue) (Hforest : columns_forest columns).

Lemma elem_of_children p c : c ∈ children columns p <-> child_of columns p c.
Proof using Hforest.
  unfold children, child_of. rewrite list_elem_of_fmap. split.
  - intros (v & -> & Hv). rewrite list_elem_of_In, filter_In, <-list_elem_of_In, elem_of_btree_values in Hv.
    destruct Hv as [[k Hk] Hp%bool_decide_eq_true]. exists v. by rewrite (proj1 (Hforest _ _ Hk)).
  - intros (v & Hv & Hp). exists v. destruct (Hforest _ _ Hv) as [<- _]. split; [done|].
    rewrite list_elem_of_In, filter_In, <-list_elem_of_In, elem_of_btree_values.
    split; [by eexists|by apply bool_decide_eq_true].
Qed.

Lemma column_ids_keys : map cv_column_id (btree_values columns) = btree_keys columns.
Proof using Hforest.
  unfold btree_values. assert (H : forall k, k ∈ btree_keys columns -> is_Some (columns !! k))
    by (intros k; apply elem_of_btree_keys).
  induction (btree_keys columns) as [|k l IH]; [done|]. cbn.
  destruct (H k) as [v Hv]; [by left|]. rewrite Hv. cbn. rewrite (proj1 (Hforest _ _ Hv)). f_equal.
  apply IH. intros. apply H. by right.
Qed.

Lemma NoDup_children p : NoDup (children columns p).
Proof using Hforest.
  apply NoDup_map_filter. rewrite column_ids_keys. apply NoDup_in_order.
Qed.

Lemma child_above p c : child_of columns p c -> p < c.
Proof using Hforest. intros (v & Hv & Hp). by eapply Hforest. Qed.

(** What the worklist holds before it looks at position [at_]. *)
Record worklist (root : N) (l : list N) (at_ : nat) : Prop := {
  wl_nodup : NoDup l;
  wl_bound : (at_ <= length l)%nat;
  wl_shape : l = root :: (take at_ l ≫= children columns);
  wl_reached : forall x, x ∈ l -> rtc (child_of columns) root x;
}.

Lemma reached_above root x : rtc (child_of columns) root x -> root <= x.
Proof using Hforest. induction 1 as [|x y z H%child_above _ IH]; lia. Qed.

Lemma worklist_step root l at_ p :
  worklist root l at_ -> l !! at_ = Some p -> worklist root (l ++ children columns p) (S at_).
Proof using Hforest.
  intros [Hn Hb Hs Hr] Hp.
  assert (Hpl : p ∈ l) by by eapply list_elem_of_lookup_2.
  pose proof (lookup_lt_Some _ _ _ Hp) as Hlt. split.
  - apply NoDup_app. split_and!; [done| |apply NoDup_children].
    intros c Hc Hcp%elem_of_children. rewrite Hs in Hc. apply elem_of_cons in Hc as [->|Hc].
    { apply child_above in Hcp. specialize (reached_above _ _ (Hr _ Hpl)). lia. }
    apply list_elem_of_bind in Hc as (q & Hq%elem_of_children & Hin).
    destruct Hcp as (v & Hv & Ep), Hq as (w & Hw & Eq). rewrite Hv in Hw. injection Hw as <-.
    rewrite Ep in Eq. injection Eq as <-. apply list_elem_of_lookup in Hin as [i Hi].
    apply lookup_take_Some in Hi as [Hi Hia]. pose proof (NoDup_lookup _ _ _ _ Hn Hi Hp). lia.
  - rewrite length_app. lia.
  - rewrite (take_app_le l) by lia. rewrite (take_S_r _ _ _ Hp), bind_app, app_comm_cons, <-Hs. cbn.
    by rewrite app_nil_r.
  - intros x [Hx|Hx%elem_of_children]%elem_of_app; [by apply Hr|]. eapply rtc_r; [by apply Hr|done].
Qed.

Lemma worklist_size root l at_ :
  is_Some (columns !! root) -> worklist root l at_ -> (length l <= size columns)%nat.
Proof using Hforest.
  intros Hroot [Hn _ Hs _]. rewrite <-size_dom.
  rewrite <-(size_list_to_set (C := gset N) l) by done. apply subseteq_size. intros x.
  rewrite elem_of_list_to_set. intros Hx. apply elem_of_dom. rewrite Hs in Hx.
  apply elem_of_cons in Hx as [->|Hx]; [done|].
  apply list_elem_of_bind in Hx as (q & (v & Hv & _)%elem_of_children & _). by eexists.
Qed.

Lemma subtree_loop_done root fuel : forall l at_,
  is_Some (columns !! root) -> worklist root l at_ -> (size columns < fuel + at_)%nat ->
  exists l', subtree_loop fuel columns l at_ = Some l' /\ worklist root l' (length l').
Proof using Hforest.
  induction fuel as [|fuel IH]; intros l at_ Hroot Hw Hf; cbn [subtree_loop];
    destruct (l !! at_) as [p|] eqn:Hp.
  - pose proof (worklist_size _ _ _ Hroot Hw). pose proof (lookup_lt_Some _ _ _ Hp). lia.
  - exists l. split; [done|]. apply lookup_ge_None in Hp. by replace (length l) with at_ by (destruct Hw; lia).
  - apply IH; [done|by apply worklist_step|lia].
  - exists l. split; [done|]. apply lookup_ge_None in Hp. by replace (length l) with at_ by (destruct Hw; lia).
Qed.

(** The walk ends within its fuel, at exactly the descendants, each once. *)
Lemma subtree_exact root :
  is_Some (columns !! root) ->
  exists l, subtree_loop (S (size columns)) columns [root] 0 = Some l /\ NoDup l
    /\ forall x, x ∈ l <-> rtc (child_of columns) root x.
Proof using Hforest.
  intros Hroot. destruct (subtree_loop_done root (S (size columns)) [root] 0) as (l & E & [Hn _ Hs Hr]);
    [done| |lia|].
  { split; [apply NoDup_singleton|cbn; lia|done|]. by intros x ->%list_elem_of_singleton. }
  exists l. split_and!; [done|done|]. intros x. split; [apply Hr|].
  assert (Hc : forall x y, x ∈ l -> child_of columns x y -> y ∈ l).
  { intros a b Ha Hab. rewrite Hs, take_ge by lia. right. apply list_elem_of_bind. exists a.
    by rewrite elem_of_children. }
  assert (Hroot' : root ∈ l) by (rewrite Hs; by left).
  clear -Hc Hroot'. induction 1 as [|x y z Hxy _ IH]; [done|]. apply IH. by eapply Hc.
Qed.
End Subtree.

Lemma delete_columns_lookup table l : forall t, (v_for l (fun id => v_state (delete_column table id)) t).1 = Ok tt
  /\ forall i, nlookup (cs_columns (tx_state
         (v_for l (fun id => v_state (delete_column table id)) t).2)) table i
       = if decide (i ∈ l) then None else nlookup (cs_columns (tx_state t)) table i.
Proof.
  induction l as [|c l IH]; intros t; [split; [done|intros i; by rewrite decide_False by apply not_elem_of_nil]|].
  destruct (IH (on_state (delete_column table c) t)) as [H1 H2]. cbn [v_for mbind verb_bind].
  split; [exact H1|]. intros i. etransitivity; [apply H2|].
  destruct (decide (i = c)) as [->|Hne].
  - rewrite (decide_True (P := c ∈ c :: l)) by by left. case_decide; [done|]. cbn.
    rewrite nlookup_remove_nested. by rewrite decide_True.
  - rewrite (decide_ext (i ∈ c :: l) (i ∈ l)) by set_solver. case_decide; [done|]. cbn.
    rewrite nlookup_remove_nested. rewrite decide_False by naive_solver. done.
Qed.

(** The columns a table shows at the top level. *)
Definition top_level (columns : gmap N ColumnValue) (i : N) : Prop :=
  exists v, columns !! i = Some v /\ cv_parent_column v = None.

Lemma last_top_level columns column value :
  columns_forest columns -> columns !! column = Some value -> cv_parent_column value = None ->
  (length (List.filter (fun c => bool_decide (cv_parent_column c = None)) (btree_values columns)) <=? 1)%nat
    = true <-> forall i, top_level columns i -> i = column.
Proof.
  intros Hf Hc Hp. set (tops := List.filter _ _).
  assert (Hin : forall v, v ∈ tops <-> (exists i, columns !! i = Some v) /\ cv_parent_column v = None).
  { intros v. unfold tops. by rewrite list_elem_of_In, filter_In, <-list_elem_of_In, elem_of_btree_values,
      bool_decide_eq_true. }
  assert (Hn : NoDup (map cv_column_id tops)).
  { apply NoDup_map_filter. rewrite column_ids_keys by done. apply NoDup_in_order. }
  rewrite Nat.leb_le. split.
  - intros Hl i (v & Hv & Hvp). assert (H1 : v ∈ tops) by (apply Hin; eauto).
    assert (H2 : value ∈ tops) by (apply Hin; eauto). destruct tops as [|a [|b l]]; [by apply not_elem_of_nil in H1| |cbn in Hl; lia].
    apply list_elem_of_singleton in H1, H2. subst. rewrite <-(proj1 (Hf _ _ Hv)). by apply Hf.
  - intros Hu. destruct tops as [|a [|b l]] eqn:E; cbn; [lia..|]. exfalso.
    assert (Ha : a ∈ tops) by (rewrite E; left). assert (Hb : b ∈ tops) by (rewrite E; right; left).
    rewrite E in *. apply Hin in Ha as [[i Hi] Pa], Hb as [[j Hj] Pb].
    rewrite (Hu i) in Hi by by exists a. rewrite (Hu j) in Hj by by exists b.
    rewrite Hi in Hj. injection Hj as <-. cbn in Hn. apply NoDup_cons in Hn as [Hn _]. apply Hn. by left.
Qed.

(** C23: [drop_column] on a live column always ends, within as many rounds as the table
    has columns: it removes the column with every field beneath it at any depth and no
    other column; and when an index covers one of those, or the column is the table's
    last top-level one, it refuses with a constraint error and changes nothing. *)
Theorem drop_column_exact table column t columns value :
  cs_columns (tx_state t) !! table = Some columns -> columns_forest columns ->
  columns !! column = Some value ->
  let doomed := rtc (child_of columns) column in
  let indexed := exists i, doomed i /\ column_is_indexed table i t = true in
  let last := cv_parent_column value = None /\ forall i, top_level columns i -> i = column in
  match drop_column table column t with
  | (Ok _, t') => ~ indexed /\ ~ last /\ forall i,
      (doomed i -> nlookup (cs_columns (tx_state t')) table i = None)
      /\ (~ doomed i -> nlookup (cs_columns (tx_state t')) table i = columns !! i)
  | (Err e, t') => e = Constraint /\ t' = t /\ (indexed \/ last)
  end.
Proof.
  intros Ht Hf Hv doomed indexed last. unfold drop_column, live_column, table_columns, column_subtree.
  unfold v_read, v_check, mbind, verb_bind. cbn beta. rewrite Ht. cbn [default]. destruct (subtree_exact _ Hf column) as (l & Hl & _ & Hx); [by eexists|].
  unfold id. rewrite Hv, Hl. cbn [ok_or].
  destruct (existsb _ l) eqn:Ei; cbn [fail_if].
  { apply existsb_exists in Ei as (i & Hi%list_elem_of_In & Ei). split_and!; [done|done|]. left.
    exists i. split; [by apply Hx|done]. }
  assert (Hni : ~ indexed).
  { intros (i & Hi%Hx%list_elem_of_In & E). rewrite <-not_true_iff_false in Ei. apply Ei.
    apply existsb_exists. by eexists. }
  destruct (bool_decide _ && _) eqn:El; cbn [fail_if].
  { apply andb_true_iff in El as [Ep%bool_decide_eq_true El]. split_and!; [done|done|]. right.
    split; [done|]. by apply last_top_level with (value := value). }
  destruct (delete_columns_lookup table l t) as [E1 E2].
  destruct (v_for l _ t) as [r t'] eqn:Ef. cbn in E1. subst r. cbn in E2 |- *.
  split_and!; [done| |].
  - intros [Hp Hu]. rewrite (bool_decide_eq_true_2 _ Hp) in El. cbn in El.
    apply (last_top_level _ _ _ Hf Hv Hp) in Hu. congruence.
  - intros i. rewrite E2. unfold doomed. setoid_rewrite <-Hx. split; intros H.
    + by rewrite decide_True.
    + rewrite decide_False by done. unfold nlookup. by rewrite Ht.
Qed.

(** ** Row ids *)

Section RowIds.
  Context `{SK : Storekey}.

Definition rows_as (t0 t : Transaction) : Prop :=
  cs_table_stats (tx_state t) = cs_table_stats (tx_state t0)
  /\ cs_data_files (tx_state t) = cs_data_files (tx_state t0).

(** Where a registered file's rows start, and what the counter becomes. *)
Lemma register_data_file_rows table file entries t st :
  cs_table_stats (tx_state t) !! table = Some st -> ts_table_id st = table ->
  vwp (fun _ => True) (register_data_file table file entries)
    (fun id t' => exists v, nlookup (cs_data_files (tx_state t')) table id = Some v
       /\ df_row_id_start v = Some (ts_next_row_id st) /\ df_record_count v = fl_record_count file
       /\ ts_next_row_id <$> cs_table_stats (tx_state t') !! table
            = Some (saturating_add (ts_next_row_id st) (fl_record_count file))) t.
Proof.
  intros Hst Ei. unfold register_data_file. vsteps; try exact I.
  unfold live_table_stats in *. tx_simpl. rewrite Hst in *. cbn [ok_or] in *. simplify_eq/=.
  unfold allocate_row_ids. unfold vwp at 1. cbv beta iota zeta. vsteps.
  match goal with |- vwp _ _ _ ?t1 => set (t0 := t1) end.
  apply (vwp_for _ _ _ (rows_as t0)); [by split| |].
  { intros x t1 _ Ht1. by vsteps. }
  intros t1 Ht1. vsteps. apply (vwp_for _ _ _ (rows_as t0)); [done| |].
  { intros x t2 _ Ht2. unfold stage_file_index_entry, stage_index_entry. vsteps; done. }
  intros t2 [E1 E2]. vsteps. tx_simpl. rewrite E1, E2. subst t0. cbn.
  unfold put_nested, nlookup. rewrite !lookup_insert_eq. cbn. rewrite lookup_insert_eq. by eexists.
Qed.

(** A table with no statistics row takes no file. *)
Lemma register_data_file_stats table file entries t :
  cs_table_stats (tx_state t) !! table = None ->
  vwp (fun _ => True) (register_data_file table file entries) (fun _ _ => False) t.
Proof.
  intros Hst. unfold register_data_file. vsteps; try exact I.
  unfold live_table_stats in *. tx_simpl. rewrite Hst in *. discriminate.
Qed.
End RowIds.

(** ** The theorems *)

Lemma scoped_name_empty schema name : scoped_name ∅ schema name = None.
Proof. unfold scoped_name, nlookup. by rewrite lookup_empty. Qed.

Lemma premise_default : premise_ok CatalogSnapshot_default.
Proof.
  split; [|done|done|].
  - split; [apply default_wf|apply default_coherent| |done|done|].
    + intros schema name _. apply scoped_name_empty.
    + intros i v. by rewrite view_at_default.
  - split; intros *; cbn; unfold nlookup; rewrite ?lookup_empty; done.
Qed.

Section Theorems.
  Context `{SK : Storekey}.

(** C8: whatever verbs a commit closure calls, in any order, succeeding or failing,
    with catalog ids to spare and no macro taking the name of another kind of macro,
    the view it leaves staged is sound: every record sits under its own key with ids of
    64 bits and no end, the name indexes list exactly the live names, no name of a
    schema is both a table's and a view's, and the mappings and the snapshot record the
    view came with are untouched. *)
Theorem verbs_keep_catalog_sound base n t :
  premise_ok base -> rtc verb_step (Transaction_new base n) t ->
  view_wf (tx_state t) /\ names_coherent (tx_state t) /\ relations_disjoint (tx_state t)
  /\ cs_mappings (tx_state t) = cs_mappings base /\ cs_snapshot (tx_state t) = cs_snapshot base.
Proof.
  intros Hp Ht. destruct (premise_new base n Hp) as [Hok Hr].
  destruct (calls_ok _ _ _ Ht Hok Hr) as [[[] _ _] _]. done.
Qed.

(** C12: row ids are handed out once: after any calls of a closure, a data file
    [register_data_file] accepts starts at its table's row-id counter, at or past the
    end of every file the table holds, and moves the counter to the new file's end,
    clamped at [u64::MAX]. *)
Theorem row_ids_never_reused base n t table file entries id t' :
  premise_ok base -> rtc verb_step (Transaction_new base n) t ->
  register_data_file table file entries t = (Ok id, t') ->
  exists st v,
    cs_table_stats (tx_state t) !! table = Some st
    /\ nlookup (cs_data_files (tx_state t')) table id = Some v
    /\ df_row_id_start v = Some (ts_next_row_id st) /\ df_record_count v = fl_record_count file
    /\ ts_next_row_id <$> cs_table_stats (tx_state t') !! table
         = Some (saturating_add (ts_next_row_id st) (fl_record_count file))
    /\ forall f w start, nlookup (cs_data_files (tx_state t)) table f = Some w ->
         df_row_id_start w = Some start -> u64 (start + df_record_count w) ->
         start + df_record_count w <= ts_next_row_id st.
Proof.
  intros Hp Ht E. destruct (premise_new base n Hp) as [Hok Hr].
  destruct (calls_ok _ _ _ Ht Hok Hr) as [Hok' Hr'].
  destruct (cs_table_stats (tx_state t) !! table) as [st|] eqn:Hst.
  - destruct (so_table_stats _ _ (to_state _ _ Hok') _ _ Hst) as [Ei _].
    pose proof (register_data_file_rows table file entries t st Hst Ei) as Hv. unfold vwp in Hv.
    rewrite E in Hv. destruct Hv as (v & H1 & H2 & H3 & H4). exists st, v. split_and!; [done..|].
    intros f w start Hw Hs Hu. pose proof (ri_covered _ _ _ _ Hr' _ _ _ _ _ Hst Hw Hs) as Hc.
    by rewrite saturating_add_exact in Hc.
  - exfalso. pose proof (register_data_file_stats table file entries t Hst) as Hv. unfold vwp in Hv.
    by rewrite E in Hv.
Qed.
End Theorems.

(** ** Witnesses *)

(** A schema, and a table of a struct column [a] (fields [x], [y]) and a column [b]. *)
Definition sample_defs : list ColumnDef :=
  [mkColumnDef "a" "struct" true None
     [mkColumnDef "x" "int32" true None []; mkColumnDef "y" "int32" true None []];
   mkColumnDef "b" "int32" true None []].
Definition sample_file (rows : N) : DataFile :=
  mkDataFile "f.parquet" true "parquet" rows 100 10 None [] [].
Definition sample_calls : list VerbCall :=
  [CallCreateSchema "u" "s"; CallCreateTable "v" 0 "t" sample_defs;
   CallRegisterDataFile 1 (sample_file 5) []; CallDropSchema 9].
Definition sample_tx : Transaction :=
  foldl (fun t c => perform (SK := reference_storekey) c t) (Transaction_new CatalogSnapshot_default 1)
    sample_calls.

Section Samples.
Local Existing Instance reference_storekey.

Lemma sample_reached : rtc verb_step (Transaction_new CatalogSnapshot_default 1) sample_tx.
Proof.
  unfold sample_tx, sample_calls. cbn [foldl].
  repeat (eapply rtc_r; [|apply verb_call; [vm_compute; reflexivity|intros; discriminate]]).
  apply rtc_refl.
Qed.

Lemma verbs_keep_catalog_sound_witness :
  names_coherent (tx_state sample_tx) /\ relations_disjoint (tx_state sample_tx).
Proof.
  destruct (verbs_keep_catalog_sound CatalogSnapshot_default 1 sample_tx premise_default sample_reached)
    as (_ & Hn & Hr & _). split; [exact Hn|exact Hr].
Defined.

Lemma row_ids_never_reused_witness :
  exists id t' v, register_data_file 1 (sample_file 7) [] sample_tx = (Ok id, t')
    /\ nlookup (cs_data_files (tx_state t')) 1 id = Some v /\ df_row_id_start v = Some 5.
Proof.
  destruct (register_data_file 1 (sample_file 7) [] sample_tx) as [r t'] eqn:E.
  assert (Er : r = Ok 1) by (vm_compute in E; congruence). subst r.
  destruct (row_ids_never_reused CatalogSnapshot_default 1 sample_tx 1 (sample_file 7) [] 1 t'
    premise_default sample_reached E) as (st & v & Hst & Hv & Hs & _).
  exists 1, t', v. split_and!; [reflexivity|exact Hv|]. vm_compute in Hst. injection Hst as <-. exact Hs.
Defined.

Definition sample_columns : gmap N ColumnValue := default ∅ (cs_columns (tx_state sample_tx) !! 1).

Lemma sample_forest : columns_forest sample_columns.
Proof.
  assert (H : forallb (fun e => (cv_column_id e.2 =? e.1)
      && match cv_parent_column e.2 with Some p => p <? e.1 | None => true end)
    (map_to_list sample_columns) = true) by (vm_compute; reflexivity).
  intros i v Hv%elem_of_map_to_list%list_elem_of_In. rewrite forallb_forall in H.
  specialize (H _ Hv). cbn in H. apply andb_true_iff in H as [H1%N.eqb_eq H2]. split; [done|].
  intros p Hp. rewrite Hp in H2. by apply N.ltb_lt.
Qed.

Lemma drop_column_exact_witness :
  exists t', drop_column 1 1 sample_tx = (Ok tt, t')
    /\ nlookup (cs_columns (tx_state t')) 1 3 = None
    /\ nlookup (cs_columns (tx_state t')) 1 4 = sample_columns !! 4.
Proof.
  destruct (sample_columns !! 1) as [v|] eqn:Hv; [|vm_compute in Hv; discriminate].
  assert (Hc : cs_columns (tx_state sample_tx) !! 1 = Some sample_columns) by (vm_compute; reflexivity).
  pose proof (drop_column_exact 1 1 sample_tx sample_columns v Hc sample_forest Hv) as H.
  destruct (drop_column 1 1 sample_tx) as [r t'] eqn:E.
  assert (Er : r = Ok tt) by (vm_compute in E; congruence). subst r. cbn in H.
  destruct H as (_ & _ & H). exists t'. split_and!; [reflexivity| |].
  - apply H. apply rtc_once. vm_compute. eexists. split; reflexivity.
  - apply H. intros Hr. apply rtc_inv in Hr as [Hr|(y & (w & Hw & Hp) & Hy)]; [discriminate|].
    apply rtc_inv_r in Hy as [->|(z & _ & (x & Hx & Hz))].
    + vm_compute in Hw. injection Hw as <-. discriminate Hp.
    + vm_compute in Hx. injection Hx as <-. discriminate Hz.
Defined.
End Samples.

(** A scalar and a table macro may share a name, but the name index has room for one:
    it answers with the later, and once that is dropped the macro still live is no
    longer found by its name. *)
Theorem macro_name_shadowed :
  let impl kind := [mkMacroImplementationDef "duckdb" "1" kind []] in
  let calls := [CallCreateSchema "u" "s"; CallCreateMacro 0 "m" (impl "scalar");
    CallCreateMacro 0 "m" (impl "table"); CallDropMacro 2] in
  let t := foldl (fun t c => perform (SK := reference_storekey) c t)
    (Transaction_new CatalogSnapshot_default 1) calls in
  mv_macro_name <$> cs_macros (tx_state t) !! 1 = Some "m"%string
  /\ macro_by_name (tx_state t) 0 "m" = None.
Proof. vm_compute. split; reflexivity. Qed.
