(* ===== verification/Commit.v ===== *)
(** The commit cycle ([transaction/commit.rs]) and the batch it stages onto
    ([transaction/commit/group.rs], [Batch]): what one member's closure stages, how
    members ride one batch, how an attempt lands, and how lost races are classified
    and retried. *)
From stdpp Require Import gmap strings list fin_maps sorting.
From Stdlib Require Import NArith ZArith Lia.
From S2P Require Import Prelude Storekey KeyLayout Operations ChangesMade Values Snapshot Catalog Store Inline IndexMaintenance Fold Diff Materialize Projection Landing Verbs VerbLaws VerbCalls.

Local Open Scope N_scope.

(** ** Waiting between attempts *)

Definition MAX_COMMIT_ATTEMPTS : nat := 10.
Definition RETRY_BACKOFF_BASE_MICROS : N := 2000.
Definition RETRY_BACKOFF_MAX_MICROS : N := 50000.

(** [retry_backoff], in microseconds; the clock is the caller's. *)
Definition retry_backoff (now_micros : Z) (attempt : nat) : N :=
  match attempt with
  | O => 0
  | S n =>
      let doublings := N.min (N.of_nat n) 31 in
      let step := N.min (saturating_mul RETRY_BACKOFF_BASE_MICROS (N.shiftl 1 doublings))
        RETRY_BACKOFF_MAX_MICROS in
      let jitter := Z.abs_N now_micros mod RETRY_BACKOFF_BASE_MICROS in
      saturating_add step jitter
  end.

(** ** Staging one member *)

(** [target_format]. *)
Definition target_format (state : CatalogSnapshot) : N :=
  let indexes := concat (map (fun per_table => btree_values per_table) (btree_values (cs_indexes state))) in
  if existsb (fun index => bool_decide (xv_deferred_maintenance index = Some true)) indexes
  then FORMAT_WITH_DEFERRED_INDEX
  else if existsb (fun index => bool_decide (is_Some (xv_build_state index))) indexes
  then FORMAT_WITH_STAGED_INDEX
  else if existsb (fun per_table => negb (bool_decide (per_table = ∅))) (btree_values (cs_indexes state))
  then FORMAT_WITH_INDEX
  else FORMAT_VERSION.

(** What one attempt staged. *)
Inductive Prepared : Type :=
| PreparedNothing (head : N)
| PreparedStaged (ours : ChangeSet) (commits : N) (writes : list StagedWrite) (staged_bytes : N).

Section Staging.
  Context `{SK : Storekey, MS : Messages}.

(** [format_stamp]: lazy and forward-only. *)
Definition format_stamp (version : string) (state : CatalogSnapshot) : Reader (list StagedWrite) :=
  let target := target_format state in
  if target <=? FORMAT_VERSION then mret []
  else
    format ← read_format;
    let current := match format with Some f => fm_format_version f | None => FORMAT_VERSION end in
    if target <=? current then mret []
    else mret [(Key_encode (K_Sys SK_Format), Some (encode_value (mkFormatValue target version)))].

(** [schema_version_write]. *)
Definition schema_version_write (table_id begin_snapshot schema_version : N) : StagedWrite :=
  (Key_encode (K_SchemaVersion table_id begin_snapshot),
   Some (encode_value (mkSchemaVersionValue schema_version))).

(** The tables whose schema a member changed, ascending. *)
Definition schema_changed_ids (operations : list Operation) : list N :=
  in_order N.le (list_to_set (omap schema_changed_table_id operations)).

Context {T : Type} `{KV T}.

(** [prepare_and_stage]; the clock and the package version are the caller's. *)
Definition prepare_and_stage (now : Z) (version : string) (f : Verb unit) (base : CatalogSnapshot)
  : Tx T Prepared :=
  let head := sn_snapshot_id (cs_snapshot base) in
  let new_id := wrapping_add head 1 in
  match f (Transaction_new base new_id) with
  | (Err e, _) => tx_fail e
  | (Ok _, tx) =>
      let parts := into_parts tx in
      if bool_decide (tp_operations parts = []) then
        let writes := diff_options base (tp_state parts) in
        if bool_decide (writes = []) then mret (PreparedNothing head)
        else
          last ← tx_read (head_write head);
          let writes := writes ++ [last] in
          staged_bytes ← stage_writes writes 0;
          mret (PreparedStaged ChangeSet_default head writes staged_bytes)
      else
        entries ← stage_index_entries (tp_index_entries parts);
        let state := apply_poison (ses_poisoned entries) (tp_state parts) in
        let writes := diff_writes base state new_id in
        inline ← tx_read (stage_inline_writes (tp_inline_ops parts));
        stamp ← tx_read (format_stamp version state);
        let schema_changed := existsb is_schema_changing (tp_operations parts) in
        let changed_ids := schema_changed_ids (tp_operations parts) in
        let schema_version :=
          wrapping_add (sn_schema_version (cs_snapshot base)) (if schema_changed then 1 else 0) in
        let writes := writes ++ inline ++ stamp
          ++ map (fun table_id => schema_version_write table_id new_id schema_version) changed_ids in
        let ours := from_operations (tp_operations parts) in
        let changelog := changelog_writes new_id writes in
        let snapshot := mkSnapshotValue new_id now schema_version (tp_next_catalog_id parts)
          (tp_next_file_id parts) (to_changes_made ours) None None None changed_ids
          (in_order N.le (deleted_data_file_ids ours)) in
        last ← tx_read (head_write new_id);
        let writes := writes ++ changelog
          ++ [(Key_encode (K_Snapshot new_id), Some (encode_value snapshot)); last] in
        staged_bytes ← stage_writes writes 0;
        mret (PreparedStaged ours new_id writes (saturating_add staged_bytes (ses_bytes entries)))
  end.
End Staging.

(** ** The batch *)

(** [Batch]: one transaction carrying every member's writes, and the premise the next
    member stages against ([None] until a second member needs it). *)
Record Batch (S : Type) : Type := mkBatch {
  bt_db_tx : DbTransaction S;
  bt_base : CatalogSnapshot;
  bt_premise : option CatalogSnapshot;
  bt_folded : nat;
  bt_head_before : N;
  bt_head : N;
  bt_members : nat;
  bt_writes : list StagedWrite;
  bt_staged_bytes : N;
}.
Arguments mkBatch {S} _ _ _ _ _ _ _ _ _.
Arguments bt_db_tx {S} _.
Arguments bt_base {S} _.
Arguments bt_premise {S} _.
Arguments bt_folded {S} _.
Arguments bt_head_before {S} _.
Arguments bt_head {S} _.
Arguments bt_members {S} _.
Arguments bt_writes {S} _.
Arguments bt_staged_bytes {S} _.

Definition MAX_BATCH_MEMBERS : nat := 64.

(** [Outcome]: what a sealed batch did. *)
Inductive Outcome : Type := OutcomeCommitted | OutcomeLostRace | OutcomeNothing.

(** [CommitOutcome]: the result of one attempt at a group. *)
Inductive CommitOutcome : Type :=
| GroupCommitted (ids : list N)
| GroupLostRace (ours : list ChangeSet) (head_before : N)
| GroupNothing.

Section Batch.
  Context {D S : Type} `{DB : Database D S} `{SK : Storekey, MS : Messages}.

(** [Batch::open]. *)
Definition Batch_open (d : D) (c : ProjectionCache) : result (Batch S * ProjectionCache) :=
  let db_tx := db_begin d in
  '(base, c) ← head_view_for db_tx c;
  let head_before := sn_snapshot_id (cs_snapshot base) in
  Ok (mkBatch db_tx base None 0 head_before head_before 0 [] 0, c).

(** [Batch::refold]. *)
Definition refold (b : Batch S) : result (Batch S) :=
  if (bt_folded b =? length (bt_writes b))%nat then Ok b
  else
    let premise := default (bt_base b) (bt_premise b) in
    premise ← fold_batch premise (drop (bt_folded b) (bt_writes b));
    Ok (mkBatch (bt_db_tx b) (bt_base b) (Some premise) (length (bt_writes b)) (bt_head_before b)
      (bt_head b) (bt_members b) (bt_writes b) (bt_staged_bytes b)).

Definition count_member (b : Batch S) : Batch S :=
  mkBatch (bt_db_tx b) (bt_base b) (bt_premise b) (bt_folded b) (bt_head_before b) (bt_head b)
    (Datatypes.S (bt_members b)) (bt_writes b) (bt_staged_bytes b).

(** One turn of [Batch::stage]: the member's id, its change set, the batch after it. *)
Definition stage_member (now : Z) (version : string) (f : Verb unit) (b : Batch S)
  : result (N * list ChangeSet * Batch S) :=
  b ← refold (count_member b);
  let premise := default (bt_base b) (bt_premise b) in
  '(prepared, db_tx) ← prepare_and_stage now version f premise (bt_db_tx b);
  match prepared with
  | PreparedNothing head =>
      Ok (head, [], mkBatch db_tx (bt_base b) (bt_premise b) (bt_folded b) (bt_head_before b)
        (bt_head b) (bt_members b) (bt_writes b) (bt_staged_bytes b))
  | PreparedStaged theirs commits writes staged_bytes =>
      Ok (commits, [theirs], mkBatch db_tx (bt_base b) (bt_premise b) (bt_folded b)
        (bt_head_before b) commits (bt_members b) (bt_writes b ++ writes)
        (saturating_add (bt_staged_bytes b) staged_bytes))
  end.

(** [Batch::stage]: every member in turn, each with the clock it runs at. *)
Fixpoint stage_members (version : string) (members : list (Z * Verb unit)) (b : Batch S)
  : result (list N * list ChangeSet * Batch S) :=
  match members with
  | [] => Ok ([], [], b)
  | (now, f) :: members =>
      '(id, ours, b) ← stage_member now version f b;
      '(ids, more, b) ← stage_members version members b;
      Ok (id :: ids, ours ++ more, b)
  end.

(** [Coalescer::land], as its members see it. *)
Definition land (fault : WriteFault) (b : Batch S) (d : D) (c : ProjectionCache)
  : Outcome * D * ProjectionCache :=
  match commit_batch fault (bt_db_tx b) (bt_head_before b) (bt_head b) (bt_writes b) (bt_base b) d c with
  | (Ok LandedCommitted, d, c) => (OutcomeCommitted, d, c)
  | (Ok LandedLostRace, d, c) => (OutcomeLostRace, d, c)
  | (Err _, d, c) => (OutcomeNothing, d, c)
  end.

(** ** The cycle *)

(** [intervening_changes]: every commit above [head_before]. *)
Definition snapshot_changes (snapshot : option SnapshotValue) : ChangeSet :=
  match snapshot with
  | Some snapshot =>
      let changes := ChangeSet_parse (sn_changes_made snapshot) in
      if bool_decide (sn_deleted_data_file_ids snapshot = []) then changes
      else upd_deletes_untargeted_files (fun _ => false)
             (upd_deleted_data_file_ids
                (fun _ => list_to_set (sn_deleted_data_file_ids snapshot)) changes)
  | None => upd_has_unknown (fun _ => true) ChangeSet_default
  end.

Fixpoint read_changes (ids : list N) : Reader (list (N * ChangeSet)) :=
  match ids with
  | [] => mret []
  | snapshot_id :: ids =>
      snapshot ← read_snapshot snapshot_id;
      rest ← read_changes ids;
      mret ((snapshot_id, snapshot_changes snapshot) :: rest)
  end.

Definition intervening_changes (head_before : N) : Reader (list (N * ChangeSet)) :=
  head ← read_head_value;
  read_changes (map (fun i => wrapping_add head_before 1 + i)
    (range (hd_snapshot_id head + 1 - wrapping_add head_before 1))).

(** What the world does around one attempt of a caller whose batch nobody joins: the
    clocks its members read, the batches other committers land while it stages, and
    how its own write fares. *)
Record Surroundings : Type := mkSurroundings {
  su_clock : nat -> Z;
  su_others : list (list StagedWrite);
  su_fault : WriteFault;
}.

Definition db_applies (d : D) (batches : list (list StagedWrite)) : D := foldl db_apply d batches.

(** [attempt_group], for such a caller: stage, seal, land, take the batch's fate. *)
Definition attempt_group (version : string) (members : list (Verb unit)) (su : Surroundings)
    (d : D) (c : ProjectionCache) : result CommitOutcome * D * ProjectionCache :=
  match Batch_open d c with
  | Err e => (Err e, db_applies d (su_others su), c)
  | Ok (batch, c) =>
      match stage_members version (imap (fun i f => (su_clock su i, f)) members) batch with
      | Err e => (Err e, db_applies d (su_others su), c)
      | Ok (ids, ours, batch) =>
          let d := db_applies d (su_others su) in
          if bool_decide (bt_writes batch = []) then (Ok (GroupCommitted ids), d, c)
          else
            match land (su_fault su) batch d c with
            | (OutcomeCommitted, d, c) => (Ok (GroupCommitted ids), d, c)
            | (OutcomeLostRace, d, c) => (Ok (GroupLostRace ours (bt_head_before batch)), d, c)
            | (OutcomeNothing, d, c) => (Ok GroupNothing, d, c)
            end
      end
  end.

(** [commit_cycle]: one attempt per surroundings, at most [MAX_COMMIT_ATTEMPTS]. *)
Fixpoint commit_loop (version : string) (members : list (Verb unit)) (attempts : list Surroundings)
    (d : D) (c : ProjectionCache) : result (list N) * D * ProjectionCache :=
  match attempts with
  | [] => (Err RetryBudgetExhausted, d, c)
  | su :: attempts =>
      match attempt_group version members su d c with
      | (Err e, d, c) => (Err e, d, c)
      | (Ok GroupNothing, d, c) => commit_loop version members attempts d c
      | (Ok (GroupCommitted ids), d, c) => (Ok ids, d, c)
      | (Ok (GroupLostRace ours head_before), d, c) =>
          if forallb ChangeSet_is_empty ours then commit_loop version members attempts d c
          else
            match run (db_state d) (intervening_changes head_before) with
            | Err e => (Err e, d, c)
            | Ok intervening =>
                if existsb (fun theirs => existsb (fun mine => conflicts mine theirs.2) ours) intervening
                then (Err CommitConflict, d, c)
                else commit_loop version members attempts d c
            end
      end
  end.
Definition commit_cycle (version : string) (members : list (Verb unit)) (world : nat -> Surroundings)
    (d : D) (c : ProjectionCache) : result (list N) * D * ProjectionCache :=
  commit_loop version members (map world (seq 0 MAX_COMMIT_ATTEMPTS)) d c.
End Batch.

(** ** What staging leaves on a transaction *)

(** [s'] is [s] with the writes [ws] put on it, in one or more steps. *)
Inductive applied {S} `{KV S} (s : S) : list StagedWrite -> S -> Prop :=
| applied_nil : applied s [] s
| applied_more ws s' w : applied s ws s' -> applied s (ws ++ w) (kv_apply s' w).

Section Applied.
  Context {S : Type} `{KVLaws S}.

Lemma applied_one (s : S) w : applied s w (kv_apply s w).
Proof. apply (applied_more s []). constructor. Qed.

Lemma applied_trans (s s1 s2 : S) ws ws' : applied s ws s1 -> applied s1 ws' s2 -> applied s (ws ++ ws') s2.
Proof.
  intros H1 H2. induction H2 as [|ws' s2 w _ IH]; [by rewrite app_nil_r|].
  rewrite app_assoc. by constructor.
Qed.

Lemma applied_equiv (s s' : S) ws : applied s ws s' -> s' ≡ kv_apply s ws.
Proof.
  induction 1 as [|ws s' w _ IH]; [by rewrite kv_apply_nil|]. by rewrite IH, kv_apply_app.
Qed.

Lemma applied_tx (tx tx' : DbTransaction S) ws :
  applied tx ws tx' -> dt_start tx' = dt_start tx /\ dt_writes tx' = dt_writes tx ++ ws
    /\ applied (dt_view tx) ws (dt_view tx').
Proof.
  induction 1 as [|ws tx' w _ (IH1 & IH2 & IH3)]; [split_and!; [done|by rewrite app_nil_r|constructor]|].
  cbn. split_and!; [done|by rewrite IH2, app_assoc|by constructor].
Qed.

(** A program that, when it succeeds, stages writes of one kind. *)
Definition stages {A} (P : StagedWrite -> Prop) (m : Tx S A) : Prop :=
  forall s a s', m s = Ok (a, s') -> exists ws, applied s ws s' /\ Forall P ws.

Lemma stages_ret {A} P (a : A) : stages P (mret a).
Proof. intros s a' s' [= _ <-]. exists []. split; constructor. Qed.
Lemma stages_fail {A} P e : stages P (tx_fail (A := A) e).
Proof. by intros s a s'. Qed.
Lemma stages_read {A} P (m : Reader A) : stages P (tx_read m).
Proof.
  intros s a s' E. unfold tx_read in E. apply bind_Ok in E as (a' & _ & [= _ <-]).
  exists []. split; constructor.
Qed.
Lemma stages_put (P : StagedWrite -> Prop) k v : P (k, Some v) -> stages P (tx_put k v).
Proof. intros Hp s a s' [= _ <-]. exists [(k, Some v)]. split; [apply applied_one|by constructor]. Qed.
Lemma stages_delete (P : StagedWrite -> Prop) k : P (k, None) -> stages P (tx_delete k).
Proof. intros Hp s a s' [= _ <-]. exists [(k, None)]. split; [apply applied_one|by constructor]. Qed.
Lemma stages_bind {A B} P (m : Tx S A) (f : A -> Tx S B) :
  stages P m -> (forall a, stages P (f a)) -> stages P (m ≫= f).
Proof.
  intros Hm Hf s b s' E. unfold mbind, tx_mbind in E. destruct (m s) as [[a s1]|e] eqn:Em; [|done].
  destruct (Hm _ _ _ Em) as (ws & H1 & P1), (Hf _ _ _ _ E) as (ws' & H2 & P2).
  exists (ws ++ ws'). split; [by eapply applied_trans|by apply Forall_app].
Qed.
End Applied.

Create HintDb staging.
#[export] Hint Resolve stages_ret stages_fail stages_read stages_put stages_delete : staging.

Section IndexStaging.
  Context {S : Type} `{KVLaws S, SKL : StorekeyLaws, MSL : MessagesLaws}.

(** A write of the index subspace. *)
Definition index_write (w : StagedWrite) : Prop :=
  exists k, w.1 = Key_encode (K_Index k) /\ Key_wf (K_Index k).

Lemma entry_index_write e o : entry_wf e -> index_write (Key_encode (entry_key e), o).
Proof.
  intros He. pose proof (entry_key_wf e He) as Hk. unfold entry_key in *.
  destruct (se_unique e); eexists; (split; [reflexivity|done]).
Qed.

Definition probe_ok (p : PendingProbe) : Prop := forall o, index_write (pp_key p, o).

Lemma resolve_loop_stages held : forall poisoned staged,
  Forall (fun ph => probe_ok ph.1) held -> stages (S := S) index_write (resolve_loop held poisoned staged).
Proof.
  induction held as [|[p o] held IH]; intros poisoned staged Hp; cbn [resolve_loop]; [auto with staging|].
  inversion Hp; subst. repeat case_match; auto with staging.
  apply stages_bind; [by apply stages_put|auto].
Qed.

Lemma resolve_probes_stages deleted pending poisoned staged :
  Forall probe_ok pending -> stages (S := S) index_write (resolve_probes deleted pending poisoned staged).
Proof.
  intros Hp. apply stages_bind; [apply stages_read|]. intros held. apply resolve_loop_stages.
  apply Forall_forall. intros [p o] Hin%elem_of_zip_l. rewrite Forall_forall in Hp. by apply Hp.
Qed.

Lemma stage_deletes_stages entries : forall deleted staged,
  Forall entry_wf entries -> stages (S := S) index_write (stage_deletes entries deleted staged).
Proof.
  induction entries as [|e entries IH]; intros deleted staged He; cbn [stage_deletes]; [auto with staging|].
  inversion He; subst. apply stages_bind; [by apply stages_delete, entry_index_write|auto].
Qed.

Lemma stage_puts_stages deleted entries : forall pending claimed poisoned staged,
  Forall entry_wf entries -> Forall probe_ok pending ->
  stages (S := S) index_write (stage_puts deleted entries pending claimed poisoned staged).
Proof.
  induction entries as [|e entries IH]; intros pending claimed poisoned staged He Hp; cbn [stage_puts].
  { by apply resolve_probes_stages. }
  inversion He as [|? ? He1 He2]; subst.
  assert (Hp' : Forall probe_ok (pending ++ [mkPendingProbe (Key_encode (entry_key e)) (se_row_id e)
    (se_index_id e) (se_building e)])).
  { apply Forall_app. split; [done|]. constructor; [|constructor]. intros o. by apply entry_index_write. }
  case_match; [apply stages_bind; [by apply stages_put, entry_index_write|auto]|].
  repeat case_match; auto with staging.
  apply stages_bind; [by apply resolve_probes_stages|]. intros [? ?]. by apply IH.
Qed.

Lemma stage_index_entries_stages entries :
  Forall entry_wf entries -> stages (S := S) index_write (stage_index_entries entries).
Proof.
  intros He. assert (Hf : forall P `{!forall x, Decision (P x)}, Forall entry_wf (filter P entries)).
  { intros P ?. apply Forall_forall. intros x [_ Hx]%list_elem_of_filter. rewrite Forall_forall in He. auto. }
  unfold stage_index_entries. case_match; [auto with staging|].
  apply stages_bind; [by apply stage_deletes_stages|]. intros [? ?].
  apply stages_bind; [by apply stage_puts_stages|]. intros [? ?]. auto with staging.
Qed.
End IndexStaging.

(** ** What an options-only commit writes *)

Section OptionsOnly.
  Context `{SK : Storekey, MS : Messages}.

Lemma flat_map_nil {A B} (f : A -> list B) l : (forall x, f x = []) -> flat_map f l = [].
Proof. intros Hf. induction l as [|x l IH]; [done|]. cbn. by rewrite Hf, IH. Qed.

Lemma stage_transition_same {M} `{Prost M, EqDecision M} e (x : option M) n f :
  stage_transition e x x n f = [].
Proof. destruct x; [|done]. cbn. by rewrite bool_decide_true. Qed.

Lemma stage_internal_same {M} `{Prost M, EqDecision M} e (x : option M) n f g :
  stage_transition_with_internal e x x n f g = [].
Proof.
  destruct x as [m|]; [|done]. unfold stage_transition_with_internal.
  rewrite (bool_decide_false (m <> m)) by congruence. apply stage_transition_same.
Qed.

Lemma stage_overwrite_same {M} `{Prost M, EqDecision M} e (x : option M) : stage_overwrite e x x = [].
Proof. destruct x; [|done]. cbn. by rewrite bool_decide_true. Qed.

Lemma diff_versioned_same {K} `{Countable K, !KeyOrder K} {M} `{Prost M, EqDecision M} (m : gmap K M) mk n f :
  diff_versioned_map m m mk n f = [].
Proof. apply flat_map_nil. intros. apply stage_transition_same. Qed.
Lemma diff_nested_same {M} `{Prost M, EqDecision M} (m : gmap N (gmap N M)) mk n f :
  diff_nested_versioned m m mk n f = [].
Proof. apply flat_map_nil. intros. apply diff_versioned_same. Qed.
Lemma diff_overwrite_same {K} `{Countable K, !KeyOrder K} {M} `{Prost M, EqDecision M} (m : gmap K M) mk :
  diff_overwrite_map m m mk = [].
Proof. apply flat_map_nil. intros. apply stage_overwrite_same. Qed.

(** When nothing but options moved, the whole diff is the options' diff. *)
Lemma diff_options_whole base state n :
  options_only base state -> diff_writes base state n = diff_options base state.
Proof.
  intros ->. set (o := cs_options state). unfold diff_writes.
  assert (E1 : diff_columns base (set_options (fun _ => o) base) n = []).
  { apply flat_map_nil. intros t. apply flat_map_nil. intros c. apply stage_internal_same. }
  assert (E2 : diff_mappings base (set_options (fun _ => o) base) = []).
  { apply flat_map_nil. intros t. apply flat_map_nil. intros i. cbn.
    destruct (nlookup (cs_mappings base) t i) eqn:E; [|done]. apply stage_overwrite_same. }
  assert (E3 : diff_table_column_stats base (set_options (fun _ => o) base) = []).
  { apply flat_map_nil. intros t. apply diff_overwrite_same. }
  assert (E4 : diff_file_column_stats base (set_options (fun _ => o) base) = []).
  { apply flat_map_nil. intros t. apply flat_map_nil. intros [f c]. case_match; [done|].
    apply stage_overwrite_same. }
  assert (E5 : diff_gc_files base (set_options (fun _ => o) base) = []).
  { apply flat_map_nil. intros f. cbn. destruct (cs_gc_files base !! f); [|done]. by rewrite bool_decide_true. }
  assert (E6 : diff_tables base (set_options (fun _ => o) base) n = []).
  { apply flat_map_nil. intros t. apply stage_internal_same. }
  rewrite E1, E2, E3, E4, E5, E6.
  unfold diff_schemas, diff_views, diff_data_files, diff_delete_files, diff_partitions, diff_sorts,
    diff_indexes, diff_macros, diff_table_stats, diff_tags. cbn -[diff_versioned_map diff_nested_versioned diff_overwrite_map diff_options].
  rewrite !diff_versioned_same, !diff_nested_same, !diff_overwrite_same. cbn -[diff_options].
  by rewrite !app_nil_r.
Qed.
End OptionsOnly.

(** ** What a member stages *)

(** The ids a transaction carries fit their 64 bits. *)
Record tx_typed (t : Transaction) : Prop := {
  tt_entries : Forall entry_wf (tx_index_entries t);
  tt_inline : Forall stage_wf (tx_inline_ops t);
  tt_tables : Forall u64 (omap schema_changed_table_id (tx_ops t));
}.

(** The statistics of a file on neither side do not move. *)
Definition stats_settled (base state : CatalogSnapshot) : Prop :=
  forall t f i, nlookup (cs_data_files base) t f = None -> nlookup (cs_data_files state) t f = None ->
    nlookup (cs_file_column_stats base) t (f, i) = nlookup (cs_file_column_stats state) t (f, i).

(** A closure fit to ride a batch over [base]. *)
Class FitMember (base : CatalogSnapshot) (f : Verb unit) : Prop := {
  fm_sound :: SoundClosure base f;
  fm_typed : forall n t, f (Transaction_new base n) = (Ok tt, t) -> tx_typed t;
  fm_settled : forall n t, f (Transaction_new base n) = (Ok tt, t) -> stats_settled base (tx_state t);
}.

(** *** Poisoning *)

Lemma poison_indexes p s : exists m, apply_poison p s = set_indexes (fun _ => m) s
  /\ forall t i, exists o, nlookup m t i
       = (if o : bool then xv_set_poisoned (Some true) else id) <$> nlookup (cs_indexes s) t i.
Proof.
  unfold apply_poison. revert s. induction p as [|x p IH]; intros s; cbn [foldl].
  { exists (cs_indexes s). split; [by destruct s|]. intros t i. exists false. by rewrite option_fmap_id. }
  destruct (IH (set_indexes (fmap (fun per_table => alter (xv_set_poisoned (Some true)) x per_table)) s))
    as (m & -> & Hm). exists m. split; [by destruct s|]. intros t i. destruct (Hm t i) as [o ->]. cbn.
  unfold nlookup. rewrite lookup_fmap. destruct (cs_indexes s !! t) as [per|]; cbn; [|by exists false].
  rewrite lookup_alter. destruct (decide (x = i)) as [->|Hne]; [|by exists o].
  exists true. destruct (per !! i) as [v|]; [|done]. cbn. by destruct o.
Qed.

Lemma poison_wf p s : view_wf s -> view_wf (apply_poison p s).
Proof.
  intros Hs c r. destruct (poison_indexes p s) as (m & -> & Hm).
  pose proof (Hs c r) as Hc. destruct c as [[]|]; try exact Hc. clear Hc. cbn.
  rename table_id into tid, index_id into iid.
  destruct (Hm tid iid) as [o ->].
  destruct (nlookup (cs_indexes s) tid iid) as [v|] eqn:E; [|done]. cbn. intros [= <-].
  assert (Hv : view_at s (CK_Entity (EK_Index tid iid)) = Some (ER_Index v)) by (cbn; by rewrite E).
  destruct (Hs _ _ Hv) as (Hk & Hr & Hi). by destruct o.
Qed.

Lemma poison_closed p base s :
  cs_mappings s = cs_mappings base -> stats_settled base s -> diff_closed base (apply_poison p s).
Proof.
  intros Em Hs. destruct (poison_indexes p s) as (m & -> & _). split; [|exact Hs].
  cbn. by rewrite Em.
Qed.

Section Member.
  Context {S : Type} `{KVLaws S, SKL : StorekeyLaws, MSL : MessagesLaws}.

Lemma stage_writes_applied ws : forall n (s : S),
  exists m s', stage_writes ws n s = Ok (m, s') /\ applied s ws s'.
Proof.
  induction ws as [|[k o] ws IH]; intros n s; [do 2 eexists; split; [done|constructor]|].
  cbn [stage_writes].
  destruct (IH (staged_add n (length k) (match o with Some b => length b | None => 0%nat end))
    (kv_apply s [(k, o)])) as (m & s' & E & Ha).
  exists m, s'. split; [by destruct o|]. apply (applied_trans _ _ _ [(k, o)] ws (applied_one s _) Ha).
Qed.

(** *** Index writes are out of everyone's way *)

Lemma index_writes_get (s : S) ws k :
  Forall index_write ws -> Key_wf k -> (forall x, k <> K_Index x) ->
  kv_get (kv_apply s ws) (Key_encode k) = kv_get s (Key_encode k).
Proof.
  intros Hws Hk Hx. rewrite kv_get_apply, last_write_other; [done|done|].
  eapply Forall_impl; [exact Hws|]. intros w (x & E & Hw). eauto.
Qed.

Lemma index_writes_represents v (s : S) ws :
  Forall index_write ws -> Represents v s -> Represents v (kv_apply s ws).
Proof.
  intros Hws Hv c. destruct (Hv c) as [Hn Hs]. split; [done|]. intros Hc.
  rewrite (index_writes_get s ws (K_Current c)) by done. by apply Hs.
Qed.

Lemma index_writes_current ws ws' : Forall index_write ws -> current_keys (ws ++ ws') = current_keys ws'.
Proof.
  induction 1 as [|[k o] ws (x & E & Hw) _ IH]; [done|]. cbn in E |- *. subst k.
  by rewrite Key_decode_encode.
Qed.

Lemma plain_of (w : StagedWrite) k :
  w.1 = Key_encode k -> Key_wf k -> match k with K_Sys SK_Head | K_Changelog _ => False | _ => True end ->
  plain_write w.
Proof. intros E Hk Hc k' Hk' E'. rewrite E in E'. by apply Key_encode_inj in E' as <-. Qed.

Lemma index_writes_quiet ws :
  Forall index_write ws -> Forall write_wf ws /\ Forall quiet ws /\ Forall plain_write ws.
Proof.
  intros Hws. split_and!; (eapply Forall_impl; [exact Hws|]); intros w (x & E & Hw);
    [by exists (K_Index x)..|by apply (plain_of w (K_Index x))].
Qed.

Lemma index_writes_filtered ws : Forall index_write ws -> filter not_index ws = [].
Proof.
  induction 1 as [|w ws (x & E & Hw) _ IH]; [done|]. rewrite filter_cons_False; [done|].
  unfold not_index. rewrite E, Key_decode_encode by done. by intros [].
Qed.

(** Index entries staged ahead of a batch ride inside it. *)
Lemma mint_index ws h body sn :
  Forall index_write ws -> ws ++ mint_batch h body sn = mint_batch h (ws ++ body) sn.
Proof.
  intros Hws. unfold mint_batch, changelog_writes, refresh_keys_of.
  by rewrite index_writes_current, <-app_assoc.
Qed.

(** *** The parts of a member's batch *)

Definition off_index (w : StagedWrite) : Prop :=
  exists k, w.1 = Key_encode k /\ Key_wf k /\ forall x, k <> K_Index x.

Lemma off_index_filtered ws : Forall off_index ws -> filter not_index ws = ws.
Proof.
  induction 1 as [|w ws (k & E & Hk & Hx) _ IH]; [done|]. rewrite filter_cons_True; [by rewrite IH|].
  unfold not_index. rewrite E, Key_decode_encode by done. destruct k; try done. by destruct (Hx k).
Qed.

(** What a member writes beside the entity diff: inline records, the format stamp,
    schema versions. *)
Definition side_write (w : StagedWrite) : Prop :=
  exists k, w.1 = Key_encode k /\ Key_wf k
    /\ match k with
       | K_Inline k => inline_write k w
       | K_Sys SK_Format => exists fm : FormatValue, w.2 = Some (encode_value fm)
       | K_SchemaVersion _ _ => True
       | _ => False
       end.

(** A write that leaves the inline subspace and the format record readable. *)
Definition tidy (w : StagedWrite) : Prop :=
  exists k, w.1 = Key_encode k /\ Key_wf k
    /\ match k with
       | K_Inline k => inline_write k w
       | K_Sys SK_Format => exists fm : FormatValue, w.2 = Some (encode_value fm)
       | _ => True
       end.

Lemma side_write_parts w : side_write w -> write_wf w /\ quiet w /\ off_index w /\ tidy w /\ plain_write w.
Proof.
  intros (k & E & Hk & Hc). split_and!; [..|apply (plain_of w k); [done|done|by destruct k as [[]| | | | | | |]]];
    exists k; destruct k as [[]| | | | | | |]; done.
Qed.

Lemma tidy_inline (s : S) ws : Forall tidy ws -> inline_wf s -> inline_wf (kv_apply s ws).
Proof.
  intros Hws Hs. apply inline_wf_apply; [done|]. intros w Hin. rewrite Forall_forall in Hws.
  destruct (Hws w Hin) as (k & E & _ & Hc). rewrite E.
  destruct k; try (right; intros Hp%subspace_prefix_iff; discriminate Hp). left. eauto.
Qed.

Lemma tidy_format (s : S) ws fm :
  Forall tidy ws -> run s read_format = Ok fm -> exists fm', run (kv_apply s ws) read_format = Ok fm'.
Proof.
  intros Hws Hf. destruct (last_write ws (Key_encode (K_Sys SK_Format))) as [o|] eqn:E.
  - pose proof (last_write_elem _ _ _ E) as Hin. rewrite Forall_forall in Hws.
    destruct (Hws _ Hin) as (k & Ek & Hk & Hc). cbn in Ek, Hc.
    apply Key_encode_inj in Ek as <-; [|done..]. destruct Hc as [v ->]. exists (Some v).
    apply run_singleton. by rewrite kv_get_apply, E.
  - exists fm. rewrite <-Hf. apply run_singleton_same. by rewrite kv_get_apply, E.
Qed.

Lemma diff_parts base state n :
  view_wf base -> view_wf state -> u64 n -> diff_closed base state ->
  Forall write_wf (diff_writes base state n) /\ Forall quiet (diff_writes base state n)
  /\ Forall off_index (diff_writes base state n) /\ Forall tidy (diff_writes base state n).
Proof.
  intros Hb Hs Hn Hc. split; [by apply diff_write_wf|].
  rewrite <-!Forall_and. apply Forall_forall. intros w Hw.
  apply diff_writes_elem in Hw as (c & Hch). apply stage_at_chunk in Hch; [|done].
  pose proof (chunk_key base state n Hb Hs c w Hch) as Hcw.
  destruct Hch as [(_ & _ & ->)|[(r & _ & _ & ->)|(e & r & -> & _ & _ & _ & ->)]].
  - split_and!; exists (K_Current c); done.
  - split_and!; exists (K_Current c); done.
  - pose proof (history_wf n Hn e Hcw). split_and!; exists (Key_history e n); done.
Qed.

Lemma schema_versions_side ids n v :
  Forall u64 ids -> u64 n -> Forall side_write (map (fun t => schema_version_write t n v) ids).
Proof.
  intros Hids Hn. apply Forall_forall. intros w (t & -> & Ht)%list_elem_of_fmap.
  rewrite Forall_forall in Hids. exists (K_SchemaVersion t n).
  split; [done|]. split; [|done]. repeat constructor; [by apply Hids|done].
Qed.

Lemma format_stamp_side (s : S) version state fm :
  run s read_format = Ok fm ->
  exists ws, run s (format_stamp version state) = Ok ws /\ Forall side_write ws.
Proof.
  intros Hf. unfold format_stamp. case_match; [by exists []|].
  rewrite (run_bind_Ok _ _ _ _ Hf). case_match; [by exists []|].
  eexists. split; [reflexivity|]. constructor; [|constructor]. exists (K_Sys SK_Format). split_and!; [done..|]. by eexists.
Qed.

Lemma inline_side (s : S) ops ws :
  inline_wf s -> Forall stage_wf ops -> run s (stage_inline_writes ops) = Ok ws -> Forall side_write ws.
Proof.
  intros Hs Hops E. pose proof (stage_inline_ok s ops Hs Hops) as Hok. rewrite E in Hok.
  destruct Hok as [_ Hw]. apply Forall_forall. intros w Hin%Hw.
  destruct (batch_write_typed s ops ∅ w Hs Hops Hin) as (_ & k & _ & _ & Hk & _).
  exists (K_Inline k). by destruct Hk as (? & ? & ?).
Qed.

Lemma index_inline_wf (s : S) ws : Forall index_write ws -> inline_wf s -> inline_wf (kv_apply s ws).
Proof.
  intros Hws Hs. apply inline_wf_apply; [done|]. intros w Hin. rewrite Forall_forall in Hws.
  right. destruct (Hws w Hin) as (x & E & _). rewrite E. intros Hp.
  by apply subspace_prefix_iff in Hp.
Qed.

(** *** The member's batch *)

(** What a staged member left on the transaction: writes of a batch over the head it
    found, the index entries among them kept from the projections, and the records of
    [state] standing in the transaction's view. *)
Record staged_as (s : S) (h : HeadValue) (writes : list StagedWrite) (state : CatalogSnapshot)
    (h' : HeadValue) (s' : S) : Prop := {
  sa_batch : exists all, applied s all s' /\ member_batch h all h' /\ filter not_index all = writes;
  sa_view : Represents state s';
  sa_inline : inline_wf s -> inline_wf s';
  sa_format : forall fm, run s read_format = Ok fm -> exists fm', run s' read_format = Ok fm';
}.

Lemma tidy_staged (s s' : S) all :
  applied s all s' -> Forall tidy all ->
  (inline_wf s -> inline_wf s')
  /\ (forall fm, run s read_format = Ok fm -> exists fm', run s' read_format = Ok fm').
Proof.
  intros Ha Ht. pose proof (applied_equiv _ _ _ Ha) as E. split.
  - intros Hs kb b. rewrite (E kb). by apply tidy_inline.
  - intros fm Hf. setoid_rewrite E. by apply (tidy_format s all fm).
Qed.

Lemma index_tidy ws : Forall index_write ws -> Forall tidy ws.
Proof. intros Hws. eapply Forall_impl; [exact Hws|]. intros w (x & E & Hw). by exists (K_Index x). Qed.

Lemma mint_tidy h body sn :
  u64 (hd_snapshot_id h + 1) -> Forall tidy body -> Forall tidy (mint_batch h body sn).
Proof.
  intros Hu Hb. unfold mint_batch. rewrite !Forall_app. split_and!; [done| |].
  - apply Forall_forall. intros w (j & Hj & E)%changelog_keys_current; [|done]. by exists (K_Changelog j).
  - repeat constructor; [exists (K_Snapshot (hd_snapshot_id h + 1))|exists (K_Sys SK_Head)]; done.
Qed.

Lemma represents_tail v (s : S) ws ws' :
  Represents v (kv_apply s ws) -> (forall c, Key_wf (K_Current c) ->
    last_write ws' (Key_encode (K_Current c)) = last_write ws (Key_encode (K_Current c))) ->
  Represents v (kv_apply s ws').
Proof.
  intros Hv E c. destruct (Hv c) as [Hn Hs]. split; [done|]. intros Hc. specialize (Hs Hc).
  rewrite kv_get_apply in Hs. by rewrite kv_get_apply, E.
Qed.

Lemma body_current ws tail c :
  Key_wf (K_Current c) -> Forall side_write tail ->
  last_write (ws ++ tail) (Key_encode (K_Current c)) = last_write ws (Key_encode (K_Current c)).
Proof.
  intros Hc Ht. rewrite last_write_app, (last_write_other tail); [done|done|].
  eapply Forall_impl; [exact Ht|]. intros w (k & E & Hk & Hm). exists k. split_and!; [done..|].
  by intros ->.
Qed.

Lemma mint_filtered h body sn :
  u64 (hd_snapshot_id h + 1) -> Forall off_index body -> filter not_index (mint_batch h body sn) = mint_batch h body sn.
Proof.
  intros Hu Hb. apply off_index_filtered. unfold mint_batch. rewrite !Forall_app. split_and!; [done| |].
  - apply Forall_forall. intros w (j & Hj & E)%changelog_keys_current; [|done]. by exists (K_Changelog j).
  - repeat constructor; [exists (K_Snapshot (hd_snapshot_id h + 1))|exists (K_Sys SK_Head)]; done.
Qed.

(** The whole batch of a minting member, from its parts. *)
Lemma mint_staged (s s1 s' : S) h base state entries tail sn :
  Represents base s -> view_wf state -> diff_closed base state ->
  u64 (hd_snapshot_id h + 1) -> u64 (hd_batch_seq h + 1) -> sn_snapshot_id sn = hd_snapshot_id h + 1 ->
  Forall index_write entries -> applied s entries s1 -> Forall side_write tail ->
  let writes := mint_batch h (diff_writes base state (hd_snapshot_id h + 1) ++ tail) sn in
  applied s1 writes s' ->
  staged_as s h writes state (mkHeadValue (hd_snapshot_id h + 1) (hd_batch_seq h + 1)) s'.
Proof.
  intros Hb Hst Hcl Hu Hq En Hent Ha1 Htail writes Ha2.
  pose proof (represents_view_wf _ _ Hb) as Hbw.
  destruct (diff_parts base state _ Hbw Hst Hu Hcl) as (Dw & Dq & Di & Dt).
  destruct (index_writes_quiet _ Hent) as (Ew & Eq & Ep).
  pose proof (diff_plain base state _ Hbw Hst Hu Hcl) as Dp.
  assert (Ht : Forall write_wf tail /\ Forall quiet tail /\ Forall off_index tail /\ Forall tidy tail
    /\ Forall plain_write tail).
  { rewrite <-!Forall_and. eapply Forall_impl; [exact Htail|apply side_write_parts]. }
  destruct Ht as (Tw & Tq & Ti & Tt & Tp). set (body := diff_writes _ _ _ ++ tail) in *.
  destruct (tidy_staged s s' (entries ++ writes)) as [Hin Hfm]; [by eapply applied_trans| |].
  { apply Forall_app. split; [by apply index_tidy|]. apply mint_tidy; [done|]. by apply Forall_app. }
  split; [| |done|done].
  - exists (entries ++ writes). split_and!; [by eapply applied_trans| |].
    + unfold writes. rewrite mint_index by done. constructor; [done..| | |].
      * unfold body. rewrite !Forall_app. done.
      * unfold body. rewrite !Forall_app. done.
      * unfold body. rewrite !Forall_app. done.
    + rewrite filter_app, index_writes_filtered by done. apply mint_filtered; [done|].
      unfold body. by apply Forall_app.
  - rewrite (applied_equiv _ _ _ Ha2), (applied_equiv _ _ _ Ha1).
    eapply (represents_tail _ _ (diff_writes base state (hd_snapshot_id h + 1))).
    + apply diff_represents; try done. by apply index_writes_represents.
    + intros c Hc. unfold writes. rewrite mint_current by done. by apply body_current.
Qed.

(** The batch of a member that changes options alone. *)
Lemma maintain_staged (s s' : S) h base state :
  Represents base s -> view_wf state -> diff_closed base state -> u64 (hd_snapshot_id h + 1) ->
  u64 (hd_batch_seq h + 1) -> options_only base state ->
  let writes := maintenance_batch h (diff_options base state) in
  applied s writes s' ->
  staged_as s h writes state (mkHeadValue (hd_snapshot_id h) (hd_batch_seq h + 1)) s'.
Proof.
  intros Hb Hst Hcl Hu Hq Ho writes Ha.
  pose proof (represents_view_wf _ _ Hb) as Hbw.
  destruct (diff_parts base state _ Hbw Hst Hu Hcl) as (Dw & Dq & Di & Dt).
  pose proof (diff_plain base state _ Hbw Hst Hu Hcl) as Dp.
  rewrite (diff_options_whole base state) in Dw, Dq, Di, Dt, Dp by done.
  destruct (tidy_staged s s' writes) as [Hin Hfm]; [done| |].
  { apply Forall_app. split; [done|]. constructor; [|constructor]. by exists (K_Sys SK_Head). }
  split; [| |done|done].
  - exists writes. split_and!; [done|by constructor|]. apply off_index_filtered, Forall_app.
    split; [done|]. constructor; [|constructor]. by exists (K_Sys SK_Head).
  - rewrite (applied_equiv _ _ _ Ha).
    eapply (represents_tail _ _ (diff_writes base state (hd_snapshot_id h + 1)));
      [by apply diff_represents|].
    intros c Hc. unfold writes, maintenance_batch. rewrite (diff_options_whole base state), last_write_app by done.
    rewrite (last_write_other [_]); [done|done|]. constructor; [|constructor].
    by exists (K_Sys SK_Head).
Qed.

(** *** What stands under every key of a minting member's batch *)

(** The parts of the batch, by the subspace each writes. *)
Definition part_of (k : Key) : nat :=
  match k with
  | K_Current _ | K_History _ => 0
  | K_Inline _ => 1
  | K_Sys SK_Format => 2
  | K_SchemaVersion _ _ => 3
  | K_Changelog _ => 4
  | K_Snapshot _ => 5
  | K_Sys SK_Head => 6
  | _ => 7
  end.

Definition of_part (i : nat) (ws : list StagedWrite) : Prop :=
  Forall (fun w => exists k, w.1 = Key_encode k /\ Key_wf k /\ part_of k = i) ws.

Lemma last_write_part i ws k :
  of_part i ws -> Key_wf k -> part_of k <> i -> last_write ws (Key_encode k) = None.
Proof.
  intros Hws Hk Hi. apply last_write_other; [done|]. eapply Forall_impl; [exact Hws|].
  intros w (k' & E & Hk' & Hp). exists k'. split_and!; [done..|congruence].
Qed.

Lemma last_write_parts (parts : list (list StagedWrite)) k :
  (forall i ws, parts !! i = Some ws -> of_part i ws) -> Key_wf k ->
  last_write (concat parts) (Key_encode k) = last_write (default [] (parts !! part_of k)) (Key_encode k).
Proof.
  intros Hp Hk. induction parts as [|ws parts IH] using rev_ind; [done|].
  rewrite concat_app, last_write_app. cbn [concat]. rewrite app_nil_r.
  assert (Hl : forall i x, parts !! i = Some x -> (parts ++ [ws]) !! i = Some x)
    by (intros i x Hx; by apply lookup_app_l_Some).
  rewrite IH by (intros i x Hx; by apply Hp, Hl).
  assert (Hw : of_part (length parts) ws) by (apply Hp; by rewrite list_lookup_middle).
  destruct (decide (part_of k = length parts)) as [E|E].
  - rewrite E, list_lookup_middle by done. rewrite lookup_ge_None_2 by lia.
    change (default [] (Some ws)) with ws. change (default [] None) with (@nil StagedWrite).
    rewrite last_write_nil. by destruct (last_write ws (Key_encode k)).
  - rewrite (last_write_part _ _ _ Hw Hk E). destruct (parts !! part_of k) as [x|] eqn:Ex.
    + by rewrite (Hl _ _ Ex).
    + rewrite lookup_app_r by (by apply lookup_ge_None). rewrite lookup_ge_None_2; [done|].
      apply lookup_ge_None in Ex. cbn. lia.
Qed.

(** The format a catalog needs, by what its indexes carry. *)
Definition some_index (state : CatalogSnapshot) (P : IndexValue -> Prop) : Prop :=
  exists t i x, nlookup (cs_indexes state) t i = Some x /\ P x.

Definition needs_format (state : CatalogSnapshot) (version : N) : Prop :=
  let deferred := some_index state (fun x => xv_deferred_maintenance x = Some true) in
  let staged := some_index state (fun x => is_Some (xv_build_state x)) in
  let indexed := some_index state (fun _ => True) in
  (deferred /\ version = 4) \/ (~ deferred /\ staged /\ version = 3)
  \/ (~ deferred /\ ~ staged /\ indexed /\ version = 2)
  \/ (~ deferred /\ ~ staged /\ ~ indexed /\ version = 1).

Lemma some_index_exists (state : CatalogSnapshot) (P : IndexValue -> Prop) (p : IndexValue -> bool) :
  (forall x, p x = true <-> P x) ->
  existsb p (concat (map (fun per => btree_values per) (btree_values (cs_indexes state)))) = true
  <-> some_index state P.
Proof.
  intros Hp. rewrite existsb_exists. unfold some_index, nlookup. split.
  - intros (x & Hx & Px%Hp). rewrite in_concat in Hx. destruct Hx as (l & Hl & Hx).
    rewrite in_map_iff in Hl. destruct Hl as (per & <- & Hper).
    apply list_elem_of_In, elem_of_btree_values in Hper as [t Ht].
    apply list_elem_of_In, elem_of_btree_values in Hx as [i Hi]. exists t, i, x. by rewrite Ht.
  - intros (t & i & x & Hx & Px%Hp). destruct (cs_indexes state !! t) as [per|] eqn:Et; [|done]. cbn in Hx.
    exists x. split; [|done]. rewrite in_concat. exists (btree_values per). rewrite in_map_iff. split.
    + exists per. split; [done|]. apply list_elem_of_In, elem_of_btree_values. eauto.
    + apply list_elem_of_In, elem_of_btree_values. eauto.
Qed.

Lemma some_index_any (state : CatalogSnapshot) :
  existsb (fun per => negb (bool_decide (per = ∅))) (btree_values (cs_indexes state)) = true
  <-> some_index state (fun _ => True).
Proof.
  rewrite existsb_exists. unfold some_index, nlookup. split.
  - intros (per & Hper & Hne). apply list_elem_of_In, elem_of_btree_values in Hper as [t Ht].
    rewrite negb_true_iff, bool_decide_eq_false in Hne. apply map_choose in Hne as (i & x & Hx).
    exists t, i, x. by rewrite Ht.
  - intros (t & i & x & Hx & _). destruct (cs_indexes state !! t) as [per|] eqn:Et; [|done]. cbn in Hx.
    exists per. split; [apply list_elem_of_In, elem_of_btree_values; eauto|].
    rewrite negb_true_iff, bool_decide_eq_false. intros ->. by rewrite lookup_empty in Hx.
Qed.

Lemma target_needs state : needs_format state (target_format state).
Proof.
  unfold needs_format, target_format. cbv zeta.
  rewrite <-(some_index_exists state (fun x => xv_deferred_maintenance x = Some true)
    (fun x => bool_decide (xv_deferred_maintenance x = Some true)))
    by (intros x; apply bool_decide_eq_true).
  rewrite <-(some_index_exists state (fun x => is_Some (xv_build_state x))
    (fun x => bool_decide (is_Some (xv_build_state x)))) by (intros x; apply bool_decide_eq_true).
  rewrite <-some_index_any. unfold FORMAT_WITH_DEFERRED_INDEX, FORMAT_WITH_STAGED_INDEX, FORMAT_WITH_INDEX, FORMAT_VERSION.
  destruct (existsb _ (concat _)), (existsb _ (concat _)), (existsb _ (btree_values _)); naive_solver.
Qed.

(** The schema version a member's operations leave. *)
Definition version_after (base : CatalogSnapshot) (ops : list Operation) : N :=
  wrapping_add (sn_schema_version (cs_snapshot base)) (if existsb is_schema_changing ops then 1 else 0).

(** Under which keys of the transaction's view [s'] a minting member's writes stand, and
    what stands there: [s] is the view it found, [s1] that view with its index entries,
    [inline] the writes of its inline operations. *)
Record minted (s s1 s' : S) (h : HeadValue) (base state : CatalogSnapshot) (t : Transaction)
    (inline : list StagedWrite) (fm : option FormatValue) (now : Z) (version : string) : Prop := {
  mt_index : forall k, Key_wf (K_Index k) ->
    kv_get s' (Key_encode (K_Index k)) = kv_get s1 (Key_encode (K_Index k));
  mt_inline : forall k, Key_wf (K_Inline k) ->
    kv_get s' (Key_encode (K_Inline k)) = kv_get (kv_apply s1 inline) (Key_encode (K_Inline k));
  mt_history : forall k, Key_wf (K_History k) ->
    kv_get s' (Key_encode (K_History k))
    = kv_get (kv_apply s (diff_writes base state (hd_snapshot_id h + 1))) (Key_encode (K_History k));
  mt_version : forall i o, o ∈ tx_ops t -> schema_changed_table_id o = Some i ->
    kv_get s' (Key_encode (K_SchemaVersion i (hd_snapshot_id h + 1)))
    = Some (encode_value (mkSchemaVersionValue (version_after base (tx_ops t))));
  mt_version_kept : forall i n, Key_wf (K_SchemaVersion i n) ->
    ~ (n = hd_snapshot_id h + 1 /\ exists o, o ∈ tx_ops t /\ schema_changed_table_id o = Some i) ->
    kv_get s' (Key_encode (K_SchemaVersion i n)) = kv_get s (Key_encode (K_SchemaVersion i n));
  mt_format : forall need, needs_format state need ->
    run s' read_format
    = Ok (if decide (1 < need /\ from_option fm_format_version 1 fm < need) then Some (mkFormatValue need version) else fm);
  mt_snapshot : exists changed deleted,
    (forall i, i ∈ changed <-> exists o, o ∈ tx_ops t /\ schema_changed_table_id o = Some i)
    /\ (forall i, i ∈ deleted <-> i ∈ deleted_data_file_ids (from_operations (tx_ops t)))
    /\ (Sorted N.le changed /\ NoDup changed) /\ (Sorted N.le deleted /\ NoDup deleted)
    /\ kv_get s' (Key_encode (K_Snapshot (hd_snapshot_id h + 1)))
       = Some (encode_value (mkSnapshotValue (hd_snapshot_id h + 1) now (version_after base (tx_ops t))
           (tx_next_catalog_id t) (tx_next_file_id t) (to_changes_made (from_operations (tx_ops t)))
           None None None changed deleted));
}.

Section Minted.
  Context (s s1 s' : S) (h : HeadValue) (base state : CatalogSnapshot) (t : Transaction).
  Context (entries inline stamp : list StagedWrite) (fm : option FormatValue) (now : Z) (version : string).
  Context (Hbase : view_wf base) (Hstate : view_wf state) (Hclosed : diff_closed base state).
  Context (Hid : u64 (hd_snapshot_id h + 1)) (Hent : Forall index_write entries) (Ha1 : applied s entries s1).
  Context (Hw1 : inline_wf s1) (Hops : Forall stage_wf (tx_inline_ops t)).
  Context (Hinline : run s1 (stage_inline_writes (tx_inline_ops t)) = Ok inline).
  Context (Hformat : run s read_format = Ok fm) (Hstamp : run s1 (format_stamp version state) = Ok stamp).
  Context (Hids : Forall u64 (schema_changed_ids (tx_ops t))).

Let sn : SnapshotValue :=
  mkSnapshotValue (hd_snapshot_id h + 1) now (version_after base (tx_ops t)) (tx_next_catalog_id t)
    (tx_next_file_id t) (to_changes_made (from_operations (tx_ops t))) None None None
    (schema_changed_ids (tx_ops t)) (in_order N.le (deleted_data_file_ids (from_operations (tx_ops t)))).
Let versions : list StagedWrite :=
  map (fun i => schema_version_write i (hd_snapshot_id h + 1) (version_after base (tx_ops t)))
    (schema_changed_ids (tx_ops t)).
Let body : list StagedWrite := diff_writes base state (hd_snapshot_id h + 1) ++ inline ++ stamp ++ versions.
Let parts : list (list StagedWrite) :=
  [diff_writes base state (hd_snapshot_id h + 1); inline; stamp; versions;
   changelog_writes (hd_snapshot_id h + 1) body;
   [(Key_encode (K_Snapshot (hd_snapshot_id h + 1)), Some (encode_value sn))];
   [(Key_encode (K_Sys SK_Head), Some (encode_value
      (mkHeadValue (hd_snapshot_id h + 1) (saturating_add (hd_batch_seq h) 1))))]].

Context (Ha2 : applied s1 (mint_batch h body sn) s').

Lemma format_stamp_on :
  run s1 read_format = Ok fm
  /\ stamp = if decide (1 < target_format state /\ from_option fm_format_version 1 fm < target_format state)
             then [(Key_encode (K_Sys SK_Format), Some (encode_value (mkFormatValue (target_format state) version)))]
             else [].
Proof.
  assert (Hf : run s1 read_format = Ok fm).
  { rewrite <-Hformat, (applied_equiv _ _ _ Ha1). apply run_singleton_same. by apply index_writes_get. }
  split; [done|]. unfold format_stamp, FORMAT_VERSION in Hstamp.
  destruct (N.leb_spec (target_format state) 1) as [Hle|Hlt].
  { rewrite decide_False by lia. by injection Hstamp as <-. }
  rewrite (run_bind_Ok _ _ _ _ Hf) in Hstamp.
  change (match fm with Some f => fm_format_version f | None => 1 end)
    with (from_option fm_format_version 1 fm) in Hstamp.
  destruct (N.leb_spec (target_format state) (from_option fm_format_version 1 fm)).
  - rewrite decide_False by lia. by injection Hstamp as <-.
  - rewrite decide_True by lia. by injection Hstamp as <-.
Qed.

Lemma parts_placed i ws : parts !! i = Some ws -> of_part i ws.
Proof.
  intros Hi. destruct i as [|[|[|[|[|[|[|i]]]]]]]; cbn in Hi; try injection Hi as <-; [..|done].
  - apply Forall_forall. intros w (c & Hch)%diff_writes_elem. apply stage_at_chunk in Hch; [|done].
    pose proof (chunk_key base state _ Hbase Hstate c w Hch) as Hcw.
    destruct Hch as [(_ & _ & ->)|[(r & _ & _ & ->)|(e & r & -> & _ & _ & _ & ->)]].
    1,2: by exists (K_Current c).
    exists (Key_history e (hd_snapshot_id h + 1)). split_and!; [done|by apply history_wf|done].
  - pose proof (stage_inline_ok s1 _ Hw1 Hops) as Hok. rewrite Hinline in Hok. destruct Hok as [_ Hw].
    apply Forall_forall. intros w Hin%Hw.
    destruct (batch_write_typed s1 _ ∅ w Hw1 Hops Hin) as (_ & k & _ & _ & (? & ? & _) & _). by exists (K_Inline k).
  - destruct format_stamp_on as [_ ->]. case_decide; constructor; [by exists (K_Sys SK_Format)|constructor].
  - apply Forall_forall. intros w (j & -> & Hj)%list_elem_of_fmap. rewrite Forall_forall in Hids.
    exists (K_SchemaVersion j (hd_snapshot_id h + 1)). split_and!; [done| |done].
    repeat constructor; [by apply Hids|done].
  - apply Forall_forall. intros w (j & Hj & E)%changelog_keys_current; [|done]. by exists (K_Changelog j).
  - constructor; [|constructor]. by exists (K_Snapshot (hd_snapshot_id h + 1)).
  - constructor; [|constructor]. by exists (K_Sys SK_Head).
Qed.

(** What the transaction's view holds under a key, by the part that writes there. *)
Lemma minted_get k :
  Key_wf k -> kv_get s' (Key_encode k) = kv_get (kv_apply s1 (default [] (parts !! part_of k))) (Key_encode k).
Proof.
  intros Hk. rewrite (applied_equiv _ _ _ Ha2 (Key_encode k)), !kv_get_apply.
  assert (E : mint_batch h body sn = concat parts).
  { unfold mint_batch, parts, body. cbn [concat]. by rewrite app_nil_r, <-!app_assoc. }
  rewrite E, last_write_parts; [done|apply parts_placed|done].
Qed.

Lemma minted_base k : Key_wf k -> (forall x, k <> K_Index x) -> kv_get s1 (Key_encode k) = kv_get s (Key_encode k).
Proof. intros Hk Hx. rewrite (applied_equiv _ _ _ Ha1 (Key_encode k)). by apply index_writes_get. Qed.

Lemma elem_of_changed i :
  i ∈ schema_changed_ids (tx_ops t) <-> exists o, o ∈ tx_ops t /\ schema_changed_table_id o = Some i.
Proof.
  unfold schema_changed_ids. rewrite elem_of_in_order, elem_of_list_to_set, list_elem_of_omap. done.
Qed.

Lemma needs_format_unique n : needs_format state n -> n = target_format state.
Proof. pose proof (target_needs state) as Ht. unfold needs_format in *. naive_solver. Qed.

Lemma minted_format need : needs_format state need ->
  run s' read_format
  = Ok (if decide (1 < need /\ from_option fm_format_version 1 fm < need) then Some (mkFormatValue need version) else fm).
Proof.
  intros ->%needs_format_unique. destruct format_stamp_on as [Hf Es].
  pose proof (minted_get (K_Sys SK_Format) I) as Eg. change (default [] (parts !! _)) with stamp in Eg.
  rewrite kv_get_apply, Es in Eg. case_decide.
  - rewrite last_write_cons, last_write_nil, decide_True in Eg by done. by apply run_singleton.
  - rewrite last_write_nil in Eg. rewrite <-Hf. by apply run_singleton_same.
Qed.

Lemma minted_version i : i ∈ schema_changed_ids (tx_ops t) ->
  kv_get s' (Key_encode (K_SchemaVersion i (hd_snapshot_id h + 1)))
  = Some (encode_value (mkSchemaVersionValue (version_after base (tx_ops t)))).
Proof.
  intros Hi. pose proof (proj1 (Forall_forall _ _) Hids) as Hu.
  assert (Hk : forall j, j ∈ schema_changed_ids (tx_ops t) -> Key_wf (K_SchemaVersion j (hd_snapshot_id h + 1)))
    by (intros j Hj; repeat constructor; [by apply Hu|done]).
  rewrite minted_get by auto. change (default [] (parts !! _)) with versions. rewrite kv_get_apply.
  rewrite (last_write_unique _ _ (Some (encode_value (mkSchemaVersionValue (version_after base (tx_ops t)))))); [done|..].
  - apply list_elem_of_fmap. by exists i.
  - intros v' (j & E & Hj)%list_elem_of_fmap. by injection E as _ ->.
Qed.

Lemma minted_version_kept i n : Key_wf (K_SchemaVersion i n) ->
  ~ (n = hd_snapshot_id h + 1 /\ i ∈ schema_changed_ids (tx_ops t)) ->
  kv_get s' (Key_encode (K_SchemaVersion i n)) = kv_get s (Key_encode (K_SchemaVersion i n)).
Proof.
  intros Hk Hno. rewrite minted_get by done. change (default [] (parts !! _)) with versions.
  rewrite kv_get_apply, last_write_none; [by apply minted_base|].
  intros v (j & E & Hj)%list_elem_of_fmap. injection E as E _. pose proof (proj1 (Forall_forall _ _) Hids) as Hu.
  apply Key_encode_inj in E as [= -> ->]; [by apply Hno|done|]. repeat constructor; [by apply Hu|done].
Qed.

Lemma mint_minted : minted s s1 s' h base state t inline fm now version.
Proof.
  split.
  - intros k Hk. rewrite minted_get by done. change (default [] (parts !! _)) with (@nil StagedWrite).
    by rewrite kv_get_apply.
  - intros k Hk. by rewrite minted_get.
  - intros k Hk. rewrite minted_get by done. change (default [] (parts !! _)) with
      (diff_writes base state (hd_snapshot_id h + 1)). by rewrite !kv_get_apply, minted_base.
  - intros i o Ho Hi. apply minted_version, elem_of_changed. eauto.
  - intros i n Hk Hno. apply minted_version_kept; [done|]. by rewrite elem_of_changed.
  - apply minted_format.
  - exists (schema_changed_ids (tx_ops t)), (in_order N.le (deleted_data_file_ids (from_operations (tx_ops t)))).
    split; [apply elem_of_changed|]. split; [intros i; apply elem_of_in_order|].
    split_and!; try apply NoDup_in_order; try apply (Sorted_merge_sort _).
    { rewrite minted_get by done. change (default [] (parts !! _)) with
           [(Key_encode (K_Snapshot (hd_snapshot_id h + 1)), Some (encode_value sn))].
         rewrite kv_get_apply, last_write_cons, last_write_nil, decide_True by done. reflexivity. }
Qed.
End Minted.

Lemma run_head_write (s : S) h id :
  run s read_head = Ok (Some h) ->
  run s (head_write id) = Ok (Key_encode (K_Sys SK_Head),
    Some (encode_value (mkHeadValue id (saturating_add (hd_batch_seq h) 1)))).
Proof. intros Hh. unfold head_write. by rewrite (run_bind_Ok _ _ _ _ (run_head_value _ _ Hh)). Qed.

(** A program read on the transaction after its index entries sees the same singletons. *)
Lemma singleton_after_index {M} `{Prost M} (s s1 : S) ws (k : Key) :
  applied s ws s1 -> Forall index_write ws -> Key_wf k -> (forall x, k <> K_Index x) ->
  run s1 (read_singleton (M := M) k) = run s (read_singleton k).
Proof.
  intros Ha Hws Hk Hx. rewrite (applied_equiv _ _ _ Ha). apply run_singleton_same.
  by apply index_writes_get.
Qed.

Lemma tx_bind_Ok {A B} (m : Tx S A) (k : A -> Tx S B) (s s' : S) a :
  m s = Ok (a, s') -> (m ≫= k) s = k a s'.
Proof. intros E. unfold mbind, tx_mbind. by rewrite E. Qed.
Lemma tx_bind_Err {A B} (m : Tx S A) (k : A -> Tx S B) (s : S) e : m s = Err e -> (m ≫= k) s = Err e.
Proof. intros E. unfold mbind, tx_mbind. by rewrite E. Qed.
Lemma tx_read_Ok {A} (m : Reader A) (s : S) a : run s m = Ok a -> tx_read m s = Ok (a, s).
Proof. intros E. unfold tx_read. by rewrite E. Qed.
Lemma tx_read_Err {A} (m : Reader A) (s : S) e : run s m = Err e -> tx_read m s = Err e.
Proof. intros E. unfold tx_read. by rewrite E. Qed.

Section Prepare.
  Context (s : S) (h : HeadValue) (base : CatalogSnapshot) (f : Verb unit) (now : Z) (version : string).
  Context (t : Transaction) (fm : option FormatValue).
  Context (Hhead : run s read_head = Ok (Some h)) (Hbase : Represents base s) (Hstamp : view_head base = h).
  Context (Hid : u64 (hd_snapshot_id h + 1)) (Hseq : u64 (hd_batch_seq h + 1)).
  Context (Hfit : FitMember base f) (Hf : f (Transaction_new base (hd_snapshot_id h + 1)) = (Ok tt, t)).
  Context (Hformat : run s read_format = Ok fm) (Hinline : inline_wf s).

Lemma prepare_closure :
  f (Transaction_new base (wrapping_add (sn_snapshot_id (cs_snapshot base)) 1)) = (Ok tt, t)
  /\ sn_snapshot_id (cs_snapshot base) = hd_snapshot_id h
  /\ wrapping_add (sn_snapshot_id (cs_snapshot base)) 1 = hd_snapshot_id h + 1.
Proof.
  assert (E : sn_snapshot_id (cs_snapshot base) = hd_snapshot_id h) by (rewrite <-Hstamp; done).
  rewrite E, wrapping_add_exact by done. split_and!; [exact Hf|done|done].
Qed.

Lemma prepare_closed : diff_closed base (tx_state t).
Proof.
  split; [intros i j; by rewrite (sc_mappings _ _ Hf)|apply (fm_settled _ _ Hf)].
Qed.

(** Nothing on record and no option moved: nothing is staged. *)
Lemma prepare_nothing :
  tx_ops t = [] -> diff_options base (tx_state t) = [] ->
  prepare_and_stage now version f base s = Ok (PreparedNothing (hd_snapshot_id h), s).
Proof.
  intros Ho Hd. destruct prepare_closure as (E & Ei & _). unfold prepare_and_stage. rewrite E.
  cbn [into_parts tp_operations tp_state]. rewrite Ho, Hd, bool_decide_true by done.
  by rewrite bool_decide_true, Ei.
Qed.

(** Options alone: a maintenance batch. *)
Lemma prepare_options :
  tx_ops t = [] -> diff_options base (tx_state t) <> [] ->
  exists writes bytes s', prepare_and_stage now version f base s
      = Ok (PreparedStaged ChangeSet_default (hd_snapshot_id h) writes bytes, s')
    /\ staged_as s h writes (tx_state t) (mkHeadValue (hd_snapshot_id h) (hd_batch_seq h + 1)) s'.
Proof.
  intros Ho Hd. destruct prepare_closure as (E & Ei & _). unfold prepare_and_stage. rewrite E.
  cbn [into_parts tp_operations tp_state]. rewrite Ho, bool_decide_true by done.
  rewrite bool_decide_false by done. rewrite Ei.
  rewrite (tx_bind_Ok _ _ _ _ _ (tx_read_Ok _ _ _ (run_head_write _ _ _ Hhead))).
  set (writes := diff_options base (tx_state t) ++ _).
  destruct (stage_writes_applied writes 0 s) as (m & s' & Em & Ha). rewrite (tx_bind_Ok _ _ _ _ _ Em).
  exists writes, m, s'. split; [done|]. apply maintain_staged; try done.
  - apply (sc_wf _ _ Hf).
  - apply prepare_closed.
  - by apply (sc_recorded _ _ Hf).
Qed.

(** Operations on record: what the index entries and the inline operations allow is a
    minting batch, what either refuses is that refusal. *)
Lemma prepare_mint :
  tx_ops t <> [] ->
  match stage_index_entries (tx_index_entries t) s with
  | Err e => prepare_and_stage now version f base s = Err e
  | Ok (out, s1) =>
      match run s1 (stage_inline_writes (tx_inline_ops t)) with
      | Err e => prepare_and_stage now version f base s = Err e
      | Ok inline => exists writes bytes s', prepare_and_stage now version f base s
            = Ok (PreparedStaged (from_operations (tx_ops t)) (hd_snapshot_id h + 1) writes bytes, s')
          /\ staged_as s h writes (apply_poison (ses_poisoned out) (tx_state t))
               (mkHeadValue (hd_snapshot_id h + 1) (hd_batch_seq h + 1)) s'
          /\ minted s s1 s' h base (apply_poison (ses_poisoned out) (tx_state t)) t inline fm now version
      end
  end.
Proof.
  intros Ho. destruct prepare_closure as (E & Ei & En). unfold prepare_and_stage. rewrite E, En.
  cbn [into_parts tp_operations tp_state tp_index_entries tp_inline_ops tp_next_catalog_id tp_next_file_id].
  rewrite bool_decide_false by done. destruct (fm_typed _ _ Hf) as [Te Ti Tt].
  destruct (stage_index_entries (tx_index_entries t) s) as [[out s1]|e] eqn:Ex; [|by apply tx_bind_Err].
  rewrite (tx_bind_Ok _ _ _ _ _ Ex).
  destruct (stage_index_entries_stages (tx_index_entries t) Te _ _ _ Ex) as (entries & Ha1 & Hent).
  assert (Hw1 : inline_wf s1).
  { intros kb b. rewrite (applied_equiv _ _ _ Ha1 kb). by apply index_inline_wf. }
  destruct (run s1 (stage_inline_writes (tx_inline_ops t))) as [inline|e] eqn:Ein;
    [|by apply tx_bind_Err, tx_read_Err].
  rewrite (tx_bind_Ok _ _ _ _ _ (tx_read_Ok _ _ _ Ein)).
  set (state := apply_poison (ses_poisoned out) (tx_state t)).
  destruct (format_stamp_side s1 version state fm) as (stamp & Est & Hst).
  { rewrite <-Hformat. by apply (singleton_after_index s s1 entries (K_Sys SK_Format)). }
  rewrite (tx_bind_Ok _ _ _ _ _ (tx_read_Ok _ _ _ Est)).
  assert (Hh1 : run s1 read_head = Ok (Some h)).
  { rewrite <-Hhead. by apply (singleton_after_index s s1 entries (K_Sys SK_Head)). }
  rewrite (tx_bind_Ok _ _ _ _ _ (tx_read_Ok _ _ _ (run_head_write _ _ _ Hh1))). rewrite <-!app_assoc.
  set (versions := map _ (schema_changed_ids (tx_ops t))). set (sn := mkSnapshotValue _ _ _ _ _ _ _ _ _ _ _).
  assert (Hids : Forall u64 (schema_changed_ids (tx_ops t))).
  { apply Forall_forall. intros i Hi. unfold schema_changed_ids in Hi.
    rewrite elem_of_in_order, elem_of_list_to_set in Hi. rewrite Forall_forall in Tt. by apply Tt. }
  assert (Htail : Forall side_write (inline ++ stamp ++ versions)).
  { rewrite !Forall_app. split_and!; [by apply (inline_side s1 (tx_inline_ops t))|done|].
    by apply schema_versions_side. }
  set (tail := inline ++ stamp ++ versions) in *.
  set (writes := mint_batch h (diff_writes base state (hd_snapshot_id h + 1) ++ tail) sn).
  assert (Ew : forall x, diff_writes base state (hd_snapshot_id h + 1) ++ inline ++ stamp ++ versions ++ x
    = (diff_writes base state (hd_snapshot_id h + 1) ++ tail) ++ x).
  { intros x. unfold tail. by rewrite <-!app_assoc. }
  rewrite Ew. change (_ ++ changelog_writes _ _ ++ _) with writes.
  destruct (stage_writes_applied writes 0 s1) as (m & s' & Em & Ha2).
  rewrite (tx_bind_Ok _ _ _ _ _ Em). assert (Hsw : view_wf state) by apply poison_wf, (sc_wf _ _ Hf).
  assert (Hsc : diff_closed base state) by (apply poison_closed; [apply (sc_mappings _ _ Hf)|apply (fm_settled _ _ Hf)]).
  do 3 eexists. split; [reflexivity|]. split; [by apply (mint_staged s s1 s' h base state entries tail sn)|].
  pose proof (represents_view_wf _ _ Hbase) as Hbw.
  by apply (mint_minted s s1 s' h base state t entries inline stamp fm now version).
Qed.
End Prepare.
End Member.

(** ** A batch is its members, one after another *)

(** The state a member's closure leaves, its poisoned indexes marked. *)
Definition poisons (state state' : CatalogSnapshot) : Prop := exists p, state' = apply_poison p state.

Section Serial.
  Context {S : Type} `{KVLaws S, SKL : StorekeyLaws, MSL : MessagesLaws}.

Lemma group_snoc h ws h' ws' h'' :
  group_batch h ws h' -> member_batch h' ws' h'' -> group_batch h (ws ++ ws') h''.
Proof.
  induction 1 as [h ws h' Hm|h ws1 h1 ws2 h2 Hm _ IH]; intros Hm'.
  - by eapply group_more; [|apply group_one].
  - rewrite <-app_assoc. eapply group_more; [done|auto].
Qed.

(** One member alone on a store that stands at head [h]: its closure runs over a view
    of that store, and what it stages is what the store becomes. *)
Inductive alone (s : S) (h : HeadValue) (f : Verb unit) : N -> S -> HeadValue -> Prop :=
| alone_nothing v t s' :
    Represents v s -> view_head v = h -> f (Transaction_new v (hd_snapshot_id h + 1)) = (Ok tt, t) ->
    tx_ops t = [] -> diff_options v (tx_state t) = [] -> s' ≡ s ->
    alone s h f (hd_snapshot_id h) s' h
| alone_staged v t s' all h' state :
    Represents v s -> view_head v = h -> f (Transaction_new v (hd_snapshot_id h + 1)) = (Ok tt, t) ->
    member_batch h all h' -> s' ≡ kv_apply s all -> poisons (tx_state t) state -> Represents state s' ->
    (hd_snapshot_id h' = hd_snapshot_id h + 1 <-> tx_ops t <> []) ->
    alone s h f (hd_snapshot_id h') s' h'.

Inductive serial (s : S) (h : HeadValue) : list (Verb unit) -> list N -> S -> HeadValue -> Prop :=
| serial_nil s' : s' ≡ s -> serial s h [] [] s' h
| serial_cons f id s1 h1 fs ids s2 h2 :
    alone s h f id s1 h1 -> serial s1 h1 fs ids s2 h2 -> serial s h (f :: fs) (id :: ids) s2 h2.
End Serial.

Section BatchLaws.
  Context {D S : Type} `{DL : DatabaseLaws D S} `{KL : !KVLaws S, SKL : StorekeyLaws, MSL : MessagesLaws}.

(** No write, or the writes of whole members from one head to the other. *)
Definition moves (h : HeadValue) (all : list StagedWrite) (h' : HeadValue) : Prop :=
  (all = [] /\ h' = h) \/ group_batch h all h'.

Lemma moves_snoc h all h' ws h'' : moves h all h' -> member_batch h' ws h'' -> moves h (all ++ ws) h''.
Proof. intros [[-> ->]|Hg] Hm; right; [by apply group_one|by eapply group_snoc]. Qed.

Lemma group_head_kept h ws h' : group_batch h ws h' -> filter not_index ws <> [].
Proof.
  intros [pre ->]%group_last. rewrite filter_app. intros [_ E]%app_nil.
  rewrite filter_cons_True in E; [done|]. unfold not_index. cbn. by rewrite Key_decode_encode.
Qed.

(** What holds of a batch between members; [h] is the head its writes leave. *)
Record batch_ok (d : D) (b : Batch S) (h : HeadValue) : Prop := {
  bk_all : exists all, applied (db_begin d) all (bt_db_tx b) /\ moves (view_head (bt_base b)) all h
    /\ filter not_index all = bt_writes b;
  bk_base : Represents (bt_base b) (db_state d);
  bk_head_before : bt_head_before b = hd_snapshot_id (view_head (bt_base b));
  bk_head : bt_head b = hd_snapshot_id h;
  bk_read_head : run (bt_db_tx b) read_head = Ok (Some h);
  bk_premise : exists (sp : S) rest, Represents (default (bt_base b) (bt_premise b)) sp
    /\ dt_view (bt_db_tx b) ≡ kv_apply sp rest
    /\ moves (view_head (default (bt_base b) (bt_premise b))) rest h
    /\ filter not_index rest = drop (bt_folded b) (bt_writes b);
  bk_folded : (bt_folded b <= length (bt_writes b))%nat;
  bk_inline : inline_wf (bt_db_tx b);
  bk_format : exists fm, run (bt_db_tx b) read_format = Ok fm;
}.

(** After [refold] the premise is the view of the transaction as it stands. *)
Lemma refold_ok d b h :
  batch_ok d b h -> exists b', refold b = Ok b' /\ batch_ok d b' h /\ bt_db_tx b' = bt_db_tx b
    /\ Represents (default (bt_base b') (bt_premise b')) (bt_db_tx b')
    /\ view_head (default (bt_base b') (bt_premise b')) = h
    /\ bt_base b' = bt_base b /\ bt_writes b' = bt_writes b /\ bt_folded b' = length (bt_writes b').
Proof.
  intros Hb. destruct (bk_premise _ _ _ Hb) as (sp & rest & Hp & Ev & Hm & Hr). unfold refold.
  destruct (Nat.eqb_spec (bt_folded b) (length (bt_writes b))) as [Ef|Ef].
  - exists b. rewrite Ef, drop_all in Hr. destruct Hm as [[-> ->]|Hg]; [|by destruct (group_head_kept _ _ _ Hg)].
    split_and!; try done. change (Represents (default (bt_base b) (bt_premise b)) (dt_view (bt_db_tx b))).
    by rewrite Ev, kv_apply_nil.
  - set (p := default (bt_base b) (bt_premise b)) in *.
    assert (Hg : group_batch (view_head p) rest h).
    { destruct Hm as [[-> ->]|Hg]; [|done]. exfalso. apply Ef.
      pose proof (f_equal length Hr) as El. rewrite length_drop in El. cbn in El.
      pose proof (bk_folded _ _ _ Hb). lia. }
    destruct (group_wf _ _ _ Hg) as (Hw & _).
    destruct (fold_batch_represents p sp rest Hp Hw) as (v & Efold & Hv).
    pose proof (group_fold_view _ _ _ _ _ Hg eq_refl Efold) as Hh.
    rewrite <-fold_batch_index, Hr in Efold. rewrite Efold.
    assert (Hrep : Represents v (dt_view (bt_db_tx b))) by by rewrite Ev.
    eexists. split; [reflexivity|].
    assert (Hnew : exists (sp0 : S) rest0, Represents v sp0 /\ dt_view (bt_db_tx b) ≡ kv_apply sp0 rest0
      /\ moves (view_head v) rest0 h /\ filter not_index rest0 = drop (length (bt_writes b)) (bt_writes b)).
    { exists (dt_view (bt_db_tx b)), []. rewrite drop_all. split_and!; [done|by rewrite kv_apply_nil|by left|done]. }
    split; [|by split_and!]. destruct Hb. by split.
Qed.

Definition fit_turn (f : Verb unit) (b : Batch S) : Prop :=
  forall b1, refold (count_member b) = Ok b1 -> FitMember (default (bt_base b1) (bt_premise b1)) f.

Lemma count_member_ok d b h : batch_ok d b h -> batch_ok d (count_member b) h.
Proof. intros []. by split. Qed.

(** A batch whose premise is current, with one more member's writes on it. *)
Lemma staged_batch_ok d b h writes state h' tx' commits bytes :
  batch_ok d b h -> Represents (default (bt_base b) (bt_premise b)) (bt_db_tx b) ->
  view_head (default (bt_base b) (bt_premise b)) = h -> bt_folded b = length (bt_writes b) ->
  staged_as (bt_db_tx b) h writes state h' tx' -> commits = hd_snapshot_id h' ->
  batch_ok d (mkBatch tx' (bt_base b) (bt_premise b) (bt_folded b) (bt_head_before b) commits
    (bt_members b) (bt_writes b ++ writes) bytes) h'.
Proof.
  intros Hb Hp Hh Ef [(all & Ha & Hm & Hfl) Hst Hin Hfm] ->.
  destruct (bk_all _ _ _ Hb) as (before & Hbef & Hmov & Ebef).
  destruct (applied_tx _ _ _ Ha) as (_ & _ & Hav). split; cbn; try apply Hb.
  - exists (before ++ all). split_and!; [by eapply applied_trans|by eapply moves_snoc|].
    by rewrite filter_app, Ebef, Hfl.
  - done.
  - pose proof (group_head _ _ _ (bt_db_tx b) (group_one _ _ _ Hm)) as E.
    by rewrite <-(applied_equiv _ _ _ Ha) in E.
  - exists (dt_view (bt_db_tx b)), all. rewrite Hh, Ef, drop_app_length.
    split_and!; [exact Hp|by apply applied_equiv|right; by apply group_one|done].
  - rewrite length_app, Ef. lia.
  - apply Hin, Hb.
  - destruct (bk_format _ _ _ Hb) as [fm E]. by apply (Hfm fm).
Qed.

Lemma stage_member_ok d b h now version f id ours b' :
  batch_ok d b h -> fit_turn f b -> u64 (hd_snapshot_id h + 1) -> u64 (hd_batch_seq h + 1) ->
  stage_member now version f b = Ok (id, ours, b') ->
  exists h', batch_ok d b' h' /\ bt_base b' = bt_base b
    /\ alone (dt_view (bt_db_tx b)) h f id (dt_view (bt_db_tx b')) h'
    /\ hd_snapshot_id h' <= hd_snapshot_id h + 1 /\ hd_batch_seq h' <= hd_batch_seq h + 1.
Proof.
  intros Hb Hfit Hid Hseq E. unfold stage_member in E.
  destruct (refold_ok d (count_member b) h (count_member_ok _ _ _ Hb)) as (b1 & E1 & Hb1 & Etx & Hp & Hh & Ebase & Ew & Ef).
  rewrite E1 in E. cbn [mbind result_bind] in E. specialize (Hfit b1 E1).
  set (v := default (bt_base b1) (bt_premise b1)) in *.
  change (bt_db_tx (count_member b)) with (bt_db_tx b) in Etx. rewrite <-Etx.
  destruct (bk_format _ _ _ Hb1) as [fm Hfm]. pose proof (bk_read_head _ _ _ Hb1) as Hrh.
  pose proof (bk_inline _ _ _ Hb1) as Hin.
  destruct (f (Transaction_new v (hd_snapshot_id h + 1))) as [[[]|e] t] eqn:Et.
  2: { exfalso. unfold prepare_and_stage in E. assert (Ev : sn_snapshot_id (cs_snapshot v) = hd_snapshot_id h) by (by rewrite <-Hh).
       rewrite Ev, wrapping_add_exact, Et in E by done. discriminate. }
  destruct (decide (tx_ops t = [])) as [Ho|Ho].
  - destruct (decide (diff_options v (tx_state t) = [])) as [Hd|Hd].
    + rewrite (prepare_nothing (bt_db_tx b1) h v f now version t Hh Hid Et Ho Hd) in E.
      cbn in E. injection E as <- <- <-. exists h. cbn.
      split_and!; [destruct Hb1; by split|done| |lia|lia].
      by apply (alone_nothing _ _ _ v t).
    + destruct (prepare_options (bt_db_tx b1) h v f now version t Hrh Hp Hh Hid Hseq Hfit Et Ho Hd)
        as (writes & bytes & tx' & Ep & Hst).
      rewrite Ep in E. cbn in E. injection E as <- <- <-. eexists. split.
      { by eapply staged_batch_ok. }
      cbn. destruct Hst as [(all & Ha & Hm & _) Hv _ _].
      split_and!; [done| |lia|lia].
      apply (alone_staged _ _ _ v t _ all (mkHeadValue (hd_snapshot_id h) (hd_batch_seq h + 1)) (tx_state t)); try done.
      * by destruct (applied_tx _ _ _ Ha) as (_ & _ & Hav%applied_equiv).
      * by exists [].
      * cbn. split; [lia|done].
  - pose proof (prepare_mint (bt_db_tx b1) h v f now version t fm Hrh Hp Hh Hid Hseq Hfit Et Hfm Hin Ho) as Hmint.
    destruct (stage_index_entries (tx_index_entries t) (bt_db_tx b1)) as [[out s1]|e];
      [|rewrite Hmint in E; discriminate].
    destruct (run s1 _) as [inl|e]; [|rewrite Hmint in E; discriminate].
    destruct Hmint as (writes & bytes & tx' & Ep & Hst & _). rewrite Ep in E. cbn in E. injection E as <- <- <-.
    eexists. split; [by eapply staged_batch_ok|]. cbn. destruct Hst as [(all & Ha & Hm & _) Hv _ _].
    split_and!; [done| |lia|lia].
    apply (alone_staged _ _ _ v t _ all (mkHeadValue (hd_snapshot_id h + 1) (hd_batch_seq h + 1)) (apply_poison (ses_poisoned out) (tx_state t))); try done.
    + by destruct (applied_tx _ _ _ Ha) as (_ & _ & Hav%applied_equiv).
    + by eexists.
Qed.
End BatchLaws.

(** ** What a member stages, and what a loser waits *)


(** C39: the nine waits of a commit, whatever the clock reads at each, sum to less than 280 ms
    and to no less than 262 ms. *)
Theorem retry_budget_bounded (clock : nat -> Z) :
  let waits := map (fun attempt => retry_backoff (clock attempt) attempt) (seq 0 MAX_COMMIT_ATTEMPTS) in
  262000 <= foldr N.add 0 waits < 280000.
Proof.
  assert (Hs : forall n step z,
    N.min (saturating_mul RETRY_BACKOFF_BASE_MICROS (N.shiftl 1 (N.min (N.of_nat n) 31)))
      RETRY_BACKOFF_MAX_MICROS = step -> step <= 50000 ->
    step <= retry_backoff z (S n) < step + 2000).
  { intros n step z E Hstep. unfold retry_backoff. rewrite E.
    assert (Hj : Z.abs_N z mod RETRY_BACKOFF_BASE_MICROS < 2000) by by apply N.mod_lt.
    assert (Hmax : 52000 < u64_size) by reflexivity.
    revert Hj. generalize (Z.abs_N z mod RETRY_BACKOFF_BASE_MICROS). intros j Hj.
    rewrite saturating_add_exact; [lia|]. unfold u64. lia. }
  pose proof (Hs 0%nat 2000 (clock 1%nat) eq_refl ltac:(done)).
  pose proof (Hs 1%nat 4000 (clock 2%nat) eq_refl ltac:(done)).
  pose proof (Hs 2%nat 8000 (clock 3%nat) eq_refl ltac:(done)).
  pose proof (Hs 3%nat 16000 (clock 4%nat) eq_refl ltac:(done)).
  pose proof (Hs 4%nat 32000 (clock 5%nat) eq_refl ltac:(done)).
  pose proof (Hs 5%nat 50000 (clock 6%nat) eq_refl ltac:(done)).
  pose proof (Hs 6%nat 50000 (clock 7%nat) eq_refl ltac:(done)).
  pose proof (Hs 7%nat 50000 (clock 8%nat) eq_refl ltac:(done)).
  pose proof (Hs 8%nat 50000 (clock 9%nat) eq_refl ltac:(done)).
  change (retry_backoff (clock 0%nat) 0) with 0. cbn [MAX_COMMIT_ATTEMPTS seq map foldr].
  change (retry_backoff (clock 0%nat) 0) with 0. lia.
Qed.
