(* ===== verification/Cycle.v ===== *)
(** What a commit amounts to ([transaction/commit.rs], [transaction/commit/group.rs]):
    the premise an attempt reads, the members a batch carries, the landing, and the
    retries, composed.  A commit that returns its ids has run its closures, in order,
    on the state the store stood at, and landed once; one that returns an error has
    landed nothing, but where a write that reported failure had landed. *)
From stdpp Require Import gmap strings list fin_maps sorting.
From Stdlib Require Import NArith ZArith Lia.
From S2P Require Import Prelude Storekey KeyLayout Operations ChangesMade Values Snapshot Catalog Store Inline IndexMaintenance Fold Diff Materialize Projection Landing Verbs VerbLaws VerbCalls Commit.

Local Open Scope N_scope.

Section Laws.
  Context {D S : Type} `{DL : DatabaseLaws D S} `{KL : !KVLaws S, SKL : StorekeyLaws, MSL : MessagesLaws}.

(** ** Staging a group *)

Fixpoint members_fit (version : string) (members : list (Z * Verb unit)) (b : Batch S) : Prop :=
  match members with
  | [] => True
  | (now, f) :: members =>
      fit_turn f b /\ forall id ours b', stage_member now version f b = Ok (id, ours, b') ->
        members_fit version members b'
  end.

Lemma stage_members_ok version members : forall d b h ids ours b',
  batch_ok d b h -> members_fit version members b ->
  u64 (hd_snapshot_id h + N.of_nat (length members)) -> u64 (hd_batch_seq h + N.of_nat (length members)) ->
  stage_members version members b = Ok (ids, ours, b') ->
  exists h', batch_ok d b' h' /\ bt_base b' = bt_base b
    /\ serial (dt_view (bt_db_tx b)) h (map snd members) ids (dt_view (bt_db_tx b')) h'.
Proof.
  induction members as [|[now f] members IH]; intros d b h ids ours b' Hb Hfit Hu1 Hu2 E; cbn in E.
  { injection E as <- <- <-. exists h. split_and!; [done|done|by constructor]. }
  apply bind_Ok in E as ([[id mine] b1] & E1 & E). apply bind_Ok in E as ([[ids1 more] b2] & E2 & E).
  injection E as <- <- <-. destruct Hfit as [Hf Hrest]. cbn [length] in Hu1, Hu2.
  destruct (stage_member_ok d b h now version f id mine b1) as (h1 & Hb1 & Eb1 & Ha & Hi & Hs);
    [done|done|unfold u64 in *; lia|unfold u64 in *; lia|done|].
  destruct (IH d b1 h1 ids1 more b2) as (h2 & Hb2 & Eb2 & Hser);
    [done|by eapply Hrest|unfold u64 in *; lia|unfold u64 in *; lia|done|].
  exists h2. split_and!; [done|congruence|]. cbn [map snd]. by econstructor.
Qed.

(** ** The premise *)

Lemma run_begin {A} (d : D) (m : Reader A) : run (db_begin d) m = run (db_state d) m.
Proof. induction m as [r|k c IH|p c IH]; cbn; [done|apply IH|apply IH]. Qed.

(** A commit begun now meets no conflict. *)
Lemma begun_no_conflict (d : D) (tx : DbTransaction S) : dt_start tx = db_seq d -> db_conflict d tx = false.
Proof.
  intros E. apply not_true_iff_false. intros (w & _ & Hw)%existsb_exists.
  by rewrite E, db_written_now in Hw.
Qed.

(** A database in order, standing at head [h]. *)
Record store_ok (d : D) (h : HeadValue) : Prop := {
  st_head : run (db_state d) read_head = Ok (Some h);
  st_id : u64 (hd_snapshot_id h);
  st_current : current_wf (db_state d);
  st_snapshots : snapshots_wf (db_state d);
  st_latest : exists sn, run (db_state d) (read_snapshot (hd_snapshot_id h)) = Ok (Some sn);
  st_bounded : changelog_bounded (db_state d) (hd_snapshot_id h);
  st_inline : inline_wf (db_state d);
  st_format : exists fm, run (db_state d) read_format = Ok fm;
}.

(** A view held from some earlier head, batches having landed since. *)
Definition view_ok (d : D) (v : CatalogSnapshot) : Prop :=
  exists s0 s1 : S, run s0 read_head = Ok (Some (view_head v)) /\ u64 (hd_snapshot_id (view_head v))
    /\ current_wf s0 /\ changelog_bounded s0 (hd_snapshot_id (view_head v)) /\ Represents v s0
    /\ rtc store_step s0 s1 /\ s1 ≡ db_state d.
Definition cache_view_ok (d : D) (c : ProjectionCache) : Prop :=
  forall v, pc_head_view c = Some v -> view_ok d v.

Lemma snapshot_named_id d h sn :
  store_ok d h -> run (db_state d) (read_snapshot (hd_snapshot_id h)) = Ok (Some sn) ->
  sn_snapshot_id sn = hd_snapshot_id h.
Proof.
  intros Hd (b & Hg & Hdec)%run_singleton_some.
  destruct (st_snapshots _ _ Hd _ _ Hg) as (v & Hv & Hu & Ek); [by apply subspace_prefix_iff|].
  assert (Hid : u64 (hd_snapshot_id h)) by apply Hd.
  apply Key_encode_inj in Ek; [|done|done]. injection Ek as ->. by rewrite Hdec in Hv; injection Hv as ->.
Qed.

Lemma fresh_view_ok d h v :
  store_ok d h -> Represents v (db_state d) -> view_head v = h -> view_ok d v.
Proof.
  intros Hd Hv Hh. exists (db_state d), (db_state d). rewrite Hh. destruct Hd.
  split_and!; try done.
Qed.

(** A batch since moves the head's count. *)
Lemma steps_seq (s0 s : S) h0 h :
  run s0 read_head = Ok (Some h0) -> u64 (hd_snapshot_id h0) -> current_wf s0 ->
  changelog_bounded s0 (hd_snapshot_id h0) -> rtc store_step s0 s -> run s read_head = Ok (Some h) ->
  s0 = s \/ hd_batch_seq h0 < hd_batch_seq h.
Proof.
  intros Hh Hu Hw Hb Hr Hh'. destruct Hr as [|s1 s2 s3 Hst Hr]; [by left|]. right.
  destruct (moved_step s1 s1 s2 h0 h0 (moved_refl _ _ Hh Hu Hw Hb) Hst) as [h1 Hm1].
  assert (Hlt : hd_batch_seq h0 < hd_batch_seq h1).
  { pose proof (moved_head _ _ _ _ Hm1) as E1. destruct Hst as [s h2 body sn E2 Hi Hq _ _|s h2 body E2 Hi Hq _ _].
    - rewrite E2 in Hh. injection Hh as ->. rewrite mint_head in E1 by done. injection E1 as <-.
      cbn. lia.
    - rewrite E2 in Hh. injection Hh as ->. rewrite maintain_head in E1 by done. injection E1 as <-.
      cbn. lia. }
  destruct (moved_run s2 s3 h1) as [h3 Hm3]; try apply Hm1; [done|].
  pose proof (moved_head _ _ _ _ Hm3) as E3. rewrite E3 in Hh'. injection Hh' as <-.
  pose proof (moved_seq_le _ _ _ _ Hm3). lia.
Qed.

Lemma held_view_now d h v : store_ok d h -> view_ok d v -> view_head v = h -> Represents v (db_state d).
Proof.
  intros Hd (s0 & s1 & Hh & Hu & Hw & Hb & Hv & Hr & E) Ev.
  assert (Hh1 : run s1 read_head = Ok (Some h)) by (rewrite E; apply Hd).
  destruct (steps_seq s0 s1 _ _ Hh Hu Hw Hb Hr Hh1) as [<-|Hlt]; [by rewrite <-E|].
  rewrite Ev in Hlt. lia.
Qed.

Lemma refreshed_view d h v view :
  store_ok d h -> view_ok d v -> run (db_state d) (refresh true v) = Ok (Some view) ->
  Represents view (db_state d) /\ view_head view = h.
Proof.
  intros Hd (s0 & s1 & Hh & Hu & Hw & Hb & Hv & Hr & E) Hf. rewrite <-E in Hf.
  destruct (moved_run s0 s1 _ Hh Hu Hw Hb Hr) as [h' Hm].
  pose proof (moved_head _ _ _ _ Hm) as Hh'. rewrite E, (st_head _ _ Hd) in Hh'. injection Hh' as <-.
  cbn [refresh consistent] in Hf. rewrite (run_bind_Ok _ _ _ _ (run_head_value _ _ (moved_head _ _ _ _ Hm))) in Hf.
  destruct (replay_represents v s0 s1 _ h _ view Hm Hv eq_refl eq_refl Hf) as (Hrep & Hsq & Hsn).
  rewrite E in Hrep, Hsn. split; [done|]. unfold view_head.
  rewrite (snapshot_named_id d h _ Hd Hsn), Hsq. by destruct h.
Qed.

Lemma materialized_view d h view :
  store_ok d h -> run (db_state d) (materialize true None) = Ok view ->
  Represents view (db_state d) /\ view_head view = h.
Proof.
  intros Hd E. destruct (st_latest _ _ Hd) as [sn Hsn].
  destruct (run (db_state d) read_migration) as [[m|]|e] eqn:Em.
  - exfalso. cbn [materialize materialize_capturing consistent] in E. unfold capture_head, refuse_mid_migration in E.
    apply run_bind_inv in E as (x & E & _). apply run_bind_inv in E as (y & E & _).
    rewrite (run_bind_Ok _ _ _ _ Em) in E. done.
  - destruct (run_capture_head _ h sn Em (st_head _ _ Hd) Hsn (st_current _ _ Hd))
      as (v & recs & Ec & Hrep & Hs & Hq & _).
    cbn [materialize materialize_capturing consistent] in E. rewrite (run_bind_Ok _ _ _ _ Ec) in E.
    injection E as <-. split; [done|]. unfold view_head. rewrite Hs, Hq, (snapshot_named_id d h sn Hd Hsn).
    by destruct h.
  - exfalso. cbn [materialize materialize_capturing consistent] in E. unfold capture_head, refuse_mid_migration in E.
    apply run_bind_inv in E as (x & E & _). apply run_bind_inv in E as (y & E & _).
    by rewrite (run_bind_Err _ _ _ _ Em) in E.
Qed.

(** The premise of an attempt is the store as it stands. *)
Lemma head_view_for_ok d c h view c' :
  store_ok d h -> cache_view_ok d c -> head_view_for (db_begin d) c = Ok (view, c') ->
  Represents view (db_state d) /\ view_head view = h /\ cache_view_ok d c'.
Proof.
  intros Hd Hc E. unfold head_view_for in E. apply bind_Ok in E as ([v fresh] & Er & E).
  injection E as <- <-. rewrite run_begin in Er. unfold head_view_read in Er.
  apply run_bind_inv in Er as (_ & _ & Er).
  rewrite (run_bind_Ok _ _ _ _ (run_head_value _ _ (st_head _ _ Hd))) in Er.
  assert (Hdone : Represents v (db_state d) /\ view_head v = h ->
    Represents v (db_state d) /\ view_head v = h
    /\ cache_view_ok d (if fresh : bool then set_head_view_at (pc_epoch c) v c else c)).
  { intros [Hv Hh]. split_and!; [done|done|]. destruct fresh; [|done]. unfold set_head_view_at.
    rewrite N.eqb_refl. intros v' [= <-]. by eapply fresh_view_ok. }
  apply Hdone. unfold cached_head_view, head_view in Er.
  destruct (pc_head_view c) as [held|] eqn:Eh.
  - destruct (_ && _) eqn:Es.
    + injection Er as <- _. apply andb_true_iff in Es as [E1%N.eqb_eq E2%N.eqb_eq].
      assert (Hh : view_head held = h) by (unfold view_head; rewrite E1, E2; by destruct h).
      split; [|done]. by eapply held_view_now; [|apply Hc|].
    + apply run_bind_inv in Er as (refreshed & Hf & Er). unfold held_head_view in Hf. rewrite Eh in Hf.
      destruct refreshed as [w|].
      * injection Er as <- _. by eapply refreshed_view; [|by apply Hc|].
      * apply run_bind_inv in Er as (w & Hw & Er). injection Er as <- _. by apply materialized_view.
  - apply run_bind_inv in Er as (refreshed & Hf & Er). unfold held_head_view in Hf. rewrite Eh in Hf.
    cbn in Hf. injection Hf as <-. apply run_bind_inv in Er as (w & Hw & Er). injection Er as <- _.
    by apply materialized_view.
Qed.

(** ** Landing *)

(** A batch is a run of store steps. *)
Lemma group_steps h ws h' : group_batch h ws h' -> forall s : S,
  run s read_head = Ok (Some h) -> u64 (hd_snapshot_id h) ->
  exists s', rtc store_step s s' /\ s' ≡ kv_apply s ws.
Proof.
  assert (Hone : forall h ws h', member_batch h ws h' -> forall s : S,
    run s read_head = Ok (Some h) -> u64 (hd_snapshot_id h) -> store_step s (kv_apply s ws)).
  { intros h0 ws0 h0' Hm s Hs Hu. destruct Hm; by constructor. }
  induction 1 as [h ws h' Hm|h ws h' ws' h'' Hm Hg IH]; intros s Hs Hu.
  - exists (kv_apply s ws). split; [|done]. by apply rtc_once, (Hone h ws h').
  - destruct (IH (kv_apply s ws)) as (s' & Hr & E).
    + apply (group_head _ _ _ s (group_one _ _ _ Hm)).
    + destruct Hm; [done|exact Hu].
    + exists s'. split; [|by rewrite E, kv_apply_app].
      eapply rtc_l; [by apply (Hone h ws h')|done].
Qed.

(** The batches other committers land, each over the head the one before left. *)
Inductive chain : HeadValue -> list (list StagedWrite) -> HeadValue -> Prop :=
| chain_nil h : chain h [] h
| chain_cons h ws h1 batches h2 : group_batch h ws h1 -> chain h1 batches h2 -> chain h (ws :: batches) h2.

Lemma chain_state batches : forall (d : D) h h', chain h batches h' ->
  run (db_state d) read_head = Ok (Some h) -> run (db_state (db_applies d batches)) read_head = Ok (Some h').
Proof.
  induction batches as [|ws batches IH]; intros d h h' Hc Hh; inversion Hc; subst; [done|].
  eapply IH; [done|]. rewrite db_state_apply. by eapply group_head.
Qed.

Lemma group_id_u64 h ws h' : group_batch h ws h' -> u64 (hd_snapshot_id h) -> u64 (hd_snapshot_id h').
Proof. induction 1 as [h ws h' Hm|h ws h' ws' h'' Hm Hg IH]; [by destruct Hm|]. intros Hu. apply IH. by destruct Hm. Qed.

Lemma chain_view batches : forall (d : D) h h' v, chain h batches h' ->
  run (db_state d) read_head = Ok (Some h) -> u64 (hd_snapshot_id h) ->
  view_ok d v -> view_ok (db_applies d batches) v.
Proof.
  induction batches as [|ws batches IH]; intros d h h' v Hc Hh Hu Hv; inversion Hc as [|? ? h1 ? ? Hg Hc']; subst; [done|].
  apply (IH (db_apply d ws) h1 h' v Hc'); [rewrite db_state_apply; by eapply group_head|by eapply group_id_u64|].
  destruct Hv as (s0 & s1 & Hh0 & Hu0 & Hw & Hb & Hr & Hst & E).
  destruct (group_steps _ _ _ Hg s1) as (s2 & Hst2 & E2); [by rewrite E|done|].
  exists s0, s2. split_and!; try done; [by etrans|]. by rewrite E2, db_state_apply, E.
Qed.

(** A batch that other commits have overtaken loses the race; one they have not does
    not conflict. *)
Lemma overtaken batches : forall (d : D) n h h', (n <= db_seq d)%nat -> chain h batches h' ->
  batches <> [] \/ db_written d n (Key_encode (K_Sys SK_Head)) = true ->
  db_written (db_applies d batches) n (Key_encode (K_Sys SK_Head)) = true.
Proof.
  induction batches as [|ws batches IH]; intros d n h h' Hn Hc Hor; [by destruct Hor|].
  inversion Hc as [|? ? h1 ? ? Hg Hc']; subst. apply (IH (db_apply d ws) n h1 h'); [rewrite db_seq_apply; lia|done|].
  right. rewrite db_written_apply by done. apply orb_true_iff. right. apply bool_decide_eq_true.
  destruct (group_last _ _ _ Hg) as [pre ->]. rewrite last_write_snoc, decide_True by done. eauto.
Qed.

Lemma batch_conflict (d : D) (b : Batch S) h batches h1 :
  batch_ok d b h -> bt_writes b <> [] -> chain (view_head (bt_base b)) batches h1 ->
  db_conflict (db_applies d batches) (bt_db_tx b) = negb (bool_decide (batches = [])).
Proof.
  intros Hb Hne Hc. destruct (bk_all _ _ _ Hb) as (all & Ha & Hm & Hf).
  destruct (applied_tx _ _ _ Ha) as (Es & Ew & _). cbn in Es, Ew.
  destruct Hm as [[-> _]|Hg]; [by rewrite <-Hf in Hne|].
  unfold db_conflict. rewrite Es, Ew. case_bool_decide as Eb.
  - subst batches. apply not_true_iff_false. intros (w & _ & Hw)%existsb_exists.
    cbn in Hw. by rewrite db_written_now in Hw.
  - apply existsb_exists. destruct (group_last _ _ _ Hg) as [pre ->].
    exists (Key_encode (K_Sys SK_Head), Some (encode_value h)). split; [apply in_or_app; right; by left|].
    eapply overtaken; [done|exact Hc|by left].
Qed.

(** ** One attempt *)

Definition timed (su : Surroundings) (members : list (Verb unit)) : list (Z * Verb unit) :=
  imap (fun i f => (su_clock su i, f)) members.

Lemma map_snd_timed su members : map snd (timed su members) = members.
Proof.
  unfold timed. generalize (su_clock su). induction members as [|f members IH]; intros g; [done|].
  cbn. f_equal. apply (IH (g ∘ Datatypes.S)).
Qed.

Lemma opened_ok d c h b c' :
  store_ok d h -> cache_view_ok d c -> Batch_open d c = Ok (b, c') ->
  batch_ok d b h /\ bt_writes b = [] /\ bt_db_tx b = db_begin d /\ view_head (bt_base b) = h
  /\ cache_view_ok d c'.
Proof.
  intros Hd Hc E. unfold Batch_open in E. apply bind_Ok in E as ([base c1] & Ev & [= <- <-]).
  destruct (head_view_for_ok d c h base c1 Hd Hc Ev) as (Hr & Hh & Hc1). split_and!; try done.
  split; cbn [bt_db_tx bt_base bt_premise bt_folded bt_head_before bt_head bt_writes default].
  - exists []. split_and!; [constructor|by left|done].
  - done.
  - done.
  - by rewrite <-Hh.
  - rewrite run_begin. apply Hd.
  - exists (db_state d), []. split_and!; [done|by rewrite kv_apply_nil|by left|done].
  - cbn. lia.
  - apply Hd.
  - setoid_rewrite run_begin. apply Hd.
Qed.

(** What one attempt leaves, others having landed [su_others] around it. *)
Record attempt_fair (version : string) (members : list (Verb unit)) (su : Surroundings) (d : D)
    (c : ProjectionCache) (h h1 : HeadValue) : Prop := {
  af_store : store_ok d h;
  af_chain : chain h (su_others su) h1;
  af_fit : forall b c', Batch_open d c = Ok (b, c') -> members_fit version (timed su members) b;
  af_ids : u64 (hd_snapshot_id h + N.of_nat (length members));
  af_seqs : u64 (hd_batch_seq h + N.of_nat (length members));
}.

(** The members ran one after another on [d], and that is what [d'] holds, [others]
    having landed only if the members left nothing to land. *)
Definition committed (d : D) (h : HeadValue) (members : list (Verb unit)) (ids : list N)
    (others : list (list StagedWrite)) (d' : D) : Prop :=
  exists s' h', serial (db_state d) h members ids s' h'
    /\ ((s' ≡ db_state d /\ h' = h /\ d' = db_applies d others)
        \/ (others = [] /\ exists ws, group_batch h ws h' /\ d' = db_apply d ws /\ db_state d' ≡ s')).

(** The members ran and their batch landed, and the write reported a failure all the same. *)
Definition landed_unseen (su : Surroundings) (d : D) (h : HeadValue) (members : list (Verb unit))
    (d' : D) (h' : HeadValue) : Prop :=
  su_others su = [] /\ (exists e, su_fault su = Failed e true)
  /\ exists ids s' ws, serial (db_state d) h members ids s' h' /\ group_batch h ws h'
       /\ d' = db_apply d ws /\ db_state d' ≡ s'.

Lemma view_kept d d1 c c' :
  (forall v, view_ok d v -> view_ok d1 v) -> cache_view_ok d c ->
  (forall v, pc_head_view c' = Some v -> pc_head_view c = Some v) -> cache_view_ok d1 c'.
Proof. intros Hd Hc Hk v Hv. apply Hd, Hc, Hk, Hv. Qed.

Lemma cache_applied d h h1 others c :
  store_ok d h -> chain h others h1 -> cache_view_ok d c -> cache_view_ok (db_applies d others) c.
Proof.
  intros Hd Hch Hc. eapply (view_kept d); [|exact Hc|done]. intros v. eapply chain_view; [exact Hch|apply Hd..].
Qed.

(** The batch of the members, applied. *)
Lemma landed_batch d h b hb :
  batch_ok d b hb -> view_head (bt_base b) = h -> bt_writes b <> [] ->
  exists ws, group_batch h ws hb /\ dt_writes (bt_db_tx b) = ws
    /\ db_state (db_apply d ws) ≡ dt_view (bt_db_tx b).
Proof.
  intros Hb Eb Hne. destruct (bk_all _ _ _ Hb) as (all & Ha & Hm & Hfl).
  destruct (applied_tx _ _ _ Ha) as (_ & Ew & Hv). cbn in Ew, Hv.
  destruct Hm as [[-> _]|Hg]; [by rewrite <-Hfl in Hne|]. exists all. rewrite Eb in Hg.
  split_and!; [done|done|]. by rewrite db_state_apply, (applied_equiv _ _ _ Hv).
Qed.

Lemma land_ok d h others h1 b hb fault c :
  store_ok d h -> batch_ok d b hb -> view_head (bt_base b) = h -> bt_writes b <> [] ->
  chain h others h1 -> cache_view_ok d c ->
  let d1 := db_applies d others in
  match land fault b d1 c with
  | (OutcomeCommitted, d', _) => others = [] /\ exists ws, group_batch h ws hb /\ d' = db_apply d ws
      /\ db_state d' ≡ dt_view (bt_db_tx b)
  | (OutcomeLostRace, d', c') => d' = d1 /\ cache_view_ok d1 c'
  | (OutcomeNothing, d', c') => cache_view_ok d' c'
      /\ (d' = d1 \/ others = [] /\ (exists e, fault = Failed e true)
           /\ exists ws, group_batch h ws hb /\ d' = db_apply d ws /\ db_state d' ≡ dt_view (bt_db_tx b))
  end.
Proof.
  intros Hd Hb Eb Hne Hch Hc d1. unfold land, commit_batch, commit_durable, d1.
  rewrite <-Eb in Hch. rewrite (batch_conflict d b hb others h1) by done. rewrite Eb in Hch.
  pose proof (cache_applied d h h1 others c Hd Hch Hc) as Hc1.
  assert (Hc2 : forall x : bool, cache_view_ok (db_applies d others) (if x then c else clear_head_view c)).
  { by intros []. }
  destruct (landed_batch d h b hb Hb Eb Hne) as (ws & Hg & Ew & Hst).
  destruct others as [|ws' others].
  - rewrite bool_decide_true by done. cbn [negb]. rewrite Ew.
    destruct fault as [|e []]; [by eauto| |].
    + split; [by intros v [=]|]. right. split_and!; eauto.
    + split; [by intros v [=]|by left].
  - rewrite bool_decide_false by done. cbn [negb]. split; [done|apply Hc2].
Qed.

Lemma attempt_ok version members su d c h h1 :
  attempt_fair version members su d c h h1 -> cache_view_ok d c ->
  match attempt_group version members su d c with
  | (Ok (GroupCommitted ids), d', _) => committed d h members ids (su_others su) d'
  | (Ok GroupNothing, d', c') => cache_view_ok d' c'
      /\ (d' = db_applies d (su_others su) \/ exists h', landed_unseen su d h members d' h')
  | (_, d', c') => d' = db_applies d (su_others su) /\ cache_view_ok d' c'
  end.
Proof.
  intros [Hd Hch Hfit Hu1 Hu2] Hc. unfold attempt_group.
  pose proof (fun c' => cache_applied d h h1 (su_others su) c' Hd Hch) as Happ.
  destruct (Batch_open d c) as [[b c1]|e] eqn:Eo; [|by split; [|apply Happ]].
  destruct (opened_ok d c h b c1 Hd Hc Eo) as (Hb & _ & Etx & Ebase & Hc1).
  fold (timed su members).
  destruct (stage_members version (timed su members) b) as [[[ids ours] b']|e] eqn:Es;
    [|by split; [|apply Happ]].
  assert (El : length (timed su members) = length members) by apply length_imap.
  destruct (stage_members_ok version (timed su members) d b h ids ours b') as (hb & Hb' & Eb' & Hser);
    [done|by eapply Hfit|by rewrite El|by rewrite El|done|].
  rewrite map_snd_timed, Etx in Hser. cbn in Hser.
  case_bool_decide as Ew.
  - exists (dt_view (bt_db_tx b')), hb. split; [done|]. left.
    destruct (bk_all _ _ _ Hb') as (all & Ha & Hm & Hfl). rewrite Ew in Hfl.
    destruct Hm as [[-> ->]|Hg]; [|by destruct (group_head_kept _ _ _ Hg)].
    destruct (applied_tx _ _ _ Ha) as (_ & _ & Hv%applied_equiv). cbn in Hv.
    split_and!; [by rewrite Hv, kv_apply_nil|by rewrite Eb'|done].
  - pose proof (land_ok d h (su_others su) h1 b' hb (su_fault su) c1 Hd Hb') as Hl.
    rewrite Eb' in Hl. specialize (Hl Ebase Ew Hch Hc1). cbn zeta in Hl.
    destruct (land (su_fault su) b' (db_applies d (su_others su)) c1) as [[[] d'] c2].
    + destruct Hl as (E & ws & Hg & -> & Hst). exists (dt_view (bt_db_tx b')), hb. split; [done|].
      right. split; [done|]. by exists ws.
    + destruct Hl as [-> Hc2]. done.
    + destruct Hl as [Hc2 [->|(E & Hf & ws & Hg & -> & Hst)]]; (split; [done|]); [by left|].
      right. exists hb. split_and!; [done|done|]. by exists ids, (dt_view (bt_db_tx b')), ws.
Qed.

(** ** The cycle *)

Definition retried (out : CommitOutcome) : Prop :=
  match out with GroupCommitted _ => False | _ => True end.

(** Every attempt the cycle makes is fair, as far as it gets. *)
Fixpoint world_fair (version : string) (members : list (Verb unit)) (attempts : list Surroundings)
    (d : D) (c : ProjectionCache) (h : HeadValue) : Prop :=
  match attempts with
  | [] => True
  | su :: attempts =>
      exists h1, attempt_fair version members su d c h h1
        /\ forall out d1 c' h2, attempt_group version members su d c = (Ok out, d1, c') -> retried out ->
             run (db_state d1) read_head = Ok (Some h2) -> world_fair version members attempts d1 c' h2
  end.

(** Attempts that returned no ids, and what they leave: the others' batches, and the
    members' own where a write that reported failure had landed. *)
Inductive attempted (members : list (Verb unit)) : list Surroundings -> D -> HeadValue -> D -> HeadValue -> Prop :=
| attempted_none d h : attempted members [] d h d h
| attempted_others su attempts d h h1 d' h' :
    chain h (su_others su) h1 -> attempted members attempts (db_applies d (su_others su)) h1 d' h' ->
    attempted members (su :: attempts) d h d' h'
| attempted_unseen su attempts d h d1 h1 d' h' :
    landed_unseen su d h members d1 h1 -> attempted members attempts d1 h1 d' h' ->
    attempted members (su :: attempts) d h d' h'.

(** How a cycle over [attempts] may end. *)
Definition settles (members : list (Verb unit)) (attempts : list Surroundings) (d : D) (h : HeadValue)
    (end_ : result (list N) * D * ProjectionCache) : Prop :=
  match end_ with
  | (Ok ids, d', _) => exists n su dn hn, attempts !! n = Some su
      /\ attempted members (take n attempts) d h dn hn
      /\ run (db_state dn) read_head = Ok (Some hn)
      /\ committed dn hn members ids (su_others su) d'
  | (Err e, d', _) => exists n hn, (n <= length attempts)%nat /\ attempted members (take n attempts) d h d' hn
  end.

Lemma settles_later members su attempts d h d1 h1 end_ :
  (forall attempts d' h', attempted members attempts d1 h1 d' h' ->
     attempted members (su :: attempts) d h d' h') ->
  settles members attempts d1 h1 end_ -> settles members (su :: attempts) d h end_.
Proof.
  intros Hs. destruct end_ as [[[ids|e] d'] c']; cbn [settles].
  - intros (n & su' & dn & hn & H1 & H2 & H3). exists (Datatypes.S n), su', dn, hn. split_and!; [done|by apply Hs|apply H3..].
  - intros (n & hn & H1 & H2). exists (Datatypes.S n), hn. cbn [length]. split; [lia|by apply Hs].
Qed.

Lemma unseen_head su d h members d1 h1 :
  landed_unseen su d h members d1 h1 -> run (db_state d) read_head = Ok (Some h) ->
  run (db_state d1) read_head = Ok (Some h1).
Proof. intros (_ & _ & ids & s' & ws & _ & Hg & -> & _) Hh. rewrite db_state_apply. by eapply group_head. Qed.

Lemma commit_loop_ok version members attempts : forall d c h,
  world_fair version members attempts d c h -> cache_view_ok d c ->
  settles members attempts d h (commit_loop version members attempts d c).
Proof.
  induction attempts as [|su attempts IH]; intros d c h Hw Hc; cbn [commit_loop].
  { exists 0%nat, h. split; [done|constructor]. }
  destruct Hw as (h1 & Hfair & Hnext). pose proof (attempt_ok version members su d c h h1 Hfair Hc) as Ha.
  destruct Hfair as [Hd Hch _ _ _]. pose proof (chain_state _ d h h1 Hch (st_head _ _ Hd)) as Hh1.
  assert (Hagain : forall out c', attempt_group version members su d c = (Ok out, db_applies d (su_others su), c') ->
    retried out -> cache_view_ok (db_applies d (su_others su)) c' ->
    settles members (su :: attempts) d h
      (commit_loop version members attempts (db_applies d (su_others su)) c')).
  { intros out c' E Hr Hc'. eapply settles_later; [intros; by eapply attempted_others|].
    by eapply IH; [eapply Hnext|]. }
  assert (Hstop : forall e c', settles members (su :: attempts) d h (Err e, db_applies d (su_others su), c')).
  { intros e c'. exists 1%nat, h1. cbn [length]. split; [lia|]. by eapply attempted_others, attempted_none. }
  destruct (attempt_group version members su d c) as [[[[ids|ours hb|]|e] d'] c'] eqn:Eg.
  - exists 0%nat, su, d, h. split_and!; [done|constructor|apply Hd|done].
  - destruct Ha as [-> Hc']. destruct (forallb ChangeSet_is_empty ours); [by eapply Hagain|].
    destruct (run _ (intervening_changes hb)) as [theirs|e]; [|apply Hstop].
    destruct (existsb _ theirs); [apply Hstop|by eapply Hagain].
  - destruct Ha as [Hc' [->|[h' Hun]]]; [by eapply Hagain|].
    eapply settles_later; [intros; by eapply attempted_unseen|].
    eapply IH; [|exact Hc']. eapply Hnext; [done..|]. by eapply unseen_head; [|apply Hd].
  - destruct Ha as [-> Hc']. apply Hstop.
Qed.

(** The database after the others of the first [n] attempts. *)
Definition after_others (d : D) (attempts : list Surroundings) : D :=
  foldl (fun d su => db_applies d (su_others su)) d attempts.

Lemma attempted_seen members attempts d h d' h' :
  attempted members attempts d h d' h' -> (forall su e, su ∈ attempts -> su_fault su <> Failed e true) ->
  d' = after_others d attempts.
Proof.
  induction 1 as [|su attempts d h h1 d' h' _ _ IH|su attempts d h d1 h1 d' h' (_ & [e Hf] & _) _ _]; intros Hs.
  - done.
  - apply IH. intros su' e' Hin. apply Hs. by apply list_elem_of_further.
  - by destruct (Hs su e (list_elem_of_here _ _)).
Qed.
End Laws.


(** ** Witnesses *)

#[local] Existing Instances reference_storekey reference_storekey_laws reference_messages
  reference_messages_laws.

Lemma view0_premise : premise_ok view0.
Proof.
  pose proof (represents_view_wf _ _ view0_represents) as Hw.
  assert (Et : cs_tables view0 = ∅) by (vm_compute; reflexivity).
  assert (En : cs_table_names view0 = ∅) by (vm_compute; reflexivity).
  assert (Es : cs_table_stats view0 = ∅) by (vm_compute; reflexivity).
  assert (Ef : cs_data_files view0 = ∅) by (vm_compute; reflexivity).
  split; [|vm_compute; reflexivity..|].
  - split; [done|apply view0_coherent| |done|done|].
    + intros schema name. rewrite En, scoped_name_empty. by intros [].
    + intros i v. cbn. by rewrite Et, lookup_empty.
  - rewrite Es, Ef. split; intros *; unfold nlookup; rewrite ?lookup_empty; done.
Qed.

(** A closure that creates a schema and sets an option, alone on a fresh store. *)
Definition member0 : Verb unit := closure [CallCreateSchema "u" "s"; CallSetOption ScopeGlobal "k" "x"].
Definition calm : nat -> Surroundings := fun _ => mkSurroundings (fun _ => 0%Z) [] NoFault.

Lemma member0_fit : FitMember view0 member0.
Proof.
  assert (Ho : forall n t, member0 (Transaction_new view0 n) = (Ok tt, t) ->
    tx_index_entries t = [] /\ tx_inline_ops t = [] /\ omap schema_changed_table_id (tx_ops t) = []
    /\ cs_file_column_stats (tx_state t) = cs_file_column_stats view0).
  { intros n t E. assert (Et : t = (member0 (Transaction_new view0 n)).2) by by rewrite E.
    rewrite Et. vm_compute. split_and!; reflexivity. }
  split.
  - apply closure_sound; [apply view0_premise|by repeat constructor].
  - intros n t E. destruct (Ho n t E) as (E1 & E2 & E3 & _). split; [by rewrite E1|by rewrite E2|by rewrite E3].
  - intros n t E t' f i _ _. destruct (Ho n t E) as (_ & _ & _ & ->). done.
Qed.

Lemma db0_ok : store_ok db0 (mkHeadValue 0 0).
Proof.
  destruct (bootstrap_snapshot 0 "u" "v" false None ∅ empty_get) as (sn & _ & Hsn).
  split; cbn [db0 db_state log_database ld_state].
  - apply (bootstrap_head 0 "u" "v" false None ∅ empty_get).
  - done.
  - apply (bootstrap_current_wf 0 "u" "v" false None ∅ empty_get).
  - apply store0_snapshots_wf.
  - eauto.
  - apply store0_bounded.
  - apply inline_wf_apply; [by intros kb b|]. intros w Hw. right. intros Hp.
    unfold stage_bootstrap in Hw. set_unfold in Hw.
    destruct_or! Hw; subst w; cbn [fst] in Hp; apply subspace_prefix_iff in Hp; discriminate Hp.
  - eexists. apply (bootstrap_format 0 "u" "v" false None ∅ empty_get).
Qed.

Lemma view0_materialized : run store0 (materialize true None) = Ok view0.
Proof.
  destruct (bootstrap_snapshot 0 "u" "v" false None ∅ empty_get) as (sn & _ & Hsn).
  destruct (run_capture_head store0 (mkHeadValue 0 0) sn
    (bootstrap_migration 0 "u" "v" false None ∅ empty_get)
    (bootstrap_head 0 "u" "v" false None ∅ empty_get) Hsn
    (bootstrap_current_wf 0 "u" "v" false None ∅ empty_get)) as (v & recs & E & _).
  unfold view0. cbn [materialize materialize_capturing consistent]. by rewrite (run_bind_Ok _ _ _ _ E), E.
Qed.

Lemma open0_base b c' : Batch_open db0 ProjectionCache_empty = Ok (b, c') ->
  bt_base b = view0 /\ bt_premise b = None /\ bt_writes b = [] /\ bt_folded b = 0%nat.
Proof.
  unfold Batch_open. intros ([base c1] & Ev & [= <- <-])%bind_Ok. split_and!; [|done..]. cbn.
  unfold head_view_for in Ev. apply bind_Ok in Ev as ([v fresh] & Er & [= <- <-]).
  rewrite run_begin in Er. unfold head_view_read in Er. apply run_bind_inv in Er as (_ & _ & Er).
  rewrite (run_bind_Ok _ _ _ _ (run_head_value _ _ (st_head _ _ db0_ok))) in Er.
  apply run_bind_inv in Er as (refreshed & Hf & Er). cbn in Hf. injection Hf as <-.
  apply run_bind_inv in Er as (w & Hw & [= <- _]).
  change (db_state db0) with store0 in Hw. rewrite view0_materialized in Hw.
  symmetry. by apply (inj Ok).
Qed.

Lemma calm_fair version : attempt_fair version [member0] (calm 0) db0 ProjectionCache_empty
  (mkHeadValue 0 0) (mkHeadValue 0 0).
Proof.
  split; [apply db0_ok|constructor| |done|done].
  intros b c' (Eb & Ep & Ew & Ef)%open0_base. split; [|done]. intros b1 E1.
  assert (Eb1 : default (bt_base b1) (bt_premise b1) = view0).
  { unfold refold, count_member in E1. cbn in E1. rewrite Ew, Ef in E1. cbn in E1. injection E1 as <-. cbn.
    by rewrite Ep, Eb. }
  rewrite Eb1. apply member0_fit.
Qed.



(** ** What the cycle does not rule out *)

Definition after_commit (out : result (list N) * LogDb * ProjectionCache) : LogDb := out.1.2.
Definition table_member : Verb unit := closure [CallCreateTable "v" 0 "t" [mkColumnDef "a" "int32" true None []]].
Definition file_member : Verb unit := closure [CallRegisterDataFile 1 (sample_file 5) []].
Definition db_with_table : LogDb := after_commit (commit_cycle "v" [table_member] calm db0 ProjectionCache_empty).
(** The first attempt's write lands and reports an error; nothing else goes wrong. *)
Definition ambiguous : nat -> Surroundings := fun n =>
  mkSurroundings (fun _ => 0%Z) [] (match n with O => Failed Store true | _ => NoFault end).

(** A batch whose write lands but reports an error is answered as nothing written, and
    its members run again: the file registered once stands twice, its five rows counted
    as ten. *)
Theorem ambiguous_write_applied_twice :
  let out := commit_cycle "v" [file_member] ambiguous db_with_table ProjectionCache_empty in
  out.1.1 = Ok [3]
  /\ match run (db_state (after_commit out)) (materialize true None) with
     | Ok v => size (default ∅ (cs_data_files v !! 1)) = 2%nat
         /\ ts_record_count <$> cs_table_stats v !! 1 = Some 10
     | Err _ => False
     end.
Proof. vm_compute. split_and!; reflexivity. Qed.

(** A commit that deletes both from a named file and from inlined rows is recorded with
    the file alone: the classification of a later loser reads it as fully targeted and
    lets a delete through that the change set itself conflicts with. *)
Theorem untargeted_delete_forgotten :
  let theirs := from_operations [RegisterDeleteFile 1 10; InlineDelete 1] in
  let ours := from_operations [RegisterDeleteFile 1 11] in
  let record := mkSnapshotValue 1 0 0 0 0 (to_changes_made theirs) None None None []
    (in_order N.le (deleted_data_file_ids theirs)) in
  conflicts ours theirs = true /\ conflicts ours (snapshot_changes (Some record)) = false.
Proof. vm_compute. split; reflexivity. Qed.
