(* ===== verification/Group.v ===== *)
(** Group commit ([transaction/commit/group.rs]): the rendezvous concurrent callers meet
    at.  The [Coalescer] with its lock, its arrival count, the batch forming and the
    batch in flight, as a step relation over the callers' turns: arrivals, staging,
    errors and interrupts, the sealer a vanished caller leaves behind, the landing task.
    The batches are those of [Commit], over the same database. *)
From stdpp Require Import gmap strings list fin_maps sorting relations.
From Stdlib Require Import NArith ZArith Lia.
From S2P Require Import Prelude Storekey KeyLayout Operations Values Snapshot Catalog Store Materialize Projection Landing Verbs VerbLaws VerbCalls Commit Cycle.

Local Open Scope nat_scope.

(** ** The state *)

(** What a caller is told. *)
Inductive Answer : Type :=
| AnswerIds
| AnswerOutcome (outcome : Outcome)
| AnswerError (error : Error).

(** Where a caller stands: counted as arriving, inside [stage] with the lock, on its way
    out of [stage] without having settled (the lock released, its [Arrival] not yet
    dropped), waiting on a batch it contributed to, answered. *)
Inductive Caller : Type :=
| Arriving
| Staging
| Leaving (answer : Answer)
| AwaitingOutcome (batch : nat)
| Answered (answer : Answer).

(** A batch with its identity, which stands for its outcome channel. *)
Record Formed (S : Type) : Type := mkFormed { fb_id : nat; fb_batch : Batch S }.
Arguments mkFormed {S} _ _.
Arguments fb_id {S} _.
Arguments fb_batch {S} _.

(** The landing task: writing, or done and about to reopen the store. *)
Inductive Flight (S : Type) : Type := Writing (b : Formed S) | Reopening.
Arguments Writing {S} _.
Arguments Reopening {S}.

(** [Coalescer] with [Shared], the tasks it has spawned, and the channels. [gr_held] is
    the lock: the caller holding it, with the batch it took out of [forming]. *)
Record Coalescer (D S : Type) : Type := mkCoalescer {
  gr_db : D;
  gr_cache : ProjectionCache;
  gr_callers : gmap nat Caller;
  gr_arriving : nat;
  gr_held : option (nat * Formed S);
  gr_forming : option (Formed S);
  gr_in_flight : bool;
  gr_flight : option (Flight S);
  gr_sealers : nat;
  gr_outcomes : gmap nat Outcome;
  gr_next : nat;
}.
Arguments mkCoalescer {D S} _ _ _ _ _ _ _ _ _ _ _.
Arguments gr_db {D S} _.
Arguments gr_cache {D S} _.
Arguments gr_callers {D S} _.
Arguments gr_arriving {D S} _.
Arguments gr_held {D S} _.
Arguments gr_forming {D S} _.
Arguments gr_in_flight {D S} _.
Arguments gr_flight {D S} _.
Arguments gr_sealers {D S} _.
Arguments gr_outcomes {D S} _.
Arguments gr_next {D S} _.

(** [Coalescer::new]. *)
Definition Coalescer_new {D S} (d : D) (c : ProjectionCache) : Coalescer D S :=
  mkCoalescer d c ∅ 0 None None false None 0 ∅ 0.

Section Coalescer.
  Context {D S : Type} `{DB : Database D S} `{SK : Storekey, MS : Messages}.

(** ** The operations *)

(** [Coalescer::arrive]. *)
Definition arrive (i : nat) (g : Coalescer D S) : Coalescer D S :=
  mkCoalescer (gr_db g) (gr_cache g) (<[i := Arriving]> (gr_callers g)) (Datatypes.S (gr_arriving g))
    (gr_held g) (gr_forming g) (gr_in_flight g) (gr_flight g) (gr_sealers g) (gr_outcomes g) (gr_next g).

(** [Arrival::drop] of a caller that never settled: the last one out leaves a sealer, if
    it is dropped inside a runtime. *)
Definition abandon (in_runtime : bool) (i : nat) (answer : Answer) (g : Coalescer D S) : Coalescer D S :=
  mkCoalescer (gr_db g) (gr_cache g) (<[i := Answered answer]> (gr_callers g)) (pred (gr_arriving g))
    (gr_held g) (gr_forming g) (gr_in_flight g) (gr_flight g)
    (if (gr_arriving g =? 1) && in_runtime then Datatypes.S (gr_sealers g) else gr_sealers g)
    (gr_outcomes g) (gr_next g).

(** A caller leaves [stage] early: the lock it held is released, its [Arrival] is still
    to be dropped. *)
Definition release (i : nat) (answer : Answer) (g : Coalescer D S) : Coalescer D S :=
  mkCoalescer (gr_db g) (gr_cache g) (<[i := Leaving answer]> (gr_callers g)) (gr_arriving g)
    None (gr_forming g) (gr_in_flight g) (gr_flight g) (gr_sealers g) (gr_outcomes g) (gr_next g).

(** [Coalescer::admit] and the batch [stage] takes up: the one forming, or one opened. *)
Definition Coalescer_admit (i : nat) (g : Coalescer D S) : Coalescer D S :=
  match gr_forming g with
  | Some batch =>
      mkCoalescer (gr_db g) (gr_cache g) (<[i := Staging]> (gr_callers g)) (gr_arriving g)
        (Some (i, batch)) None (gr_in_flight g) (gr_flight g) (gr_sealers g) (gr_outcomes g) (gr_next g)
  | None =>
      match Batch_open (gr_db g) (gr_cache g) with
      | Ok (batch, c) =>
          mkCoalescer (gr_db g) c (<[i := Staging]> (gr_callers g)) (gr_arriving g)
            (Some (i, mkFormed (gr_next g) batch)) None (gr_in_flight g) (gr_flight g) (gr_sealers g)
            (gr_outcomes g) (Datatypes.S (gr_next g))
      | Err e => release i (AnswerError e) g
      end
  end.

(** The batch in hand is dropped, its channel with it: its members are told nothing
    was written. *)
Definition discard_batch (b : Formed S) (g : Coalescer D S) : Coalescer D S :=
  mkCoalescer (gr_db g) (gr_cache g) (gr_callers g) (gr_arriving g) (gr_held g) (gr_forming g)
    (gr_in_flight g) (gr_flight g) (gr_sealers g) (<[fb_id b := OutcomeNothing]> (gr_outcomes g)) (gr_next g).

(** The rest of [Coalescer::stage] for the caller with the lock. *)
Definition stage (i : nat) (b : Formed S) (version : string) (members : list (Z * Verb unit))
    (g : Coalescer D S) : Coalescer D S :=
  match stage_members version members (fb_batch b) with
  | Err e => release i (AnswerError e) (discard_batch b g)
  | Ok (_, _, batch) =>
      let contributed := length (bt_writes (fb_batch b)) <? length (bt_writes batch) in
      let arriving := pred (gr_arriving g) in
      let alone := arriving =? 0 in
      let full := MAX_BATCH_MEMBERS <=? bt_members batch in
      let empty := bool_decide (bt_writes batch = []) in
      let callers := <[i := if contributed then AwaitingOutcome (fb_id b) else Answered AnswerIds]>
        (gr_callers g) in
      let formed := mkFormed (fb_id b) batch in
      if (alone || full) && negb empty then
        mkCoalescer (gr_db g) (gr_cache g) callers arriving None None true (Some (Writing formed))
          (gr_sealers g) (gr_outcomes g) (gr_next g)
      else if empty then
        mkCoalescer (gr_db g) (gr_cache g) callers arriving None None (gr_in_flight g) (gr_flight g)
          (gr_sealers g) (gr_outcomes g) (gr_next g)
      else
        mkCoalescer (gr_db g) (gr_cache g) callers arriving None (Some formed) (gr_in_flight g)
          (gr_flight g) (gr_sealers g) (gr_outcomes g) (gr_next g)
  end.

(** [Coalescer::seal_abandoned], up to its landing. *)
Definition seal_abandoned (g : Coalescer D S) : Coalescer D S :=
  let sealers := pred (gr_sealers g) in
  let same forming in_flight flight outcomes :=
    mkCoalescer (gr_db g) (gr_cache g) (gr_callers g) (gr_arriving g) (gr_held g) forming in_flight
      flight sealers outcomes (gr_next g) in
  if gr_in_flight g || (0 <? gr_arriving g) then
    same (gr_forming g) (gr_in_flight g) (gr_flight g) (gr_outcomes g)
  else
    match gr_forming g with
    | None => same None (gr_in_flight g) (gr_flight g) (gr_outcomes g)
    | Some b =>
        if bool_decide (bt_writes (fb_batch b) = []) then
          same None (gr_in_flight g) (gr_flight g) (<[fb_id b := OutcomeNothing]> (gr_outcomes g))
        else same None true (Some (Writing b)) (gr_outcomes g)
    end.

(** [Coalescer::land]: the write and the answer, then the store reopened. *)
Definition land_write (b : Formed S) (fault : WriteFault) (g : Coalescer D S) : Coalescer D S :=
  let '(outcome, d, c) := land fault (fb_batch b) (gr_db g) (gr_cache g) in
  mkCoalescer d c (gr_callers g) (gr_arriving g) (gr_held g) (gr_forming g) (gr_in_flight g)
    (Some Reopening) (gr_sealers g) (<[fb_id b := outcome]> (gr_outcomes g)) (gr_next g).
Definition land_reopen (g : Coalescer D S) : Coalescer D S :=
  mkCoalescer (gr_db g) (gr_cache g) (gr_callers g) (gr_arriving g) (gr_held g) (gr_forming g) false
    None (gr_sealers g) (gr_outcomes g) (gr_next g).

(** [await_outcome]. *)
Definition await_outcome (i : nat) (outcome : Outcome) (g : Coalescer D S) : Coalescer D S :=
  mkCoalescer (gr_db g) (gr_cache g) (<[i := Answered (AnswerOutcome outcome)]> (gr_callers g))
    (gr_arriving g) (gr_held g) (gr_forming g) (gr_in_flight g) (gr_flight g) (gr_sealers g)
    (gr_outcomes g) (gr_next g).

(** ** The steps *)

(** The drops of an [Arrival] the steps take: inside a runtime, or where it has nothing to
    rescue, not being the last or no batch forming. *)
Definition drop_covered (in_runtime : bool) (g : Coalescer D S) : Prop :=
  in_runtime = true \/ gr_arriving g <> 1 \/ gr_forming g = None.

(** What callers and tasks do on their own, given turns. *)
Inductive internal : Coalescer D S -> Coalescer D S -> Prop :=
| int_admit g i :
    gr_callers g !! i = Some Arriving -> gr_held g = None -> gr_in_flight g = false ->
    internal g (Coalescer_admit i g)
| int_stage g i b version members :
    gr_held g = Some (i, b) -> internal g (stage i b version members g)
| int_leave g i answer in_runtime :
    gr_callers g !! i = Some (Leaving answer) -> drop_covered in_runtime g ->
    internal g (abandon in_runtime i answer g)
| int_seal g :
    gr_held g = None -> 0 < gr_sealers g -> internal g (seal_abandoned g)
| int_write g b fault : gr_flight g = Some (Writing b) -> internal g (land_write b fault g)
| int_reopen g : gr_flight g = Some Reopening -> gr_held g = None -> internal g (land_reopen g)
| int_await g i n outcome :
    gr_callers g !! i = Some (AwaitingOutcome n) -> gr_outcomes g !! n = Some outcome ->
    internal g (await_outcome i outcome g).

(** What the world does to them: new callers, interrupts wherever a caller waits, other
    committers' batches. *)
Inductive external : Coalescer D S -> Coalescer D S -> Prop :=
| ext_arrive g i : gr_callers g !! i = None -> external g (arrive i g)
| ext_interrupt_arriving g i in_runtime :
    gr_callers g !! i = Some Arriving -> drop_covered in_runtime g ->
    external g (abandon in_runtime i (AnswerError Interrupted) g)
| ext_interrupt_staging g i b :
    gr_held g = Some (i, b) -> external g (release i (AnswerError Interrupted) (discard_batch b g))
| ext_interrupt_waiting g i n :
    gr_callers g !! i = Some (AwaitingOutcome n) ->
    external g (mkCoalescer (gr_db g) (gr_cache g) (<[i := Answered (AnswerError Interrupted)]> (gr_callers g))
      (gr_arriving g) (gr_held g) (gr_forming g) (gr_in_flight g) (gr_flight g) (gr_sealers g)
      (gr_outcomes g) (gr_next g))
| ext_other g ws :
    external g (mkCoalescer (db_apply (gr_db g) ws) (gr_cache g) (gr_callers g) (gr_arriving g) (gr_held g)
      (gr_forming g) (gr_in_flight g) (gr_flight g) (gr_sealers g) (gr_outcomes g) (gr_next g)).

Definition step (g g' : Coalescer D S) : Prop := internal g g' \/ external g g'.
End Coalescer.

(** ** Counting callers *)

Definition tally (w : Caller -> nat) (m : gmap nat Caller) : nat :=
  foldr (fun e n => w e.2 + n) 0 (map_to_list m).

Lemma tally_perm w l l' :
  l ≡ₚ l' -> foldr (fun (e : nat * Caller) n => w e.2 + n) 0 l = foldr (fun e n => w e.2 + n) 0 l'.
Proof. induction 1; cbn; lia. Qed.

Lemma tally_new w m i x : m !! i = None -> tally w (<[i := x]> m) = w x + tally w m.
Proof. intros Hi. unfold tally. by rewrite (tally_perm w _ _ (map_to_list_insert m i x Hi)). Qed.

Lemma tally_update w m i x y :
  m !! i = Some y -> tally w (<[i := x]> m) + w y = w x + tally w m.
Proof.
  intros Hi. rewrite <-insert_delete_eq. rewrite tally_new by apply lookup_delete_eq.
  rewrite <-(insert_delete_id m i y Hi) at 2. rewrite tally_new by apply lookup_delete_eq. lia.
Qed.

Lemma tally_pos w m i x : m !! i = Some x -> w x <= tally w m.
Proof.
  intros Hi. rewrite <-(insert_delete_id m i x Hi), tally_new by apply lookup_delete_eq. lia.
Qed.

Lemma tally_find w m : 0 < tally w m -> exists i x, m !! i = Some x /\ 0 < w x.
Proof.
  unfold tally. intros H. assert (Hl : exists e, e ∈ map_to_list m /\ 0 < w e.2).
  { induction (map_to_list m) as [|e l IH]; cbn in H; [lia|].
    destruct (decide (0 < w e.2)) as [Hw|Hw]; [exists e; split; [left|done]|].
    destruct IH as (e' & He' & Hw'); [lia|]. exists e'. split; [by right|done]. }
  destruct Hl as ([i x] & He & Hw). apply elem_of_map_to_list in He. eauto.
Qed.

Definition coming (x : Caller) : nat := match x with Arriving | Staging | Leaving _ => 1 | _ => 0 end.

(** ** The invariant *)

Section Invariant.
  Context {D S : Type} `{DB : Database D S} `{SK : Storekey, MS : Messages}.

(** The batches whose channel is still open. *)
Definition open_batch (g : Coalescer D S) (n : nat) : Prop :=
  (exists i b, gr_held g = Some (i, b) /\ fb_id b = n)
  \/ (exists b, gr_forming g = Some b /\ fb_id b = n)
  \/ (exists b, gr_flight g = Some (Writing b) /\ fb_id b = n).

Record group_ok (g : Coalescer D S) : Prop := {
  go_count : gr_arriving g = tally coming (gr_callers g);
  go_held : forall i, gr_callers g !! i = Some Staging <-> exists b, gr_held g = Some (i, b);
  go_lock : is_Some (gr_held g) -> gr_in_flight g = false /\ gr_forming g = None;
  go_flight : gr_in_flight g = bool_decide (is_Some (gr_flight g));
  go_one : gr_in_flight g = true -> gr_forming g = None;
  go_forming : forall b, gr_forming g = Some b -> bt_writes (fb_batch b) <> []
    /\ bt_members (fb_batch b) < MAX_BATCH_MEMBERS /\ (0 < gr_arriving g \/ 0 < gr_sealers g);
  go_writing : forall b, gr_flight g = Some (Writing b) -> bt_writes (fb_batch b) <> [];
  go_waiting : forall i n, gr_callers g !! i = Some (AwaitingOutcome n) ->
    n < gr_next g /\ (is_Some (gr_outcomes g !! n) \/ open_batch g n);
  go_fresh : forall i b, gr_held g = Some (i, b) -> fb_id b < gr_next g
    /\ (bt_writes (fb_batch b) = [] -> forall j, gr_callers g !! j <> Some (AwaitingOutcome (fb_id b)));
  go_id : forall b, gr_forming g = Some b -> fb_id b < gr_next g;
}.

Lemma group_ok_new d c : group_ok (Coalescer_new d c).
Proof.
  split; cbn; try done.
  intros i. rewrite lookup_empty. split; [done|by intros [? ?]].
Qed.

(** A caller that is neither staging nor waiting afterwards, and the counts. *)
Lemma waiting_insert (m : gmap nat Caller) i x j n :
  <[i := x]> m !! j = Some (AwaitingOutcome n) ->
  (j = i /\ x = AwaitingOutcome n) \/ (j <> i /\ m !! j = Some (AwaitingOutcome n)).
Proof.
  rewrite lookup_insert. case_decide as E; [subst; intros [= ->]; by left|]. intros Hj. right. split; [congruence|done].
Qed.

Lemma staging_insert (m : gmap nat Caller) i x j :
  x <> Staging -> <[i := x]> m !! j = Some Staging <-> j <> i /\ m !! j = Some Staging.
Proof.
  intros Hx. rewrite lookup_insert. case_decide as E; [subst; split; [congruence|by intros []]|].
  split; [intros Hj; split; [congruence|done]|by intros [_ ?]].
Qed.

(** *** Each operation keeps it *)

Lemma arrive_ok i g : gr_callers g !! i = None -> group_ok g -> group_ok (arrive i g).
Proof.
  intros Hi [H1 H2 H3 H4 H5 H6 H7 H8 H9 H10]. split; cbn; try done.
  - rewrite tally_new by done. cbn. lia.
  - intros j. rewrite staging_insert by done. rewrite <-H2. split; [by intros []|]. intros Hj. split; [congruence|done].
  - intros b Hb. destruct (H6 b Hb) as (? & ? & _). split_and!; [done..|left; lia].
  - intros j n [[-> [=]]|[_ Hj]]%waiting_insert. by apply (H8 j).
  - intros j b Hb. destruct (H9 j b Hb) as [Hn Hw]. split; [done|].
    intros E k [[-> [=]]|[_ Hk]]%waiting_insert. by apply (Hw E k).
Qed.

(** A caller that holds nothing is counted out. *)
Lemma abandon_ok in_runtime i answer g x :
  gr_callers g !! i = Some x -> coming x = 1 -> x <> Staging -> drop_covered in_runtime g ->
  group_ok g -> group_ok (abandon in_runtime i answer g).
Proof.
  intros Hi Hx Hns Hrun [H1 H2 H3 H4 H5 H6 H7 H8 H9 H10].
  pose proof (tally_pos coming _ _ _ Hi) as Hp. pose proof (tally_update coming _ i (Answered answer) _ Hi) as Hu.
  cbn in Hu. split; cbn; try done.
  - lia.
  - intros j. rewrite staging_insert by done. rewrite <-H2. split; [by intros []|].
    intros Hj. split; [congruence|done].
  - intros b Hb. destruct (H6 b Hb) as (? & ? & _). split_and!; [done..|].
    destruct (Nat.eqb_spec (gr_arriving g) 1); [|left; lia]. right.
    destruct Hrun as [-> |[?|?]]; [cbn; lia|done|congruence].
  - intros j n [[-> [=]]|[_ Hj]]%waiting_insert. by apply (H8 j).
  - intros j b Hb. destruct (H9 j b Hb) as [Hn Hw]. split; [done|].
    intros E k [[-> [=]]|[_ Hk]]%waiting_insert. by apply (Hw E k).
Qed.

(** A caller with the lock lets go of it and of the batch it held. *)
Lemma release_staging_ok i b answer g :
  gr_held g = Some (i, b) -> group_ok g -> group_ok (release i answer (discard_batch b g)).
Proof.
  intros Hh [H1 H2 H3 H4 H5 H6 H7 H8 H9 H10].
  assert (Hi : gr_callers g !! i = Some Staging) by (apply H2; eauto).
  pose proof (tally_update coming _ i (Leaving answer) _ Hi) as Hu. cbn in Hu. split; cbn; try done.
  - lia.
  - intros j. rewrite staging_insert by done. split; [|by intros [? ?]].
    intros [Hj (b' & Hb')%H2]. rewrite Hh in Hb'. by injection Hb' as <- <-.
  - intros j n [[-> [=]]|[_ Hj]]%waiting_insert. destruct (H8 j n Hj) as [Hn Hor]. split; [done|].
    destruct Hor as [Ho|[(i' & b' & Hb' & <-)|Hr]].
    + left. rewrite lookup_insert. case_decide; eauto.
    + left. rewrite Hh in Hb'. injection Hb' as <- <-. rewrite lookup_insert_eq. eauto.
    + right. by right.
Qed.

(** A caller the store failed lets go of the lock it was given. *)
Lemma release_arriving_ok i answer g :
  gr_callers g !! i = Some Arriving -> gr_held g = None -> group_ok g -> group_ok (release i answer g).
Proof.
  intros Hi Hh [H1 H2 H3 H4 H5 H6 H7 H8 H9 H10].
  pose proof (tally_update coming _ i (Leaving answer) _ Hi) as Hu. cbn in Hu. split; cbn; try done.
  - lia.
  - intros j. rewrite staging_insert by done. rewrite H2, Hh. split; [by intros [_ [? ?]]|by intros [? ?]].
  - intros j n [[-> [=]]|[_ Hj]]%waiting_insert. destruct (H8 j n Hj) as [Hn Hor]. split; [done|].
    destruct Hor as [Ho|[(i' & b' & Hb' & <-)|Hr]]; [by left|congruence|]. right. by right.
Qed.

Lemma admit_ok i g :
  gr_callers g !! i = Some Arriving -> gr_held g = None -> gr_in_flight g = false ->
  group_ok g -> group_ok (Coalescer_admit i g).
Proof.
  intros Hi Hh Hf Hg. unfold Coalescer_admit.
  assert (Htaken : forall b c next, (forall b', gr_forming g = Some b' -> b' = b) ->
    gr_next g <= next -> fb_id b < next -> (bt_writes (fb_batch b) = [] -> gr_next g <= fb_id b) ->
    group_ok (mkCoalescer (gr_db g) c (<[i := Staging]> (gr_callers g)) (gr_arriving g) (Some (i, b)) None
      (gr_in_flight g) (gr_flight g) (gr_sealers g) (gr_outcomes g) next)).
  { intros b c next Hb Hnext Hid Hfresh. destruct Hg as [H1 H2 H3 H4 H5 H6 H7 H8 H9 H10]. split; cbn; try done.
    - pose proof (tally_update coming _ i Staging _ Hi). cbn in *. lia.
    - intros j. rewrite lookup_insert. case_decide as E.
      + subst. split; eauto.
      + split; [|intros [b' [= -> ->]]; done]. intros (b' & Hb')%H2. congruence.
    - intros j n [[-> [=]]|[_ Hj]]%waiting_insert. destruct (H8 j n Hj) as [Hn Hor]. split; [lia|].
      destruct Hor as [Ho|[(i' & b' & Hb' & _)|[(b' & Hb' & <-)|Hr]]].
      + by left.
      + congruence.
      + right. left. exists i, b. by rewrite (Hb _ Hb').
      + right. by right; right.
    - intros j b' [= <- <-]. split; [done|]. intros E k [[-> [=]]|[_ Hk]]%waiting_insert.
      destruct (H8 k _ Hk) as [Hn _]. specialize (Hfresh E). lia. }
  destruct (gr_forming g) as [b|] eqn:Ef.
  { apply Htaken; [congruence|lia|by apply Hg|]. by destruct (go_forming _ Hg b Ef) as (? & _). }
  destruct (Batch_open (gr_db g) (gr_cache g)) as [[batch c]|e]; [apply Htaken; cbn; try done; lia|].
  by apply release_arriving_ok.
Qed.

Lemma stage_members_writes version members : forall (b b' : Batch S) ids ours,
  stage_members version members b = Ok (ids, ours, b') ->
  length (bt_writes b) <= length (bt_writes b').
Proof.
  induction members as [|[now f] members IH]; intros b b' ids ours E; cbn in E.
  { injection E as <- <- <-. lia. }
  apply bind_Ok in E as ([[id mine] b1] & E1 & E). apply bind_Ok in E as ([[ids1 more] b2] & E2 & E).
  injection E as <- <- <-. apply IH in E2. etrans; [|exact E2]. clear E2 IH.
  unfold stage_member in E1. apply bind_Ok in E1 as (b3 & Er & E1).
  assert (Ew : bt_writes b3 = bt_writes b).
  { unfold refold in Er. case_match; [by injection Er as <-|]. apply bind_Ok in Er as (p & _ & Er).
    by injection Er as <-. }
  apply bind_Ok in E1 as ([[head|theirs commits writes bytes] tx] & _ & E1); injection E1 as <- <- <-; cbn;
    rewrite ?length_app, Ew; lia.
Qed.

(** The caller with the lock settles as [x]; the batch it held goes to [forming] or into
    flight, or is dropped when nobody waits on it. *)
Lemma settle_ok i b x (g : Coalescer D S) forming flight :
  gr_held g = Some (i, b) -> group_ok g -> coming x = 0 ->
  (forall n, x = AwaitingOutcome n -> n = fb_id b
     /\ exists b', fb_id b' = fb_id b /\ (forming = Some b' \/ flight = Some (Writing b'))) ->
  ((exists b', fb_id b' = fb_id b /\ (forming = Some b' \/ flight = Some (Writing b')))
   \/ forall j, gr_callers g !! j <> Some (AwaitingOutcome (fb_id b))) ->
  (forall b', forming = Some b' -> fb_id b' = fb_id b /\ flight = None /\ bt_writes (fb_batch b') <> []
     /\ bt_members (fb_batch b') < MAX_BATCH_MEMBERS /\ 1 < gr_arriving g) ->
  (forall b', flight = Some (Writing b') -> bt_writes (fb_batch b') <> []) ->
  group_ok (mkCoalescer (gr_db g) (gr_cache g) (<[i := x]> (gr_callers g)) (pred (gr_arriving g)) None forming
    (bool_decide (is_Some flight)) flight (gr_sealers g) (gr_outcomes g) (gr_next g)).
Proof.
  intros Hh Hg Hx Hxw Hkeep Hform Hfly. destruct Hg as [H1 H2 H3 H4 H5 H6 H7 H8 H9 H10].
  destruct H3 as [Hnf Hfo]; [by eexists|]. destruct (H9 i b Hh) as [Hid _].
  assert (Hfl : gr_flight g = None).
  { rewrite Hnf in H4. symmetry in H4. apply bool_decide_eq_false in H4. by apply eq_None_not_Some. }
  assert (Hi : gr_callers g !! i = Some Staging) by (apply H2; eauto).
  assert (Hxs : x <> Staging) by (intros ->; discriminate Hx).
  pose proof (tally_pos coming _ _ _ Hi) as Hp. pose proof (tally_update coming _ i x _ Hi) as Hu.
  rewrite Hx in Hu. cbn in Hp, Hu. split; cbn; try done.
  - lia.
  - intros j. rewrite staging_insert by done. split; [|by intros [? ?]]. intros [Hj (b' & Hb')%H2]. congruence.
  - intros Hf%bool_decide_eq_true. destruct forming as [b'|]; [|done].
    destruct (Hform b' eq_refl) as (_ & -> & _). by destruct Hf.
  - intros b' Hb'. destruct (Hform b' Hb') as (_ & _ & ? & ? & ?). split_and!; [done..|left; lia].
  - intros j n Hj. assert (Hopen : (exists b', fb_id b' = fb_id b /\ (forming = Some b' \/ flight = Some (Writing b'))) ->
      open_batch (mkCoalescer (gr_db g) (gr_cache g) (<[i := x]> (gr_callers g)) (pred (gr_arriving g)) None forming
        (bool_decide (is_Some flight)) flight (gr_sealers g) (gr_outcomes g) (gr_next g)) (fb_id b)).
    { intros (b' & E & [?|?]); right; [left|right]; by exists b'. }
    apply waiting_insert in Hj as [[-> Ex]|[_ Hj]].
    + destruct (Hxw n Ex) as [-> Hb']. split; [done|]. right. by apply Hopen.
    + destruct (H8 j n Hj) as [Hn [Ho|[(i' & b' & Hb' & <-)|[(b' & Hb' & _)|(b' & Hb' & _)]]]];
        [split; [done|by left]| |congruence|congruence].
      rewrite Hh in Hb'. injection Hb' as <- <-. split; [done|]. right. apply Hopen.
      destruct Hkeep as [?|Hno]; [done|by destruct (Hno j)].
  - intros b' Hb'. by destruct (Hform b' Hb') as (-> & _).
Qed.

Lemma stage_ok i b version members g :
  gr_held g = Some (i, b) -> group_ok g -> group_ok (stage i b version members g).
Proof.
  intros Hh Hg. unfold stage.
  destruct (stage_members version members (fb_batch b)) as [[[ids ours] batch]|e] eqn:Es;
    [|by apply release_staging_ok].
  pose proof (stage_members_writes _ _ _ _ _ _ Es) as Hgrow. cbv zeta.
  destruct (go_lock _ Hg) as [Hnf Hfo]; [by eexists|].
  assert (Hfl : gr_flight g = None).
  { pose proof (go_flight _ Hg) as E. rewrite Hnf in E. symmetry in E. apply bool_decide_eq_false in E.
    by apply eq_None_not_Some. }
  set (con := length (bt_writes (fb_batch b)) <? length (bt_writes batch)).
  set (x := if con then AwaitingOutcome (fb_id b) else Answered AnswerIds).
  assert (Hx : coming x = 0) by (unfold x; by destruct con).
  assert (Hxn : forall n, x = AwaitingOutcome n -> n = fb_id b /\ bt_writes batch <> []).
  { unfold x, con. intros n. destruct (Nat.ltb_spec (length (bt_writes (fb_batch b))) (length (bt_writes batch)));
      [|done]. intros [= <-]. split; [done|]. intros E. rewrite E in *. cbn in *. lia. }
  assert (Hempty : bt_writes batch = [] -> forall j, gr_callers g !! j <> Some (AwaitingOutcome (fb_id b))).
  { intros E. apply (go_fresh _ Hg i b Hh). rewrite E in Hgrow. cbn in Hgrow.
    destruct (bt_writes (fb_batch b)); [done|cbn in Hgrow; lia]. }
  pose proof (settle_ok i b x g) as Hs. rewrite Hnf, Hfl.
  destruct (bool_decide (bt_writes batch = [])) eqn:Ee.
  - apply bool_decide_eq_true in Ee. rewrite andb_false_r.
    apply (Hs None None); try done; [|by right; apply Hempty].
    intros n Hn. by destruct (Hxn n Hn) as [_ ?].
  - apply bool_decide_eq_false in Ee. rewrite andb_true_r.
    destruct ((pred (gr_arriving g) =? 0) || (MAX_BATCH_MEMBERS <=? bt_members batch)) eqn:Esl.
    + apply (Hs None (Some (Writing (mkFormed (fb_id b) batch)))); try done.
      * intros n Hn. destruct (Hxn n Hn) as [-> _]. split; [done|]. exists (mkFormed (fb_id b) batch). auto.
      * left. exists (mkFormed (fb_id b) batch). auto.
      * by intros b' [= <-].
    + apply orb_false_iff in Esl as [E1%Nat.eqb_neq E2%Nat.leb_gt].
      apply (Hs (Some (mkFormed (fb_id b) batch)) None); try done.
      * intros n Hn. destruct (Hxn n Hn) as [-> _]. split; [done|]. exists (mkFormed (fb_id b) batch). auto.
      * left. exists (mkFormed (fb_id b) batch). auto.
      * intros b' [= <-]. cbn. split_and!; [done|done|done|done|lia].
Qed.

Lemma seal_ok g : gr_held g = None -> group_ok g -> group_ok (seal_abandoned g).
Proof.
  intros Hh Hg. destruct Hg as [H1 H2 H3 H4 H5 H6 H7 H8 H9 H10]. unfold seal_abandoned.
  destruct (gr_in_flight g || (0 <? gr_arriving g)) eqn:Eb.
  - split; cbn; try done. intros b Hb. destruct (H6 b Hb) as (? & ? & _). split_and!; [done..|].
    apply orb_true_iff in Eb as [Ef|Ea%Nat.ltb_lt]; [by rewrite H5 in Hb|by left].
  - apply orb_false_iff in Eb as [Ef _].
    destruct (gr_forming g) as [b|] eqn:Efo.
    2: { split; cbn; try done; try (by rewrite Hh; intros []).
         intros j n Hj. destruct (H8 j n Hj) as [Hn Hor]. split; [done|]. destruct Hor as [?|Hr]; [by left|right].
         destruct Hr as [Hr|[(b & Hb & _)|Hr]]; [by left|congruence|by right; right]. }
    destruct (H6 b eq_refl) as (Hw & _). rewrite bool_decide_false by done.
    assert (Hfl : gr_flight g = None).
    { rewrite Ef in H4. symmetry in H4. apply bool_decide_eq_false in H4. by apply eq_None_not_Some. }
    split; cbn; try done.
    + rewrite Hh. by intros [].
    + by intros b' [= <-].
    + intros j n Hj. destruct (H8 j n Hj) as [Hn Hor]. split; [done|].
      destruct Hor as [?|[(i' & b' & Hb' & _)|[(b' & Hb' & <-)|(b' & Hb' & _)]]];
        [by left|congruence| |congruence].
      right. right. right. exists b. rewrite Efo in Hb'. injection Hb' as <-. done.
Qed.

Lemma land_write_ok b fault g :
  gr_flight g = Some (Writing b) -> group_ok g -> group_ok (land_write b fault g).
Proof.
  intros Hf Hg. destruct Hg as [H1 H2 H3 H4 H5 H6 H7 H8 H9 H10]. unfold land_write.
  destruct (land fault (fb_batch b) (gr_db g) (gr_cache g)) as [[o d] c].
  split; cbn; try done.
  - by rewrite H4, Hf.
  - intros j n Hj. destruct (H8 j n Hj) as [Hn Hor]. split; [done|]. rewrite lookup_insert.
    case_decide; [left; eauto|].
    destruct Hor as [?|[Hr|[Hr|(b' & Hb' & <-)]]]; [by left|right; by left|right; right; by left|].
    rewrite Hf in Hb'. by injection Hb' as <-.
Qed.

Lemma land_reopen_ok g :
  gr_flight g = Some Reopening -> group_ok g -> group_ok (land_reopen g).
Proof.
  intros Hf Hg. destruct Hg as [H1 H2 H3 H4 H5 H6 H7 H8 H9 H10]. split; cbn; try done.
  - intros Hh. split; [done|]. by apply H3.
  - intros j n Hj. destruct (H8 j n Hj) as [Hn Hor]. split; [done|].
    destruct Hor as [?|[Hr|[Hr|(b' & Hb' & _)]]]; [by left|right; by left|right; right; by left|congruence].
Qed.

(** A waiting caller leaves, told or interrupted. *)
Lemma leave_ok i n a g :
  gr_callers g !! i = Some (AwaitingOutcome n) -> group_ok g ->
  group_ok (mkCoalescer (gr_db g) (gr_cache g) (<[i := Answered a]> (gr_callers g)) (gr_arriving g)
    (gr_held g) (gr_forming g) (gr_in_flight g) (gr_flight g) (gr_sealers g) (gr_outcomes g) (gr_next g)).
Proof.
  intros Hi Hg. destruct Hg as [H1 H2 H3 H4 H5 H6 H7 H8 H9 H10]. split; cbn; try done.
  - pose proof (tally_update coming _ i (Answered a) _ Hi) as Hu. cbn in Hu. lia.
  - intros j. rewrite staging_insert by done. rewrite <-H2. split; [by intros []|].
    intros Hj. split; [congruence|done].
  - intros j m [[-> [=]]|[_ Hj]]%waiting_insert. by apply (H8 j).
  - intros j b Hb. destruct (H9 j b Hb) as [Hn Hw]. split; [done|].
    intros E k [[-> [=]]|[_ Hk]]%waiting_insert. by apply (Hw E k).
Qed.

Lemma internal_ok g g' : internal g g' -> group_ok g -> group_ok g'.
Proof.
  destruct 1; [by apply admit_ok|by apply stage_ok|by eapply abandon_ok|by apply seal_ok|by apply land_write_ok
    |by apply land_reopen_ok|by eapply leave_ok].
Qed.

Lemma external_ok g g' : external g g' -> group_ok g -> group_ok g'.
Proof.
  destruct 1; [by apply arrive_ok|by eapply abandon_ok|by apply release_staging_ok
    |by eapply leave_ok|]. intros []. by split.
Qed.

(** Along any run: the arrival count is exact; the lock, a forming batch and a batch in
    flight exclude one another as [Shared] says; what flies is not empty; a batch keeps
    forming only while someone is on the way to it. *)
Lemma group_run_ok d c g : rtc step (Coalescer_new d c) g -> group_ok g.
Proof.
  intros Hr. remember (Coalescer_new d c) as g0 eqn:E0.
  assert (Hg : group_ok g0) by (subst; apply group_ok_new). clear E0.
  induction Hr as [|g1 g2 g3 [Hst|Hst] _ IH]; [done|..]; apply IH; [by eapply internal_ok|by eapply external_ok].
Qed.

(** ** Nobody waits forever *)

Definition weight (x : Caller) : nat :=
  match x with Arriving => 9 | Staging => 8 | Leaving _ => 4 | AwaitingOutcome _ => 1 | Answered _ => 0 end.
Definition flight_weight (f : option (Flight S)) : nat :=
  match f with None => 0 | Some Reopening => 1 | Some (Writing _) => 2 end.
Definition measure (g : Coalescer D S) : nat :=
  tally weight (gr_callers g) + 3 * gr_sealers g + flight_weight (gr_flight g).

Lemma abandon_measure in_runtime i a g x :
  gr_callers g !! i = Some x -> measure (abandon in_runtime i a g) + weight x <= measure g + 3.
Proof.
  intros Hi. unfold measure, abandon. cbn [gr_callers gr_sealers gr_flight].
  pose proof (tally_update weight _ i (Answered a) _ Hi) as Hu. cbn [weight] in Hu.
  destruct (_ && _); lia.
Qed.

Lemma release_measure i a g x :
  gr_callers g !! i = Some x -> measure (release i a g) + weight x = measure g + 4.
Proof.
  intros Hi. unfold measure, release. cbn [gr_callers gr_sealers gr_flight].
  pose proof (tally_update weight _ i (Leaving a) _ Hi) as Hu. cbn [weight] in Hu. lia.
Qed.

Lemma internal_measure g g' : group_ok g -> internal g g' -> measure g' < measure g.
Proof.
  intros Hg Hs. destruct Hs as [g i Hi Hh Hf|g i b version members Hh|g i a rt Hi Hc|g Hh Hs|g b fault Hf|g Hf Hh|g i n o Hi Ho].
  - unfold Coalescer_admit. pose proof (tally_update weight _ i Staging _ Hi) as Hu. cbn [weight] in Hu.
    destruct (gr_forming g); [unfold measure; cbn; lia|].
    destruct (Batch_open _ _) as [[batch c]|e]; [unfold measure; cbn; lia|].
    pose proof (release_measure i (AnswerError e) g _ Hi). cbn [weight] in *. lia.
  - assert (Hi : gr_callers g !! i = Some Staging) by (apply (go_held _ Hg); eauto). unfold stage.
    destruct (stage_members _ _ _) as [[[ids ours] batch]|e].
    2: { pose proof (release_measure i (AnswerError e) (discard_batch b g) _ Hi) as Hm. cbn [weight] in Hm.
         change (measure (discard_batch b g)) with (measure g) in Hm. lia. }
    cbv zeta. set (x := if _ : bool then AwaitingOutcome (fb_id b) else Answered AnswerIds).
    pose proof (tally_update weight _ i x _ Hi) as Hu. cbn [weight] in Hu.
    assert (Hx : weight x <= 1) by (unfold x; case_match; cbn; lia).
    repeat case_match; unfold measure; cbn [gr_callers gr_sealers gr_flight flight_weight]; lia.
  - pose proof (abandon_measure rt i a g _ Hi). cbn [weight] in *. lia.
  - unfold seal_abandoned, measure. repeat case_match; cbn; lia.
  - unfold land_write, measure. rewrite Hf. destruct (land _ _ _ _) as [[o d] c]. cbn. lia.
  - unfold measure. rewrite Hf. cbn. lia.
  - pose proof (tally_update weight _ i (Answered (AnswerOutcome o)) _ Hi) as Hu. cbn [weight] in Hu.
    unfold measure. cbn. lia.
Qed.

(** While a caller has no answer, some turn is there to be taken. *)
Lemma progress g i x :
  group_ok g -> gr_callers g !! i = Some x -> (forall a, x <> Answered a) -> red internal g.
Proof.
  intros Hg Hi Hx. destruct Hg as [H1 H2 H3 H4 H5 H6 H7 H8 H9 H10].
  destruct (gr_flight g) as [[b|]|] eqn:Ef.
  { eexists. by apply (int_write g b NoFault). }
  { eexists. apply int_reopen; [done|]. apply eq_None_not_Some. intros Hh. destruct (H3 Hh) as [E _].
    rewrite H4 in E. by apply bool_decide_eq_false in E; destruct E. }
  destruct (gr_held g) as [[j b]|] eqn:Eh; [eexists; by apply (int_stage g j b "" [])|].
  assert (Hnf : gr_in_flight g = false) by (by rewrite H4).
  assert (Hadm : 0 < gr_arriving g -> red internal g).
  { intros Ha. rewrite H1 in Ha. destruct (tally_find _ _ Ha) as (j & y & Hj & Hy).
    destruct y; cbn in Hy; try lia; [eexists; by apply (int_admit g j)| |].
    - apply H2 in Hj as [b Hb]. done.
    - eexists. eapply int_leave; [exact Hj|by left]. }
  destruct x as [| |a|n|a]; [by eexists; apply (int_admit g i)| | | |by destruct (Hx a)].
  { apply H2 in Hi as [b Hb]. done. }
  { eexists. eapply int_leave; [exact Hi|by left]. }
  destruct (H8 i n Hi) as [_ [[o Ho]|[(j & b & Hb & _)|[(b & Hb & _)|(b & Hb & _)]]]];
    [eexists; by eapply int_await|congruence| |congruence].
  destruct (H6 b Hb) as (_ & _ & [Ha|Hs]); [by apply Hadm|]. eexists. by apply int_seal.
Qed.
End Invariant.

(** C4: no caller waits forever.  From any state concurrent callers, interrupts, staging
    errors, failed writes and other committers can bring the rendezvous to, its own turns
    (admitting, staging, leaving, sealing, writing, reopening, telling) cannot go on
    without end, and when none is left every caller has been answered: no interleaving
    strands a member on a batch nobody will seal or on an outcome nobody will publish.
    A caller that goes without settling is dropped inside a runtime, or where it is not
    the last or no batch forms ([drop_covered]). *)
Theorem every_caller_answered {D S} `{DB : Database D S} `{SK : Storekey, MS : Messages}
    (d : D) (c : ProjectionCache) (g : Coalescer D S) :
  rtc step (Coalescer_new d c) g ->
  sn internal g
  /\ forall g', rtc internal g g' -> nf internal g' ->
       forall i x, gr_callers g' !! i = Some x -> exists a, x = Answered a.
Proof.
  intros Hr. pose proof (group_run_ok d c g Hr) as Hg. split.
  - clear Hr. remember (measure g) as n eqn:En. revert g En Hg.
    induction n as [n IH] using lt_wf_ind. intros g -> Hg. constructor. intros g' Hs.
    eapply IH; [by apply internal_measure|done|by eapply internal_ok].
  - intros g' Hrt Hnf i x Hi. assert (Hg' : group_ok g').
    { clear Hnf Hi Hr. induction Hrt as [|g1 g2 g3 Hst _ IH]; [done|]. apply IH. by eapply internal_ok. }
    destruct x as [| |a|n|a]; [..|by eexists]; destruct Hnf; by eapply progress.
Qed.

(** ** Witness *)

#[local] Existing Instances reference_storekey reference_storekey_laws reference_messages
  reference_messages_laws.

(** Two callers arrive, the first stages, the second is interrupted on its way in. *)
Definition crowd0 : Coalescer LogDb (gmap bytes bytes) :=
  arrive 1 (arrive 0 (Coalescer_new db0 ProjectionCache_empty)).
Definition crowd1 : Coalescer LogDb (gmap bytes bytes) := Coalescer_admit 0 crowd0.
Definition crowd2 : Coalescer LogDb (gmap bytes bytes) :=
  match gr_held crowd1 with
  | Some (i, b) => stage i b "v" [(0%Z, member0)] crowd1
  | None => crowd1
  end.
Definition crowd3 : Coalescer LogDb (gmap bytes bytes) := abandon true 1 (AnswerError Interrupted) crowd2.

Lemma crowd3_reached : rtc step (Coalescer_new db0 ProjectionCache_empty) crowd3.
Proof.
  eapply rtc_l; [right; apply (ext_arrive _ 0); reflexivity|].
  eapply rtc_l; [right; apply (ext_arrive _ 1); reflexivity|].
  eapply rtc_l; [left; apply (int_admit crowd0 0); reflexivity|].
  eapply (rtc_l _ _ crowd2).
  { left. unfold crowd2. destruct (gr_held crowd1) as [[i b]|] eqn:Eh.
    - by apply int_stage.
    - exfalso. assert (Ho : match gr_held crowd1 with Some _ => true | None => false end = true)
        by (vm_compute; reflexivity). by rewrite Eh in Ho. }
  apply rtc_once. right. apply ext_interrupt_arriving; [vm_compute; reflexivity|by left].
Qed.

Lemma every_caller_answered_witness :
  gr_callers crowd3 !! 0 = Some (AwaitingOutcome 0)
  /\ match gr_forming crowd3 with Some _ => True | None => False end /\ sn internal crowd3
  /\ forall g', rtc internal crowd3 g' -> nf internal g' -> forall x, gr_callers g' !! 0 = Some x -> exists a, x = Answered a.
Proof.
  destruct (every_caller_answered db0 ProjectionCache_empty crowd3 crowd3_reached) as [Hs Ha].
  split; [vm_compute; reflexivity|]. split; [vm_compute; exact I|]. split; [exact Hs|].
  intros g' Hr Hn x. exact (Ha g' Hr Hn 0 x).
Defined.
