(* ===== verification/Migration.v ===== *)
(** Structural migration ([transaction/migration.rs], [transaction/migration/synthetic.rs]):
    the planner, and the driver that walks a unit by a start batch, step batches and a
    finish batch, with the crash seams of [fault.rs] between them and writes that fail
    with the batch landed or not.  An interrupted migration resumes to the very store
    an uninterrupted one leaves. *)
From stdpp Require Import gmap strings list fin_maps sorting relations.
From Stdlib Require Import NArith ZArith Lia.
From S2P Require Import Prelude Storekey KeyLayout Values Snapshot Catalog Store Fold Materialize IndexMaintenance Projection Landing Verbs Commit Cycle.

Local Open Scope N_scope.

(** ** Units and plans *)

(** [CrashPoint] of [fault.rs]: the seams between the durable batches. *)
Inductive CrashPoint : Type := AfterStart | AfterStep | BeforeFinish | AfterFinish.

(** [StepProgress]: the cursor the next step resumes at, and what was staged. *)
Record StepProgress : Type := mkStepProgress { sp_cursor : bytes; sp_staged : N }.

(** [MigrationUnit]: a step stages its part of the rewrite onto the transaction; no
    progress means the walk is done. *)
Record MigrationUnit (T : Type) : Type := mkMigrationUnit {
  mu_name : string;
  mu_from_format : N;
  mu_to_format : N;
  mu_step : bytes -> Tx T (option StepProgress);
}.
Arguments mkMigrationUnit {T} _ _ _ _.
Arguments mu_name {T} _.
Arguments mu_from_format {T} _.
Arguments mu_to_format {T} _.
Arguments mu_step {T} _ _.

Record MigrationReport : Type := mkMigrationReport {
  mr_from_format : N;
  mr_to_format : N;
  mr_units_run : list string;
  mr_resumed : bool;
}.

Record Plan (T : Type) : Type := mkPlan {
  pl_units : list (MigrationUnit T);
  pl_resume : option bytes;
}.
Arguments mkPlan {T} _ _.
Arguments pl_units {T} _.
Arguments pl_resume {T} _.

Section Planner.
  Context {T : Type}.

(** [MIGRATIONS]: every format to date is additive, so none ships.  [registry] adds
    what a fault-injection build installed. *)
Definition MIGRATIONS : list (MigrationUnit T) := [].
Definition registry (installed : list (MigrationUnit T)) : list (MigrationUnit T) := MIGRATIONS ++ installed.

Definition unit_from (units : list (MigrationUnit T)) (format : N) : option (MigrationUnit T) :=
  List.find (fun u => mu_from_format u =? format) units.

(** The loop of [chain_from]; [None] when the fuel runs out. *)
Fixpoint chain_loop (fuel : nat) (units : list (MigrationUnit T)) (format : N)
  : option (list (MigrationUnit T)) :=
  match unit_from units format with
  | None => Some []
  | Some u =>
      match fuel with
      | O => None
      | S fuel => cons u <$> chain_loop fuel units (mu_to_format u)
      end
  end.
(** [chain_from]: a registry in ascending order has no chain longer than itself. *)
Definition chain_from (units : list (MigrationUnit T)) (format : N) : option (list (MigrationUnit T)) :=
  chain_loop (length units) units format.

(** [plan]; [None] only where [chain_from] does not end. *)
Definition plan (units : list (MigrationUnit T)) (format : N) (marker : option MigrationValue)
  : option (result (Plan T)) :=
  match marker with
  | None => (fun chain => Ok (mkPlan chain None)) <$> chain_from units format
  | Some marker =>
      if negb (mig_from_format marker =? format) then Some (Err Corruption)
      else
        match List.find (fun u => (mu_from_format u =? mig_from_format marker)
                && (mu_to_format u =? mig_to_format marker)) units with
        | None => Some (Err Migration)
        | Some interrupted =>
            (fun chain => Ok (mkPlan (interrupted :: chain) (Some (mig_cursor marker))))
              <$> chain_from units (mu_to_format interrupted)
        end
  end.
End Planner.

(** ** The driver *)

(** What the world does to a run: how the n-th durable write fares, and whether the
    process dies at a seam once n writes were issued. *)
Record Hazards : Type := mkHazards {
  hz_fault : nat -> WriteFault;
  hz_crash : nat -> CrashPoint -> option Error;
}.
Definition calm_seas : Hazards := mkHazards (fun _ => NoFault) (fun _ _ => None).

Section Driver.
  Context {D S : Type} `{DB : Database D S} `{SK : Storekey, MS : Messages}.

(** A program of the driver: over the database and the count of writes issued; [None]
    when it has not come to an end within its fuel. *)
Definition Drive (A : Type) : Type := D * nat -> option (result A) * (D * nat).

#[export] Instance drive_mret : MRet Drive := fun A a v => (Some (Ok a), v).
#[export] Instance drive_mbind : MBind Drive := fun A B f m v =>
  match m v with
  | (Some (Ok a), v) => f a v
  | (Some (Err e), v) => (Some (Err e), v)
  | (None, v) => (None, v)
  end.

Definition dr_lift {A} (o : option (result A)) : Drive A := fun v => (o, v).
Definition dr_read {A} (m : Reader A) : Drive A := fun v => (Some (run (db_begin v.1) m), v).
Definition dr_begin : Drive (DbTransaction S) := fun v => (Some (Ok (db_begin v.1)), v).

Context (hazards : Hazards).

(** [commit_durable]; a lost race is a store error here. *)
Definition dr_commit (tx : DbTransaction S) : Drive unit := fun v =>
  match commit_durable (hz_fault hazards v.2) tx v.1 with
  | (Some r, d) => (Some r, (d, Datatypes.S v.2))
  | (None, d) => (Some (Err Store), (d, Datatypes.S v.2))
  end.

(** [crash_seam]. *)
Definition crash_seam (point : CrashPoint) : Drive unit := fun v =>
  match hz_crash hazards v.2 point with
  | Some e => (Some (Err e), v)
  | None => (Some (Ok tt), v)
  end.

(** [stage_marker]. *)
Definition marker_write (u : MigrationUnit (DbTransaction S)) (cursor : bytes) : StagedWrite :=
  (Key_encode (K_Sys SK_Migration),
   Some (encode_value (mkMigrationValue (mu_from_format u) (mu_to_format u) cursor))).
Definition stage_marker (u : MigrationUnit (DbTransaction S)) (cursor : bytes) : Tx (DbTransaction S) N :=
  stage_writes [marker_write u cursor] 0.

(** A staged part of a batch, rolled back with it on an error. *)
Definition dr_stage {A} (m : Tx (DbTransaction S) A) (tx : DbTransaction S) : Drive (A * DbTransaction S) :=
  dr_lift (Some (m tx)).

(** [start]. *)
Definition start (u : MigrationUnit (DbTransaction S)) : Drive unit :=
  tx ← dr_begin;
  '(_, tx) ← dr_stage (stage_marker u []) tx;
  dr_commit tx.

(** [finish]: the format flip and the marker clear, in one batch. *)
Definition finish_writes (version : string) (u : MigrationUnit (DbTransaction S)) : list StagedWrite :=
  [(Key_encode (K_Sys SK_Format), Some (encode_value (mkFormatValue (mu_to_format u) version)));
   (Key_encode (K_Sys SK_Migration), None)].
Definition finish (version : string) (u : MigrationUnit (DbTransaction S)) : Drive unit :=
  tx ← dr_begin;
  '(_, tx) ← dr_stage (stage_writes (finish_writes version u) 0) tx;
  dr_commit tx.

(** The loop of [run_unit]: step batches until the walk is done. *)
Fixpoint step_loop (fuel : nat) (u : MigrationUnit (DbTransaction S)) (cursor : bytes) : Drive unit :=
  match fuel with
  | O => dr_lift None
  | Datatypes.S fuel =>
      tx ← dr_begin;
      '(outcome, tx) ← dr_stage (mu_step u cursor) tx;
      match outcome with
      | None => mret tt
      | Some progress =>
          '(_, tx) ← dr_stage (stage_marker u (sp_cursor progress)) tx;
          _ ← dr_commit tx;
          _ ← crash_seam AfterStep;
          step_loop fuel u (sp_cursor progress)
      end
  end.

(** [run_unit]. *)
Definition run_unit (version : string) (fuel : nat) (u : MigrationUnit (DbTransaction S))
    (resume : option bytes) : Drive unit :=
  cursor ← match resume with
           | Some cursor => mret cursor
           | None => _ ← start u; _ ← crash_seam AfterStart; mret []
           end;
  _ ← step_loop fuel u cursor;
  _ ← crash_seam BeforeFinish;
  _ ← finish version u;
  crash_seam AfterFinish.

(** The units of a plan, the first of them resumed; the format and the names run. *)
Fixpoint run_units (version : string) (fuel : nat) (units : list (MigrationUnit (DbTransaction S)))
    (resume : option bytes) (to_format : N) (units_run : list string) : Drive (N * list string) :=
  match units with
  | [] => mret (to_format, units_run)
  | u :: units =>
      _ ← run_unit version fuel u resume;
      run_units version fuel units None (mu_to_format u) (units_run ++ [mu_name u])
  end.

(** [run], of [migration.rs]. *)
Definition migrate (version : string) (fuel : nat) (installed : list (MigrationUnit (DbTransaction S)))
  : Drive MigrationReport :=
  format ← dr_read read_format;
  format ← dr_lift (Some (ok_or Corruption format));
  marker ← dr_read read_migration;
  p ← dr_lift (plan (registry installed) (fm_format_version format) marker);
  '(to_format, units_run) ← run_units version fuel (pl_units p) (pl_resume p) (fm_format_version format) [];
  mret (mkMigrationReport (fm_format_version format) to_format units_run
          (bool_decide (is_Some (pl_resume p)))).
End Driver.

(** ** The synthetic units ([transaction/migration/synthetic.rs]) *)

Section Synthetic.
  Context {T : Type} `{KV T} `{SK : Storekey, MS : Messages}.

Definition SOURCE_SCOPE : N := 1.
Definition TARGET_SCOPE : N := 2.

Definition decode_cursor (cursor : bytes) : result (option N) :=
  if bool_decide (cursor = []) then Ok None
  else if (length cursor =? 8)%nat then Ok (Some (be_value cursor)) else Err Corruption.

Definition source_record (record : EntityRecord) : option (N * OptionScopeValue) :=
  match record with
  | ER_Option scope_kind scope_id value => if scope_kind =? SOURCE_SCOPE then Some (scope_id, value) else None
  | _ => None
  end.

(** The first record still under [SOURCE_SCOPE] past [start]. *)
Definition next_source_record (start : option N) : Reader (option (N * OptionScopeValue)) :=
  records ← scan_current_entities;
  let past r := match start with Some start => start <? r.1 | None => true end in
  mret (head (sort_by_key fst (List.filter past (omap source_record records)))).

(** One record per batch, the new key before the old. *)
Definition move_scope_step (cursor : bytes) : Tx T (option StepProgress) :=
  start ← tx_read (lift (decode_cursor cursor));
  found ← tx_read (next_source_record start);
  match found with
  | None => mret None
  | Some (scope_id, value) =>
      staged ← stage_writes
        [(Key_encode (Key_current (EK_Option TARGET_SCOPE scope_id)), Some (encode_value value));
         (Key_encode (Key_current (EK_Option SOURCE_SCOPE scope_id)), None)] 0;
      mret (Some (mkStepProgress (be_bytes 8 scope_id) staged))
  end.

Definition MOVE_SCOPE : MigrationUnit T :=
  mkMigrationUnit "move-option-scope" FORMAT_VERSION MAX_FORMAT_VERSION move_scope_step.

Definition no_work_step (cursor : bytes) : Tx T (option StepProgress) := mret None.
Definition SECOND_LINK : MigrationUnit T :=
  mkMigrationUnit "second-link" MAX_FORMAT_VERSION (MAX_FORMAT_VERSION + 1) no_work_step.

Definition REWRITE : list (MigrationUnit T) := [MOVE_SCOPE].
Definition REWRITE_THEN_LINK : list (MigrationUnit T) := [MOVE_SCOPE; SECOND_LINK].
End Synthetic.

(** ** The durable path *)

(** *** Finding a unit *)

Lemma filter_fewer {A} (P Q : A -> Prop) `{forall x, Decision (P x), forall x, Decision (Q x)} (x : A) l :
  x ∈ l -> P x -> ~ Q x -> (forall y, Q y -> P y) -> (length (filter Q l) < length (filter P l))%nat.
Proof.
  intros Hx HP HQ Himp. induction l as [|y l IH]; [by apply elem_of_nil in Hx|].
  assert (Hle : (length (filter Q l) <= length (filter P l))%nat).
  { clear -Himp. induction l as [|z l IH]; [done|]. rewrite !filter_cons.
    destruct (decide (Q z)), (decide (P z)); cbn; try lia. exfalso. by eauto. }
  rewrite !filter_cons. apply elem_of_cons in Hx as [->|Hx].
  - rewrite decide_False, decide_True by done. cbn. lia.
  - specialize (IH Hx). destruct (decide (Q y)), (decide (P y)); cbn; try lia. exfalso. by eauto.
Qed.

(** A write that stays off the two records the driver keeps. *)
Definition off_sys `{Storekey} (w : StagedWrite) : Prop :=
  w.1 <> Key_encode (K_Sys SK_Format) /\ w.1 <> Key_encode (K_Sys SK_Migration).

(** What a registry promises: units ascend, no two read one format, and their steps
    stay off the driver's records. *)
Record registry_ok {S} `{KV S, Storekey} (units : list (MigrationUnit (DbTransaction S))) : Prop := {
  ro_ascending : Forall (fun u => mu_from_format u < mu_to_format u) units;
  ro_distinct : NoDup (map mu_from_format units);
  ro_steps : Forall (fun u => forall cursor, stages off_sys (mu_step u cursor)) units;
}.

Section Path.
  Context {D S : Type} `{DL : DatabaseLaws D S} `{KL : !KVLaws S, SKL : StorekeyLaws, MSL : MessagesLaws}.
  Context (units : list (MigrationUnit (DbTransaction S))) (version : string).

(** No migration in flight, at format [v]. *)
Definition resting (d : D) (v : N) : Prop :=
  exists fm, run (db_state d) read_format = Ok (Some fm) /\ fm_format_version fm = v
    /\ run (db_state d) read_migration = Ok None.

(** [u] in flight, its walk at [cursor]. *)
Definition moving (d : D) (u : MigrationUnit (DbTransaction S)) (cursor : bytes) : Prop :=
  u ∈ units /\ exists fm, run (db_state d) read_format = Ok (Some fm)
    /\ fm_format_version fm = mu_from_format u
    /\ run (db_state d) read_migration
       = Ok (Some (mkMigrationValue (mu_from_format u) (mu_to_format u) cursor)).

(** The one batch each durable state calls for. *)
Inductive advances_to (d : D) : D -> Prop :=
| adv_start v u :
    resting d v -> unit_from units v = Some u -> advances_to d (db_apply d [marker_write u []])
| adv_step u cursor progress tx :
    moving d u cursor -> mu_step u cursor (db_begin d) = Ok (Some progress, tx) ->
    advances_to d (db_apply d (dt_writes tx ++ [marker_write u (sp_cursor progress)]))
| adv_finish u cursor tx :
    moving d u cursor -> mu_step u cursor (db_begin d) = Ok (None, tx) ->
    advances_to d (db_apply d (finish_writes version u)).

Lemma resting_moving d v u cursor : resting d v -> ~ moving d u cursor.
Proof. intros (fm & _ & _ & E) (_ & fm' & _ & _ & E'). congruence. Qed.

Lemma resting_eq d v v' : resting d v -> resting d v' -> v = v'.
Proof. intros (fm & E & <- & _) (fm' & E' & <- & _). congruence. Qed.

Lemma same_from u u' :
  NoDup (map mu_from_format units) -> u ∈ units -> u' ∈ units -> mu_from_format u = mu_from_format u' -> u = u'.
Proof.
  intros Hd [i Hi]%list_elem_of_lookup [j Hj]%list_elem_of_lookup Ef.
  assert (i = j) as ->; [|congruence].
  eapply NoDup_lookup; [exact Hd|rewrite list_lookup_fmap, Hi; reflexivity|].
  by rewrite list_lookup_fmap, Hj, Ef.
Qed.

Lemma moving_eq d u u' cursor cursor' :
  NoDup (map mu_from_format units) -> moving d u cursor -> moving d u' cursor' -> u = u' /\ cursor = cursor'.
Proof.
  intros Hd (Hu & fm & _ & _ & E) (Hu' & fm' & _ & _ & E'). rewrite E in E'. injection E' as Ef Et ->.
  split; [by apply same_from|done].
Qed.

Lemma find_unit u :
  NoDup (map mu_from_format units) -> u ∈ units ->
  List.find (fun w => (mu_from_format w =? mu_from_format u) && (mu_to_format w =? mu_to_format u)) units = Some u.
Proof.
  intros Hd Hu. destruct (List.find _ units) as [w|] eqn:E.
  - apply List.find_some in E as [Hw Eb]. apply list_elem_of_In in Hw.
    apply andb_true_iff in Eb as [Ef%N.eqb_eq _]. by rewrite (same_from w u).
  - apply list_elem_of_In in Hu. pose proof (List.find_none _ _ E _ Hu) as Eb. cbn in Eb.
    by rewrite !N.eqb_refl in Eb.
Qed.

Lemma advances_det d d1 d2 :
  NoDup (map mu_from_format units) -> advances_to d d1 -> advances_to d d2 -> d1 = d2.
Proof.
  intros Hd H1 H2. destruct H1 as [v u Hr Hu|u c p tx Hm Es|u c tx Hm Es];
    destruct H2 as [v' u' Hr' Hu'|u' c' p' tx' Hm' Es'|u' c' tx' Hm' Es'];
    try (exfalso; eapply resting_moving; eassumption);
    try (destruct (moving_eq _ _ _ _ _ Hd Hm Hm') as [<- <-]; rewrite Es in Es'; by simplify_eq).
  pose proof (resting_eq _ _ _ Hr Hr') as <-. rewrite Hu in Hu'. by simplify_eq.
Qed.

Lemma unit_from_elem v u : unit_from units v = Some u -> u ∈ units /\ mu_from_format u = v.
Proof.
  intros [Hin E]%List.find_some. apply N.eqb_eq in E. split; [by apply list_elem_of_In|done].
Qed.

Lemma sys_get (d : D) ws k v :
  last_write ws (Key_encode (K_Sys k)) = Some v -> kv_get (db_state (db_apply d ws)) (Key_encode (K_Sys k)) = v.
Proof.
  intros E. transitivity (kv_get (kv_apply (db_state d) ws) (Key_encode (K_Sys k))).
  - apply (db_state_apply d ws).
  - by rewrite kv_get_apply, E.
Qed.

Lemma sys_kept (d : D) ws k :
  last_write ws (Key_encode (K_Sys k)) = None ->
  kv_get (db_state (db_apply d ws)) (Key_encode (K_Sys k)) = kv_get (db_state d) (Key_encode (K_Sys k)).
Proof.
  intros E. transitivity (kv_get (kv_apply (db_state d) ws) (Key_encode (K_Sys k))).
  - apply (db_state_apply d ws).
  - by rewrite kv_get_apply, E.
Qed.

Lemma sys_keys_differ : Key_encode (K_Sys SK_Format) <> Key_encode (K_Sys SK_Migration).
Proof. intros E. apply Key_encode_eq in E; [discriminate|done|done]. Qed.

Lemma off_sys_none ws k :
  k = SK_Format \/ k = SK_Migration -> Forall off_sys ws -> last_write ws (Key_encode (K_Sys k)) = None.
Proof.
  intros Hk Hf. apply last_write_none. intros v Hin. rewrite Forall_forall in Hf.
  destruct (Hf _ Hin) as [H1 H2]. by destruct Hk as [->| ->].
Qed.

Lemma marker_last ws (u : MigrationUnit (DbTransaction S)) cursor :
  last_write (ws ++ [marker_write u cursor]) (Key_encode (K_Sys SK_Migration))
    = Some (Some (encode_value (mkMigrationValue (mu_from_format u) (mu_to_format u) cursor)))
  /\ last_write (ws ++ [marker_write u cursor]) (Key_encode (K_Sys SK_Format))
    = last_write ws (Key_encode (K_Sys SK_Format)).
Proof.
  rewrite !last_write_snoc. rewrite decide_True by done.
  by rewrite decide_False by (intros E; by apply sys_keys_differ).
Qed.

(** A batch that ends in the marker and leaves the format alone is one of a unit in
    flight. *)
Lemma marked_moving d ws u cursor fm :
  u ∈ units -> run (db_state d) read_format = Ok (Some fm) -> fm_format_version fm = mu_from_format u ->
  Forall off_sys ws -> moving (db_apply d (ws ++ [marker_write u cursor])) u cursor.
Proof.
  intros Hu Ef Ev Hw. destruct (marker_last ws u cursor) as [Em El].
  split; [done|]. exists fm. split_and!; [|done|].
  - rewrite <-Ef. apply run_singleton_same, sys_kept. rewrite El. apply off_sys_none; [by left|done].
  - apply run_singleton. by apply sys_get.
Qed.

Lemma start_moves d v u :
  resting d v -> unit_from units v = Some u -> moving (db_apply d [marker_write u []]) u [].
Proof.
  intros (fm & Ef & <- & _) [Hu Ev]%unit_from_elem. by eapply (marked_moving d []); [..|constructor].
Qed.

Lemma step_moves d u cursor progress tx :
  registry_ok units -> moving d u cursor -> mu_step u cursor (db_begin d) = Ok (Some progress, tx) ->
  dt_start tx = db_seq d
  /\ moving (db_apply d (dt_writes tx ++ [marker_write u (sp_cursor progress)])) u (sp_cursor progress).
Proof.
  intros Hok (Hu & fm & Ef & Ev & _) Es.
  pose proof (proj1 (Forall_forall _ _) (ro_steps _ Hok) u Hu cursor _ _ _ Es) as (ws & Ha & Hw).
  destruct (applied_tx _ _ _ Ha) as (Est & Ewr & _). split; [done|].
  rewrite Ewr. cbn [db_begin dt_writes app]. by eapply marked_moving.
Qed.

Lemma finish_rests d u cursor : moving d u cursor -> resting (db_apply d (finish_writes version u)) (mu_to_format u).
Proof.
  intros _. exists (mkFormatValue (mu_to_format u) version).
  unfold finish_writes. split_and!; [|done|].
  - apply run_singleton, sys_get. rewrite !last_write_cons, last_write_nil. cbn [fst snd].
    rewrite decide_False by (intros E; by apply sys_keys_differ). by rewrite decide_True.
  - apply run_singleton_none, sys_get. rewrite !last_write_cons, last_write_nil. cbn [fst snd].
    by rewrite decide_True.
Qed.

(** Where a durable state stands: at rest, or with one unit in flight. *)
Definition sound (d : D) : Prop := (exists v, resting d v) \/ (exists u cursor, moving d u cursor).

Lemma advances_sound d d' : registry_ok units -> advances_to d d' -> sound d'.
Proof.
  intros Hok [v u Hr Hu|u c p tx Hm Es|u c tx Hm Es].
  - right. eexists _, _. by eapply start_moves.
  - right. eexists _, _. by eapply step_moves.
  - left. eexists. by eapply finish_rests.
Qed.

(** The path ends at rest, at a format no unit reads. *)
Lemma rest_stuck d v d' : resting d v -> unit_from units v = None -> ~ advances_to d d'.
Proof.
  intros Hr Hn [v' u Hr' Hu|u c p tx Hm Es|u c tx Hm Es]; [|by eapply resting_moving..].
  pose proof (resting_eq _ _ _ Hr Hr'). congruence.
Qed.

(** ** Runs follow the path *)

(** Whatever befalls a program of the driver, the durable state moves along the path;
    when it comes to its end it leaves [Q]. *)
Definition follows {A} (d : D) (m : Drive A) (Q : A -> D -> Prop) : Prop :=
  forall t, rtc advances_to d (m (d, t)).2.1
    /\ forall a, (m (d, t)).1 = Some (Ok a) -> Q a (m (d, t)).2.1.

Lemma follows_ret {A} (a : A) d (Q : A -> D -> Prop) : Q a d -> follows d (mret a) Q.
Proof. intros HQ t. split; [done|by intros ? [= <-]]. Qed.

Lemma follows_lift {A} (o : option (result A)) d (Q : A -> D -> Prop) :
  (forall a, o = Some (Ok a) -> Q a d) -> follows d (dr_lift o) Q.
Proof. intros HQ t. by split; [|apply HQ]. Qed.

Lemma follows_read {A} (m : Reader A) d (Q : A -> D -> Prop) :
  (forall a, run (db_state d) m = Ok a -> Q a d) -> follows d (dr_read m) Q.
Proof. intros HQ t. split; [done|]. cbn. rewrite run_begin. intros a [= E]. by apply HQ. Qed.

Lemma follows_bind {A B} (m : Drive A) (f : A -> Drive B) d (P : A -> D -> Prop) (Q : B -> D -> Prop) :
  follows d m P -> (forall a d', P a d' -> follows d' (f a) Q) -> follows d (m ≫= f) Q.
Proof.
  intros Hm Hf t. unfold mbind, drive_mbind. destruct (Hm t) as [Hr HP].
  destruct (m (d, t)) as [[[a|e]|] [d' t']]; [|done|done]. cbn in Hr, HP.
  destruct (Hf a d' (HP a eq_refl) t') as [Hr' HQ]. split; [by etrans|done].
Qed.

Lemma follows_begin d (Q : DbTransaction S -> D -> Prop) : Q (db_begin d) d -> follows d dr_begin Q.
Proof. intros HQ t. split; [done|by intros ? [= <-]]. Qed.

Lemma follows_stage {A} (m : Tx (DbTransaction S) A) tx d (Q : A * DbTransaction S -> D -> Prop) :
  (forall a tx', m tx = Ok (a, tx') -> Q (a, tx') d) -> follows d (dr_stage m tx) Q.
Proof. intros HQ. apply follows_lift. intros [a tx'] [= E]. by apply HQ. Qed.

Lemma follows_seam hazards point d (Q : unit -> D -> Prop) :
  Q tt d -> follows d (crash_seam hazards point) Q.
Proof.
  intros HQ t. unfold crash_seam. destruct (hz_crash _ _ _); (split; [done|]); [done|by intros [] _].
Qed.

Lemma follows_commit hazards tx d (Q : unit -> D -> Prop) :
  dt_start tx = db_seq d -> advances_to d (db_apply d (dt_writes tx)) -> Q tt (db_apply d (dt_writes tx)) ->
  follows d (dr_commit hazards tx) Q.
Proof.
  intros Est Ha HQ t. unfold dr_commit, commit_durable. cbn [fst snd].
  rewrite (begun_no_conflict d tx Est).
  destruct (hz_fault hazards t) as [|e []]; (split; [by eauto using rtc_once, rtc_refl|]);
    [by intros [] _|done|done].
Qed.

(** Writes staged onto a transaction end its batch. *)
Lemma stage_writes_tx ws n (tx : DbTransaction S) m tx' :
  stage_writes ws n tx = Ok (m, tx') -> dt_start tx' = dt_start tx /\ dt_writes tx' = dt_writes tx ++ ws.
Proof.
  intros E. destruct (stage_writes_applied ws n tx) as (bytes & s' & E' & Ha).
  rewrite E in E'. injection E' as _ <-. by destruct (applied_tx _ _ _ Ha) as (? & ? & _).
Qed.

Context (Hok : registry_ok units) (hazards : Hazards).

Lemma follows_start d v u :
  resting d v -> unit_from units v = Some u ->
  follows d (start hazards u) (fun _ d' => moving d' u []).
Proof.
  intros Hr Hu. unfold start. eapply follows_bind; [by apply (follows_begin d (fun tx d' => tx = db_begin d /\ d' = d))|].
  intros tx d' [-> ->]. eapply follows_bind.
  - apply (follows_stage _ _ _ (fun r d' => dt_start r.2 = db_seq d /\ dt_writes r.2 = [marker_write u []] /\ d' = d)).
    intros a tx' [E1 E2]%stage_writes_tx. done.
  - intros [n tx'] d' (E1 & E2 & ->). cbn in E1, E2. apply follows_commit; [done|rewrite E2..].
    + by eapply adv_start.
    + by eapply start_moves.
Qed.

(** The end of a unit's walk. *)
Definition walked (d : D) (u : MigrationUnit (DbTransaction S)) : Prop :=
  exists cursor tx, moving d u cursor /\ mu_step u cursor (db_begin d) = Ok (None, tx).

Lemma follows_finish d u :
  walked d u -> follows d (finish hazards version u) (fun _ d' => resting d' (mu_to_format u)).
Proof.
  intros (c & tx0 & Hm & Es). unfold finish.
  eapply follows_bind; [by apply (follows_begin d (fun tx d' => tx = db_begin d /\ d' = d))|].
  intros tx d' [-> ->]. eapply follows_bind.
  - apply (follows_stage _ _ _ (fun r d' => dt_start r.2 = db_seq d /\ dt_writes r.2 = finish_writes version u /\ d' = d)).
    intros a tx' [E1 E2]%stage_writes_tx. done.
  - intros [n tx'] d' (E1 & E2 & ->). cbn in E1, E2. apply follows_commit; [done|rewrite E2..].
    + by eapply adv_finish.
    + by eapply finish_rests.
Qed.

Lemma follows_loop fuel u : forall d cursor,
  moving d u cursor -> follows d (step_loop hazards fuel u cursor) (fun _ d' => walked d' u).
Proof.
  induction fuel as [|fuel IH]; intros d cursor Hm; cbn [step_loop]; [by apply follows_lift|].
  eapply follows_bind; [by apply (follows_begin d (fun tx d' => tx = db_begin d /\ d' = d))|].
  intros tx d' [-> ->]. eapply follows_bind.
  { apply (follows_stage _ _ _ (fun r d' => mu_step u cursor (db_begin d) = Ok r /\ d' = d)). done. }
  intros [[progress|] tx] d' [Es ->]; [|apply follows_ret; by eexists _, _].
  destruct (step_moves _ _ _ _ _ Hok Hm Es) as [Est Hm'].
  eapply follows_bind.
  { apply (follows_stage _ _ _ (fun r d' => dt_start r.2 = db_seq d
      /\ dt_writes r.2 = dt_writes tx ++ [marker_write u (sp_cursor progress)] /\ d' = d)).
    intros a tx' [E1 E2]%stage_writes_tx. cbn. split_and!; congruence. }
  intros [n tx'] d' (E1 & E2 & ->). cbn in E1, E2.
  eapply follows_bind.
  { apply (follows_commit _ _ _ (fun _ d' => moving d' u (sp_cursor progress))); [done|rewrite E2..];
      [by eapply adv_step|done]. }
  intros [] d' Hd'. eapply follows_bind; [by apply (follows_seam _ _ _ (fun _ d' => moving d' u (sp_cursor progress)))|].
  intros [] d'' Hd''. by apply IH.
Qed.

(** A unit, started or resumed. *)
Definition entered (d : D) (u : MigrationUnit (DbTransaction S)) (resume : option bytes) : Prop :=
  match resume with
  | Some cursor => moving d u cursor
  | None => resting d (mu_from_format u) /\ unit_from units (mu_from_format u) = Some u
  end.

Lemma follows_unit fuel d u resume :
  entered d u resume ->
  follows d (run_unit hazards version fuel u resume) (fun _ d' => resting d' (mu_to_format u)).
Proof.
  intros He. unfold run_unit. apply (follows_bind _ _ _ (fun cursor d' => moving d' u cursor)).
  - destruct resume as [cursor|]; [by apply follows_ret|]. destruct He as [Hr Hu].
    eapply follows_bind; [by eapply follows_start|]. intros [] d' Hm.
    eapply follows_bind; [by apply (follows_seam _ _ _ (fun _ d' => moving d' u []))|].
    intros [] d'' Hm'. by apply follows_ret.
  - intros cursor d' Hm. eapply follows_bind; [by apply follows_loop|]. intros [] d1 Hw.
    eapply follows_bind; [by apply (follows_seam _ _ _ (fun _ d' => walked d' u))|]. intros [] d2 Hw2.
    eapply follows_bind; [by apply follows_finish|]. intros [] d3 Hr. by apply follows_seam.
Qed.

(** The units that carry format [v] as far as the registry goes. *)
Inductive chain : N -> list (MigrationUnit (DbTransaction S)) -> Prop :=
| chain_nil v : unit_from units v = None -> chain v []
| chain_cons v u l : unit_from units v = Some u -> chain (mu_to_format u) l -> chain v (u :: l).

Definition at_end (d : D) (v : N) : Prop := resting d v /\ unit_from units v = None.

Lemma follows_units fuel l : forall d v names,
  chain v l -> resting d v ->
  follows d (run_units hazards version fuel l None v names) (fun r d' => at_end d' r.1).
Proof.
  induction l as [|u l IH]; intros d v names Hc Hr; inversion Hc as [? Hn|? ? ? Hu Hl]; subst; cbn [run_units].
  - by apply follows_ret.
  - eapply follows_bind.
    + apply follows_unit. cbn. by destruct (unit_from_elem _ _ Hu) as [_ ->].
    + intros [] d' Hr'. by apply IH.
Qed.

(** *** Planning *)

(** An ascending registry has no chain longer than the units past its start. *)
Lemma chain_loop_ends fuel : forall v,
  (length (filter (fun u => (v <= mu_from_format u)%N) units) <= fuel)%nat ->
  exists l, chain_loop fuel units v = Some l /\ chain v l.
Proof.
  induction fuel as [|fuel IH]; intros v Hlen; cbn [chain_loop];
    (destruct (unit_from units v) as [u|] eqn:Eu; [|by exists []; split; [|constructor]]);
    destruct (unit_from_elem _ _ Eu) as [Hu Ev];
    assert (Hin : u ∈ filter (fun u => v <= mu_from_format u) units) by (apply list_elem_of_filter; split; [lia|done]).
  - apply Nat.le_0_r, nil_length_inv in Hlen. rewrite Hlen in Hin. by apply elem_of_nil in Hin.
  - destruct (IH (mu_to_format u)) as (l & El & Hl).
    + pose proof (proj1 (Forall_forall _ _) (ro_ascending _ Hok) u Hu) as Hup. cbn in Hup.
      enough (length (filter (fun w => (mu_to_format u <= mu_from_format w)%N) units)
        < length (filter (fun w => (v <= mu_from_format w)%N) units))%nat by lia.
      apply (filter_fewer _ _ u); [done|lia|lia|intros w; lia].
    + exists (u :: l). rewrite El. split; [done|by econstructor].
Qed.

Lemma chain_from_ends v : exists l, chain_from units v = Some l /\ chain v l.
Proof. apply chain_loop_ends, length_filter. Qed.

(** A store in order is planned for; the plan enters its first unit and goes to the
    end of the registry. *)
Definition planned (d : D) (v : N) (p : Plan (DbTransaction S)) : Prop :=
  match pl_units p, pl_resume p with
  | l, None => chain v l /\ resting d v
  | u :: l, Some cursor => moving d u cursor /\ chain (mu_to_format u) l
  | [], Some _ => False
  end.

Lemma plan_ok d fm marker :
  sound d -> run (db_state d) read_format = Ok (Some fm) -> run (db_state d) read_migration = Ok marker ->
  exists p, plan units (fm_format_version fm) marker = Some (Ok p) /\ planned d (fm_format_version fm) p.
Proof.
  intros Hs Ef Em. destruct Hs as [(v & fm' & Ef' & <- & Em')|(u & c & Hm)].
  - rewrite Ef in Ef'. injection Ef' as <-. rewrite Em in Em'. injection Em' as ->.
    destruct (chain_from_ends (fm_format_version fm)) as (l & El & Hl).
    exists (mkPlan l None). cbn [plan]. rewrite El. split; [done|].
    assert (resting d (fm_format_version fm)) by by exists fm. unfold planned. by destruct l.
  - pose proof Hm as (Hu & fm' & Ef' & Ev & Em').
    rewrite Ef in Ef'. injection Ef' as <-. rewrite Em in Em'. injection Em' as ->. cbn [plan mig_from_format mig_to_format].
    rewrite Ev, N.eqb_refl. cbn [negb].
    rewrite (find_unit u) by (apply Hok || done). destruct (chain_from_ends (mu_to_format u)) as (l & El & Hl).
    rewrite El. by eexists.
Qed.

Lemma sound_format d : sound d -> exists fm marker,
  run (db_state d) read_format = Ok (Some fm) /\ run (db_state d) read_migration = Ok marker.
Proof. intros [(v & fm & Ef & _ & Em)|(u & c & _ & fm & Ef & _ & Em)]; by eexists _, _. Qed.

Lemma follows_migrate fuel d :
  sound d -> follows d (migrate hazards version fuel units) (fun rep d' => at_end d' (mr_to_format rep)).
Proof.
  intros Hs. destruct (sound_format d Hs) as (fm & marker & Ef & Em).
  destruct (plan_ok d fm marker Hs Ef Em) as ([l resume] & Ep & Hp). unfold migrate.
  eapply follows_bind; [apply (follows_read _ _ (fun r d' => r = Some fm /\ d' = d)); intros a E; rewrite Ef in E; by injection E as <-|].
  intros f d1 [-> ->].
  eapply follows_bind; [apply (follows_lift _ _ (fun r d' => r = fm /\ d' = d)); by intros a [= <-]|].
  intros f d1 [-> ->].
  eapply follows_bind; [apply (follows_read _ _ (fun r d' => r = marker /\ d' = d)); intros a E; rewrite Em in E; by injection E as <-|].
  intros f d1 [-> ->].
  eapply follows_bind.
  { apply (follows_lift _ _ (fun r d' => r = mkPlan l resume /\ d' = d)). intros a E.
    change (plan units (fm_format_version fm) marker = Some (Ok a)) in E. rewrite Ep in E. by injection E as <-. }
  intros f d1 [-> ->]. cbn [pl_units pl_resume].
  apply (follows_bind _ _ _ (fun r d' => at_end d' r.1)); [|intros [v names] d' He; by apply follows_ret].
  unfold planned in Hp. cbn [pl_units pl_resume] in Hp. destruct resume as [cursor|].
  - destruct l as [|u l]; [done|]. destruct Hp as [Hm Hc]. cbn [run_units].
    eapply follows_bind; [by apply follows_unit|]. intros [] d' Hr. by apply follows_units.
  - apply follows_units; by destruct l, Hp.
Qed.
End Path.

(** ** A calm run goes the whole path *)

Section Calm.
  Context {D S : Type} `{DL : DatabaseLaws D S} `{KL : !KVLaws S, SKL : StorekeyLaws, MSL : MessagesLaws}.
  Context (units : list (MigrationUnit (DbTransaction S))) (version : string) (Hok : registry_ok units).

Lemma calm_commit (d : D) (tx : DbTransaction S) t :
  dt_start tx = db_seq d ->
  dr_commit calm_seas tx (d, t) = (Some (Ok tt), (db_apply d (dt_writes tx), Datatypes.S t)).
Proof. intros E. unfold dr_commit, commit_durable. cbn [fst]. by rewrite (begun_no_conflict d tx E). Qed.

(** A batch of the driver's own writes over a transaction begun now. *)
Lemma calm_batch (d : D) ws (tx : DbTransaction S) t :
  dt_start tx = db_seq d ->
  ('(_, tx) ← dr_stage (stage_writes ws 0) tx; dr_commit calm_seas tx) (d, t)
  = (Some (Ok tt), (db_apply d (dt_writes tx ++ ws), Datatypes.S t)).
Proof.
  intros E. unfold mbind, drive_mbind, dr_stage, dr_lift.
  destruct (stage_writes_applied ws 0 tx) as (n & tx' & E' & _). rewrite E'.
  destruct (stage_writes_tx _ _ _ _ _ E') as [E1 E2]. rewrite calm_commit by congruence. by rewrite E2.
Qed.

Lemma calm_start (d : D) u t :
  start calm_seas u (d, t) = (Some (Ok tt), (db_apply d [marker_write u []], Datatypes.S t)).
Proof. unfold start. etrans; [|by apply (calm_batch d [marker_write u []] (db_begin d) t)]. done. Qed.

Lemma calm_finish (d : D) u t :
  finish calm_seas version u (d, t) = (Some (Ok tt), (db_apply d (finish_writes version u), Datatypes.S t)).
Proof. unfold finish. etrans; [|by apply (calm_batch d (finish_writes version u) (db_begin d) t)]. done. Qed.

Lemma calm_done fuel (d : D) u cursor tx t :
  mu_step u cursor (db_begin d) = Ok (None, tx) ->
  step_loop calm_seas (Datatypes.S fuel) u cursor (d, t) = (Some (Ok tt), (d, t)).
Proof.
  intros E. cbn [step_loop]. unfold mbind, drive_mbind, dr_begin, dr_stage, dr_lift. cbn [fst].
  by rewrite E.
Qed.

Lemma calm_step fuel (d : D) u cursor progress tx t :
  moving units d u cursor -> mu_step u cursor (db_begin d) = Ok (Some progress, tx) ->
  step_loop calm_seas (Datatypes.S fuel) u cursor (d, t)
  = step_loop calm_seas fuel u (sp_cursor progress)
      (db_apply d (dt_writes tx ++ [marker_write u (sp_cursor progress)]), Datatypes.S t).
Proof.
  intros Hm E. destruct (step_moves _ _ _ _ _ _ Hok Hm E) as [Est _].
  cbn [step_loop]. unfold mbind at 1 2, drive_mbind at 1 2, dr_begin, dr_stage at 1, dr_lift at 1. cbn [fst].
  rewrite E. pose proof (calm_batch d [marker_write u (sp_cursor progress)] tx t Est) as Hb.
  unfold mbind, drive_mbind, dr_stage, dr_lift, stage_marker, crash_seam in Hb |- *.
  destruct (stage_writes _ 0 tx) as [[n tx']|e]; [|discriminate Hb]. by rewrite Hb.
Qed.

#[local] Abbreviation path := (nsteps (advances_to units version)).

(** The first batch of a path is the one the state calls for. *)
Lemma path_first n (d d1 d3 : D) v :
  advances_to units version d d1 -> at_end units d3 v -> path n d d3 -> exists k, n = Datatypes.S k /\ path k d1 d3.
Proof.
  intros Ha [Hr Hn] Hp. destruct Hp as [d|k d d2 d3 Ha' Hp]; [by destruct (rest_stuck _ _ _ _ _ Hr Hn Ha)|].
  exists k. by rewrite (advances_det _ _ _ _ _ (ro_distinct _ Hok) Ha Ha').
Qed.

Lemma loop_completes u (d3 : D) v n : forall d cursor t,
  path n d d3 -> at_end units d3 v -> moving units d u cursor ->
  exists fuel d' t' k, (k <= n)%nat /\ path k d' d3 /\ walked units d' u
    /\ forall fuel', (fuel <= fuel')%nat ->
         step_loop calm_seas fuel' u cursor (d, t) = (Some (Ok tt), (d', t')).
Proof.
  induction n as [|n IH]; intros d cursor t Hp He Hm; inversion Hp as [|? ? d1 ? Ha Hp']; subst.
  { destruct He as [Hr _]. by destruct (resting_moving _ _ _ _ _ Hr Hm). }
  inversion Ha as [v' u' Hr Hu|u' c p tx Hm' Es|u' c tx Hm' Es]; subst.
  - by destruct (resting_moving _ _ _ _ _ Hr Hm).
  - destruct (moving_eq _ _ _ _ _ _ (ro_distinct _ Hok) Hm Hm') as [<- <-].
    destruct (step_moves _ _ _ _ _ _ Hok Hm Es) as [_ Hm1].
    destruct (IH _ _ (Datatypes.S t) Hp' He Hm1) as (fuel & d' & t' & k & Hk & Hpk & Hw & Hl).
    exists (Datatypes.S fuel), d', t', k. split_and!; [lia|done|done|].
    intros [|fuel'] Hf; [lia|]. rewrite (calm_step _ _ _ _ _ _ _ Hm Es). apply Hl. lia.
  - destruct (moving_eq _ _ _ _ _ _ (ro_distinct _ Hok) Hm Hm') as [<- <-].
    exists 1%nat, d, t, (Datatypes.S n). split_and!; [done|done|by eexists _, _|].
    intros [|fuel'] Hf; [lia|]. by eapply calm_done.
Qed.

Lemma unit_completes u (d3 : D) v n d resume t :
  path n d d3 -> at_end units d3 v -> entered units d u resume ->
  exists fuel d' t' k, (k < n)%nat /\ path k d' d3 /\ resting d' (mu_to_format u)
    /\ forall fuel', (fuel <= fuel')%nat ->
         run_unit calm_seas version fuel' u resume (d, t) = (Some (Ok tt), (d', t')).
Proof.
  intros Hp He Hent.
  assert (exists d0 t0 n0 cursor, (n0 <= n)%nat /\ path n0 d0 d3 /\ moving units d0 u cursor
    /\ (match resume with
        | Some cursor => mret cursor
        | None => _ ← start calm_seas u; _ ← crash_seam calm_seas AfterStart; mret []
        end : Drive bytes) (d, t) = (Some (Ok cursor), (d0, t0))) as (d0 & t0 & n0 & cursor & Hn0 & Hp0 & Hm0 & E0).
  { destruct resume as [cursor|]; [by exists d, t, n, cursor|]. destruct Hent as [Hr Hu].
    destruct (path_first _ _ _ _ _ (adv_start units version _ _ _ Hr Hu) He Hp) as (k & -> & Hk).
    exists (db_apply d [marker_write u []]), (Datatypes.S t), k, []. split_and!; [lia|done|by eapply start_moves|].
    unfold mbind, drive_mbind. by rewrite calm_start. }
  destruct (loop_completes u d3 v n0 d0 cursor t0 Hp0 He Hm0) as (fuel & d1 & t1 & k & Hk & Hpk & Hw & Hl).
  destruct Hw as (c1 & tx & Hm1 & Es).
  destruct (path_first _ _ _ _ _ (adv_finish units version _ _ _ _ Hm1 Es) He Hpk) as (k' & -> & Hk').
  exists fuel, (db_apply d1 (finish_writes version u)), (Datatypes.S t1), k'.
  split_and!; [lia|done|by eapply finish_rests|]. intros fuel' Hf. unfold run_unit.
  unfold mbind at 1, drive_mbind at 1. rewrite E0. unfold mbind, drive_mbind.
  rewrite (Hl fuel' Hf). cbn. by rewrite calm_finish.
Qed.

Lemma units_complete l (d3 : D) v3 : forall n d v names t,
  path n d d3 -> at_end units d3 v3 -> chain units v l -> resting d v ->
  exists fuel, forall fuel', (fuel <= fuel')%nat -> exists names' t',
    run_units calm_seas version fuel' l None v names (d, t) = (Some (Ok (v3, names')), (d3, t')).
Proof.
  induction l as [|u l IH]; intros n d v names t Hp He Hc Hr;
    inversion Hc as [? Hn|? ? ? Hu Hl]; subst.
  - exists 0%nat. intros fuel' _. exists names, t. cbn.
    destruct Hp as [d|n d d1 d3 Ha _]; [|by destruct (rest_stuck _ _ _ _ _ Hr Hn Ha)].
    destruct He as [Hr3 _]. by rewrite (resting_eq _ _ _ Hr Hr3).
  - destruct (unit_completes u d3 v3 n d None t Hp He) as (fuel & d1 & t1 & k & _ & Hk & Hr1 & Hrun).
    { cbn. by destruct (unit_from_elem _ _ _ Hu) as [_ ->]. }
    destruct (IH k d1 _ (names ++ [mu_name u]) t1 Hk He Hl Hr1) as [fuel2 Hrest].
    exists (Nat.max fuel fuel2). intros fuel' Hf. cbn [run_units]. unfold mbind at 1, drive_mbind at 1.
    rewrite Hrun by lia. apply Hrest. lia.
Qed.

Lemma migrate_completes (d d3 : D) v3 t :
  sound units d -> rtc (advances_to units version) d d3 -> at_end units d3 v3 ->
  exists fuel rep t', migrate calm_seas version fuel units (d, t) = (Some (Ok rep), (d3, t'))
    /\ mr_to_format rep = v3.
Proof.
  intros Hs [n Hp]%rtc_nsteps He. destruct (sound_format _ d Hs) as (fm & marker & Ef & Em).
  destruct (plan_ok units Hok d fm marker Hs Ef Em) as ([l resume] & Ep & Hpl).
  assert (exists fuel names t', run_units calm_seas version fuel l resume (fm_format_version fm) [] (d, t)
    = (Some (Ok (v3, names)), (d3, t'))) as (fuel & names & t' & Hrun).
  { unfold planned in Hpl. cbn [pl_units pl_resume] in Hpl. destruct resume as [cursor|].
    - destruct l as [|u l]; [done|]. destruct Hpl as [Hm Hc].
      destruct (unit_completes u d3 v3 n d (Some cursor) t Hp He Hm) as (fuel & d1 & t1 & k & _ & Hk & Hr1 & Hrun).
      destruct (units_complete l d3 v3 k d1 _ ([] ++ [mu_name u]) t1 Hk He Hc Hr1) as [fuel2 Hrest].
      destruct (Hrest (Nat.max fuel fuel2) ltac:(lia)) as (names & t' & E).
      exists (Nat.max fuel fuel2), names, t'. cbn [run_units]. unfold mbind at 1, drive_mbind at 1.
      by rewrite Hrun by lia.
    - destruct (units_complete l d3 v3 n d (fm_format_version fm) [] t Hp He) as [fuel Hrest]; [by destruct l, Hpl..|].
      destruct (Hrest fuel ltac:(lia)) as (names & t' & E). by exists fuel, names, t'. }
  exists fuel, (mkMigrationReport (fm_format_version fm) v3 names (bool_decide (is_Some resume))), t'.
  split; [|done]. unfold migrate, mbind, drive_mbind, dr_read, dr_lift. cbn [fst].
  rewrite !run_begin, Ef. cbn [ok_or]. rewrite Em.
  change (registry units) with units. rewrite Ep. cbn [pl_units pl_resume]. by rewrite Hrun.
Qed.
End Calm.

(** ** Properties *)

Section Meeting.
  Context {D S : Type} `{DL : DatabaseLaws D S} `{KL : !KVLaws S, SKL : StorekeyLaws, MSL : MessagesLaws}.
  Context (units : list (MigrationUnit (DbTransaction S))) (version : string) (Hok : registry_ok units).

Lemma path_sound (d d' : D) : sound units d -> rtc (advances_to units version) d d' -> sound units d'.
Proof. intros Hs Hp. induction Hp as [|d d1 d' Ha _ IH]; [done|]. by eapply IH, advances_sound. Qed.

(** Two paths from one state lie on each other: a path to the end runs through any state
    the other reached. *)
Lemma path_meets (d d' d3 : D) v :
  rtc (advances_to units version) d d' -> rtc (advances_to units version) d d3 -> at_end units d3 v ->
  rtc (advances_to units version) d' d3.
Proof.
  intros Hp Hp3 [Hr Hn]. induction Hp as [|d d1 d' Ha _ IH]; [done|]. apply IH.
  inversion Hp3 as [|? d2 ? Ha' Hp']; subst; [by destruct (rest_stuck _ _ _ _ _ Hr Hn Ha)|].
  by rewrite (advances_det _ _ _ _ _ (ro_distinct _ Hok) Ha Ha').
Qed.
End Meeting.

Lemma marker_refuses {S} `{KVLaws S, SKL : StorekeyLaws, MSL : MessagesLaws} (s : S) m :
  run s read_migration = Ok (Some m) ->
  run s validate_format = Err Migration /\ forall at_, run s (materialize true at_) = Err Migration.
Proof.
  intros Hm. assert (Hr : run s refuse_mid_migration = Err Migration).
  { unfold refuse_mid_migration. by rewrite (run_bind_Ok _ _ _ _ Hm). }
  split; [unfold validate_format; by rewrite (run_bind_Ok _ _ _ _ Hm)|].
  intros [target|]; cbn [materialize materialize_capturing consistent].
  - unfold materialize_at. by apply run_bind_Err.
  - apply run_bind_Err. cbn [consistent]. unfold capture_head. by apply run_bind_Err.
Qed.

(** C6: a migration survives any interruption.  Whatever writes fail, landed or not, and
    wherever the process dies, each run leaves the store either at rest at a stamped
    format or refused to every reader, with a marker its registry can resume from; a run
    that reports success leaves it at rest at the format it names, the last the registry
    goes to.  And if an uninterrupted run comes to an end, then from whatever an
    interrupted one left a further run comes to an end too, at the very same store. *)
Theorem migration_resumes_exactly {D S} `{DL : DatabaseLaws D S}
    `{KL : !KVLaws S, SKL : StorekeyLaws, MSL : MessagesLaws} (version : string)
    (installed : list (MigrationUnit (DbTransaction S))) (hazards : Hazards) (fuel : nat) (d d' : D)
    (out : option (result MigrationReport)) (t : nat) :
  registry_ok installed -> sound installed d ->
  migrate hazards version fuel installed (d, 0%nat) = (out, (d', t)) ->
  ((exists v, resting d' v)
   \/ (exists u cursor, moving installed d' u cursor) /\ run (db_state d') validate_format = Err Migration
      /\ forall at_, run (db_state d') (materialize true at_) = Err Migration)
  /\ (forall rep, out = Some (Ok rep) ->
        resting d' (mr_to_format rep) /\ unit_from installed (mr_to_format rep) = None)
  /\ (forall fuel0 rep d3 t3,
        migrate calm_seas version fuel0 installed (d, 0%nat) = (Some (Ok rep), (d3, t3)) ->
        exists fuel' rep' t', migrate calm_seas version fuel' installed (d', 0%nat) = (Some (Ok rep'), (d3, t'))
          /\ mr_to_format rep' = mr_to_format rep).
Proof.
  intros Hok Hs E. destruct (follows_migrate installed version Hok hazards fuel d Hs 0%nat) as [Hp Hend].
  rewrite E in Hp, Hend. cbn in Hp, Hend.
  assert (Hs' : sound installed d') by by eapply path_sound.
  split_and!.
  - destruct Hs' as [Hr|(u & c & Hm)]; [by left|right]. split; [by eexists _, _|].
    destruct Hm as (_ & fm & _ & _ & Hmig). by eapply marker_refuses.
  - exact Hend.
  - intros fuel0 rep d3 t3 E3.
    destruct (follows_migrate installed version Hok calm_seas fuel0 d Hs 0%nat) as [Hp3 Hend3].
    rewrite E3 in Hp3, Hend3. cbn in Hp3, Hend3. specialize (Hend3 rep eq_refl).
    apply (migrate_completes installed version Hok); [done| |done].
    by eapply path_meets.
Qed.

(** ** Witness: the synthetic chain, crashed in its walk *)

Lemma stages_writes {S} `{KVLaws S} (P : StagedWrite -> Prop) ws n :
  Forall P ws -> stages (S := S) P (stage_writes ws n).
Proof.
  intros Hw s a s' E. destruct (stage_writes_applied ws n s) as (m & s1 & E' & Ha).
  rewrite E in E'. injection E' as _ <-. by exists ws.
Qed.

Lemma synthetic_registry_ok {S} `{KVLaws S, SKL : StorekeyLaws, MSL : MessagesLaws} :
  registry_ok (S := S) REWRITE_THEN_LINK.
Proof.
  assert (Hoff : forall e v, off_sys (Key_encode (Key_current e), v)).
  { intros e v. split; cbn [fst]; unfold Key_encode; cbn [Key_variant Key_current];
      rewrite !write_variant_bytes by lia; discriminate. }
  split.
  - by repeat constructor.
  - cbn. repeat constructor; set_solver.
  - repeat constructor; cbn [mu_step MOVE_SCOPE SECOND_LINK]; intros cursor; [|apply stages_ret].
    apply stages_bind; [apply stages_read|intros start]. apply stages_bind; [apply stages_read|].
    intros [[scope_id value]|]; [|apply stages_ret].
    apply stages_bind; [|intros; apply stages_ret]. apply stages_writes.
    apply Forall_cons; split; [apply Hoff|]. apply Forall_cons; split; [apply Hoff|constructor].
Qed.

#[local] Existing Instances reference_storekey reference_storekey_laws reference_messages
  reference_messages_laws.

(** A fresh catalog with the options of two schemas. *)
Definition option_at (kind id : N) : StagedWrite :=
  (Key_encode (Key_current (EK_Option kind id)),
   Some (encode_value (mkOptionScopeValue {["a"%string := "b"%string]}))).
Definition scoped_db : LogDb := db_apply db0 [option_at SOURCE_SCOPE 3; option_at SOURCE_SCOPE 5].
(** The second write is the first step's: it lands, is reported as failed, and the
    process dies. *)
Definition storm : Hazards :=
  mkHazards (fun n => match n with 1%nat => Failed Store true | _ => NoFault end) (fun _ _ => None).
Definition run_out (v : option (result MigrationReport) * (LogDb * nat)) : LogDb := v.2.1.

Lemma migration_resumes_exactly_witness :
  let units := REWRITE_THEN_LINK (T := DbTransaction (gmap bytes bytes)) in
  let crashed := run_out (migrate storm "v" 5 units (scoped_db, 0%nat)) in
  let whole := run_out (migrate calm_seas "v" 5 units (scoped_db, 0%nat)) in
  (exists fuel rep t, migrate calm_seas "v" fuel units (crashed, 0%nat) = (Some (Ok rep), (whole, t))
     /\ mr_to_format rep = 5)
  /\ run (db_state crashed) validate_format = Err Migration.
Proof.
  set (out := migrate storm "v" 5 (REWRITE_THEN_LINK (T := DbTransaction (gmap bytes bytes))) (scoped_db, 0%nat)).
  assert (Hs : sound (S := gmap bytes bytes) REWRITE_THEN_LINK scoped_db).
  { left. exists FORMAT_VERSION, (mkFormatValue FORMAT_VERSION "v").
    split_and!; vm_compute; reflexivity. }
  pose proof (migration_resumes_exactly "v" REWRITE_THEN_LINK storm 5 scoped_db (run_out out) out.1 out.2.2
    synthetic_registry_ok Hs ltac:(vm_compute; reflexivity)) as (Hd & _ & Hr).
  split.
  - set (calm := migrate calm_seas "v" 5 (REWRITE_THEN_LINK (T := DbTransaction (gmap bytes bytes))) (scoped_db, 0%nat)).
    exact (Hr 5%nat (mkMigrationReport 1 5 ["move-option-scope"%string; "second-link"%string] false)
      (run_out calm) calm.2.2 ltac:(vm_compute; reflexivity)).
  - destruct Hd as [(v & fm & _ & _ & E)|(_ & E & _)]; [|exact E]. vm_compute in E. discriminate E.
Defined.
