(* ===== verification/Opening.v ===== *)
(** Opening a store ([transaction/commit.rs]: [open_initialized], [open_attempt],
    [open_reader_initialized]): a fresh store is bootstrapped in one batch under
    conflict detection, a lost race re-validates, a fenced genesis is attempted again.
    Whatever other openers do meanwhile, a catalog is created once. *)
From stdpp Require Import gmap strings list fin_maps sorting relations.
From Stdlib Require Import NArith ZArith Lia.
From S2P Require Import Prelude Storekey KeyLayout Values Snapshot Catalog Store Inline Fold Materialize IndexMaintenance Projection Landing Verbs Commit Cycle.

Local Open Scope N_scope.

Definition GENESIS_ATTEMPTS : nat := 3.

(** [OpenFailure]. *)
Inductive OpenFailure : Type := FencedAtGenesis (e : Error) | Fatal (e : Error).

(** What one attempt meets: whether the writer opens at all, the clock and the uuid it
    draws, the batches others land before it begins and between its beginning and its
    write, and how the write fares. *)
Record OpenTurn : Type := mkOpenTurn {
  ot_refused : option Error;
  ot_now : Z;
  ot_uuid : string;
  ot_before : list (list StagedWrite);
  ot_between : list (list StagedWrite);
  ot_fault : WriteFault;
}.

Section Opening.
  Context {D S : Type} `{DB : Database D S} `{SK : Storekey, MS : Messages}.
  Context (version : string) (encrypted : bool) (data_path : option string).

(** The batch [open_attempt] stages. *)
Definition genesis (turn : OpenTurn) : list StagedWrite :=
  stage_bootstrap (ot_now turn) (ot_uuid turn) version encrypted data_path.

(** [open_attempt]. *)
Definition open_attempt (turn : OpenTurn) (d : D) : (unit + OpenFailure) * D :=
  let d := db_applies d (ot_before turn) in
  match ot_refused turn with
  | Some e => (inr (Fatal e), d)
  | None =>
      let tx := db_begin d in
      match run tx validate_format with
      | Ok (Some _) => (inl tt, d)
      | Err e => (inr (Fatal e), d)
      | Ok None =>
          let tx := kv_apply tx (genesis turn) in
          let d := db_applies d (ot_between turn) in
          match commit_durable (ot_fault turn) tx d with
          | (Some (Ok _), d) => (inl tt, d)
          | (None, d) =>
              match run (db_begin d) validate_format with
              | Ok (Some _) => (inl tt, d)
              | Ok None => (inr (Fatal Corruption), d)
              | Err e => (inr (Fatal e), d)
              end
          | (Some (Err Fenced), d) => (inr (FencedAtGenesis Fenced), d)
          | (Some (Err e), d) => (inr (Fatal e), d)
          end
      end
  end.

(** [open_initialized]: the loop, with [more] attempts after this one. *)
Fixpoint open_loop (more : nat) (turns : nat -> OpenTurn) (d : D) : result unit * D :=
  match open_attempt (turns 0%nat) d with
  | (inl _, d) => (Ok tt, d)
  | (inr (Fatal e), d) => (Err e, d)
  | (inr (FencedAtGenesis e), d) =>
      match more with
      | O => (Err e, d)
      | Datatypes.S more => open_loop more (fun n => turns (Datatypes.S n)) d
      end
  end.
Definition open_initialized (turns : nat -> OpenTurn) (d : D) : result unit * D :=
  open_loop (pred GENESIS_ATTEMPTS) turns d.
End Opening.

(** [open_reader_initialized]: never bootstraps. *)
Definition open_reader_initialized `{SK : Storekey, MS : Messages} : Reader unit :=
  format ← validate_format;
  match format with Some _ => mret tt | None => lift (Err Corruption) end.

(** ** One birth *)

(** A store nothing was ever written to, and one the format gate lets in. *)
Definition blank {S} `{KV S} (s : S) : Prop := forall k, kv_get s k = None.
Definition ready {S} `{KV S, Storekey, Messages} (s : S) : Prop :=
  exists fm, run s validate_format = Ok (Some fm).

(** A batch that may land: the birth of a catalog on a blank store, or a batch on a
    ready store that leaves it ready. *)
Definition rightful {S} `{KV S, Storekey, Messages} (s : S) (ws : list StagedWrite) : Prop :=
  (blank s /\ exists now uuid version encrypted path, ws = stage_bootstrap now uuid version encrypted path)
  \/ (ready s /\ ready (kv_apply s ws)).

(** Batches that land one after another, each rightful where it lands. *)
Fixpoint rightful_log {S} `{KV S, Storekey, Messages} (s : S) (log : list (list StagedWrite)) : Prop :=
  match log with
  | [] => True
  | ws :: log => rightful s ws /\ rightful_log (kv_apply s ws) log
  end.

(** Others behave: what they land around each attempt that is made is rightful. *)
Fixpoint peers_fair {D S} `{DB : Database D S, SK : Storekey, MS : Messages} (version : string)
    (encrypted : bool) (data_path : option string) (more : nat) (turns : nat -> OpenTurn) (d : D) : Prop :=
  let turn := turns 0%nat in
  rightful_log (db_state d) (ot_before turn)
  /\ rightful_log (db_state (db_applies d (ot_before turn))) (ot_between turn)
  /\ match open_attempt version encrypted data_path turn d, more with
     | (inr (FencedAtGenesis _), d'), Datatypes.S more =>
         peers_fair version encrypted data_path more (fun n => turns (Datatypes.S n)) d'
     | _, _ => True
     end.

Section Birth.
  Context {D S : Type} `{DL : DatabaseLaws D S} `{KL : !KVLaws S, SKL : StorekeyLaws, MSL : MessagesLaws}.

#[export] Instance blank_proper : Proper ((≡@{S}) ==> iff) blank.
Proof. intros s s' E. unfold blank. split; intros Hb k; [rewrite <-(E k)|rewrite (E k)]; apply Hb. Qed.
#[export] Instance ready_proper : Proper ((≡@{S}) ==> iff) ready.
Proof. intros s s' E. unfold ready. by setoid_rewrite E. Qed.
#[export] Instance rightful_proper : Proper ((≡@{S}) ==> eq ==> iff) rightful.
Proof. intros s s' E ws _ <-. unfold rightful. by rewrite E. Qed.
#[export] Instance rightful_log_proper : Proper ((≡@{S}) ==> eq ==> iff) rightful_log.
Proof.
  intros s s' E log _ <-. revert s s' E. induction log as [|ws log IH]; intros s s' E; cbn; [done|].
  by rewrite (rightful_proper s s' E ws ws eq_refl), (IH _ _ (kv_apply_proper s s' E ws ws eq_refl)).
Qed.

Lemma blank_gate (s : S) : blank s -> run s validate_format = Ok None.
Proof.
  intros Hb. unfold validate_format.
  rewrite (run_bind_Ok _ read_migration s None) by (by apply run_singleton_none, Hb).
  rewrite (run_bind_Ok _ (lift _) s tt) by done.
  by rewrite (run_bind_Ok _ read_format s None) by (by apply run_singleton_none, Hb).
Qed.

Lemma blank_not_ready (s : S) : blank s -> ~ ready s.
Proof. intros Hb [fm E]. rewrite blank_gate in E by done. discriminate. Qed.

Lemma born_ready (s : S) now uuid version encrypted path :
  blank s -> ready (kv_apply s (stage_bootstrap now uuid version encrypted path)).
Proof.
  intros Hb. exists (mkFormatValue FORMAT_VERSION version). unfold validate_format.
  rewrite (run_bind_Ok _ _ _ _ (bootstrap_migration now uuid version encrypted path s Hb)).
  rewrite (run_bind_Ok _ (lift _) _ tt) by done.
  by rewrite (run_bind_Ok _ _ _ _ (bootstrap_format now uuid version encrypted path s Hb)).
Qed.

Lemma applies_app (d : D) l l' : db_applies d (l ++ l') = db_applies (db_applies d l) l'.
Proof. apply foldl_app. Qed.

Lemma rightful_log_app (d : D) l l' :
  rightful_log (db_state d) l -> rightful_log (db_state (db_applies d l)) l' -> rightful_log (db_state d) (l ++ l').
Proof.
  revert d. induction l as [|ws l IH]; intros d; cbn; [done|]. intros [Hr Hl] Hl'. split; [done|].
  rewrite <-(db_state_apply d ws) in Hl |- *. by apply IH.
Qed.

(** A store is blank until its birth and ready from then on. *)
Lemma log_settled (d : D) l :
  blank (db_state d) \/ ready (db_state d) -> rightful_log (db_state d) l ->
  (l = [] /\ blank (db_state d)) \/ ready (db_state (db_applies d l)).
Proof.
  revert d. induction l as [|ws l IH]; intros d Hs; cbn; [by destruct Hs; [left|right]|].
  intros [Hr Hl]. right. rewrite <-(db_state_apply d ws) in Hl.
  assert (Hn : ready (db_state (db_apply d ws))).
  { rewrite (db_state_apply d ws). destruct Hr as [(Hb & now & uuid & version & enc & path & ->)|[_ Hr]]; [|done].
    by apply born_ready. }
  destruct (IH (db_apply d ws)) as [[-> _]|]; [by right|done..].
Qed.

(** A key written since [n] stays written. *)
Lemma written_kept l : forall (d : D) n k,
  (n <= db_seq d)%nat -> db_written d n k = true -> db_written (db_applies d l) n k = true.
Proof.
  induction l as [|ws l IH]; intros d n k Hn Hw; cbn; [done|]. apply IH.
  - rewrite db_seq_apply. lia.
  - by rewrite db_written_apply, Hw by done.
Qed.

Lemma genesis_format now uuid version encrypted path : exists v,
  (Key_encode (K_Sys SK_Format), v) ∈ stage_bootstrap now uuid version encrypted path.
Proof. eexists. unfold stage_bootstrap. by left. Qed.

(** A genesis begun on a blank store where another landed since is refused. *)
Lemma genesis_conflicts (d : D) ws l g :
  blank (db_state d) -> rightful (db_state d) ws ->
  (exists v, (Key_encode (K_Sys SK_Format), v) ∈ g) ->
  db_conflict (db_applies d (ws :: l)) (kv_apply (db_begin d) g) = true.
Proof.
  intros Hb [(_ & now & uuid & version & enc & path & ->)|[Hr _]] [v Hv]; [|by destruct (blank_not_ready _ Hb)].
  apply existsb_exists. exists (Key_encode (K_Sys SK_Format), v). cbn [kv_apply tx_kv dt_writes db_begin app dt_start fst].
  split; [by apply list_elem_of_In|]. cbn. apply written_kept; [rewrite db_seq_apply; lia|].
  rewrite db_written_apply by done. apply orb_true_iff. right. apply bool_decide_eq_true.
  destruct (genesis_format now uuid version enc path) as [v' Hv']. by eapply last_write_is_Some.
Qed.

Context (version : string) (encrypted : bool) (data_path : option string).

(** What an attempt wrote, [before] having landed: nothing, or a catalog of its own on a
    blank store, which it reports unless the write failed though it landed. *)
Definition own_birth (turn : OpenTurn) (d : D) (before own : list (list StagedWrite)) (reported : Prop) : Prop :=
  own = [] \/ own = [genesis version encrypted data_path turn] /\ blank (db_state (db_applies d before))
    /\ (reported /\ ot_fault turn = NoFault \/ exists e, ot_fault turn = Failed e true).

Lemma birth_rightful turn (d : D) before :
  rightful_log (db_state d) before -> blank (db_state (db_applies d before)) ->
  rightful_log (db_state d) (before ++ [genesis version encrypted data_path turn]).
Proof. intros Hl Hb. apply rightful_log_app; [done|]. split; [|done]. left. split; [done|]. by eexists _, _, _, _, _. Qed.

(** How an attempt got the store from [d] to [d']. *)
Definition attempt_left (turn : OpenTurn) (d : D) (out : unit + OpenFailure) (d' : D) : Prop :=
  exists peers own, rightful_log (db_state d) (peers ++ own)
    /\ Forall (fun ws => ws ∈ ot_before turn ++ ot_between turn) peers
    /\ d' = db_applies d (peers ++ own) /\ own_birth turn d peers own (out = inl tt)
    /\ (out = inl tt -> ready (db_state d')).

Lemma left_peers turn (d : D) out peers :
  rightful_log (db_state d) peers -> Forall (fun ws => ws ∈ ot_before turn ++ ot_between turn) peers ->
  (out = inl tt -> ready (db_state (db_applies d peers))) -> attempt_left turn d out (db_applies d peers).
Proof. intros Hl Hin Hr. exists peers, []. rewrite app_nil_r. split_and!; try done. by left. Qed.

Lemma left_born turn (d : D) out peers :
  rightful_log (db_state d) peers -> Forall (fun ws => ws ∈ ot_before turn ++ ot_between turn) peers ->
  blank (db_state (db_applies d peers)) ->
  (out = inl tt /\ ot_fault turn = NoFault \/ exists e, ot_fault turn = Failed e true) ->
  attempt_left turn d out (db_apply (db_applies d peers) (genesis version encrypted data_path turn)).
Proof.
  intros Hl Hin Hb Hf. exists peers, [genesis version encrypted data_path turn].
  split_and!; [by apply birth_rightful|done|by rewrite applies_app|by right|].
  intros _. rewrite db_state_apply. by apply born_ready.
Qed.

Lemma attempt_opens turn (d : D) out d' :
  blank (db_state d) \/ ready (db_state d) ->
  rightful_log (db_state d) (ot_before turn) ->
  rightful_log (db_state (db_applies d (ot_before turn))) (ot_between turn) ->
  open_attempt version encrypted data_path turn d = (out, d') -> attempt_left turn d out d'.
Proof.
  intros Hs Hbef Hbtw E. unfold open_attempt in E.
  set (d1 := db_applies d (ot_before turn)) in *.
  assert (Hd1 : blank (db_state d1) \/ ready (db_state d1)).
  { destruct (log_settled d _ Hs Hbef) as [[E0 Hb]|]; [|by right]. left. unfold d1. by rewrite E0. }
  assert (Hsub : Forall (fun ws => ws ∈ ot_before turn ++ ot_between turn) (ot_before turn))
    by (apply Forall_forall; intros; apply elem_of_app; by left).
  destruct (ot_refused turn) as [e|]; [injection E as <- <-; by apply left_peers|].
  rewrite run_begin in E. destruct Hd1 as [Hb|Hr].
  2: { destruct Hr as [fm Hr]. rewrite Hr in E. injection E as <- <-. apply left_peers; [done..|]. by exists fm. }
  rewrite (blank_gate _ Hb) in E. unfold commit_durable in E.
  destruct (ot_between turn) as [|ws l] eqn:El.
  - cbn [db_applies foldl] in E. rewrite begun_no_conflict in E by done.
    rewrite <-El in Hsub. destruct (ot_fault turn) as [|e []] eqn:Ef.
    + injection E as <- <-. apply left_born; auto.
    + assert (Ed : d' = db_apply d1 (genesis version encrypted data_path turn))
        by (destruct e; by injection E as _ <-).
      rewrite Ed. apply left_born; eauto.
    + destruct e; injection E as <- <-; by apply left_peers.
  - cbn in Hbtw. rewrite genesis_conflicts in E; [|done|apply Hbtw|apply genesis_format].
    rewrite run_begin in E. destruct (log_settled d1 (ws :: l)) as [[? _]|[fm Hr]]; [by left|done|done|].
    rewrite Hr in E. injection E as <- <-.
    change (db_applies (db_apply d1 ws) l) with (db_applies d1 (ws :: l)). unfold d1.
    rewrite <-applies_app. apply left_peers.
    + by apply rightful_log_app.
    + apply Forall_forall. by rewrite El.
    + intros _. rewrite applies_app. by exists fm.
Qed.

(** An attempt nothing is done to succeeds. *)
Lemma attempt_succeeds turn (d : D) :
  blank (db_state d) \/ ready (db_state d) ->
  rightful_log (db_state d) (ot_before turn) ->
  rightful_log (db_state (db_applies d (ot_before turn))) (ot_between turn) ->
  ot_refused turn = None -> ot_fault turn = NoFault ->
  (open_attempt version encrypted data_path turn d).1 = inl tt.
Proof.
  intros Hs Hbef Hbtw Hr Hf. unfold open_attempt. rewrite Hr, run_begin.
  destruct (log_settled d _ Hs Hbef) as [[E0 Hb]|[fm E]]; [|by rewrite E].
  assert (Hb1 : blank (db_state (db_applies d (ot_before turn)))) by by rewrite E0.
  rewrite (blank_gate _ Hb1). unfold commit_durable.
  destruct (ot_between turn) as [|ws l].
  - cbn [db_applies foldl]. by rewrite begun_no_conflict, Hf by done.
  - pose proof Hbtw as [Hw _]. rewrite genesis_conflicts; [|done|done|apply genesis_format].
    rewrite run_begin. destruct (log_settled _ (ws :: l) (or_introl Hb1) Hbtw) as [[? _]|[fm E]]; [done|].
    by rewrite E.
Qed.

(** A store once ready is never blank again. *)
Lemma ready_stays (d : D) l :
  ready (db_state d) -> rightful_log (db_state d) l -> ~ blank (db_state (db_applies d l)).
Proof.
  intros Hr Hl Hb. destruct (log_settled d l (or_intror Hr) Hl) as [[_ Hb']|Hr'];
    [by eapply blank_not_ready|by eapply blank_not_ready].
Qed.

Lemma rightful_log_split (d : D) l l' :
  rightful_log (db_state d) (l ++ l') ->
  rightful_log (db_state d) l /\ rightful_log (db_state (db_applies d l)) l'.
Proof.
  revert d. induction l as [|ws l IH]; intros d; cbn; [done|]. intros [Hr Hl].
  rewrite <-(db_state_apply d ws) in Hl |- *. destruct (IH _ Hl). done.
Qed.

(** How the store got from [d] to [d']: others' batches, and around them at most one
    birth of this open's own. *)
Record opened (turns : nat -> OpenTurn) (attempts : nat) (d d' : D) (out : result unit)
    (before own after : list (list StagedWrite)) : Prop := {
  op_log : rightful_log (db_state d) (before ++ own ++ after);
  op_peers : Forall (fun ws => exists i, ws ∈ ot_before (turns i) ++ ot_between (turns i)) (before ++ after);
  op_end : d' = db_applies d (before ++ own ++ after);
  op_own : own = [] \/ exists n, (n < attempts)%nat
    /\ own_birth (turns n) d before own (out = Ok tt /\ after = []);
  op_ready : out = Ok tt -> ready (db_state d');
}.

Lemma opened_first turns d d' (o : unit + OpenFailure) out peers own attempts :
  rightful_log (db_state d) (peers ++ own) ->
  Forall (fun ws => ws ∈ ot_before (turns 0%nat) ++ ot_between (turns 0%nat)) peers ->
  d' = db_applies d (peers ++ own) -> own_birth (turns 0%nat) d peers own (o = inl tt) ->
  (o = inl tt <-> out = Ok tt) -> (o = inl tt -> ready (db_state d')) -> (0 < attempts)%nat ->
  opened turns attempts d d' out peers own [].
Proof.
  intros Hl Hin Hd Ho Hiff Hr Hn. split; rewrite ?app_nil_r; [done| |done| |by rewrite <-Hiff].
  - eapply Forall_impl; [exact Hin|]. by exists 0%nat.
  - destruct Ho as [|(E & Hb & Hf)]; [by left|right]. exists 0%nat. split; [done|]. right. split_and!; [done..|].
    rewrite <-Hiff. destruct Hf as [[]|]; [by left|by right].
Qed.

Lemma loop_opens more : forall turns (d : D) out d',
  blank (db_state d) \/ ready (db_state d) -> peers_fair version encrypted data_path more turns d ->
  open_loop version encrypted data_path more turns d = (out, d') ->
  exists before own after, opened turns (Datatypes.S more) d d' out before own after.
Proof.
  induction more as [|more IH]; intros turns d out d' Hs Hp E; cbn [open_loop peers_fair] in E, Hp;
    destruct Hp as (Hbef & Hbtw & Hrest);
    destruct (open_attempt version encrypted data_path (turns 0%nat) d) as [o d1] eqn:Ea;
    destruct (attempt_opens _ _ _ _ Hs Hbef Hbtw Ea) as (peers & own & Hl & Hin & Hd & Ho & Hrd).
  - exists peers, own, []. destruct o as [[]|[e|e]]; injection E as <- <-; eapply opened_first; (done || lia).
  - destruct o as [[]|[e|e]]; [| |].
    1,3: exists peers, own, []; injection E as <- <-; eapply opened_first; (done || lia).
    assert (Hs1 : blank (db_state d1) \/ ready (db_state d1)).
    { rewrite Hd. destruct (log_settled d _ Hs Hl) as [[-> Hb]|]; [by left|by right]. }
    destruct (IH (fun n => turns (Datatypes.S n)) _ _ _ Hs1 Hrest E) as (b2 & o2 & a2 & [Hl2 Hin2 Hd2 Ho2 Hr2]).
    assert (Hpeers : Forall (fun ws => exists i, ws ∈ ot_before (turns i) ++ ot_between (turns i)) (peers ++ b2 ++ a2)).
    { apply Forall_app. split; [eapply Forall_impl; [exact Hin|]; by exists 0%nat|].
      eapply Forall_impl; [exact Hin2|]. intros ws [i Hi]. by exists (Datatypes.S i). }
    subst d1. pose proof (rightful_log_app _ _ _ Hl Hl2) as Hall. rewrite <-applies_app in Hd2.
    destruct Ho as [->|(-> & Hb & Hf)].
    + rewrite app_nil_r in *. exists (peers ++ b2), o2, a2. split; rewrite <-?app_assoc; try done.
      destruct Ho2 as [|(n & Hn & Ho2)]; [by left|right]. exists (Datatypes.S n). split; [lia|].
      unfold own_birth in *. by rewrite applies_app.
    + assert (E2 : o2 = []).
      { destruct Ho2 as [|(n & _ & [|(_ & Hb2 & _)])]; [done|done|exfalso].
        destruct (rightful_log_split _ _ _ Hl2) as [Hl2' _]. revert Hb2. apply ready_stays; [|done].
        rewrite applies_app. cbn. rewrite db_state_apply. by apply born_ready. }
      subst o2. exists peers, [genesis version encrypted data_path (turns 0%nat)], (b2 ++ a2).
      rewrite <-app_assoc in Hall, Hd2. split; try done.
      right. exists 0%nat. split; [lia|]. right. split_and!; [done..|]. destruct Hf as [[]|]; [done|by right].
Qed.
End Birth.

(** ** Properties *)

(** C18: a catalog is created once.  On a store that is blank or already a catalog,
    whatever catalogs others create, whatever they commit around its at most three
    attempts and whichever of its writes fail, an open leaves the others' batches and at
    most one bootstrap batch of its own, which landed on a store still blank.  An open
    that succeeds leaves a catalog the format gate lets in and a read-only open accepts.
    An open that fails wrote nothing, except where the write that reported failure had
    landed.  A writer that is let in and whose write is not failed succeeds at once, and
    a read-only open of a blank store is refused. *)
Theorem open_initializes_once {D S} `{DL : DatabaseLaws D S}
    `{KL : !KVLaws S, SKL : StorekeyLaws, MSL : MessagesLaws} (version : string) (encrypted : bool)
    (data_path : option string) (turns : nat -> OpenTurn) (d d' : D) (out : result unit) :
  blank (db_state d) \/ ready (db_state d) ->
  peers_fair version encrypted data_path (pred GENESIS_ATTEMPTS) turns d ->
  open_initialized version encrypted data_path turns d = (out, d') ->
  (exists before own after,
     rightful_log (db_state d) (before ++ own ++ after)
     /\ Forall (fun ws => exists i, ws ∈ ot_before (turns i) ++ ot_between (turns i)) (before ++ after)
     /\ d' = db_applies d (before ++ own ++ after)
     /\ (own = []
         \/ exists n, (n < GENESIS_ATTEMPTS)%nat /\ own = [genesis version encrypted data_path (turns n)]
              /\ blank (db_state (db_applies d before))
              /\ ((out = Ok tt /\ after = []) /\ ot_fault (turns n) = NoFault
                  \/ exists e, ot_fault (turns n) = Failed e true)))
  /\ (out = Ok tt -> ready (db_state d') /\ run (db_state d') open_reader_initialized = Ok tt)
  /\ (ot_refused (turns 0%nat) = None -> ot_fault (turns 0%nat) = NoFault -> out = Ok tt)
  /\ (blank (db_state d) -> run (db_state d) open_reader_initialized = Err Corruption).
Proof.
  intros Hs Hp E.
  destruct (loop_opens _ _ _ _ _ _ _ _ Hs Hp E) as (before & own & after & [Hl Hin Hd Ho Hr]). split_and!.
  - exists before, own, after. split_and!; [done..|].
    destruct Ho as [|(n & Hn & [|(Eo & Hb & Hf)])]; [by left..|right]. by exists n.
  - intros Eo. destruct (Hr Eo) as [fm Hg]. split; [by exists fm|]. unfold open_reader_initialized.
    by rewrite (run_bind_Ok _ _ _ _ Hg).
  - intros Hrf Hn. destruct Hp as (Hbef & Hbtw & _). unfold open_initialized in E.
    change (pred GENESIS_ATTEMPTS) with 2%nat in E. cbn [open_loop] in E.
    pose proof (attempt_succeeds version encrypted data_path (turns 0%nat) d Hs Hbef Hbtw Hrf Hn) as Ho'.
    destruct (open_attempt _ _ _ _ d) as [o d1]. cbn in Ho'. subst o. by injection E as <- _.
  - intros Hb. unfold open_reader_initialized. by rewrite (run_bind_Ok _ _ _ _ (blank_gate _ Hb)).
Qed.

(** ** Witness: two openers race for a blank store *)

#[local] Existing Instances reference_storekey reference_storekey_laws reference_messages
  reference_messages_laws.

Definition blank_db : LogDb := mkLogDb ∅ [].
(** The first attempt is fenced; at the second, a rival's catalog lands before its own. *)
Definition race (n : nat) : OpenTurn :=
  match n with
  | O => mkOpenTurn None 0 "u" [] [] (Failed Fenced false)
  | _ => mkOpenTurn None 1 "w" [] [stage_bootstrap 7 "rival" "v" false None] NoFault
  end.

Lemma open_initializes_once_witness :
  let out := open_initialized (S := gmap bytes bytes) "v" false None race blank_db in
  out.1 = Ok tt /\ ready (db_state out.2) /\ run (db_state out.2) open_reader_initialized = Ok tt.
Proof.
  set (out := open_initialized (S := gmap bytes bytes) "v" false None race blank_db).
  assert (Hb : blank (db_state blank_db)) by (intros k; reflexivity).
  assert (Hrival : rightful (db_state blank_db) (stage_bootstrap 7 "rival" "v" false None))
    by (left; split; [done|by eexists _, _, _, _, _]).
  assert (Hp : peers_fair (S := gmap bytes bytes) "v" false None (pred GENESIS_ATTEMPTS) race blank_db).
  { assert (E0 : open_attempt (S := gmap bytes bytes) "v" false None (race 0) blank_db
      = (inr (FencedAtGenesis Fenced), blank_db)) by (vm_compute; reflexivity).
    assert (E1 : (open_attempt (S := gmap bytes bytes) "v" false None (race 1) blank_db).1 = inl tt)
      by (vm_compute; reflexivity).
    change (pred GENESIS_ATTEMPTS) with 2%nat. cbn [peers_fair]. rewrite E0.
    destruct (open_attempt "v" false None (race 1) blank_db) as [o d1]. cbn in E1. subst o.
    by split_and!. }
  destruct (open_initializes_once "v" false None race blank_db out.2 out.1 (or_introl Hb) Hp) as (_ & Ho & _).
  { apply surjective_pairing. }
  assert (E : out.1 = Ok tt) by (vm_compute; reflexivity). split; [done|by apply Ho].
Defined.
